(* ===== verification/_CoqProject ===== *)
-Q . S2P
Prelude.v
Net.v
Packet.v
Config.v
Channel.v
Metrics.v
Routing.v
Router.v
Route.v
Codec.v
Utf8.v
Auth.v
Session.v
Udp.v
AddrText.v
Uri.v
Dns.v
Events.v
RouterLoop.v
Orch.v
Actor.v
Engine.v
Dispatcher.v
Handshake.v
Bind.v
Bare.v
Dial.v
Scrape.v
Fixture.v
FixtureLoop.v
Api.v
Tun.v
MemoryTun.v
UdpLoop.v
Tunnel.v
Query.v
Pipeline.v
Live.v
Runtime.v
Start.v
Supervise.v
Store.v
Testing.v
RouterTests.v
HelpersTests.v
SessionTests.v
RouteTests.v
BindTests.v
DnsTests.v
UdpTests.v
BareTests.v
TunTests.v
ConfigTests.v
OrchTests.v
ActorTests.v
ApiTests.v
H3Tests.v
