(* ===== verification/Prelude.v ===== *)
(** * Verification of h3llo

    h3llo is a layer 3 VPN daemon.  IP packets read from a TUN device are routed by
    longest prefix to a peer and sent to it either as plain UDP datagrams (BareUDP) or
    in HTTP/3 DATAGRAM frames of a CONNECT-IP stream (RFC 9484); packets received from
    peers are routed to the TUN device or to another peer.  The program is a set of
    actors on one bus: TUN reader and writer, router, UDP sockets, one HTTP/3 engine
    per connection, the HTTP/3 dispatcher of incoming connections, the DNS resolver, the
    synchronizer of the host's routes, the management API, and the orchestrator that
    owns the peers and reacts to what the others report.

    This library models that program on Linux, component by component, as executable
    definitions, and proves what the components promise each other.  Source files are
    named by their path, [src/src/router.rs] being the repository's [src/router.rs].

    ** Representation

    Bytes, integers of a fixed width and durations (in nanoseconds) are [Z], with
    saturation, wrap-around and checked arithmetic written out; a Rust string is the
    list of its characters ([rstr]).  Code that can panic returns [outcome], code that
    can fail [result].  Actor loops are step functions on the branch [select!] takes,
    so that every interleaving is a sequence of inputs; the clock, the answers of the
    operating system and the choices of hash maps are inputs too.  A [HashMap] is a
    [gmap], a sender is the identity of its channel.

    Third-party crates are classes with the operations the code uses, with a second
    class for the laws their documentation states, stated for the cases the code meets
    (the three URL schemes it uses, the networks of kernel routes, the active path quiche
    sends on); every class has a concrete instance
    that satisfies them, with which the models are evaluated: [ipnet] and [ipnet_trie]
    ([IpNetLib], [TrieLib]), tokio's channels and limits ([Mpsc], [TokioLib]),
    [route_manager] ([RouteLib], [RouteHandle]), [octets] and [buffer_pool] ([VarintLib],
    [BufLib], [BufAppend]), HMAC-SHA256 ([HmacLib]), quiche ([QuicLib], [H3Setup],
    [QuicServer]), the socket ([UdpSocket]), [url] ([UrlLib]), hickory_proto
    ([DnsWire]), libc's interface names ([IfNames]), tun_rs ([TunDevice]), hyper,
    serde_yaml and prometheus-client behind the management API ([ApiLib]), and the
    datagram flows of tokio-quiche ([FlowLib]).

    ** Files

    - [Prelude]: outcomes, integers, strings, slices; [Net]: addresses, prefixes, the
      trie; [Utf8] and [AddrText]: the parts of the standard library the code uses on
      header values and on addresses.
    - [Packet], [Routing], [Router], [RouterLoop] ([src/src/router.rs]): the TTL decrement
      with its incremental checksum, the routing table, the two batch handlers and the
      actor's loop.
    - [Config] and [Uri] ([src/src/config.rs]): configuration types, defaults, wire format,
      validation, endpoint URIs.
    - [Channel] ([src/src/helpers.rs]), [Metrics] and [Scrape] ([src/src/metrics.rs]): sends
      with backpressure, the counters, and what is made of them: the log lines and the
      calls of the Prometheus collector.
    - [Route] ([src/src/route.rs]): synchronization of the host's routes.
    - [Codec], [Session] ([src/src/h3session.rs]), [Auth] ([src/src/auth.rs]): datagram framing
      and buffers, the CONNECT-IP session, authentication.
    - [Engine] ([src/src/h3engine.rs]), [Handshake] and [Dispatcher] ([src/src/h3listener.rs],
      [src/src/h3dialer.rs]): the established loop, both handshakes, the routing of
      packets by connection id.
    - [Udp], [UdpLoop] ([src/src/udp.rs]), [Tun], [MemoryTun] ([src/src/tun.rs]), [Bare]
      ([src/src/bare.rs]), [Bind] ([src/src/bind.rs]): segmentation and the socket actors,
      the TUN device and the one in memory, the BareUDP transport, interface selection
      and socket creation.
    - [Tunnel]: the path of a packet from one host's TUN device to another's, through the
      actors of both.
    - [Dns] and [Query] ([src/src/dns.rs]): the resolver actor, and one exchange.
    - [Events] ([src/src/events.rs]), [Actor], [Runtime], [Pipeline] and [Live]
      ([src/src/actor.rs] and the spawn functions): the messages, the supervision bus, its
      runtimes and threads, the groups of linked actors, and the fair executions of the
      bus.
    - [Orch] ([src/src/orch.rs]), [Dial] ([src/src/orch.rs], [src/src/h3dialer.rs]), [Api]
      ([src/src/api.rs]), [Start] ([src/src/orch.rs], [src/src/main.rs], [src/src/lib.rs]),
      [Supervise], [Store]: the orchestrator, its dial tasks, the management API, startup,
      the bus, the orchestrator and the actors of startup together, and the store of peers
      the orchestrator implements.
    - [Fixture] and [FixtureLoop] ([src/src/test_support/tokio_quiche_h3.rs]): the second
      CONNECT-IP stack, on tokio-quiche, that the interoperability tests run against.
    - [Testing] and the files ending in [Tests]: the repository's unit tests, one boolean
      per test under its name in the source, evaluated on the definitions above.  They
      show that the models do what the tests expect of the code.

    Operations keep the names of the functions they model; a name with the prefix or
    suffix of its component ([routing_make], [tun_send_batch], [bare_rx_step]) stands for
    a method or for the body of a spawned loop.

    Specifications are stated without the helpers of the code they specify: [config_valid]
    lists every checked field, [posted] gives the merged peers id by id, [exported] lists
    the samples of a scrape, [answers] says what answers a DNS query.

    ** Theorems

    - Packets.  The incremental checksum equals the recomputed one and nothing else of a
      packet changes ([Packet]); batched forwarding equals routing every packet on its
      own by longest prefix, with exact accounting ([Router], [Routing]); conflicting
      prefixes are errors.  What is framed into a DATAGRAM is what the peer strips out
      of it, and nothing else is accepted ([Codec], [Engine]); the engine loses nothing
      across its two pending slots.  The TUN reader forwards every packet, and the TUN
      writer hands every packet that fits to the device, by [send] or, with offload, by
      [send_multiple], whose coalescing is tun_rs's.  The UDP sender splits a batch into uniform segments within the size limits and drains
      its queue when stopped, the receiver forwards every datagram ([Tun], [Udp],
      [UdpLoop]), the BareUDP filter passes exactly the accepted sources ([Bare]).  All of
      it together carries packets from one host's TUN device to the calls on the other's,
      byte for byte, whatever DATAGRAMs QUIC loses or reorders ([Tunnel]).
    - Security.  A connection is accepted only for a request that carries a peer's token
      ([Handshake], [Auth], [Session]); a dial succeeds only over a connection with the
      configured certificate verification and a 200 response ([Dial]); the interface a
      socket is bound to is never the TUN interface, though without another one it stays
      unbound ([Bind]); a DNS exchange accepts only its own answer ([Query]).
    - Interoperability.  The fixture's server accepts only authenticated requests, each
      end of the fixture completes the handshake with the other end of the program, and
      they read each other's datagrams ([Fixture], [FixtureLoop]).
    - Control plane.  In every reachable state the router, the BareUDP filter, the
      dispatcher, the resolver and the route actor have what the orchestrator's peers
      require, and the peers are valid ([Orch]); configuration updates are atomic, over
      the API too ([Api]), and the requests of a whole run are answered as by a store of
      peers that only they change ([Store]); DNS snapshots reach the owner while its inbox is open
      ([Dns]); every dial settles, its handshake within the deadline, and is retried after its backoff ([Dial], [Orch]); route
      synchronization removes only its own routes and converges ([Route]).
    - Supervision and startup.  Linked actors are told to stop under every interleaving
      ([Actor], [Pipeline]); in every fair execution a linked group ends as a whole once
      one of it has ended ([Live]), and the end of an actor of startup ends the program
      with an error naming it ([Supervise]); dropping the bus ends and joins its threads
      ([Runtime]); a metrics scrape has every counter once, and no two of its series
      collide ([Scrape]); startup panics
      for no valid configuration within tokio's capacity limit and succeeds exactly when
      its steps do ([Start]); validation accepts exactly the valid configurations
      ([Config]), and endpoints survive being written out and read again ([Uri]).

    ** Bounds and fuel

    Loops that are not structural take a fuel, and each is proved to end within the
    fuel its caller gives: [Router.ingress_loop] the length of the batch, since an
    iteration consumes a packet; [Engine.ingress_loop] and [send_loop] one more than the
    datagrams quiche holds and the packets it can still send, by [QuicLaws]; [send_batch]
    the number of packets; [chunks_fuel] the length of the buffer; [udp_tx_drain] one more
    than the queued batches; [fraction_digits] the nine digits of a duration's fraction.
    Functions on lists of inputs, such as [establish_loop], return [None] while the code
    still waits, and the theorems give the inputs after which it does not.

    Liveness is stated for infinite executions: a sequence of states of the bus with the
    operation taken at each point.  The assumptions are weak fairness of what tokio and
    the event loop run (the bus is driven, a monitor that can run runs, a mailbox that
    is polled is polled again) and, of an actor, that it returns after [Stop].

    ** Not modelled

    - The diagnostics of [tracing], other than the metrics lines and the warnings of the
      route synchronization, the interface selection and the validation; and the [Debug]
      implementations.
    - Signals, and which worker thread of a runtime polls a task: the properties hold for
      every order of steps.
    - YAML and HTTP syntax, TLS and QUIC, DNS message encoding, the Prometheus text
      format: the libraries' work, behind the classes above.
    - The parts compiled for other platforms than Linux.
    - The tests that parse YAML, that use sockets, files or threads of the host, or that
      check how long something takes. *)

From stdpp Require Export base tactics list gmap strings sorting pretty.
From Stdlib Require Export ZArith Lia.


#[local] Open Scope Z_scope.

(** ** Outcomes of Rust code

    [outcome A] is the result of evaluating an expression that can panic
    (slice indexing, checked arithmetic, [expect]); [result A E] is Rust's
    [Result]. *)

Inductive outcome (A : Type) : Type :=
| Ret (a : A)
| Panic.
Arguments Ret {A} a.
Arguments Panic {A}.

#[export] Instance outcome_ret : MRet outcome := @Ret.
#[export] Instance outcome_bind : MBind outcome := fun A B f m =>
  match m with Ret a => f a | Panic => Panic end.

Inductive result (A E : Type) : Type :=
| Ok (a : A)
| Err (e : E).
Arguments Ok {A E} a.
Arguments Err {A E} e.

Definition is_ok {A E} (r : result A E) : bool :=
  match r with Ok _ => true | Err _ => false end.

(** ** Machine integers

    Unsigned machine integers are [Z] values; the width is written out where
    an operation depends on it. *)

Definition u8_max : Z := 2 ^ 8 - 1.
Definition u16_max : Z := 2 ^ 16 - 1.
Definition u32_max : Z := 2 ^ 32 - 1.
Definition u64_max : Z := 2 ^ 64 - 1.

(** [x + y] of a type with maximum [m]; an overflow panics. *)
Definition checked_add (m x y : Z) : outcome Z :=
  if decide (x + y <= m) then Ret (x + y) else Panic.

(** [x - y] of an unsigned type; an underflow panics. *)
Definition checked_sub (x y : Z) : outcome Z :=
  if decide (y <= x) then Ret (x - y) else Panic.

(** [x.saturating_add(y)] and [x.saturating_mul(y)] of a type with maximum [m]. *)
Definition saturating_add (m x y : Z) : Z := Z.min m (x + y).
Definition saturating_mul (m x y : Z) : Z := Z.min m (x * y).

(** [x as u16]. *)
Definition as_u16 (x : Z) : Z := x mod 2 ^ 16.

Definition is_byte (b : Z) : Prop := 0 <= b <= 255.

(** [u16::from_be_bytes] and [u16::to_be_bytes]. *)
Definition u16_from_be_bytes (hi lo : Z) : Z := Z.lor (Z.shiftl hi 8) lo.
Definition u16_to_be_bytes (x : Z) : list Z := [Z.shiftr x 8; Z.land x 255].

(** A big-endian number of any width, most significant byte first. *)
Definition be_bytes (bs : list Z) : Z := foldl (fun acc b => acc * 256 + b) 0 bs.

(** ** Durations and instants

    A [Duration] is a number of nanoseconds, an [Instant] a point on the
    monotonic clock in nanoseconds. *)

Definition duration_max : Z := u64_max * 1000000000 + 999999999.
Definition from_secs (s : Z) : Z := s * 1000000000.
Definition from_millis (ms : Z) : Z := ms * 1000000.

(** ** Rust strings

    A [str] is its sequence of Unicode scalar values, so that [len] (bytes of
    the UTF-8 encoding) and [trim] (Unicode white space) are the library's. *)

Abbreviation rstr := (list Z).

Fixpoint lit (s : string) : rstr :=
  match s with
  | EmptyString => []
  | String a s' => Z.of_N (Ascii.N_of_ascii a) :: lit s'
  end.

Definition char_len (c : Z) : Z :=
  if decide (c < 128) then 1
  else if decide (c < 2048) then 2
  else if decide (c < 65536) then 3 else 4.

Definition str_len (s : rstr) : Z := foldr (fun c n => char_len c + n) 0 s.

(** [char::is_whitespace]: the Unicode property White_Space. *)
Definition is_whitespace (c : Z) : bool :=
  bool_decide (9 <= c <= 13) || (c =? 32) || (c =? 133) || (c =? 160) ||
  (c =? 5760) || bool_decide (8192 <= c <= 8202) || (c =? 8232) || (c =? 8233) ||
  (c =? 8239) || (c =? 8287) || (c =? 12288).

Fixpoint drop_while {A} (f : A -> bool) (l : list A) : list A :=
  match l with
  | [] => []
  | x :: l' => if f x then drop_while f l' else l
  end.

Definition trim_start_matches (f : Z -> bool) (s : rstr) : rstr := drop_while f s.
Definition trim_end_matches (f : Z -> bool) (s : rstr) : rstr :=
  reverse (drop_while f (reverse s)).
Definition trim (s : rstr) : rstr :=
  trim_end_matches is_whitespace (trim_start_matches is_whitespace s).

(** [s.strip_prefix(p)] and [s.strip_suffix(p)]. *)
Fixpoint strip_prefix (p s : rstr) : option rstr :=
  match p, s with
  | [], _ => Some s
  | _ :: _, [] => None
  | a :: p', b :: s' => if decide (a = b) then strip_prefix p' s' else None
  end.

Definition strip_suffix (p s : rstr) : option rstr :=
  reverse <$> strip_prefix (reverse p) (reverse s).

(** [n.to_string()] of an integer, and [{:?}] of a [Duration]: the largest unit
    that gives a non-zero integer part, then the fraction without trailing zeros. *)
Definition dec (n : Z) : rstr := lit (pretty n).

Fixpoint fraction_digits (fuel : nat) (frac divisor : Z) : rstr :=
  match fuel with
  | O => []
  | S fuel' =>
    if decide (frac <= 0) then [] else
    (48 + frac / divisor) :: fraction_digits fuel' (frac mod divisor) (divisor / 10)
  end.

Definition fmt_decimal (integer frac divisor : Z) : rstr :=
  dec integer ++
  (if decide (frac = 0) then [] else lit "." ++ fraction_digits 9 frac divisor).

Definition debug_duration (d : Z) : rstr :=
  let secs := d / 1000000000 in
  let nanos := d mod 1000000000 in
  if decide (0 < secs) then fmt_decimal secs nanos 100000000 ++ lit "s"
  else if decide (1000000 <= nanos) then
    fmt_decimal (nanos / 1000000) (nanos mod 1000000) 100000 ++ lit "ms"
  else if decide (1000 <= nanos) then
    fmt_decimal (nanos / 1000) (nanos mod 1000) 100 ++ 181 :: lit "s"
  else fmt_decimal nanos 0 1 ++ lit "ns".

(** ** Slices *)

(** [s[i]]: panics out of range. *)
Definition index {A} (s : list A) (i : nat) : outcome A :=
  match s !! i with Some a => Ret a | None => Panic end.

(** [s[i] = v]: panics out of range. *)
Definition index_set {A} (s : list A) (i : nat) (v : A) : outcome (list A) :=
  if decide (i < length s)%nat then Ret (<[i:=v]> s) else Panic.

(** [&s[i..j]]: panics when the range is out of bounds. *)
Definition slice {A} (s : list A) (i j : nat) : outcome (list A) :=
  if decide (i <= j /\ j <= length s)%nat then Ret (take (j - i) (drop i s)) else Panic.

Definition zlen {A} (l : list A) : Z := Z.of_nat (length l).

(** ** Automation *)

Create HintDb h3 discriminated.
Create Rewrite HintDb h3.

(** Splits every boolean test of the goal and of the hypotheses. *)
Ltac case_ifs :=
  repeat match goal with
  | |- context [if ?b then _ else _] => destruct b eqn:?
  | H : context [if ?b then _ else _] |- _ => destruct b eqn:?
  end.

(** Turns boolean tests on [Z] and [nat] in the hypotheses into propositions. *)
Ltac bool_to_prop :=
  repeat match goal with
  | H : (_ && _) = true |- _ => apply andb_true_iff in H; destruct H
  | H : (_ || _) = false |- _ => apply orb_false_iff in H; destruct H
  | H : negb _ = true |- _ => apply negb_true_iff in H
  | H : negb _ = false |- _ => apply negb_false_iff in H
  | H : (_ =? _) = true |- _ => apply Z.eqb_eq in H
  | H : (_ =? _) = false |- _ => apply Z.eqb_neq in H
  | H : (_ <? _) = true |- _ => apply Z.ltb_lt in H
  | H : (_ <? _) = false |- _ => apply Z.ltb_ge in H
  | H : (_ <=? _) = true |- _ => apply Z.leb_le in H
  | H : (_ <=? _) = false |- _ => apply Z.leb_gt in H
  | H : bool_decide _ = true |- _ => apply bool_decide_eq_true in H
  | H : bool_decide _ = false |- _ => apply bool_decide_eq_false in H
  end.

(** ** Shared lemmas *)

Section lists.
Context {A : Type}.
Implicit Types (l : list A) (i : nat).

Lemma index_Ret l i a : l !! i = Some a -> index l i = Ret a.
Proof. unfold index. by intros ->. Qed.

Lemma index_in_range l i : (i < length l)%nat -> exists a, l !! i = Some a /\ index l i = Ret a.
Proof.
  intros [a Ha]%lookup_lt_is_Some. exists a. split; [done | by apply index_Ret].
Qed.

Lemma index_set_Ret l i a : (i < length l)%nat -> index_set l i a = Ret (<[i:=a]> l).
Proof. intros H. unfold index_set. by rewrite decide_True. Qed.

Lemma slice_Ret l i j :
  (i <= j)%nat -> (j <= length l)%nat -> slice l i j = Ret (take (j - i) (drop i l)).
Proof. intros ??. unfold slice. by rewrite decide_True. Qed.

Lemma zlen_nonneg l : 0 <= zlen l.
Proof. unfold zlen. lia. Qed.

Lemma zlen_app l1 l2 : zlen (l1 ++ l2) = zlen l1 + zlen l2.
Proof. unfold zlen. rewrite length_app. lia. Qed.

Lemma zlen_cons (a : A) l : zlen (a :: l) = 1 + zlen l.
Proof. unfold zlen. cbn [length]. lia. Qed.
End lists.

(** Values without duplicates determine their elements. *)
Lemma NoDup_fmap_elem {A B} (f : A -> B) (l : list A) x y : NoDup (f <$> l) -> x ∈ l -> y ∈ l -> f x = f y -> x = y.
Proof.
  intros Hnd [i Hi]%list_elem_of_lookup [j Hj]%list_elem_of_lookup Heq.
  assert (i = j) as ->; [| congruence]. eapply (NoDup_lookup (f <$> l)); [done | |]; rewrite list_lookup_fmap.
  - by rewrite Hi.
  - by rewrite Hj, Heq.
Qed.

Lemma filter_all {A} (P : A -> Prop) `{forall x, Decision (P x)} (l : list A) : Forall P l -> filter P l = l.
Proof. induction 1 as [| x l Hx _ IH]; [done |]. by rewrite filter_cons, decide_True, IH. Qed.

Lemma omap_length {A B} (f : A -> option B) (l : list A) : (length (omap f l) <= length l)%nat.
Proof. induction l as [| x l IH]; [done |]. cbn. destruct (f x); cbn; lia. Qed.

#[export] Hint Rewrite @zlen_app @zlen_cons : h3.
#[export] Hint Resolve zlen_nonneg : h3.

Section strings.
Lemma strip_prefix_Some p s t : strip_prefix p s = Some t <-> s = p ++ t.
Proof.
  revert s. induction p as [| a p IH]; intros [| b s]; cbn; try naive_solver.
  case_decide as Hd; [rewrite IH |]; naive_solver.
Qed.

Lemma strip_prefix_app p s : strip_prefix p (p ++ s) = Some s.
Proof. by apply strip_prefix_Some. Qed.

Lemma strip_suffix_Some p s t : strip_suffix p s = Some t <-> s = t ++ p.
Proof.
  unfold strip_suffix. rewrite fmap_Some. setoid_rewrite strip_prefix_Some. split.
  - intros (r & Hs & ->). apply (f_equal reverse) in Hs. by rewrite reverse_app, !reverse_involutive in Hs.
  - intros ->. exists (reverse t). by rewrite reverse_app, reverse_involutive.
Qed.

Lemma strip_suffix_app p s : strip_suffix p (s ++ p) = Some s.
Proof. by apply strip_suffix_Some. Qed.

Lemma lit_inj (s1 s2 : string) : lit s1 = lit s2 -> s1 = s2.
Proof.
  revert s2. induction s1 as [| a s1 IH]; intros [| b s2]; cbn; try done. intros [= Ha Hs].
  f_equal; [| by apply IH]. apply N2Z.inj in Ha.
  by rewrite <- (Ascii.ascii_N_embedding a), <- (Ascii.ascii_N_embedding b), Ha.
Qed.

Lemma dec_inj (m n : Z) : dec m = dec n -> m = n.
Proof. intros H%lit_inj. by apply (inj pretty). Qed.

(** Numbers are written with the ten digits. *)
Lemma pretty_go_digits (x : N) (s : string) :
  Forall (fun c => 48 <= c <= 57) (lit s) -> Forall (fun c => 48 <= c <= 57) (lit (pretty_N_go x s)).
Proof.
  revert s. induction (N.lt_wf_0 x) as [x _ IH]. intros s Hs.
  destruct (decide (0 < x)%N) as [Hx | Hx].
  - rewrite pretty_N_go_step by done. apply IH; [by apply N.div_lt |]. cbn [lit]. constructor; [| done].
    unfold pretty_N_char. repeat case_match; vm_compute; intuition discriminate.
  - replace x with 0%N by lia. by rewrite pretty_N_go_0.
Qed.

Lemma dec_digits p : 0 <= p -> Forall (fun c => 48 <= c <= 57) (dec p).
Proof.
  intros Hp. unfold dec. destruct p as [| p | p]; [by repeat constructor | | lia].
  apply (pretty_go_digits (N.pos p) ""). constructor.
Qed.
End strings.

Section ints.

Lemma saturating_add_le m x y : saturating_add m x y <= m.
Proof. unfold saturating_add. lia. Qed.

Lemma saturating_add_exact m x y : x + y <= m -> saturating_add m x y = x + y.
Proof. unfold saturating_add. lia. Qed.

Lemma saturating_add_mono m x y : 0 <= y -> x <= m -> x <= saturating_add m x y.
Proof. unfold saturating_add. lia. Qed.

Lemma is_byte_iff b : is_byte b <-> 0 <= b < 256.
Proof. unfold is_byte. lia. Qed.

Lemma shiftl8_lor hi lo : is_byte hi -> is_byte lo -> u16_from_be_bytes hi lo = hi * 256 + lo.
Proof.
  intros Hh Hl. unfold is_byte in *. unfold u16_from_be_bytes.
  pose proof (Z.add_lor_land (Z.shiftl hi 8) lo) as Hal.
  assert (Z.land (Z.shiftl hi 8) lo = 0) as Hz.
  { apply Z.bits_inj'. intros n Hn. rewrite Z.land_spec, Z.bits_0.
    destruct (decide (n < 8)).
    - by rewrite Z.shiftl_spec_low.
    - rewrite (Z.bits_above_log2 lo), andb_false_r; [done | lia |].
      destruct (decide (lo = 0)) as [-> | ]; [simpl; lia |].
      assert (Z.log2 lo < 8); [| lia]. apply Z.log2_lt_pow2; lia. }
  rewrite Z.shiftl_mul_pow2 in * by lia. lia.
Qed.

Lemma u16_to_be_bytes_split x :
  0 <= x <= u16_max ->
  exists hi lo, u16_to_be_bytes x = [hi; lo] /\ is_byte hi /\ is_byte lo /\ hi * 256 + lo = x.
Proof.
  unfold u16_max, is_byte. intros Hx. exists (Z.shiftr x 8), (Z.land x 255). split; [done |].
  rewrite Z.shiftr_div_pow2 by lia. change 255 with (Z.ones 8). rewrite Z.land_ones by lia.
  pose proof (Z.mod_pos_bound x 256). pose proof (Z.div_mod x 256).
  change (2 ^ 8) with 256 in *. change (2 ^ 16 - 1) with 65535 in *.
  change (Z.ones 8) with 255. split; [| split]; [| lia | lia].
  split; [apply Z.div_pos; lia |]. assert (x / 256 < 256); [| lia].
  apply Z.div_lt_upper_bound; lia.
Qed.
End ints.

#[export] Hint Resolve saturating_add_le saturating_add_mono : h3.
