(* ===== verification/Net.v ===== *)
(** * Addresses and prefixes

    [std::net] addresses, and the interfaces of the two crates the routing code
    is written against: [ipnet] (class [IpNetLib], laws [IpNetLaws]) and
    [ipnet_trie] (class [TrieLib], laws [TrieLaws]).  The laws state what the
    crates document; [CidrNet] and [MapTrie] are concrete implementations that
    satisfy them, used to evaluate the models on concrete inputs. *)

From S2P Require Import Prelude.
From stdpp Require Import countable proof_irrel.
#[local] Open Scope Z_scope.

(** ** std::net *)

(** [std::net::IpAddr]: the address as a 32- or 128-bit number. *)
Inductive IpAddr : Type :=
| V4 (a : Z)
| V6 (a : Z).

#[export] Instance IpAddr_eq_dec : EqDecision IpAddr.
Proof. solve_decision. Defined.

#[export] Instance IpAddr_countable : Countable IpAddr.
Proof.
  refine (inj_countable' (fun ip => match ip with V4 a => inl a | V6 a => inr a end)
            (fun s => match s with inl a => V4 a | inr a => V6 a end) _).
  by intros [].
Defined.

Definition ip_width (ip : IpAddr) : Z := match ip with V4 _ => 32 | V6 _ => 128 end.
Definition ip_bits (ip : IpAddr) : Z := match ip with V4 a | V6 a => a end.
Definition is_ipv4 (ip : IpAddr) : bool := match ip with V4 _ => true | V6 _ => false end.
Definition ip_with (ip : IpAddr) (a : Z) : IpAddr :=
  match ip with V4 _ => V4 a | V6 _ => V6 a end.

(** An address the program can hold: its number fits the family's width. *)
Definition ip_wf (ip : IpAddr) : Prop := 0 <= ip_bits ip < 2 ^ ip_width ip.

(** [IpAddr::is_loopback]: 127.0.0.0/8 and ::1. *)
Definition is_loopback (ip : IpAddr) : bool :=
  match ip with V4 a => Z.shiftr a 24 =? 127 | V6 a => a =? 1 end.

(** [Ipv6Addr::is_unicast_link_local] (fe80::/10), [Ipv6Addr::is_multicast] (ff00::/8). *)
Definition is_unicast_link_local (a : Z) : bool := Z.shiftr a 118 =? 1018.
Definition is_multicast (a : Z) : bool := Z.shiftr a 120 =? 255.

(** [std::net::SocketAddr]. *)
Record SocketAddr : Type := { sa_ip : IpAddr; sa_port : Z }.

#[export] Instance SocketAddr_eq_dec : EqDecision SocketAddr.
Proof. solve_decision. Defined.

#[export] Instance SocketAddr_countable : Countable SocketAddr.
Proof.
  refine (inj_countable' (fun s => (sa_ip s, sa_port s))
            (fun p => {| sa_ip := p.1; sa_port := p.2 |}) _).
  by intros [].
Defined.

(** The first [p] of [w] bits of an address, the others cleared. *)
Definition mask_bits (w p a : Z) : Z := a - a mod 2 ^ (w - p).
Definition mask_ip (p : Z) (ip : IpAddr) : IpAddr := ip_with ip (mask_bits (ip_width ip) p (ip_bits ip)).

(** ** The ipnet crate *)

Class IpNetLib : Type := {
  IpNet : Type;
  IpNet_eq_dec :: EqDecision IpNet;
  IpNet_countable :: Countable IpNet;
  ipnet_new : IpAddr -> Z -> option IpNet;       (* IpNet::new(ip, prefix_len).ok() *)
  ipnet_from : IpAddr -> IpNet;                  (* IpNet::from(ip): a host prefix *)
  ipnet_addr : IpNet -> IpAddr;
  prefix_len : IpNet -> Z;
  trunc : IpNet -> IpNet;
  network : IpNet -> IpAddr;
  broadcast : IpNet -> IpAddr;
  contains_addr : IpNet -> IpAddr -> bool;       (* net.contains(&ip) *)
  contains_net : IpNet -> IpNet -> bool;         (* net.contains(&other) *)
  subnets : IpNet -> Z -> option (list IpNet);   (* net.subnets(new_prefix_len).ok() *)
  ipnet_to_string : IpNet -> rstr;               (* net.to_string() *)
}.

(** What the crate documents of these operations. *)
Class IpNetLaws (L : IpNetLib) : Prop := {
  ipnet_new_spec ip p n :
    ipnet_new ip p = Some n <->
    (0 <= p <= ip_width ip /\ ipnet_addr n = ip /\ prefix_len n = p);
  prefix_len_range n : 0 <= prefix_len n <= ip_width (ipnet_addr n);
  ipnet_from_addr ip : ipnet_addr (ipnet_from ip) = ip;
  ipnet_from_len ip : prefix_len (ipnet_from ip) = ip_width ip;
  trunc_addr n : ipnet_addr (trunc n) = mask_ip (prefix_len n) (ipnet_addr n);
  trunc_len n : prefix_len (trunc n) = prefix_len n;
  network_spec n : network n = ipnet_addr (trunc n);
  contains_addr_spec n ip :
    contains_addr n ip = true <->
    is_ipv4 ip = is_ipv4 (ipnet_addr n) /\
    mask_ip (prefix_len n) ip = mask_ip (prefix_len n) (ipnet_addr n);
  contains_net_spec n m :
    contains_net n m = true <->
    prefix_len n <= prefix_len m /\ contains_addr n (ipnet_addr m) = true;
  subnets_spec n p :
    prefix_len n <= p <= ip_width (ipnet_addr n) ->
    exists l, subnets n p = Some l /\
      (fun m => (ipnet_addr m, prefix_len m)) <$> l =
      (fun i => (ip_with (network n)
                   (ip_bits (network n) + Z.of_nat i * 2 ^ (ip_width (network n) - p)), p))
        <$> seq 0 (Z.to_nat (2 ^ (p - prefix_len n)));
}.

(** ** The ipnet_trie crate

    A prefix table keyed by network: the host bits of a key are ignored. *)

Class TrieLib (L : IpNetLib) : Type := {
  IpnetTrie : Type -> Type;
  trie_new : forall {A}, IpnetTrie A;
  trie_exact_match : forall {A}, IpnetTrie A -> IpNet -> option A;
  trie_insert : forall {A}, IpnetTrie A -> IpNet -> A -> IpnetTrie A;
  trie_longest_match : forall {A}, IpnetTrie A -> IpNet -> option (IpNet * A);
  trie_len : forall {A}, IpnetTrie A -> nat * nat;
}.

Class TrieLaws {L : IpNetLib} (T : TrieLib L) : Prop := {
  exact_match_new A p : trie_exact_match (trie_new : IpnetTrie A) p = None;
  exact_match_insert A (t : IpnetTrie A) p v q :
    trie_exact_match (trie_insert t p v) q =
    if decide (trunc p = trunc q) then Some v else trie_exact_match t q;
  longest_match_Some A (t : IpnetTrie A) n p v :
    trie_longest_match t n = Some (p, v) ->
    trie_exact_match t p = Some v /\ contains_net p n = true /\
    forall q w, trie_exact_match t q = Some w -> contains_net q n = true ->
      prefix_len q <= prefix_len p;
  longest_match_None A (t : IpnetTrie A) n :
    trie_longest_match t n = None ->
    forall q w, trie_exact_match t q = Some w -> contains_net q n = false;
}.

(** ** Concrete instances *)

Module CidrNet.

Definition in_range (c : IpAddr * Z) : Prop := 0 <= c.2 <= ip_width c.1.

#[local] Instance in_range_dec c : Decision (in_range c).
Proof. unfold in_range. apply _. Defined.

Definition cidr : Type := dsig in_range.

Definition mk (ip : IpAddr) (p : Z) : option cidr :=
  match decide (in_range (ip, p)) with
  | left H => Some (dexist (ip, p) H)
  | right _ => None
  end.

Lemma mask_range ip p : in_range (ip, p) -> in_range (mask_ip p ip, p).
Proof. by destruct ip. Qed.

Lemma host_range ip : in_range (ip, ip_width ip).
Proof. by destruct ip. Qed.

Definition mask (n : cidr) : cidr :=
  dexist (mask_ip (`n).2 (`n).1, (`n).2)
    (mask_range _ _ (eq_rect _ in_range (proj2_dsig n) _ (surjective_pairing _))).

Definition has_addr (n : cidr) (ip : IpAddr) : bool :=
  bool_decide (is_ipv4 ip = is_ipv4 (`n).1 /\ mask_ip (`n).2 ip = mask_ip (`n).2 (`n).1).

Definition split (n : cidr) (p : Z) : option (list cidr) :=
  if decide ((`n).2 <= p <= ip_width (`n).1) then
    mapM (fun i => mk (ip_with (`n).1 (ip_bits (mask_ip (`n).2 (`n).1)
                          + Z.of_nat i * 2 ^ (ip_width (`n).1 - p))) p)
      (seq 0 (Z.to_nat (2 ^ (p - (`n).2))))
  else None.

#[export] Instance lib : IpNetLib := {|
  IpNet := cidr;
  ipnet_new := mk;
  ipnet_from ip := dexist (ip, ip_width ip) (host_range ip);
  ipnet_addr n := (`n).1;
  prefix_len n := (`n).2;
  trunc := mask;
  network n := mask_ip (`n).2 (`n).1;
  broadcast n := ip_with (`n).1
    (ip_bits (mask_ip (`n).2 (`n).1) + 2 ^ (ip_width (`n).1 - (`n).2) - 1);
  contains_addr := has_addr;
  contains_net n m := bool_decide ((`n).2 <= (`m).2) && has_addr n (`m).1;
  subnets := split;
  ipnet_to_string n := dec (ip_bits (`n).1) ++ lit "/" ++ dec (`n).2;
|}.

End CidrNet.

(** A trie as a finite map from truncated prefixes to values. *)
Module MapTrie.
Section trie.
Context {L : IpNetLib}.

Definition table (A : Type) : Type := gmap IpNet A.

(** Whether the entry is a network that contains [n]. *)
Definition matches {A} (n : IpNet) (e : IpNet * A) : bool :=
  bool_decide (trunc e.1 = e.1) && contains_net e.1 n.

(** Keeps the longer of the best entry so far and a matching entry. *)
Definition better {A} (n : IpNet) (best : option (IpNet * A)) (e : IpNet * A) :
    option (IpNet * A) :=
  if matches n e then
    match best with
    | Some b => if decide (prefix_len b.1 < prefix_len e.1) then Some e else best
    | None => Some e
    end
  else best.

#[export] Instance lib : TrieLib L := {|
  IpnetTrie := table;
  trie_new A := (∅ : gmap IpNet A);
  trie_exact_match A (t : gmap IpNet A) p := t !! trunc p;
  trie_insert A (t : gmap IpNet A) p v := <[trunc p := v]> t;
  trie_longest_match A (t : gmap IpNet A) n := foldl (better n) None (map_to_list t);
  trie_len A (t : gmap IpNet A) :=
    (length (filter (fun e => is_ipv4 (ipnet_addr e.1) = true) (map_to_list t)),
     length (filter (fun e => is_ipv4 (ipnet_addr e.1) = false) (map_to_list t)));
|}.

End trie.
End MapTrie.

(** An IPv4 prefix of the concrete instance. *)
Definition sample_net (a p : Z) : @IpNet CidrNet.lib :=
  default (@ipnet_from CidrNet.lib (V4 0)) (@ipnet_new CidrNet.lib (V4 a) p).

(** ** Lemmas about prefixes *)

Section ipnet_facts.
Context {L : IpNetLib} {HL : IpNetLaws L}.

Lemma ipnet_ext (n m : IpNet) :
  ipnet_addr n = ipnet_addr m -> prefix_len n = prefix_len m -> n = m.
Proof.
  intros Ha Hp. pose proof (prefix_len_range m) as Hr.
  assert (ipnet_new (ipnet_addr m) (prefix_len m) = Some n) as H1 by (apply ipnet_new_spec; auto).
  assert (ipnet_new (ipnet_addr m) (prefix_len m) = Some m) as H2 by (apply ipnet_new_spec; auto).
  congruence.
Qed.

Lemma mask_bits_idemp w p a : p <= w -> mask_bits w p (mask_bits w p a) = mask_bits w p a.
Proof.
  intros Hp. unfold mask_bits. assert (0 < 2 ^ (w - p)) by (apply Z.pow_pos_nonneg; lia).
  rewrite (Zminus_mod_idemp_r a a), Z.sub_diag, Z.mod_0_l by lia. lia.
Qed.

Lemma ip_with_width ip a : ip_width (ip_with ip a) = ip_width ip.
Proof. by destruct ip. Qed.

Lemma mask_ip_width p ip : ip_width (mask_ip p ip) = ip_width ip.
Proof. by destruct ip. Qed.

Lemma mask_ip_family p ip : is_ipv4 (mask_ip p ip) = is_ipv4 ip.
Proof. by destruct ip. Qed.

Lemma ip_width_family ip ip' : is_ipv4 ip = is_ipv4 ip' -> ip_width ip = ip_width ip'.
Proof. by destruct ip, ip'. Qed.

Lemma mask_ip_idemp p ip : p <= ip_width ip -> mask_ip p (mask_ip p ip) = mask_ip p ip.
Proof. destruct ip; unfold mask_ip; cbn; intros; by rewrite mask_bits_idemp. Qed.

Lemma mask_ip_full ip : mask_ip (ip_width ip) ip = ip.
Proof.
  destruct ip; unfold mask_ip, mask_bits; cbn; rewrite Z.mod_1_r; f_equal; lia.
Qed.

Lemma trunc_trunc n : trunc (trunc n) = trunc n.
Proof.
  apply ipnet_ext; rewrite ?trunc_addr, ?trunc_len; [| done].
  apply mask_ip_idemp. pose proof (prefix_len_range n). lia.
Qed.

Lemma trunc_from ip : trunc (ipnet_from ip) = ipnet_from ip.
Proof.
  apply ipnet_ext; rewrite ?trunc_addr, ?trunc_len; [| done].
  rewrite ipnet_from_addr, ipnet_from_len. apply mask_ip_full.
Qed.

Lemma trunc_eq n m :
  trunc n = trunc m <->
  prefix_len n = prefix_len m /\
  mask_ip (prefix_len n) (ipnet_addr n) = mask_ip (prefix_len m) (ipnet_addr m).
Proof.
  split.
  - intros H. pose proof (f_equal prefix_len H) as Hl. pose proof (f_equal ipnet_addr H) as Ha.
    by rewrite !trunc_len, !trunc_addr in *.
  - intros [Hp Ha]. apply ipnet_ext; by rewrite ?trunc_len, ?trunc_addr.
Qed.

(** Containment of an address only depends on the network. *)
Lemma contains_addr_trunc n ip : contains_addr (trunc n) ip = contains_addr n ip.
Proof.
  apply eq_bool_prop_intro. rewrite !Is_true_true, !contains_addr_spec, trunc_addr, trunc_len.
  rewrite mask_ip_family, mask_ip_idemp; [done |]. pose proof (prefix_len_range n). lia.
Qed.

Lemma contains_net_trunc n m : contains_net (trunc n) m = contains_net n m.
Proof.
  apply eq_bool_prop_intro. rewrite !Is_true_true, !contains_net_spec, trunc_len.
  by rewrite contains_addr_trunc.
Qed.

(** A prefix contains an address iff it contains the address's host prefix. *)
Lemma contains_net_from n ip : contains_net n (ipnet_from ip) = contains_addr n ip.
Proof.
  apply eq_bool_prop_intro. rewrite !Is_true_true, contains_net_spec, ipnet_from_addr, ipnet_from_len.
  split; [by intros [] |]. intros H. split; [| done].
  apply contains_addr_spec in H as [Hf _]. rewrite (ip_width_family _ _ Hf).
  apply prefix_len_range.
Qed.

(** Two prefixes of the same length that contain an address are the same network. *)
Lemma contains_addr_same_len n m ip :
  contains_addr n ip = true -> contains_addr m ip = true -> prefix_len n = prefix_len m ->
  trunc n = trunc m.
Proof.
  rewrite !contains_addr_spec. intros [_ Hn] [_ Hm] Hp. apply trunc_eq. split; [done |].
  rewrite <- Hn, <- Hm. by rewrite Hp.
Qed.
End ipnet_facts.

(** ** The concrete instances satisfy the laws *)

Lemma CidrNet_mk_Some ip p :
  CidrNet.in_range (ip, p) -> exists c, CidrNet.mk ip p = Some c /\ `c = (ip, p).
Proof.
  intros H. unfold CidrNet.mk. destruct (decide _) as [Hd | Hd]; [| done].
  eexists. split; [done |]. done.
Qed.

#[export] Instance CidrNet_laws : IpNetLaws CidrNet.lib.
Proof.
  split; cbn.
  - intros ip p n. unfold CidrNet.mk. case_decide as Hr.
    + split.
      * intros [= <-]. by repeat split; apply Hr.
      * intros (_ & Ha & Hp). f_equal. apply dsig_eq. cbn. destruct (`n); cbn in *; congruence.
    + split; [done |]. intros (H & _ & _). by destruct Hr.
  - intros n. exact (proj2_dsig n).
  - done.
  - done.
  - done.
  - done.
  - done.
  - intros n ip. unfold CidrNet.has_addr. by rewrite bool_decide_eq_true.
  - intros n m. rewrite andb_true_iff. unfold CidrNet.has_addr. by rewrite !bool_decide_eq_true.
  - intros n p Hp. unfold CidrNet.split. rewrite decide_True by done.
    pose proof (proj2_dsig n : CidrNet.in_range _) as Hn. unfold CidrNet.in_range in Hn.
    generalize (seq 0 (Z.to_nat (2 ^ (p - (`n).2)))) as s. intros s.
    rewrite mask_ip_width. assert (forall x, ip_with (mask_ip (`n).2 (`n).1) x = ip_with (`n).1 x) as Hw.
    { by destruct (`n) as [[]]. }
    induction s as [| i s (l & Hl & IH)]; [by exists [] |].
    cbn [mapM fmap list_fmap].
    edestruct CidrNet_mk_Some as (c & Hc & Hci); [| rewrite Hc; cbn; rewrite Hl].
    { unfold CidrNet.in_range. cbn. rewrite ip_with_width. split; [| apply Hp]. etrans; [apply Hn | apply Hp]. }
    eexists. split; [done |]. cbn. rewrite Hci. f_equal; [by rewrite Hw | exact IH].
Qed.

Section map_trie_laws.
Context {L : IpNetLib} {HL : IpNetLaws L}.

Lemma better_spec {A} n (l : list (IpNet * A)) :
  match foldl (MapTrie.better n) None l with
  | None => forall e, e ∈ l -> MapTrie.matches n e = false
  | Some b =>
      (b ∈ l /\ MapTrie.matches n b = true) /\
      (forall e, e ∈ l -> MapTrie.matches n e = true -> prefix_len e.1 <= prefix_len b.1)
  end.
Proof.
  induction l as [| e l IH] using rev_ind; [set_solver |].
  rewrite foldl_app. cbn. unfold MapTrie.better at 1.
  destruct (MapTrie.matches n e) eqn:Hm, (foldl _ None l) as [b |]; [case_decide | | |];
    repeat setoid_rewrite elem_of_app; repeat setoid_rewrite list_elem_of_singleton.
  - destruct IH as [[? ?] IH]. split; [by auto |]. intros e' [He | ->] ?; [| lia].
    etrans; [by apply IH | lia].
  - destruct IH as [[? ?] IH]. split; [by auto |]. intros e' [He | ->] ?; [by auto | lia].
  - split; [by auto |]. intros e' [He | ->] ?; [| lia]. by rewrite IH in *.
  - destruct IH as [[? ?] IH]. split; [by auto |]. intros e' [He | ->] ?; [by auto | congruence].
  - intros e' [He | ->]; auto.
Qed.

#[export] Instance MapTrie_laws : TrieLaws (MapTrie.lib (L := L)).
Proof.
  split; cbn.
  - intros A p. apply lookup_empty.
  - intros A t p v q. apply lookup_insert.
  - intros A t n p v H. unfold MapTrie.table in *. pose proof (better_spec n (map_to_list t)) as Hs.
    rewrite H in Hs. destruct Hs as ([Hin Hm] & Hmax).
    unfold MapTrie.matches in Hm. cbn in *. bool_to_prop.
    apply elem_of_map_to_list in Hin. split_and!; [congruence | done |].
    intros q w Hq Hc. specialize (Hmax (trunc q, w)). cbn in Hmax. rewrite trunc_len in Hmax.
    apply Hmax; [by apply elem_of_map_to_list |]. unfold MapTrie.matches. cbn.
    rewrite contains_net_trunc, Hc. by rewrite bool_decide_true by apply trunc_trunc.
  - intros A t n H q w Hq. unfold MapTrie.table in *. pose proof (better_spec n (map_to_list t)) as Hs.
    rewrite H in Hs. specialize (Hs (trunc q, w)).
    rewrite <- contains_net_trunc. unfold MapTrie.matches in Hs. cbn in Hs.
    rewrite bool_decide_true in Hs by apply trunc_trunc. apply Hs. by apply elem_of_map_to_list.
Qed.
End map_trie_laws.
