(* ===== verification/Packet.v ===== *)
(** * IP packet utilities of the router

    Models the packet helpers at the top of [src/src/router.rs]: the in-place TTL
    decrement with its RFC 1624 incremental checksum update, and the extraction
    of the destination address.  The reference they are compared with is the
    full RFC 1071 header checksum. *)

From S2P Require Import Prelude Net.
#[local] Open Scope Z_scope.

(** A packet is the visible bytes of its buffer. *)
Abbreviation packet := (list Z).

Definition IPV4_TTL_OFFSET : nat := 8.
Definition IPV4_CHECKSUM_OFFSET : nat := 10.
Definition IPV6_HOP_LIMIT_OFFSET : nat := 7.
Definition IPV4_MIN_LEN : nat := 20.
Definition IPV6_MIN_LEN : nat := 40.

(** [decrement_ttl(packet)]: the returned value and the packet afterwards. *)
Definition decrement_ttl (p : packet) : outcome (option Z * packet) :=
  match head p with
  | None => mret (None, p)
  | Some b =>
    let version := Z.shiftr b 4 in
    if decide (version = 4) then
      if decide (length p < IPV4_MIN_LEN)%nat then mret (None, p) else
      old_ttl ← index p IPV4_TTL_OFFSET;
      if decide (old_ttl = 0) then mret (Some 0, p) else
      new_ttl ← checked_sub old_ttl 1;
      p ← index_set p IPV4_TTL_OFFSET new_ttl;
      hi ← index p IPV4_CHECKSUM_OFFSET;
      lo ← index p (IPV4_CHECKSUM_OFFSET + 1);
      let old_check := u16_from_be_bytes hi lo in
      sum ← checked_add u32_max old_check 256;
      sum ← checked_add u32_max (Z.land sum 65535) (Z.shiftr sum 16);
      sum ← checked_add u32_max (Z.land sum 65535) (Z.shiftr sum 16);
      let new_check := if decide (as_u16 sum = 65535) then 0 else as_u16 sum in
      p ← foldl (fun r ib => p ← r; index_set p ib.1 ib.2) (mret p)
            (zip [IPV4_CHECKSUM_OFFSET; IPV4_CHECKSUM_OFFSET + 1]%nat (u16_to_be_bytes new_check));
      mret (Some old_ttl, p)
    else if decide (version = 6) then
      if decide (length p < IPV6_MIN_LEN)%nat then mret (None, p) else
      old_hl ← index p IPV6_HOP_LIMIT_OFFSET;
      if decide (old_hl = 0) then mret (Some 0, p) else
      new_hl ← checked_sub old_hl 1;
      p ← index_set p IPV6_HOP_LIMIT_OFFSET new_hl;
      mret (Some old_hl, p)
    else mret (None, p)
  end.

(** [extract_dst_ip(packet)]. *)
Definition extract_dst_ip (p : packet) : outcome (option IpAddr) :=
  match head p with
  | None => mret None
  | Some first =>
    let version := Z.shiftr first 4 in
    if decide (version = 4) then
      if decide (length p < 20)%nat then mret None else
      b0 ← index p 16; b1 ← index p 17; b2 ← index p 18; b3 ← index p 19;
      mret (Some (V4 (be_bytes [b0; b1; b2; b3])))
    else if decide (version = 6) then
      if decide (length p < 40)%nat then mret None else
      dst ← slice p 24 40;
      mret (Some (V6 (be_bytes dst)))
    else mret None
  end.

(** ** The RFC 1071 reference *)

(** 16-bit one's complement addition with end-around carry. *)
Definition ones_add (a b : Z) : Z :=
  let s := a + b in Z.land s 65535 + Z.shiftr s 16.

(** The big-endian 16-bit words of a byte string (an odd last byte is padded). *)
Fixpoint words16 (bs : list Z) : list Z :=
  match bs with
  | hi :: lo :: bs' => u16_from_be_bytes hi lo :: words16 bs'
  | [hi] => [u16_from_be_bytes hi 0]
  | [] => []
  end.

Definition ones_sum (ws : list Z) : Z := foldl ones_add 0 ws.

(** The IPv4 header: [IHL] 32-bit words. *)
Definition ihl (p : packet) : nat := Z.to_nat (Z.land (default 0 (head p)) 15).
Definition ipv4_header (p : packet) : list Z := take (4 * ihl p) p.

(** The checksum field, and the checksum RFC 1071 computes for the header: the
    complement of the one's complement sum of the words, the field taken as 0. *)
Definition stored_checksum (p : packet) : Z := default 0 (words16 p !! 5%nat).
Definition computed_checksum (p : packet) : Z :=
  65535 - ones_sum (<[5%nat:=0]> (words16 (ipv4_header p))).

(** What a receiver checks: the words of the header add up to 0xFFFF. *)
Definition checksum_ok (p : packet) : bool := ones_sum (words16 (ipv4_header p)) =? 65535.

(** A well-formed IPv4 packet: bytes, version 4, a header of at least five words
    that lies within the packet. *)
Definition ipv4_wf (p : packet) : Prop :=
  Forall is_byte p /\ (exists b, head p = Some b /\ Z.shiftr b 4 = 4) /\
  (5 <= ihl p)%nat /\ (4 * ihl p <= length p)%nat.

(** ** Lemmas *)

Lemma ones_add_spec a b :
  0 <= a <= 65535 -> 0 <= b <= 65535 ->
  ones_add a b = if decide (a + b <= 65535) then a + b else a + b - 65535.
Proof.
  intros Ha Hb. unfold ones_add. change 65535 with (Z.ones 16) at 1.
  rewrite Z.land_ones, Z.shiftr_div_pow2 by lia. change (2 ^ 16) with 65536.
  case_decide.
  - rewrite Z.mod_small, Z.div_small by lia. lia.
  - assert ((a + b) / 65536 = 1) as Hd by (symmetry; apply Z.div_unique with (a + b - 65536); lia).
    rewrite Z.mod_eq, Hd by lia. lia.
Qed.

Definition is_u16 (w : Z) : Prop := 0 <= w <= 65535.

Definition zsum (ws : list Z) : Z := foldr Z.add 0 ws.

(** The one's complement sum is the integer sum reduced into 1..65535, and 0
    only for the sum 0. *)
Lemma ones_sum_from acc ws :
  is_u16 acc -> Forall is_u16 ws ->
  is_u16 (foldl ones_add acc ws) /\
  (exists k, 0 <= k /\ foldl ones_add acc ws = acc + zsum ws - 65535 * k) /\
  (0 < acc + zsum ws -> 0 < foldl ones_add acc ws).
Proof.
  intros Ha Hws. revert acc Ha. induction Hws as [| w ws Hw Hws IH]; intros acc Ha; cbn.
  - split; [done |]. split; [exists 0 |]; lia.
  - assert (0 <= zsum ws) as Hz.
    { clear -Hws. induction Hws; cbn; unfold is_u16 in *; [lia |].
      change (foldr Z.add 0 l) with (zsum l). lia. }
    change (foldr Z.add 0 ws) with (zsum ws).
    unfold is_u16 in *. pose proof (ones_add_spec acc w Ha Hw) as Ho.
    assert (0 <= ones_add acc w <= 65535) as Hr by (case_decide; lia).
    destruct (IH (ones_add acc w) Hr) as (H1 & (k & Hk & H2) & H3). split; [done |].
    rewrite Ho in *. case_decide.
    + split; [exists k |]; lia.
    + split; [exists (k + 1) |]; lia.
Qed.

Lemma ones_sum_unique ws x :
  Forall is_u16 ws -> 0 < zsum ws -> 0 < x <= 65535 ->
  (exists k, x = zsum ws - 65535 * k) -> ones_sum ws = x.
Proof.
  intros Hws Hp Hx [k' Hk']. unfold ones_sum.
  destruct (ones_sum_from 0 ws) as (Hr & (k & _ & Hk) & Hpos); [unfold is_u16; lia | done |].
  unfold is_u16 in Hr. specialize (Hpos ltac:(lia)). lia.
Qed.

Lemma zsum_insert ws k w x :
  ws !! k = Some w -> zsum (<[k:=x]> ws) = zsum ws - w + x.
Proof.
  revert k. induction ws as [| a ws IH]; intros [| k] Hk; simplify_eq/=; [unfold zsum; cbn; lia |].
  specialize (IH k Hk). unfold zsum in *. cbn. lia.
Qed.

Lemma words16_cons2 a b l : words16 (a :: b :: l) = u16_from_be_bytes a b :: words16 l.
Proof. done. Qed.

(** The bytes of word [k] are at [2k] and [2k+1]. *)
Lemma words16_lookup l k hi lo :
  l !! (2 * k)%nat = Some hi -> l !! (2 * k + 1)%nat = Some lo ->
  words16 l !! k = Some (u16_from_be_bytes hi lo).
Proof.
  revert l. induction k as [| k IH]; intros l Hh Hl.
  - by destruct l as [| a [| b l]]; simplify_eq/=.
  - replace (2 * S k)%nat with (S (S (2 * k))) in * by lia.
    destruct l as [| a [| b l]]; simplify_eq/=. by apply IH.
Qed.

Lemma words16_insert_hi l k x lo :
  l !! (2 * k + 1)%nat = Some lo ->
  words16 (<[(2 * k)%nat:=x]> l) = <[k:=u16_from_be_bytes x lo]> (words16 l).
Proof.
  revert l. induction k as [| k IH]; intros l Hl.
  - by destruct l as [| a [| b l]]; simplify_eq/=.
  - replace (2 * S k)%nat with (S (S (2 * k))) in * by lia.
    destruct l as [| a [| b l]]; simplify_eq/=. f_equal. by apply IH.
Qed.

Lemma words16_insert_lo l k x hi :
  l !! (2 * k)%nat = Some hi -> is_Some (l !! (2 * k + 1)%nat) ->
  words16 (<[(2 * k + 1)%nat:=x]> l) = <[k:=u16_from_be_bytes hi x]> (words16 l).
Proof.
  revert l. induction k as [| k IH]; intros l Hl [lo Hlo].
  - by destruct l as [| a [| b l]]; simplify_eq/=.
  - replace (2 * S k)%nat with (S (S (2 * k))) in * by lia.
    destruct l as [| a [| b l]]; simplify_eq/=. f_equal. by apply IH.
Qed.

Lemma words16_u16 l : Forall is_byte l -> Forall is_u16 (words16 l).
Proof.
  intros H. remember (length l) as n eqn:Hn. assert (length l <= n)%nat as Hle by lia. clear Hn.
  revert l H Hle. induction n as [| n IH]; intros [| a [| b l]] H Hle; cbn in *; try constructor; try lia.
  - apply Forall_cons in H as [Ha _]. rewrite shiftl8_lor by (done || unfold is_byte; lia).
    unfold is_byte, is_u16 in *. lia.
  - constructor.
  - apply Forall_cons in H as [Ha [Hb Hl]%Forall_cons]. rewrite shiftl8_lor by done.
    unfold is_byte, is_u16 in *. lia.
  - apply Forall_cons in H as [Ha [Hb Hl]%Forall_cons]. apply IH; [done | lia].
Qed.

(** The new checksum field of the code: end-around addition of 0x0100, with 0xFFFF
    replaced by 0. *)
Definition update_check (c : Z) : Z :=
  if decide (c + 256 < 65535) then c + 256
  else if decide (c + 256 = 65535) then 0 else c + 256 - 65535.

Lemma fold_once s : 0 <= s <= 131071 ->
  Z.land s 65535 + Z.shiftr s 16 = if decide (s <= 65535) then s else s - 65535.
Proof.
  intros Hs. change 65535 with (Z.ones 16) at 1.
  rewrite Z.land_ones, Z.shiftr_div_pow2 by lia. change (2 ^ 16) with 65536. case_decide.
  - rewrite Z.mod_small, Z.div_small by lia. lia.
  - assert (s / 65536 = 1) as Hd by (symmetry; apply Z.div_unique with (s - 65536); lia).
    rewrite Z.mod_eq, Hd by lia. lia.
Qed.

Lemma checked_add_Ret m x y : x + y <= m -> checked_add m x y = Ret (x + y).
Proof. intros H. unfold checked_add. by rewrite decide_True. Qed.

(** The folding steps of [decrement_ttl], for any old checksum field. *)
Lemma update_check_steps {A} c (f : Z -> outcome A) :
  is_u16 c ->
  (sum ← checked_add u32_max c 256;
   sum ← checked_add u32_max (Z.land sum 65535) (Z.shiftr sum 16);
   sum ← checked_add u32_max (Z.land sum 65535) (Z.shiftr sum 16);
   f (if decide (as_u16 sum = 65535) then 0 else as_u16 sum)) = f (update_check c).
Proof.
  unfold is_u16, u32_max. intros Hc. change (2 ^ 32 - 1) with 4294967295.
  rewrite checked_add_Ret by lia. cbn.
  pose proof (fold_once (c + 256) ltac:(lia)) as H1. rewrite checked_add_Ret; rewrite H1.
  2: case_decide; lia.
  set (s1 := if decide _ then _ else _). cbn.
  assert (0 <= s1 <= 65535) as Hs1 by (unfold s1; case_decide; lia).
  pose proof (fold_once s1 ltac:(lia)) as H2. rewrite decide_True in H2 by lia.
  rewrite checked_add_Ret; rewrite H2; [| lia]. cbn.
  unfold as_u16. rewrite Z.mod_small by lia.
  f_equal. unfold update_check, s1 in *. repeat case_decide; lia.
Qed.

Lemma update_check_u16 c : is_u16 c -> is_u16 (update_check c).
Proof. unfold is_u16, update_check. intros. repeat case_decide; lia. Qed.

(** The IPv4 packet after a decrement: bytes 8, 10 and 11 are replaced. *)
Definition with_ttl_check (p : packet) (ttl hi lo : Z) : packet :=
  <[11%nat:=lo]> (<[10%nat:=hi]> (<[8%nat:=ttl]> p)).

Lemma decrement_ttl_v4 p b ttl hi lo :
  head p = Some b -> Z.shiftr b 4 = 4 -> (20 <= length p)%nat ->
  p !! 8%nat = Some ttl -> p !! 10%nat = Some hi -> p !! 11%nat = Some lo ->
  0 < ttl -> is_byte hi -> is_byte lo ->
  exists hi' lo', is_byte hi' /\ is_byte lo' /\ hi' * 256 + lo' = update_check (hi * 256 + lo) /\
    decrement_ttl p = Ret (Some ttl, with_ttl_check p (ttl - 1) hi' lo').
Proof.
  intros Hb Hv Hlen Ht Hh Hl Hpos Hhb Hlb.
  assert (is_u16 (hi * 256 + lo)) as Hc by (unfold is_u16, is_byte in *; lia).
  destruct (u16_to_be_bytes_split (update_check (hi * 256 + lo))) as (hi' & lo' & Hs & ? & ? & ?).
  { pose proof (update_check_u16 _ Hc) as Hu. unfold is_u16 in Hu. exact Hu. }
  exists hi', lo'. split_and!; [done.. |].
  unfold decrement_ttl. rewrite Hb. cbv zeta. rewrite decide_True by done.
  rewrite decide_False by (unfold IPV4_MIN_LEN; lia). unfold IPV4_TTL_OFFSET, IPV4_CHECKSUM_OFFSET.
  rewrite (index_Ret _ _ _ Ht). cbn [mbind outcome_bind]. rewrite decide_False by lia.
  unfold checked_sub. rewrite decide_True by lia. cbn [mbind outcome_bind].
  rewrite index_set_Ret by lia. cbn [mbind outcome_bind].
  rewrite (index_Ret _ 10 hi) by (by rewrite list_lookup_insert_ne by lia). cbn [mbind outcome_bind].
  rewrite (index_Ret _ (10 + 1) lo) by (by rewrite list_lookup_insert_ne by lia).
  cbn [mbind outcome_bind]. rewrite shiftl8_lor by done.
  pose proof (update_check_steps (hi * 256 + lo) (fun new_check =>
     p ← foldl (fun r ib => p ← r; index_set p ib.1 ib.2) (mret (<[8%nat:=ttl - 1]> p))
            (zip [10; 10 + 1]%nat (u16_to_be_bytes new_check));
     mret (Some ttl, p)) Hc) as Hst.
  cbn beta in Hst. rewrite Hst, Hs. cbn.
  rewrite index_set_Ret by (rewrite length_insert; lia). cbn.
  by rewrite index_set_Ret by (rewrite !length_insert; lia).
Qed.

(** Everything about a well-formed header the checksum argument needs. *)
Lemma ipv4_wf_fields p :
  ipv4_wf p ->
  exists b ttl proto hi lo,
    head p = Some b /\ Z.shiftr b 4 = 4 /\ (20 <= length p)%nat /\
    p !! 0%nat = Some b /\ p !! 8%nat = Some ttl /\ p !! 9%nat = Some proto /\
    p !! 10%nat = Some hi /\ p !! 11%nat = Some lo /\
    is_byte b /\ is_byte ttl /\ is_byte proto /\ is_byte hi /\ is_byte lo.
Proof.
  intros (Hb & (b & Hhd & Hv) & Hi & Hl).
  assert (forall i, (i < 20)%nat -> exists x, p !! i = Some x /\ is_byte x) as Hget.
  { intros i Hlt. destruct (lookup_lt_is_Some_2 p i) as [x Hx]; [lia |].
    exists x. split; [done |]. by eapply Forall_lookup_1. }
  destruct (Hget 8%nat) as (ttl & ? & ?); [lia |]. destruct (Hget 9%nat) as (proto & ? & ?); [lia |].
  destruct (Hget 10%nat) as (hi & ? & ?); [lia |]. destruct (Hget 11%nat) as (lo & ? & ?); [lia |].
  assert (p !! 0%nat = Some b) by by destruct p.
  exists b, ttl, proto, hi, lo. split_and!; try done; [lia |]. by eapply Forall_lookup_1.
Qed.

Lemma header_lookup p i : (i < 4 * ihl p)%nat -> ipv4_header p !! i = p !! i.
Proof. intros H. unfold ipv4_header. by rewrite lookup_take_lt. Qed.

Lemma ihl_with_ttl_check p ttl hi lo : ihl (with_ttl_check p ttl hi lo) = ihl p.
Proof. unfold ihl, with_ttl_check. by destruct p as [| ? []]. Qed.

(** The header's words after a decrement: word 4 (TTL, protocol) and word 5 (checksum). *)
Lemma words16_with_ttl_check p ttl proto hi lo chi clo oldttl :
  (5 <= ihl p)%nat -> p !! 8%nat = Some oldttl -> p !! 9%nat = Some proto ->
  p !! 10%nat = Some chi -> p !! 11%nat = Some clo ->
  words16 (ipv4_header (with_ttl_check p ttl hi lo)) =
  <[5%nat:=u16_from_be_bytes hi lo]>
    (<[4%nat:=u16_from_be_bytes ttl proto]> (words16 (ipv4_header p))).
Proof.
  intros Hi H8 H9 H10 H11. unfold ipv4_header. rewrite ihl_with_ttl_check. unfold with_ttl_check.
  rewrite !take_insert_lt by lia.
  assert (forall i, (i < 4 * ihl p)%nat -> take (4 * ihl p) p !! i = p !! i) as Hk
    by (intros; by rewrite lookup_take_lt).
  change 11%nat with (2 * 5 + 1)%nat at 1. erewrite words16_insert_lo with (hi := hi); cycle 1.
  { rewrite list_lookup_insert_eq; [done |]. rewrite length_insert.
    apply lookup_lt_is_Some. exists chi. change (2 * 5)%nat with 10%nat. by rewrite Hk by lia. }
  { exists clo. change (2 * 5 + 1)%nat with 11%nat. rewrite !list_lookup_insert_ne by lia.
    by rewrite Hk by lia. }
  change 10%nat with (2 * 5)%nat at 1. erewrite words16_insert_hi with (lo := clo); cycle 1.
  { change (2 * 5 + 1)%nat with 11%nat. rewrite !list_lookup_insert_ne by lia. by rewrite Hk by lia. }
  rewrite list_insert_insert_eq.
  change 8%nat with (2 * 4)%nat at 1. erewrite words16_insert_hi with (lo := proto); [done |].
  change (2 * 4 + 1)%nat with 9%nat. by rewrite Hk by lia.
Qed.

Lemma zsum_ge ws k w : Forall is_u16 ws -> ws !! k = Some w -> w <= zsum ws.
Proof.
  intros Hws. revert k. induction Hws as [| x ws Hx Hws IH]; intros [| k] Hk; simplify_eq/=.
  - enough (0 <= zsum ws) by (unfold zsum in *; lia). clear -Hws.
    induction Hws; cbn; unfold is_u16, zsum in *; lia.
  - specialize (IH k Hk). unfold is_u16, zsum in *. lia.
Qed.

Lemma with_ttl_check_bytes p ttl hi lo :
  Forall is_byte p -> is_byte ttl -> is_byte hi -> is_byte lo ->
  Forall is_byte (with_ttl_check p ttl hi lo).
Proof. intros. unfold with_ttl_check. by repeat apply Forall_insert. Qed.

Lemma with_ttl_check_wf p ttl hi lo :
  ipv4_wf p -> is_byte ttl -> is_byte hi -> is_byte lo -> ipv4_wf (with_ttl_check p ttl hi lo).
Proof.
  intros (Hb & Hv & Hi & Hl) ???. unfold ipv4_wf. rewrite ihl_with_ttl_check. split_and!.
  - by apply with_ttl_check_bytes.
  - unfold with_ttl_check. by destruct p as [| ? []].
  - done.
  - unfold with_ttl_check. by rewrite !length_insert.
Qed.

(** The decrement seen on the header's words: word 4 loses 0x0100, word 5 is
    [update_check] of the old field, and the sums stay positive. *)
Lemma decrement_ttl_words p ttl :
  ipv4_wf p -> p !! 8%nat = Some ttl -> 0 < ttl ->
  exists p' ws w4 c,
    decrement_ttl p = Ret (Some ttl, p') /\ ipv4_wf p' /\
    ws = words16 (ipv4_header p) /\ Forall is_u16 ws /\ ws !! 4%nat = Some w4 /\ 256 <= w4 /\
    ws !! 5%nat = Some c /\ stored_checksum p = c /\ stored_checksum p' = update_check c /\
    words16 (ipv4_header p') = <[5%nat:=update_check c]> (<[4%nat:=w4 - 256]> ws) /\
    (forall x, is_u16 x -> 0 < zsum (<[5%nat:=x]> (<[4%nat:=w4 - 256]> ws))).
Proof.
  intros Hwf Ht Hpos. pose proof Hwf as (Hb & _ & Hi & Hl).
  destruct (ipv4_wf_fields p Hwf)
    as (b & t & proto & hi & lo & Hhd & Hv & Hlen & H0 & H8 & H9 & H10 & H11 & Bb & Bt & Bp & Bh & Bl).
  assert (t = ttl) as -> by congruence.
  destruct (decrement_ttl_v4 p b ttl hi lo) as (hi' & lo' & Bh' & Bl' & Hc & Hd); [done.. |].
  assert (is_byte (ttl - 1)) as Bt' by (unfold is_byte in *; lia).
  assert (Forall is_u16 (words16 (ipv4_header p))) as Hu
    by (apply words16_u16; unfold ipv4_header; by apply Forall_take).
  destruct (lookup_lt_is_Some_2 p 1) as [b1 H1]; [lia |].
  assert (is_byte b1) as Bb1 by by eapply Forall_lookup_1.
  assert (words16 (ipv4_header p) !! 4%nat = Some (u16_from_be_bytes ttl proto)) as Hw4
    by (apply words16_lookup; rewrite header_lookup by lia; done).
  assert (words16 (ipv4_header p) !! 5%nat = Some (u16_from_be_bytes hi lo)) as Hw5
    by (apply words16_lookup; rewrite header_lookup by lia; done).
  assert (words16 (ipv4_header p) !! 0%nat = Some (u16_from_be_bytes b b1)) as Hw0
    by (apply words16_lookup; rewrite header_lookup by lia; done).
  rewrite shiftl8_lor in Hw4, Hw5, Hw0 by done.
  exists (with_ttl_check p (ttl - 1) hi' lo'), (words16 (ipv4_header p)), (ttl * 256 + proto),
    (hi * 256 + lo).
  split_and!; try done.
  - by apply with_ttl_check_wf.
  - unfold is_byte in *. lia.
  - unfold stored_checksum. rewrite (words16_lookup p 5 hi lo) by done. cbn. by apply shiftl8_lor.
  - unfold stored_checksum, with_ttl_check. rewrite (words16_lookup _ 5 hi' lo').
    + cbn. rewrite shiftl8_lor by done. done.
    + rewrite list_lookup_insert_ne, list_lookup_insert_eq; [done | rewrite length_insert; lia | lia].
    + rewrite list_lookup_insert_eq; [done | rewrite !length_insert; lia].
  - erewrite words16_with_ttl_check by done. rewrite !shiftl8_lor, Hc by done.
    do 2 f_equal. lia.
  - intros x Hx. enough (b * 256 + b1 <= zsum (<[5%nat:=x]> (<[4%nat:=ttl * 256 + proto - 256]> (words16 (ipv4_header p))))).
    { rewrite Z.shiftr_div_pow2 in Hv by lia. unfold is_byte in *.
      pose proof (Z.div_mod b (2 ^ 4)). pose proof (Z.mod_pos_bound b (2 ^ 4)). lia. }
    apply zsum_ge with 0%nat.
    + apply Forall_insert; [apply Forall_insert |]; try done. unfold is_u16, is_byte in *. lia.
    + by rewrite !list_lookup_insert_ne by lia.
Qed.

Lemma update_check_mod c : is_u16 c ->
  0 <= update_check c < 65535 /\ exists k, update_check c = c + 256 - 65535 * k.
Proof.
  unfold is_u16, update_check. intros Hc. repeat case_decide; split; try lia;
    [exists 0 | exists 1 | exists 1]; lia.
Qed.

(** Where the TTL of a packet is: the offset for its version, when the packet
    has a complete minimal header. *)
Definition ttl_offset (p : packet) : option nat :=
  b ← head p;
  if decide (Z.shiftr b 4 = 4 /\ (IPV4_MIN_LEN <= length p)%nat) then Some IPV4_TTL_OFFSET
  else if decide (Z.shiftr b 4 = 6 /\ (IPV6_MIN_LEN <= length p)%nat) then Some IPV6_HOP_LIMIT_OFFSET
  else None.

(** The positions a decrement may write. *)
Definition ttl_writes (p : packet) : list nat :=
  match ttl_offset p with
  | Some off => if decide (off = IPV4_TTL_OFFSET) then [8; 10; 11]%nat else [off]
  | None => []
  end.

Lemma ttl_offset_in_range p off : ttl_offset p = Some off -> (off < length p)%nat.
Proof.
  unfold ttl_offset, IPV4_MIN_LEN, IPV6_MIN_LEN, IPV4_TTL_OFFSET, IPV6_HOP_LIMIT_OFFSET.
  destruct (head p); [cbn | done]. intros. repeat case_decide; simplify_eq; lia.
Qed.

Lemma ttl_writes_low p i : i ∈ ttl_writes p -> i = 7%nat \/ i = 8%nat \/ i = 10%nat \/ i = 11%nat.
Proof.
  unfold ttl_writes, ttl_offset. destruct (head p); [cbn | set_solver].
  unfold IPV4_TTL_OFFSET, IPV6_HOP_LIMIT_OFFSET.
  repeat case_decide; cbn; rewrite ?list_elem_of_In; cbn; naive_solver.
Qed.

(** Without a TTL byte, or with TTL 0, the packet is left alone. *)
Lemma decrement_ttl_no_header p : ttl_offset p = None -> decrement_ttl p = Ret (None, p).
Proof.
  unfold ttl_offset, decrement_ttl. destruct (head p) as [b |]; [cbn | done]. cbv zeta.
  intros H. repeat case_decide; try done; lia.
Qed.

Lemma decrement_ttl_zero p off :
  ttl_offset p = Some off -> p !! off = Some 0 -> decrement_ttl p = Ret (Some 0, p).
Proof.
  unfold ttl_offset, decrement_ttl. destruct (head p) as [b |]; [cbn | done]. cbv zeta.
  intros H H0. repeat case_decide; simplify_eq; try lia;
    by rewrite (index_Ret _ _ _ H0).
Qed.

Lemma decrement_ttl_v6 p hl :
  ttl_offset p = Some IPV6_HOP_LIMIT_OFFSET -> p !! 7%nat = Some hl -> 0 < hl ->
  decrement_ttl p = Ret (Some hl, <[7%nat:=hl - 1]> p).
Proof.
  unfold ttl_offset, decrement_ttl. destruct (head p) as [b |]; [cbn | done]. cbv zeta.
  unfold IPV6_HOP_LIMIT_OFFSET, IPV4_TTL_OFFSET, IPV4_MIN_LEN, IPV6_MIN_LEN.
  intros H H7 Hpos. repeat case_decide; simplify_eq; try lia.
  rewrite (index_Ret _ _ _ H7). cbn [mbind outcome_bind]. rewrite decide_False by lia.
  unfold checked_sub. rewrite decide_True by lia. cbn [mbind outcome_bind].
  by rewrite index_set_Ret by lia.
Qed.

(** All cases together: the written packet has the decremented TTL byte and
    differs from the original only at [ttl_writes]. *)
Lemma decrement_ttl_pos p off t :
  Forall is_byte p -> ttl_offset p = Some off -> p !! off = Some t -> 0 < t ->
  exists p', decrement_ttl p = Ret (Some t, p') /\ Forall is_byte p' /\ length p' = length p /\
    p' !! off = Some (t - 1) /\ (forall i, i ∉ ttl_writes p -> p' !! i = p !! i).
Proof.
  intros Hb Hoff Ht Hpos. assert (is_byte t) as Bt by by eapply Forall_lookup_1.
  assert (is_byte (t - 1)) as Bt' by (unfold is_byte in *; lia).
  assert (off = IPV6_HOP_LIMIT_OFFSET \/ off = IPV4_TTL_OFFSET) as [-> | ->].
  { unfold ttl_offset in Hoff. destruct (head p); [cbn in Hoff | done].
    repeat case_decide; simplify_eq; auto. }
  - exists (<[7%nat:=t - 1]> p). pose proof (ttl_offset_in_range _ _ Hoff).
    split_and!; [by apply decrement_ttl_v6 | by apply Forall_insert | by rewrite length_insert | |].
    + by rewrite list_lookup_insert_eq.
    + intros i Hi. unfold ttl_writes in Hi. rewrite Hoff in Hi. cbn in Hi.
      rewrite list_lookup_insert_ne; set_solver.
  - assert ((20 <= length p)%nat /\ exists b, head p = Some b /\ Z.shiftr b 4 = 4) as (Hlen & b & Hhd & Hv).
    { unfold ttl_offset in Hoff. destruct (head p) as [b |]; [cbn in Hoff | done].
      unfold IPV4_TTL_OFFSET, IPV6_HOP_LIMIT_OFFSET, IPV4_MIN_LEN in Hoff.
      repeat case_decide; simplify_eq; naive_solver. }
    destruct (lookup_lt_is_Some_2 p 10) as [hi Hh]; [lia |].
    destruct (lookup_lt_is_Some_2 p 11) as [lo Hl]; [lia |].
    destruct (decrement_ttl_v4 p b t hi lo) as (hi' & lo' & Bh' & Bl' & _ & Hd);
      [done.. | by eapply Forall_lookup_1 | by eapply Forall_lookup_1 |].
    exists (with_ttl_check p (t - 1) hi' lo'). unfold IPV4_TTL_OFFSET. split_and!.
    + done.
    + by apply with_ttl_check_bytes.
    + unfold with_ttl_check. by rewrite !length_insert.
    + unfold with_ttl_check. rewrite !list_lookup_insert_ne, list_lookup_insert_eq by lia. done.
    + intros i Hi. unfold ttl_writes in Hi. rewrite Hoff in Hi. cbn in Hi.
      unfold with_ttl_check. rewrite !list_lookup_insert_ne; set_solver.
Qed.

(** The fields outside [ttl_writes] decide the destination. *)
Lemma head_lookup (p : packet) : head p = p !! 0%nat.
Proof. by destruct p. Qed.

Lemma extract_dst_ip_ext p q :
  length q = length p -> q !! 0%nat = p !! 0%nat ->
  (forall i, (16 <= i)%nat -> q !! i = p !! i) -> extract_dst_ip q = extract_dst_ip p.
Proof.
  intros Hl H0 Hi. unfold extract_dst_ip. rewrite !head_lookup, H0, Hl.
  unfold index. rewrite !Hi by lia.
  assert (slice q 24 40 = slice p 24 40) as ->; [| done].
  unfold slice. rewrite Hl. case_decide; [| done]. do 2 f_equal. apply list_eq. intros i.
  rewrite !lookup_drop. by apply Hi; lia.
Qed.

(** [extract_dst_ip] never panics: each header length is checked first. *)
Lemma extract_dst_ip_total p : exists r, extract_dst_ip p = Ret r.
Proof.
  unfold extract_dst_ip. destruct (head p) as [b |]; [| by eexists]. cbv zeta.
  repeat case_decide; try by eexists.
  - repeat (destruct (index_in_range p) with (i := 16%nat) as (? & _ & ->); [lia |]; cbn).
    destruct (index_in_range p 17) as (? & _ & ->); [lia |]. cbn.
    destruct (index_in_range p 18) as (? & _ & ->); [lia |]. cbn.
    destruct (index_in_range p 19) as (? & _ & ->); [lia |]. cbn. by eexists.
  - rewrite slice_Ret by lia. by eexists.
Qed.

(** ** Properties *)

(** C2: the incremental update of [decrement_ttl] is exact.  If the checksum
    field of a well-formed IPv4 packet is the RFC 1071 checksum of its header and
    its TTL is positive, then after the decrement the field is again the RFC 1071
    checksum, recomputed from scratch over the new header (so also when the sum
    wraps and when the update would give the other zero, 0xFFFF). *)
Theorem decrement_ttl_checksum_exact (p : packet) (ttl : Z) :
  ipv4_wf p -> p !! IPV4_TTL_OFFSET = Some ttl -> 0 < ttl ->
  stored_checksum p = computed_checksum p ->
  exists p', decrement_ttl p = Ret (Some ttl, p') /\ ipv4_wf p' /\
             stored_checksum p' = computed_checksum p'.
Proof.
  intros Hwf Ht Hpos Hs.
  destruct (decrement_ttl_words p ttl Hwf Ht Hpos)
    as (p' & ws & w4 & c & Hd & Hwf' & -> & Hu & H4 & Hw4 & H5 & Hsc & Hsc' & Hws & Hp).
  exists p'. split_and!; [done.. |]. unfold computed_checksum in *. rewrite Hsc, Hsc' in *.
  rewrite Hws, list_insert_insert_eq.
  assert (is_u16 c) as Hc by by eapply Forall_lookup_1.
  assert (is_u16 w4) as Hu4 by by eapply Forall_lookup_1.
  destruct (update_check_mod c Hc) as [Hr [k Hk]].
  destruct (ones_sum_from 0 (<[5%nat:=0]> (words16 (ipv4_header p)))) as (_ & (k0 & _ & Hk0) & _).
  { unfold is_u16. lia. } { apply Forall_insert; [done | unfold is_u16; lia]. }
  unfold ones_sum in Hs at 1. rewrite Hk0, (zsum_insert _ _ _ _ H5) in Hs.
  rewrite (ones_sum_unique _ (65535 - update_check c)); [lia | | | lia |].
  - apply Forall_insert; [apply Forall_insert |]; try done; unfold is_u16 in *; lia.
  - apply Hp. unfold is_u16. lia.
  - rewrite (zsum_insert _ _ c), (zsum_insert _ _ _ _ H4)
      by by rewrite list_lookup_insert_ne by lia.
    exists (k0 - k). lia.
Qed.

(** A header that a receiver accepts is still accepted after the decrement:
    the one's complement sum of all its words stays 0xFFFF. *)
Theorem decrement_ttl_checksum_ok (p : packet) (ttl : Z) :
  ipv4_wf p -> p !! IPV4_TTL_OFFSET = Some ttl -> 0 < ttl -> checksum_ok p = true ->
  exists p', decrement_ttl p = Ret (Some ttl, p') /\ checksum_ok p' = true.
Proof.
  intros Hwf Ht Hpos Hok.
  destruct (decrement_ttl_words p ttl Hwf Ht Hpos)
    as (p' & ws & w4 & c & Hd & _ & -> & Hu & H4 & Hw4 & H5 & _ & _ & Hws & Hp).
  exists p'. split; [done |]. unfold checksum_ok in *. rewrite Hws.
  apply Z.eqb_eq in Hok. apply Z.eqb_eq.
  assert (is_u16 c) as Hc by by eapply Forall_lookup_1.
  assert (is_u16 w4) as Hu4 by by eapply Forall_lookup_1.
  destruct (update_check_mod c Hc) as [Hr [k Hk]].
  destruct (ones_sum_from 0 (words16 (ipv4_header p))) as (_ & (k0 & _ & Hk0) & _);
    [unfold is_u16; lia | done |].
  unfold ones_sum in Hok at 1. rewrite Hk0 in Hok.
  apply ones_sum_unique; [| by apply Hp; unfold is_u16; lia | lia |].
  - apply Forall_insert; [apply Forall_insert |]; try done; unfold is_u16 in *; lia.
  - rewrite (zsum_insert _ _ c), (zsum_insert _ _ _ _ H4)
      by by rewrite list_lookup_insert_ne by lia.
    exists (k0 - k). lia.
Qed.

(** [decrement_ttl] is total on byte strings and only touches the TTL byte
    and, for IPv4, the checksum field.  It answers with the TTL before the
    decrement: [None] without a complete header, [Some 0] (packet untouched) for
    TTL 0, and otherwise the TTL byte goes down by exactly one.  In particular the
    destination the packet is routed by does not change. *)
Theorem decrement_ttl_frame (p : packet) :
  Forall is_byte p ->
  exists p', decrement_ttl p = Ret (ttl_offset p ≫= fun off => p !! off, p') /\
    Forall is_byte p' /\ length p' = length p /\
    (forall i, i ∉ ttl_writes p -> p' !! i = p !! i) /\
    (forall off t, ttl_offset p = Some off -> p !! off = Some t ->
       p' !! off = Some (if decide (t = 0) then 0 else t - 1)) /\
    extract_dst_ip p' = extract_dst_ip p.
Proof.
  intros Hb. destruct (ttl_offset p) as [off |] eqn:Hoff; cbn; cycle 1.
  { exists p. by rewrite decrement_ttl_no_header. }
  destruct (index_in_range p off) as (t & Ht & _); [by apply ttl_offset_in_range |]. rewrite Ht.
  destruct (decide (t = 0)) as [-> | Hne].
  { exists p. rewrite (decrement_ttl_zero p off) by done. split_and!; try done.
    intros ? ? [= <-] Ht'. rewrite Ht in Ht'. simplify_eq. by rewrite decide_True. }
  assert (is_byte t) as Bt by by eapply Forall_lookup_1.
  destruct (decrement_ttl_pos p off t) as (p' & Hd & Hb' & Hl & Hp' & Hf);
    [done.. | unfold is_byte in *; lia |].
  exists p'. split_and!; [done.. | |].
  - intros ? ? [= <-] Ht'. rewrite Ht in Ht'. simplify_eq. by rewrite decide_False.
  - apply extract_dst_ip_ext; [done | apply Hf | intros i Hi; apply Hf];
      intros Hi'%ttl_writes_low; set_solver by lia.
Qed.

(** A 20-byte header with TTL 64 and a correct checksum. *)
Definition sample_packet : packet :=
  [69; 0; 0; 20; 0; 0; 0; 0; 64; 17; 174; 215; 10; 0; 0; 1; 192; 0; 2; 1].

Lemma sample_packet_wf : ipv4_wf sample_packet.
Proof.
  unfold ipv4_wf. split_and!.
  - unfold sample_packet, is_byte. repeat constructor; lia.
  - by exists 69.
  - vm_compute. lia.
  - vm_compute. lia.
Qed.

Lemma decrement_ttl_checksum_exact_witness :
  stored_checksum sample_packet = computed_checksum sample_packet /\
  exists p', decrement_ttl sample_packet = Ret (Some 64, p') /\ ipv4_wf p' /\
             stored_checksum p' = computed_checksum p'.
Proof.
  split; [by vm_compute |].
  apply (decrement_ttl_checksum_exact sample_packet 64);
    [apply sample_packet_wf | done | lia | by vm_compute].
Defined.

Lemma decrement_ttl_checksum_ok_witness :
  checksum_ok sample_packet = true /\
  exists p', decrement_ttl sample_packet = Ret (Some 64, p') /\ checksum_ok p' = true.
Proof.
  split; [by vm_compute |].
  apply (decrement_ttl_checksum_ok sample_packet 64);
    [apply sample_packet_wf | done | lia | by vm_compute].
Defined.

Lemma decrement_ttl_frame_witness :
  ttl_offset sample_packet = Some 8%nat /\
  exists p', decrement_ttl sample_packet = Ret (Some 64, p') /\
    extract_dst_ip p' = Ret (Some (V4 3221225985)).
Proof.
  split; [done |].
  destruct (decrement_ttl_frame sample_packet) as (p' & Hd & _ & _ & _ & _ & Hx).
  { apply sample_packet_wf. }
  exists p'. split; [exact Hd | rewrite Hx; by vm_compute].
Defined.
