(* ===== verification/Config.v ===== *)
(** * Configuration

    Models [src/src/config.rs]: the configuration types with their defaults, the
    wire format of a peer ([RawPeer]) and the validation of a configuration.
    String rendering of prefixes is the [ipnet] crate's and the YAML text serde_yaml's.
    The endpoint URIs are in [Uri]. *)

From S2P Require Import Prelude Net.
#[local] Open Scope Z_scope.

(** ** Endpoints *)

Record UdpEndpoint : Type := { udp_host : rstr; udp_port : Z }.
Record H3Endpoint : Type := { h3_host : rstr; h3_port : Z; h3_path : rstr }.
Record ApiEndpoint : Type := { api_host : rstr; api_port : Z; api_path : rstr }.

#[export] Instance UdpEndpoint_eq_dec : EqDecision UdpEndpoint.
Proof. solve_decision. Defined.
#[export] Instance H3Endpoint_eq_dec : EqDecision H3Endpoint.
Proof. solve_decision. Defined.
#[export] Instance ApiEndpoint_eq_dec : EqDecision ApiEndpoint.
Proof. solve_decision. Defined.

(** ** Tuning *)

Record IoTuning : Type := {
  packet_queue_depth : Z;
  socket_buffer_size : Z;
  tun_tx_queue_len : option Z;
  tun_enable_offload : bool;
  udp_enable_offload : bool;
  metrics_push_interval : Z;
}.

Definition IoTuning_default : IoTuning := {|
  packet_queue_depth := 256;
  socket_buffer_size := 16;
  tun_tx_queue_len := None;
  tun_enable_offload := false;
  udp_enable_offload := false;
  metrics_push_interval := from_millis 1000;
|}.

(** [IoTuning::socket_buffer_bytes] ([usize] has 64 bits). *)
Definition socket_buffer_bytes (io : IoTuning) : Z :=
  saturating_mul u64_max (socket_buffer_size io) (1024 * 1024).

Record DnsTuning : Type := {
  dns_query_timeout : Z;
  dns_refresh_interval : Z;
  dns_query_interval : Z;
  dns_min_ttl : Z;
}.

Definition DnsTuning_default : DnsTuning := {|
  dns_query_timeout := from_secs 2;
  dns_refresh_interval := from_secs 120;
  dns_query_interval := from_millis 100;
  dns_min_ttl := from_secs 300;
|}.

Record H3Tuning : Type := {
  h3_handshake_timeout : Z;
  h3_max_idle_timeout : Z;
  h3_keepalive_interval : Z;
  h3_cc_algorithm : rstr;
  h3_enable_pacing : bool;
  h3_insecure_skip_verify : bool;
  h3_trusted_ca : option rstr;
}.

Definition H3Tuning_default : H3Tuning := {|
  h3_handshake_timeout := from_secs 5;
  h3_max_idle_timeout := from_secs 60;
  h3_keepalive_interval := from_secs 20;
  h3_cc_algorithm := lit "none";
  h3_enable_pacing := false;
  h3_insecure_skip_verify := false;
  h3_trusted_ca := None;
|}.

Record Tuning : Type := {
  reconcile_interval : Z;
  reconnect_backoff_min : Z;
  reconnect_backoff_max : Z;
  metrics_log_interval : Z;
  t_io : IoTuning;
  t_dns : DnsTuning;
  t_h3 : H3Tuning;
}.

Definition Tuning_default : Tuning := {|
  reconcile_interval := from_secs 10;
  reconnect_backoff_min := from_secs 3;
  reconnect_backoff_max := from_secs 60;
  metrics_log_interval := from_secs 3;
  t_io := IoTuning_default;
  t_dns := DnsTuning_default;
  t_h3 := H3Tuning_default;
|}.

(** ** Local node and peers *)

Record LocalH3 : Type := { lh3_listen : H3Endpoint; lh3_cert : rstr; lh3_key : rstr }.
Record LocalBare : Type := { lbare_listen : UdpEndpoint }.
Record LocalDns : Type := { dns_server : SocketAddr; dns_bindif : option rstr }.
Record LocalApi : Type := { lapi_listen : ApiEndpoint }.

Record PeerH3 : Type := {
  ph3_endpoint : option H3Endpoint;
  ph3_token : rstr;
  ph3_bindif : option rstr;
  ph3_sni : option rstr;
}.
Record PeerBare : Type := { pbare_endpoint : UdpEndpoint; pbare_bindif : option rstr }.

Inductive PeerTransport : Type :=
| TransportH3 (h3 : PeerH3)
| TransportBare (bare : PeerBare).

#[export] Instance PeerH3_eq_dec : EqDecision PeerH3.
Proof. solve_decision. Defined.
#[export] Instance PeerBare_eq_dec : EqDecision PeerBare.
Proof. solve_decision. Defined.
#[export] Instance PeerTransport_eq_dec : EqDecision PeerTransport.
Proof. solve_decision. Defined.

Definition id_string (s : rstr) : rstr := s.

Section config.
Context {L : IpNetLib}.

Record LocalTun : Type := { ifname : rstr; addrs : list IpNet; mtu : Z }.
Record PeerTun : Type := { allowed_ips : list IpNet }.

Record Peer : Type := { p_id : rstr; p_transport : PeerTransport; p_tun : PeerTun }.

Record Local : Type := {
  l_table : bool;
  l_dns : LocalDns;
  l_h3 : option LocalH3;
  l_bare : option LocalBare;
  l_api : option LocalApi;
  l_tun : LocalTun;
}.

Record Config : Type := { c_local : Local; c_tuning : Tuning; c_peers : list Peer }.

#[export] Instance PeerTun_eq_dec : EqDecision PeerTun.
Proof. solve_decision. Defined.
#[export] Instance Peer_eq_dec : EqDecision Peer.
Proof. solve_decision. Defined.

(** Defaults of absent YAML fields. *)
Definition default_true : bool := true.
Definition default_dns_server : SocketAddr :=
  {| sa_ip := V4 (be_bytes [1; 1; 1; 1]); sa_port := 53 |}.
Definition default_dns : LocalDns := {| dns_server := default_dns_server; dns_bindif := None |}.
Definition default_ifname : rstr := lit "h3llo0".
Definition default_mtu : Z := 1291.
Definition MAX_H3_IPV4_MTU : Z := 1413.

(** ** The wire format of a peer *)

Record RawPeer : Type := {
  raw_id : rstr;
  raw_h3 : option PeerH3;
  raw_bare : option PeerBare;
  raw_tun : PeerTun;
}.

(** [impl TryFrom<RawPeer> for Peer]. *)
Definition peer_try_from (raw : RawPeer) : result Peer rstr :=
  match raw_h3 raw, raw_bare raw with
  | Some h3, None =>
      Ok {| p_id := raw_id raw; p_transport := TransportH3 h3; p_tun := raw_tun raw |}
  | None, Some bare =>
      Ok {| p_id := raw_id raw; p_transport := TransportBare bare; p_tun := raw_tun raw |}
  | Some _, Some _ | None, None =>
      Err (lit "peer '" ++ raw_id raw ++ lit "' must configure exactly one of h3 or bare")
  end.

(** [impl From<Peer> for RawPeer]. *)
Definition raw_from_peer (peer : Peer) : RawPeer :=
  let '(h3, bare) :=
    match p_transport peer with
    | TransportH3 h3 => (Some h3, None)
    | TransportBare bare => (None, Some bare)
    end in
  {| raw_id := p_id peer; raw_h3 := h3; raw_bare := bare; raw_tun := p_tun peer |}.

(** ** Validation errors *)

Inductive ValidationError : Type :=
| FieldMustBePositive (field : rstr)
| FieldConflict (description : rstr)
| FieldEmpty (context field : rstr)
| FieldHasWhitespace (context field : rstr)
| DuplicateValue (context field value : rstr)
| PeerTokenTooShort (peer_id : rstr)
| InvalidCcAlgorithm (algorithm : rstr).

(** [ValidationError]'s [Display]. *)
Definition validation_error_display (e : ValidationError) : rstr :=
  match e with
  | FieldMustBePositive field => field ++ lit " must be greater than 0"
  | FieldConflict description => lit "field conflict: " ++ description
  | FieldEmpty context field => context ++ lit ": " ++ field ++ lit " must not be empty"
  | FieldHasWhitespace context field =>
      context ++ lit ": " ++ field ++ lit " must not have leading or trailing whitespace"
  | DuplicateValue context field value => context ++ lit ": duplicate " ++ field ++ lit " '" ++ value ++ lit "'"
  | PeerTokenTooShort peer_id =>
      lit "peer '" ++ peer_id ++ lit "' requires h3.token of at least 12 characters when h3 is configured"
  | InvalidCcAlgorithm algorithm =>
      lit "tuning.h3_cc_algorithm '" ++ algorithm ++
      lit "' is not recognized (accepted: reno, cubic, bbr, bbr2, none)"
  end.

(** [slice.join(sep)]. *)
Fixpoint join (sep : rstr) (parts : list rstr) : rstr :=
  match parts with
  | [] => []
  | [p] => p
  | p :: parts' => p ++ sep ++ join sep parts'
  end.

(** [ValidationErrors]'s [Display]. *)
Definition validation_errors_display (errors : list ValidationError) : rstr :=
  join (lit "; ") (validation_error_display <$> errors).

(** [ConfigError]; a parse error is what serde_yaml reports. *)
Inductive ConfigError : Type :=
| Parse (e : rstr)
| Validation (errors : list ValidationError).

Definition config_error_display (e : ConfigError) : rstr :=
  match e with
  | Parse e => lit "failed to parse configuration: " ++ e
  | Validation errors => lit "validation failed: " ++ validation_errors_display errors
  end.

(** ** Checks

    [errors] is the vector the source pushes to. *)

Definition check_not_empty (is_empty : bool) (context field : rstr)
    (errors : list ValidationError) : list ValidationError :=
  if is_empty then errors ++ [FieldEmpty context field] else errors.

Definition check_unique {T} `{Countable T} (to_string : T -> rstr) (seen : gset T) (value : T)
    (context field : rstr) (errors : list ValidationError) : gset T * list ValidationError :=
  if decide (value ∈ seen) then
    (seen, errors ++ [DuplicateValue context field (to_string value)])
  else ({[value]} ∪ seen, errors).

Definition check_trimmed (value context field : rstr) (check_empty : bool)
    (errors : list ValidationError) : list ValidationError :=
  if check_empty && bool_decide (trim value = []) then errors ++ [FieldEmpty context field]
  else if decide (value <> trim value) then errors ++ [FieldHasWhitespace context field]
  else errors.

(** The mutable state of [validate_peers]'s loop. *)
Record PeerChecks : Type := {
  seen_peer_ids : gset rstr;
  seen_peer_tokens : gset rstr;
  errors : list ValidationError;
}.

(** The loop over a peer's prefixes: [seen_allowed] and the errors. *)
Definition check_allowed (ctx : rstr) (nets : list IpNet) (errors : list ValidationError) :
    list ValidationError :=
  (foldl (fun st net =>
     check_unique ipnet_to_string st.1 net ctx (lit "tun.allowed_ips") st.2)
     (∅, errors) nets).2.

(** The HTTP/3 part of one iteration. *)
Definition check_peer_h3 (id ctx : rstr) (h3 : PeerH3) (st : PeerChecks) : PeerChecks :=
  let errs :=
    if decide (str_len (ph3_token h3) < 12) then errors st ++ [PeerTokenTooShort id]
    else check_trimmed (ph3_token h3) ctx (lit "h3.token") false (errors st) in
  let '(tokens, errs) :=
    check_unique id_string (seen_peer_tokens st) (ph3_token h3) ctx (lit "h3.token") errs in
  let errs := match ph3_sni h3 with
    | Some sni => check_trimmed sni ctx (lit "h3.sni") true errs
    | None => errs end in
  let errs := match ph3_bindif h3 with
    | Some bindif => check_trimmed bindif ctx (lit "h3.bindif") false errs
    | None => errs end in
  {| seen_peer_ids := seen_peer_ids st; seen_peer_tokens := tokens; errors := errs |}.

(** One iteration of [validate_peers]. *)
Definition check_peer (st : PeerChecks) (peer : Peer) : PeerChecks :=
  let ctx := lit "peer '" ++ p_id peer ++ lit "'" in
  let errs := check_trimmed (p_id peer) ctx (lit "id") true (errors st) in
  let '(ids, errs) :=
    check_unique id_string (seen_peer_ids st) (p_id peer) ctx (lit "id") errs in
  let st :=
    {| seen_peer_ids := ids; seen_peer_tokens := seen_peer_tokens st; errors := errs |} in
  let st := match p_transport peer with
    | TransportH3 h3 => check_peer_h3 (p_id peer) ctx h3 st
    | TransportBare _ => st end in
  let nets := allowed_ips (p_tun peer) in
  let errs := check_not_empty (bool_decide (nets = [])) ctx (lit "tun.allowed_ips") (errors st) in
  {| seen_peer_ids := seen_peer_ids st; seen_peer_tokens := seen_peer_tokens st;
     errors := check_allowed ctx nets errs |}.

(** [validate_peers]. *)
Definition validate_peers (peers : list Peer) : result unit (list ValidationError) :=
  let st := foldl check_peer
    {| seen_peer_ids := ∅; seen_peer_tokens := ∅; errors := [] |} peers in
  if decide (errors st = []) then Ok tt else Err (errors st).

(** [Config::validate].  The warnings it logs leave the result alone; they are
    [validate_warnings]. *)
Definition duration_checks (t : Tuning) : list (rstr * Z) :=
  [(lit "tuning.reconcile_interval", reconcile_interval t);
   (lit "tuning.reconnect_backoff_min", reconnect_backoff_min t);
   (lit "tuning.reconnect_backoff_max", reconnect_backoff_max t);
   (lit "tuning.metrics_push_interval", metrics_push_interval (t_io t));
   (lit "tuning.metrics_log_interval", metrics_log_interval t);
   (lit "tuning.dns_query_timeout", dns_query_timeout (t_dns t));
   (lit "tuning.dns_refresh_interval", dns_refresh_interval (t_dns t));
   (lit "tuning.dns_query_interval", dns_query_interval (t_dns t));
   (lit "tuning.h3_handshake_timeout", h3_handshake_timeout (t_h3 t));
   (lit "tuning.h3_max_idle_timeout", h3_max_idle_timeout (t_h3 t));
   (lit "tuning.h3_keepalive_interval", h3_keepalive_interval (t_h3 t))].

Definition cc_algorithms : list rstr :=
  [lit "reno"; lit "cubic"; lit "bbr"; lit "bbr2"; lit "none"].

Definition validate_tuning (t : Tuning) (errs : list ValidationError) : list ValidationError :=
  let errs := if decide (packet_queue_depth (t_io t) = 0)
    then errs ++ [FieldMustBePositive (lit "tuning.packet_queue_depth")] else errs in
  let errs := foldl (fun errs fd =>
    if decide (fd.2 = 0) then errs ++ [FieldMustBePositive fd.1] else errs)
    errs (duration_checks t) in
  let errs := if decide (h3_max_idle_timeout (t_h3 t) <= h3_keepalive_interval (t_h3 t)) then
      errs ++ [FieldConflict (lit "tuning.h3_keepalive_interval (" ++
        debug_duration (h3_keepalive_interval (t_h3 t)) ++
        lit ") must be less than tuning.h3_max_idle_timeout (" ++
        debug_duration (h3_max_idle_timeout (t_h3 t)) ++ lit ")")]
    else errs in
  let errs := if decide (h3_cc_algorithm (t_h3 t) ∈ cc_algorithms) then errs
    else errs ++ [InvalidCcAlgorithm (h3_cc_algorithm (t_h3 t))] in
  if decide (reconnect_backoff_max t < reconnect_backoff_min t) then
    errs ++ [FieldConflict (lit "tuning.reconnect_backoff_min (" ++
      debug_duration (reconnect_backoff_min t) ++
      lit ") must not exceed tuning.reconnect_backoff_max (" ++
      debug_duration (reconnect_backoff_max t) ++ lit ")")]
  else errs.

Definition validate (c : Config) : result unit (list ValidationError) :=
  let errs := validate_tuning (c_tuning c) [] in
  let errs := match l_h3 (c_local c) with
    | Some h3 =>
        check_trimmed (lh3_key h3) (lit "local.h3") (lit "key") true
          (check_trimmed (lh3_cert h3) (lit "local.h3") (lit "cert") true errs)
    | None => errs end in
  let errs := check_not_empty (bool_decide (addrs (l_tun (c_local c)) = []))
    (lit "local.tun") (lit "addrs") errs in
  let errs := match validate_peers (c_peers c) with
    | Err peer_errors => errs ++ peer_errors
    | Ok _ => errs end in
  if decide (errs = []) then Ok tt else Err errs.

(** What it logs, on the way to either result. *)
Inductive ConfigWarning : Type :=
| MtuExceedsSafeMaximum (mtu : Z)
| BackoffWithinHandshake (reconnect_backoff_min h3_handshake_timeout : Z)
| TtlBelowRefresh (dns_min_ttl dns_refresh_interval recommended_min_ttl : Z).

Definition is_h3_peer (peer : Peer) : bool :=
  match p_transport peer with TransportH3 _ => true | TransportBare _ => false end.

Definition validate_warnings (c : Config) : list ConfigWarning :=
  let t := c_tuning c in
  (if existsb is_h3_peer (c_peers c) then
     (if decide (MAX_H3_IPV4_MTU < mtu (l_tun (c_local c))) then [MtuExceedsSafeMaximum (mtu (l_tun (c_local c)))] else []) ++
     (if decide (reconnect_backoff_min t <= h3_handshake_timeout (t_h3 t))
      then [BackoffWithinHandshake (reconnect_backoff_min t) (h3_handshake_timeout (t_h3 t))] else [])
   else []) ++
  let min_safe_ttl := saturating_mul duration_max (dns_refresh_interval (t_dns t)) 2 in
  if decide (dns_min_ttl (t_dns t) < min_safe_ttl)
  then [TtlBelowRefresh (dns_min_ttl (t_dns t)) (dns_refresh_interval (t_dns t)) min_safe_ttl] else [].

(** [load_from_str] and [load_from_reader]: [parsed] is what serde_yaml makes of the
    text. *)
Definition load_config (parsed : result Config rstr) : result Config ConfigError :=
  match parsed with
  | Err e => Err (Parse e)
  | Ok config =>
      match validate config with
      | Err errors => Err (Validation errors)
      | Ok _ => Ok config
      end
  end.
End config.

(** ** Specification of a valid configuration *)

Section spec.
Context {L : IpNetLib}.

Definition peer_token (peer : Peer) : option rstr :=
  match p_transport peer with TransportH3 h3 => Some (ph3_token h3) | TransportBare _ => None end.

Definition nonblank (s : rstr) : Prop := trim s <> [] /\ s = trim s.

Definition h3_valid (h3 : PeerH3) : Prop :=
  12 <= str_len (ph3_token h3) /\ ph3_token h3 = trim (ph3_token h3) /\
  (forall sni, ph3_sni h3 = Some sni -> nonblank sni) /\
  (forall b, ph3_bindif h3 = Some b -> b = trim b).

Definition peer_valid (peer : Peer) : Prop :=
  nonblank (p_id peer) /\ allowed_ips (p_tun peer) <> [] /\ NoDup (allowed_ips (p_tun peer)) /\
  match p_transport peer with TransportH3 h3 => h3_valid h3 | TransportBare _ => True end.

Definition peers_valid (peers : list Peer) : Prop :=
  Forall peer_valid peers /\ NoDup (p_id <$> peers) /\ NoDup (omap peer_token peers).

(** The intervals that must not be zero.  [dns_min_ttl] may be. *)
Definition intervals_positive (t : Tuning) : Prop :=
  reconcile_interval t <> 0 /\ reconnect_backoff_min t <> 0 /\ reconnect_backoff_max t <> 0 /\
  metrics_push_interval (t_io t) <> 0 /\ metrics_log_interval t <> 0 /\
  dns_query_timeout (t_dns t) <> 0 /\ dns_refresh_interval (t_dns t) <> 0 /\ dns_query_interval (t_dns t) <> 0 /\
  h3_handshake_timeout (t_h3 t) <> 0 /\ h3_max_idle_timeout (t_h3 t) <> 0 /\ h3_keepalive_interval (t_h3 t) <> 0.

(** The congestion control algorithms, by the names of quiche. *)
Definition known_cc (s : rstr) : Prop :=
  s = lit "reno" \/ s = lit "cubic" \/ s = lit "bbr" \/ s = lit "bbr2" \/ s = lit "none".

Definition tuning_valid (t : Tuning) : Prop :=
  packet_queue_depth (t_io t) <> 0 /\ intervals_positive t /\
  h3_keepalive_interval (t_h3 t) < h3_max_idle_timeout (t_h3 t) /\
  known_cc (h3_cc_algorithm (t_h3 t)) /\
  reconnect_backoff_min t <= reconnect_backoff_max t.

Definition config_valid (c : Config) : Prop :=
  tuning_valid (c_tuning c) /\
  (forall h3, l_h3 (c_local c) = Some h3 -> nonblank (lh3_cert h3) /\ nonblank (lh3_key h3)) /\
  addrs (l_tun (c_local c)) <> [] /\ peers_valid (c_peers c).

(** ** Lemmas: each check is silent exactly when its rule holds *)

Lemma snoc_ne_nil {A} (l : list A) x : l ++ [x] = [] <-> False.
Proof. split; [| done]. by destruct l. Qed.

Lemma check_not_empty_nil b ctx f errs :
  check_not_empty b ctx f errs = [] <-> errs = [] /\ b = false.
Proof. unfold check_not_empty. destruct b; rewrite ?snoc_ne_nil; naive_solver. Qed.

Lemma check_trimmed_nil v ctx f b errs :
  check_trimmed v ctx f b errs = [] <-> errs = [] /\ (b = true -> trim v <> []) /\ v = trim v.
Proof.
  unfold check_trimmed. destruct b; cbn; [case_bool_decide |]; try case_decide;
    rewrite ?snoc_ne_nil; try naive_solver; destruct (decide (v = trim v)); naive_solver.
Qed.

Lemma check_trimmed_nonblank v ctx f errs :
  check_trimmed v ctx f true errs = [] <-> errs = [] /\ nonblank v.
Proof. rewrite check_trimmed_nil. unfold nonblank. naive_solver. Qed.

Lemma check_unique_seen {T} `{Countable T} (ts : T -> rstr) seen v ctx f errs :
  (check_unique ts seen v ctx f errs).1 = {[v]} ∪ seen.
Proof. unfold check_unique. case_decide; cbn; set_solver. Qed.

Lemma check_unique_nil {T} `{Countable T} (ts : T -> rstr) seen v ctx f errs :
  (check_unique ts seen v ctx f errs).2 = [] <-> errs = [] /\ v ∉ seen.
Proof. unfold check_unique. case_decide; cbn; rewrite ?snoc_ne_nil; naive_solver. Qed.

Lemma check_allowed_nil ctx nets errs :
  check_allowed ctx nets errs = [] <-> errs = [] /\ NoDup nets.
Proof.
  unfold check_allowed.
  enough (forall seen, (foldl (fun st net => check_unique ipnet_to_string st.1 net ctx
       (lit "tun.allowed_ips") st.2) (seen, errs) nets).2 = [] <->
     errs = [] /\ NoDup nets /\ forall n, n ∈ nets -> n ∉ seen) as Hg
    by (rewrite Hg; set_solver).
  revert errs. induction nets as [| n nets IH]; intros errs seen; cbn [foldl].
  - cbn. pose proof (NoDup_nil_2 (A := IpNet)). set_solver.
  - rewrite (surjective_pairing (check_unique _ _ _ _ _ _)), IH, check_unique_nil, check_unique_seen.
    cbn [fst snd]. rewrite NoDup_cons. set_solver.
Qed.

Definition token_of (peer : Peer) : list rstr := option_list (peer_token peer).

(** One iteration: what it adds to the sets, and when it stays silent. *)
Lemma check_peer_seen st peer :
  seen_peer_ids (check_peer st peer) = {[p_id peer]} ∪ seen_peer_ids st /\
  seen_peer_tokens (check_peer st peer) = list_to_set (token_of peer) ∪ seen_peer_tokens st.
Proof.
  unfold check_peer, token_of, peer_token. cbv zeta.
  pose proof (check_unique_seen id_string (seen_peer_ids st) (p_id peer)) as Hs.
  destruct (check_unique id_string (seen_peer_ids st) _ _ _ _) as [ids errs] eqn:Hids.
  specialize (Hs (lit "peer '" ++ p_id peer ++ lit "'") (lit "id")
    (check_trimmed (p_id peer) (lit "peer '" ++ p_id peer ++ lit "'") (lit "id") true (errors st))).
  rewrite Hids in Hs. cbn in Hs. subst ids.
  destruct (p_transport peer) as [h3 | bare]; cbn; [| set_solver].
  unfold check_peer_h3. cbn [errors seen_peer_ids seen_peer_tokens].
  destruct (check_unique id_string (seen_peer_tokens st) _ _ _ _) as [toks errs'] eqn:Ht.
  assert (toks = {[ph3_token h3]} ∪ seen_peer_tokens st) as ->.
  { change toks with (toks, errs').1. rewrite <- Ht. apply check_unique_seen. }
  cbn. set_solver.
Qed.

Lemma check_peer_h3_nil id ctx h3 st :
  errors (check_peer_h3 id ctx h3 st) = [] <->
  errors st = [] /\ h3_valid h3 /\ ph3_token h3 ∉ seen_peer_tokens st.
Proof.
  unfold check_peer_h3, h3_valid.
  destruct (check_unique _ _ _ _ _ _) as [toks errs'] eqn:Ht. cbn [errors].
  assert (errs' = [] <-> errors st = [] /\ 12 <= str_len (ph3_token h3) /\
            ph3_token h3 = trim (ph3_token h3) /\ ph3_token h3 ∉ seen_peer_tokens st) as He.
  { change errs' with (toks, errs').2. rewrite <- Ht, check_unique_nil.
    case_decide; rewrite ?check_trimmed_nil, ?snoc_ne_nil; naive_solver lia. }
  destruct (ph3_sni h3), (ph3_bindif h3);
    rewrite ?(check_trimmed_nil _ _ (lit "h3.bindif")), ?check_trimmed_nonblank, He; naive_solver.
Qed.

Lemma check_peer_nil st peer :
  errors (check_peer st peer) = [] <->
  errors st = [] /\ peer_valid peer /\ p_id peer ∉ seen_peer_ids st /\
  (forall t, t ∈ token_of peer -> t ∉ seen_peer_tokens st).
Proof.
  unfold check_peer, peer_valid, token_of, peer_token. cbv zeta.
  destruct (check_unique id_string (seen_peer_ids st) _ _ _ _) as [ids errs] eqn:Hids.
  assert (errs = [] <-> errors st = [] /\ nonblank (p_id peer) /\ p_id peer ∉ seen_peer_ids st) as He.
  { change errs with (ids, errs).2. rewrite <- Hids, check_unique_nil, check_trimmed_nonblank. tauto. }
  cbn [errors]. rewrite check_allowed_nil, check_not_empty_nil, bool_decide_eq_false.
  destruct (p_transport peer) as [h3 | bare]; [rewrite check_peer_h3_nil |]; cbn [errors seen_peer_tokens];
    rewrite He; set_solver.
Qed.

Lemma fold_check_peer_nil peers st :
  errors (foldl check_peer st peers) = [] <->
  errors st = [] /\ peers_valid peers /\
  (forall p, p ∈ peers -> p_id p ∉ seen_peer_ids st) /\
  (forall t, t ∈ omap peer_token peers -> t ∉ seen_peer_tokens st).
Proof.
  revert st. unfold peers_valid. induction peers as [| p peers IH]; intros st; cbn [foldl].
  - cbn. pose proof (NoDup_nil_2 (A := rstr)). set_solver.
  - rewrite IH, check_peer_nil. destruct (check_peer_seen st p) as [-> ->].
    rewrite Forall_cons, fmap_cons, NoDup_cons.
    unfold token_of. cbn [omap list_omap].
    destruct (peer_token p) as [t |]; cbn [option_list list_to_set]; rewrite ?NoDup_cons;
      set_unfold; naive_solver.
Qed.

Lemma validate_peers_iff peers : validate_peers peers = Ok tt <-> peers_valid peers.
Proof.
  unfold validate_peers. cbv zeta. pose proof (fold_check_peer_nil peers
    {| seen_peer_ids := ∅; seen_peer_tokens := ∅; errors := [] |}) as H. cbn in H.
  assert (errors (foldl check_peer {| seen_peer_ids := ∅; seen_peer_tokens := ∅; errors := [] |} peers)
          = [] <-> peers_valid peers) as Hiff by (rewrite H; set_solver).
  case_decide as Hd; rewrite Hiff in Hd; naive_solver.
Qed.

Lemma fold_positive_nil l errs :
  foldl (fun errs (fd : rstr * Z) =>
    if decide (fd.2 = 0) then errs ++ [FieldMustBePositive fd.1] else errs) errs l = [] <->
  errs = [] /\ Forall (fun fd => fd.2 <> 0) l.
Proof.
  revert errs. induction l as [| fd l IH]; intros errs; cbn [foldl].
  - pose proof (Forall_nil_2 (fun fd : rstr * Z => fd.2 <> 0)). naive_solver.
  - rewrite IH, Forall_cons. case_decide; rewrite ?snoc_ne_nil; naive_solver.
Qed.

Lemma duration_checks_positive t : Forall (fun fd => fd.2 <> 0) (duration_checks t) <-> intervals_positive t.
Proof. unfold duration_checks, intervals_positive. rewrite !Forall_cons, Forall_nil. cbn. tauto. Qed.

Lemma elem_of_cc_algorithms s : s ∈ cc_algorithms <-> known_cc s.
Proof. unfold cc_algorithms, known_cc. set_solver. Qed.

Lemma validate_tuning_nil t errs : validate_tuning t errs = [] <-> errs = [] /\ tuning_valid t.
Proof.
  unfold validate_tuning, tuning_valid. cbv zeta. rewrite <- duration_checks_positive, <- elem_of_cc_algorithms.
  destruct (decide (reconnect_backoff_max t < reconnect_backoff_min t)); rewrite ?snoc_ne_nil;
    [naive_solver lia |].
  destruct (decide (h3_cc_algorithm (t_h3 t) ∈ cc_algorithms)); rewrite ?snoc_ne_nil;
    [| naive_solver].
  destruct (decide (h3_max_idle_timeout (t_h3 t) <= h3_keepalive_interval (t_h3 t)));
    rewrite ?snoc_ne_nil; [naive_solver lia |].
  rewrite fold_positive_nil. case_decide; rewrite ?snoc_ne_nil; naive_solver lia.
Qed.

Lemma validate_errs_nil c :
  (let errs := validate_tuning (c_tuning c) [] in
   let errs := match l_h3 (c_local c) with
     | Some h3 =>
         check_trimmed (lh3_key h3) (lit "local.h3") (lit "key") true
           (check_trimmed (lh3_cert h3) (lit "local.h3") (lit "cert") true errs)
     | None => errs end in
   check_not_empty (bool_decide (addrs (l_tun (c_local c)) = [])) (lit "local.tun") (lit "addrs") errs)
  = [] <->
  tuning_valid (c_tuning c) /\
  (forall h3, l_h3 (c_local c) = Some h3 -> nonblank (lh3_cert h3) /\ nonblank (lh3_key h3)) /\
  addrs (l_tun (c_local c)) <> [].
Proof.
  cbv zeta. rewrite check_not_empty_nil, bool_decide_eq_false.
  destruct (l_h3 (c_local c)); rewrite ?check_trimmed_nonblank, validate_tuning_nil; naive_solver.
Qed.

(** ** Properties *)

(** [validate] decides [config_valid]. *)
Lemma validate_iff (c : Config) : validate c = Ok tt <-> config_valid c.
Proof.
  unfold validate, config_valid. pose proof (validate_errs_nil c) as He. cbv zeta in *.
  set (errs := check_not_empty _ _ _ _) in *. pose proof (validate_peers_iff (c_peers c)) as Hp.
  destruct (validate_peers (c_peers c)) as [[] | pe] eqn:Hv.
  - assert (peers_valid (c_peers c)) by by apply Hp.
    case_decide as Hd; rewrite He in Hd; split; intros; try done; tauto.
  - assert (pe <> []) as Hne.
    { unfold validate_peers in Hv. cbv zeta in Hv. case_decide; by simplify_eq. }
    rewrite decide_False by (destruct errs; [done | by destruct pe]).
    split; [done |]. intros (_ & _ & _ & Hpv). by apply Hp in Hpv.
Qed.

(** C23: [validate] accepts exactly the configurations of [config_valid]: a queue depth
    and eleven named intervals other than zero, keepalive below the idle timeout, one of
    the five congestion control algorithms, ordered backoff bounds, a trimmed and
    non-blank certificate and key path where HTTP/3 listens, at least one TUN address,
    and a valid peer list. *)
Theorem validate_spec (c : Config) : validate c = Ok tt <-> config_valid c.
Proof. apply validate_iff. Qed.

(** [validate_peers] accepts exactly the peer lists with pairwise distinct ids
    and pairwise distinct tokens in which every peer has a trimmed non-blank id, at
    least one prefix, no repeated prefix and, over HTTP/3, a trimmed token of at
    least 12 bytes and trimmed optional fields. *)
Theorem validate_peers_spec (peers : list Peer) :
  validate_peers peers = Ok tt <-> peers_valid peers.
Proof. apply validate_peers_iff. Qed.

(** The wire format of a peer loses nothing: decoding an encoded peer gives the
    peer back, and a wire record that decodes is the encoding of the result. *)
Theorem raw_peer_roundtrip (peer : Peer) (raw : RawPeer) :
  peer_try_from (raw_from_peer peer) = Ok peer /\
  (forall p, peer_try_from raw = Ok p -> raw_from_peer p = raw) /\
  (is_ok (peer_try_from raw) = true <-> (is_Some (raw_h3 raw) <-> raw_bare raw = None)).
Proof.
  split; [by destruct peer as [? [] ?] |].
  destruct raw as [id [h3 |] [bare |] tun]; cbn; unfold is_ok; split; intros; simplify_eq; try done;
    split; try naive_solver.
Qed.
End spec.
