(* ===== verification/Channel.v ===== *)
(** * Bounded channels and backpressure

    Models the channel part of [src/src/helpers.rs]: [send_with_backpressure] and
    [batch_stats].  The channel itself is [tokio::sync::mpsc]; class [Mpsc] holds
    its operations, [MpscLaws] what tokio documents of them, and [ListChannels] a
    concrete instance.

    A [Sender] is the identity of its channel: clones of a sender are
    interchangeable, and [same_channel] compares identities. *)

From S2P Require Import Prelude.
#[local] Open Scope Z_scope.

Abbreviation Sender := nat.

Definition same_channel (a b : Sender) : bool := bool_decide (a = b).

Inductive TrySendError (V : Type) : Type :=
| Full (v : V)
| Closed (v : V).
Arguments Full {V} v.
Arguments Closed {V} v.

(** [mpsc::error::SendError]. *)
Inductive SendError (V : Type) : Type := MkSendError (v : V).
Arguments MkSendError {V} v.

(** The operations of a task on its channels.  [world] is everything the task
    does not control: the other ends of the channels, the clock and the
    scheduler; [send] returns after the other tasks made room or closed the
    channel.  [accepted] is the history of the values the channels took from this
    task, in order. *)
Class Mpsc (V : Type) : Type := {
  world : Type;
  now : world -> Z;
  is_closed : world -> Sender -> bool;
  accepted : world -> list (Sender * V);
  try_send : world -> Sender -> V -> result unit (TrySendError V) * world;
  send : world -> Sender -> V -> result unit (SendError V) * world;
}.

(** [w'] is a later world in which exactly the sends [l] of this task happened. *)
Definition sent {V} {M : Mpsc V} (w : world) (l : list (Sender * V)) (w' : world) : Prop :=
  accepted w' = accepted w ++ l /\ now w <= now w' /\
  (forall tx, is_closed w tx = true -> is_closed w' tx = true).

(** The messages on one channel of a log of sends. *)
Definition messages {A} (tx : Sender) (log : list (Sender * A)) : list A :=
  omap (fun '(tx', v) => if decide (tx' = tx) then Some v else None) log.

Class MpscLaws {V} (M : Mpsc V) : Prop := {
  try_send_law w tx v :
    match try_send w tx v with
    | (Ok _, w') => sent w [(tx, v)] w'
    | (Err e, w') => sent w [] w' /\ (e = Full v \/ e = Closed v /\ is_closed w' tx = true)
    end;
  send_law w tx v :
    match send w tx v with
    | (Ok _, w') => sent w [(tx, v)] w'
    | (Err e, w') => sent w [] w' /\ e = MkSendError v /\ is_closed w' tx = true
    end;
}.

Inductive SendEvent : Type :=
| Fast
| FullEvent
| Waited (d : Z).

(** [start.elapsed()] at time [t]. *)
Definition elapsed (start t : Z) : Z := Z.max 0 (t - start).

(** [batch_stats(batch)]: packets and bytes of a batch. *)
Definition batch_stats (batch : list (list Z)) : Z * Z :=
  (zlen batch, foldr (fun p n => zlen p + n) 0 batch).

Section send.
Context {V : Type} {M : Mpsc V} {S : Type}.

(** [send_with_backpressure(tx, value, on_event)]: [S] is the state the callback
    mutates. *)
Definition send_with_backpressure (w : world) (tx : Sender) (value : V)
    (on_event : SendEvent -> S -> S) (s : S) : result unit (SendError V) * S * world :=
  match try_send w tx value with
  | (Ok _, w) => (Ok tt, on_event Fast s, w)
  | (Err (Full val), w) =>
      let s := on_event FullEvent s in
      let start := now w in
      match send w tx val with
      | (Ok _, w) => (Ok tt, on_event (Waited (elapsed start (now w))) s, w)
      | (Err (MkSendError val), w) => (Err (MkSendError val), s, w)
      end
  | (Err (Closed val), w) => (Err (MkSendError val), s, w)
  end.
End send.

(** ** A concrete instance: every channel has a free slot unless it is closed or
    [busy]; a busy channel makes the sender wait for one time unit. *)
Module ListChannels.
Section channels.
Context {V : Type}.

Record state : Type := {
  clock : Z;
  log : list (Sender * V);
  closed : list Sender;
  busy : list Sender;
}.

Definition push (s : state) (tx : Sender) (v : V) (dt : Z) : state :=
  {| clock := clock s + dt; log := log s ++ [(tx, v)]; closed := closed s; busy := busy s |}.

#[export] Instance lib : Mpsc V := {|
  world := state;
  now := clock;
  is_closed s tx := bool_decide (tx ∈ closed s);
  accepted := log;
  try_send s tx v :=
    if decide (tx ∈ closed s) then (Err (Closed v), s)
    else if decide (tx ∈ busy s) then (Err (Full v), s)
    else (Ok tt, push s tx v 0);
  send s tx v :=
    if decide (tx ∈ closed s) then (Err (MkSendError v), s)
    else (Ok tt, push s tx v 1);
|}.

Definition empty : state := {| clock := 0; log := []; closed := []; busy := [] |}.
End channels.
Arguments state V : clear implicits.
End ListChannels.

(** ** Limits *)

(** tokio: [mpsc::channel] and [time::interval] panic on arguments out of range. *)
Class TokioLib : Type := {
  max_permits : Z;
  mpsc_channel : Z -> outcome unit;
  interval : Z -> outcome unit;
}.

Class TokioLaws (K : TokioLib) : Prop := {
  mpsc_channel_law n : n <> 0 -> n <= max_permits -> mpsc_channel n = Ret tt;
  interval_law p : p <> 0 -> interval p = Ret tt;
}.

Module PanickyTokio.
#[export] Instance lib : TokioLib := {|
  max_permits := 2305843009213693951;
  mpsc_channel n := if decide (n <> 0 /\ n <= 2305843009213693951) then Ret tt else Panic;
  interval p := if decide (p = 0) then Panic else Ret tt;
|}.
End PanickyTokio.

#[export] Instance PanickyTokio_laws : TokioLaws PanickyTokio.lib.
Proof. split; cbn -[Z.le]; intros; [by rewrite decide_True | by rewrite decide_False]. Qed.

(** ** Lemmas *)

Section laws.
Context {V : Type} {M : Mpsc V} {HM : MpscLaws M}.

Lemma sent_refl w : sent w [] w.
Proof. unfold sent. rewrite app_nil_r. split_and!; auto; lia. Qed.

Lemma sent_trans w1 l1 w2 l2 w3 : sent w1 l1 w2 -> sent w2 l2 w3 -> sent w1 (l1 ++ l2) w3.
Proof.
  unfold sent. intros (-> & ? & ?) (-> & ? & ?). rewrite app_assoc. split_and!; auto; lia.
Qed.

Lemma sent_open w l w' tx : sent w l w' -> is_closed w' tx = false -> is_closed w tx = false.
Proof.
  intros (_ & _ & Hc) Hf. destruct (is_closed w tx) eqn:E; [| done]. apply Hc in E. congruence.
Qed.

Lemma sent_accepted w l w' : sent w l w' -> accepted w' = accepted w ++ l.
Proof. by intros [? _]. Qed.

(** What a backpressured send does: on success the value, and only it, is
    accepted, on failure nothing is and the channel is closed. *)
Lemma send_with_backpressure_spec {S} w tx v (f : SendEvent -> S -> S) s r s' w' :
  send_with_backpressure w tx v f s = (r, s', w') ->
  match r with
  | Ok _ => sent w [(tx, v)] w' /\ (s' = f Fast s \/ exists d, 0 <= d /\ s' = f (Waited d) (f FullEvent s))
  | Err e => e = MkSendError v /\ sent w [] w' /\ is_closed w' tx = true /\
             (s' = s \/ s' = f FullEvent s)
  end.
Proof.
  unfold send_with_backpressure. intros H.
  pose proof (try_send_law w tx v) as Ht. destruct (try_send w tx v) as [[u | [x | x]] w1].
  - simplify_eq. auto.
  - destruct Ht as [Ht [Hx | [Hx _]]]; [| done]. simplify_eq.
    pose proof (send_law w1 tx v) as Hs. destruct (send w1 tx v) as [[u | [x]] w2]; simplify_eq.
    + split; [by apply (sent_trans _ _ _ _ _ Ht Hs) |]. right. eexists.
      split; [| done]. unfold elapsed. lia.
    + destruct Hs as (Hs & [= ->] & Hc). split_and!; auto. by apply (sent_trans _ _ _ _ _ Ht Hs).
  - destruct Ht as [Ht [Hx | [Hx Hc]]]; [done |]. simplify_eq. auto.
Qed.
End laws.

Lemma batch_stats_cons p batch :
  batch_stats (p :: batch) = (1 + (batch_stats batch).1, zlen p + (batch_stats batch).2).
Proof. unfold batch_stats. cbn. by rewrite zlen_cons. Qed.

Lemma batch_stats_app b1 b2 :
  batch_stats (b1 ++ b2) =
  ((batch_stats b1).1 + (batch_stats b2).1, (batch_stats b1).2 + (batch_stats b2).2).
Proof.
  induction b1 as [| p b1 IH]; [cbn; by destruct (batch_stats b2) as [] eqn:E; unfold batch_stats in *; simplify_eq |].
  cbn [app]. rewrite !batch_stats_cons, IH. cbn [fst snd]. f_equal; lia.
Qed.

Lemma batch_stats_one p : batch_stats [p] = (1, zlen p).
Proof. rewrite batch_stats_cons. unfold batch_stats. cbn. f_equal; lia. Qed.

Lemma batch_stats_nonneg b : 0 <= (batch_stats b).1 /\ 0 <= (batch_stats b).2.
Proof.
  induction b as [| p b IH]; [by cbn |]. rewrite batch_stats_cons. cbn [fst snd].
  pose proof (zlen_nonneg p). lia.
Qed.

#[export] Hint Resolve sent_refl : h3.

#[export] Instance ListChannels_laws {V} : MpscLaws (@ListChannels.lib V).
Proof.
  split; intros w tx v; cbn; unfold ListChannels.push; unfold sent; cbn.
  - repeat case_decide; cbn; rewrite ?app_nil_r, ?bool_decide_eq_true; naive_solver lia.
  - case_decide; cbn; rewrite ?app_nil_r, ?bool_decide_eq_true; naive_solver lia.
Qed.
