(* ===== verification/Metrics.v ===== *)
(** * Metrics

    Models the counters of [src/src/metrics.rs]: the data model ([Source],
    [Direction], [DropReason], [PktCounters], [CongestionStats], [Stats],
    [Labels], [Metrics]) and the operations of [Counters].  Counters are 64-bit and
    saturate.  The log lines and the Prometheus text are in [Scrape]. *)

From S2P Require Import Prelude Net Channel.
#[local] Open Scope Z_scope.

Inductive Source : Type := Tun | BareUdp | Http3 | Router.
Inductive Direction : Type := Rx | Tx.

Inductive DropReason : Type :=
| Oversize | DisallowedSource | SendErr | QuicError | ChannelClosed | InvalidIpVersion
| InvalidFraming | NoRoute | NoPeerChannel | NoHeadroom | QueueFull | TtlExpired.

#[export] Instance Source_eq_dec : EqDecision Source.
Proof. solve_decision. Defined.
#[export] Instance Direction_eq_dec : EqDecision Direction.
Proof. solve_decision. Defined.
#[export] Instance DropReason_eq_dec : EqDecision DropReason.
Proof. solve_decision. Defined.

(** The order [EnumMap] iterates in. *)
Definition drop_reason_values : list DropReason :=
  [Oversize; DisallowedSource; SendErr; QuicError; ChannelClosed; InvalidIpVersion;
   InvalidFraming; NoRoute; NoPeerChannel; NoHeadroom; QueueFull; TtlExpired].

Record CongestionStats : Type := {
  queue_full_count : Z;
  queue_full_duration : Z;
  would_block_count : Z;
  would_block_duration : Z;
}.

Definition congestion_default : CongestionStats :=
  {| queue_full_count := 0; queue_full_duration := 0;
     would_block_count := 0; would_block_duration := 0 |}.

(** [CongestionStats::record_queue_full] and [record_would_block]. *)
Definition congestion_record_queue_full (c : CongestionStats) (wait : Z) : CongestionStats :=
  {| queue_full_count := saturating_add u64_max (queue_full_count c) 1;
     queue_full_duration := saturating_add duration_max (queue_full_duration c) wait;
     would_block_count := would_block_count c;
     would_block_duration := would_block_duration c |}.

Definition congestion_record_would_block (c : CongestionStats) (wait : Z) : CongestionStats :=
  {| queue_full_count := queue_full_count c;
     queue_full_duration := queue_full_duration c;
     would_block_count := saturating_add u64_max (would_block_count c) 1;
     would_block_duration := saturating_add duration_max (would_block_duration c) wait |}.

Record PktCounters : Type := { batches : Z; packets : Z; bytes : Z }.

Definition pkt_default : PktCounters := {| batches := 0; packets := 0; bytes := 0 |}.

(** [PktCounters::record]. *)
Definition record (c : PktCounters) (count total_bytes : Z) : PktCounters :=
  {| batches := saturating_add u64_max (batches c) 1;
     packets := saturating_add u64_max (packets c) count;
     bytes := saturating_add u64_max (bytes c) total_bytes |}.

(** [drop_reasons] is an [EnumMap]: a value for every reason. *)
Record Stats : Type := {
  succeeded : PktCounters;
  dropped : PktCounters;
  drop_reasons : DropReason -> PktCounters;
  congestion : CongestionStats;
}.

Definition stats_default : Stats :=
  {| succeeded := pkt_default; dropped := pkt_default;
     drop_reasons := fun _ => pkt_default; congestion := congestion_default |}.

Record Labels : Type := {
  lab_source : Source;
  lab_direction : Direction;
  lab_peer_id : option rstr;
  lab_remote_addr : option SocketAddr;
}.

#[export] Instance Labels_eq_dec : EqDecision Labels.
Proof. solve_decision. Defined.

Record Metrics : Type := { m_labels : Labels; m_stats : Stats }.

Record Counters : Type := { source : Source; direction : Direction; stats : Stats }.

(** [Counters::new]. *)
Definition counters_new (s : Source) (d : Direction) : Counters :=
  {| source := s; direction := d; stats := stats_default |}.

Definition set_stats (c : Counters) (st : Stats) : Counters :=
  {| source := source c; direction := direction c; stats := st |}.

Definition record_success (c : Counters) (count total_bytes : Z) : Counters :=
  let st := stats c in
  set_stats c {| succeeded := record (succeeded st) count total_bytes; dropped := dropped st;
                 drop_reasons := drop_reasons st; congestion := congestion st |}.

Definition record_drop (c : Counters) (reason : DropReason) (count total_bytes : Z) : Counters :=
  let st := stats c in
  set_stats c {| succeeded := succeeded st; dropped := record (dropped st) count total_bytes;
                 drop_reasons := fun r => if decide (r = reason)
                   then record (drop_reasons st r) count total_bytes else drop_reasons st r;
                 congestion := congestion st |}.

Definition record_queue_full (c : Counters) (dur : Z) : Counters :=
  let st := stats c in
  set_stats c {| succeeded := succeeded st; dropped := dropped st;
                 drop_reasons := drop_reasons st;
                 congestion := congestion_record_queue_full (congestion st) dur |}.

(** The callback both senders of the data plane pass to [send_with_backpressure]. *)
Definition on_send_event (e : SendEvent) (c : Counters) : Counters :=
  match e with Waited waited => record_queue_full c waited | Fast | FullEvent => c end.

(** [Counters::send_and_record]. *)
Definition send_and_record {V} {M : Mpsc V} (c : Counters) (w : world) (tx : Sender) (value : V)
    (count nbytes : Z) : bool * Counters * world :=
  match send_with_backpressure w tx value on_send_event c with
  | (Err _, c, w) => (false, record_drop c ChannelClosed count nbytes, w)
  | (Ok _, c, w) => (true, record_success c count nbytes, w)
  end.

(** [Counters::snapshot]. *)
Definition snapshot (c : Counters) (peer_id : option rstr) (remote : option SocketAddr) : Metrics :=
  {| m_labels := {| lab_source := source c; lab_direction := direction c;
                    lab_peer_id := peer_id; lab_remote_addr := remote |};
     m_stats := stats c |}.

(** ** Accounting

    The sum over the reasons of one of the three drop counters. *)
Definition reason_total (f : PktCounters -> Z) (st : Stats) : Z :=
  foldr (fun r n => f (drop_reasons st r) + n) 0 drop_reason_values.

(** The total of [dropped] is the total over the reasons, up to saturation. *)
Definition balanced (st : Stats) : Prop :=
  batches (dropped st) = Z.min u64_max (reason_total batches st) /\
  packets (dropped st) = Z.min u64_max (reason_total packets st) /\
  bytes (dropped st) = Z.min u64_max (reason_total bytes st).

Definition pkt_wf (c : PktCounters) : Prop :=
  0 <= batches c <= u64_max /\ 0 <= packets c <= u64_max /\ 0 <= bytes c <= u64_max.

Definition congestion_wf (c : CongestionStats) : Prop :=
  0 <= queue_full_count c <= u64_max /\ 0 <= queue_full_duration c <= duration_max /\
  0 <= would_block_count c <= u64_max /\ 0 <= would_block_duration c <= duration_max.

Definition stats_wf (st : Stats) : Prop :=
  pkt_wf (succeeded st) /\ pkt_wf (dropped st) /\ (forall r, pkt_wf (drop_reasons st r)) /\
  congestion_wf (congestion st) /\ balanced st.

(** The recording operations, as data. *)
Inductive CounterOp : Type :=
| OpSuccess (count nbytes : Z)
| OpDrop (reason : DropReason) (count nbytes : Z)
| OpQueueFull (dur : Z)
| OpWouldBlock (dur : Z).

(** [CongestionStats::record_would_block] on the counters' own statistics. *)
Definition record_would_block (c : Counters) (dur : Z) : Counters :=
  let st := stats c in
  set_stats c {| succeeded := succeeded st; dropped := dropped st;
                 drop_reasons := drop_reasons st;
                 congestion := congestion_record_would_block (congestion st) dur |}.

Definition run_op (c : Counters) (op : CounterOp) : Counters :=
  match op with
  | OpSuccess n b => record_success c n b
  | OpDrop r n b => record_drop c r n b
  | OpQueueFull d => record_queue_full c d
  | OpWouldBlock d => record_would_block c d
  end.

Definition op_wf (op : CounterOp) : Prop :=
  match op with
  | OpSuccess n b | OpDrop _ n b => 0 <= n /\ 0 <= b
  | OpQueueFull d | OpWouldBlock d => 0 <= d
  end.

(** Packets a sequence of operations accounts for. *)
Definition op_packets (ops : list CounterOp) : Z :=
  foldr (fun op n => match op with OpSuccess k _ | OpDrop _ k _ => k + n | _ => n end) 0 ops.

(** How often the operations waited for a full queue, and for a device. *)
Definition op_queue_full (ops : list CounterOp) : Z :=
  foldr (fun op n => match op with OpQueueFull _ => 1 + n | _ => n end) 0 ops.

Definition op_would_block (ops : list CounterOp) : Z :=
  foldr (fun op n => match op with OpWouldBlock _ => 1 + n | _ => n end) 0 ops.

(** Packets the operations count as dropped for [r]. *)
Definition op_reason (r : DropReason) (ops : list CounterOp) : Z :=
  foldr (fun op n => match op with OpDrop r' k _ => (if decide (r' = r) then k else 0) + n | _ => n end) 0 ops.

Lemma queue_full_wf c d : congestion_wf c -> 0 <= d -> congestion_wf (congestion_record_queue_full c d).
Proof. unfold congestion_wf, congestion_record_queue_full, saturating_add. cbn. lia. Qed.

Lemma would_block_wf c d : congestion_wf c -> 0 <= d -> congestion_wf (congestion_record_would_block c d).
Proof. unfold congestion_wf, congestion_record_would_block, saturating_add. cbn. lia. Qed.

Lemma record_wf c n b : pkt_wf c -> 0 <= n -> 0 <= b -> pkt_wf (record c n b).
Proof. unfold pkt_wf, record, saturating_add. cbn. lia. Qed.

Lemma drop_reason_values_NoDup : NoDup drop_reason_values.
Proof. unfold drop_reason_values. repeat constructor; set_solver. Qed.

Lemma elem_of_drop_reason_values r : r ∈ drop_reason_values.
Proof. unfold drop_reason_values. destruct r; set_solver. Qed.

(** Changing the summand of one reason. *)
Lemma sum_reasons_update (g g' : DropReason -> Z) r l :
  NoDup l -> (forall q, q <> r -> g' q = g q) ->
  foldr (fun q n => g' q + n) 0 l =
  foldr (fun q n => g q + n) 0 l + if decide (r ∈ l) then g' r - g r else 0.
Proof.
  intros Hl Hg. induction Hl as [| q l Hq Hl IH]; cbn [foldr]; [by rewrite decide_False by set_solver |].
  rewrite IH. destruct (decide (q = r)) as [-> | Hne].
  - rewrite decide_False by done. rewrite decide_True by set_solver. lia.
  - rewrite Hg by done. destruct (decide (r ∈ l)); [rewrite decide_True by set_solver | rewrite decide_False by set_solver]; lia.
Qed.

Lemma sum_reasons_ge (g : DropReason -> Z) r l :
  (forall q, 0 <= g q) -> r ∈ l -> g r <= foldr (fun q n => g q + n) 0 l.
Proof.
  intros Hg. induction l as [| q l IH]; intros Hr; [set_solver |]. cbn [foldr].
  assert (0 <= foldr (fun q n => g q + n) 0 l)
    by (clear -Hg; induction l as [| x l IHl]; cbn; [| specialize (Hg x)]; lia).
  apply elem_of_cons in Hr as [-> | Hr]; [| specialize (IH Hr)]; specialize (Hg q); lia.
Qed.

(** Recording under one reason raises one summand of the saturated total. *)
Lemma reason_total_drop (f : PktCounters -> Z) st st' r x d :
  (forall q, 0 <= f (drop_reasons st q) <= u64_max) -> 0 <= d ->
  (forall q, f (drop_reasons st' q) =
     if decide (q = r) then saturating_add u64_max (f (drop_reasons st q)) d
     else f (drop_reasons st q)) ->
  x = Z.min u64_max (reason_total f st) ->
  saturating_add u64_max x d = Z.min u64_max (reason_total f st').
Proof.
  intros Hb Hd Hst ->. unfold reason_total.
  rewrite (sum_reasons_update (fun q => f (drop_reasons st q)) (fun q => f (drop_reasons st' q)) r);
    [| apply drop_reason_values_NoDup | by intros q Hq; rewrite Hst, decide_False].
  rewrite decide_True by apply elem_of_drop_reason_values. rewrite Hst, decide_True by done.
  pose proof (sum_reasons_ge (fun q => f (drop_reasons st q)) r drop_reason_values
    (fun q => proj1 (Hb q)) (elem_of_drop_reason_values r)).
  pose proof (Hb r). cbn beta in *. unfold saturating_add. lia.
Qed.

Lemma run_op_wf c op : op_wf op -> stats_wf (stats c) -> stats_wf (stats (run_op c op)).
Proof.
  intros Hop (Hs & Hd & Hr & Hg & Hb). destruct op as [n b | r n b | d | d]; cbn in Hop; destruct_and?.
  - split; [by apply record_wf |]. by split.
  - unfold stats_wf, balanced in *; cbn -[reason_total]. destruct Hb as (Hb1 & Hb2 & Hb3).
    split; [done |]. split; [by apply record_wf |]. split.
    { intros q. case_decide; [by apply record_wf | done]. }
    split; [done |]. split_and!; (eapply reason_total_drop with (r := r) (st := stats c);
      [intros q; pose proof (Hr q); unfold pkt_wf in *; lia | lia
      | intros q; cbn; by case_decide | done]).
  - split; [done |]. split; [done |]. split; [done |]. split; [by apply queue_full_wf | done].
  - split; [done |]. split; [done |]. split; [done |]. split; [by apply would_block_wf | done].
Qed.

(** The waits are counted. *)
Lemma run_ops_waits c ops :
  Forall op_wf ops -> congestion_wf (congestion (stats c)) ->
  let g := congestion (stats (foldl run_op c ops)) in
  queue_full_count g = Z.min u64_max (queue_full_count (congestion (stats c)) + op_queue_full ops) /\
  would_block_count g = Z.min u64_max (would_block_count (congestion (stats c)) + op_would_block ops).
Proof.
  unfold op_queue_full, op_would_block. intros Hops. revert c.
  assert (Hnn : forall ops, 0 <= foldr (fun op n => match op with OpQueueFull _ => 1 + n | _ => n end) 0 ops /\
    0 <= foldr (fun op n => match op with OpWouldBlock _ => 1 + n | _ => n end) 0 ops)
    by (clear; induction ops as [| [] ops IH]; cbn; lia).
  induction Hops as [| op ops Hop _ IH]; intros c Hc; [unfold congestion_wf in Hc; cbn; lia |].
  cbn [foldl]. destruct (IH (run_op c op)) as [-> ->].
  { destruct op; [done | done | by apply queue_full_wf | by apply would_block_wf]. }
  specialize (Hnn ops). unfold congestion_wf in Hc. cbn [foldr].
  destruct op; cbn [run_op record_success record_drop record_queue_full record_would_block set_stats stats congestion
    congestion_record_queue_full congestion_record_would_block queue_full_count would_block_count];
    unfold saturating_add; lia.
Qed.

Lemma stats_default_wf : stats_wf stats_default.
Proof.
  unfold stats_wf, balanced, pkt_wf, congestion_wf. split_and!; try intros r; by vm_compute.
Qed.

Lemma run_ops_wf c ops :
  Forall op_wf ops -> stats_wf (stats c) -> stats_wf (stats (foldl run_op c ops)).
Proof.
  intros Hops. revert c. induction Hops as [| op ops Hop Hops IH]; intros c Hc; cbn; [done |].
  apply IH. by apply run_op_wf.
Qed.

Lemma op_packets_nonneg ops : Forall op_wf ops -> 0 <= op_packets ops.
Proof. unfold op_packets. induction 1 as [| [] ops Hop ? IH]; cbn in *; lia. Qed.

Lemma op_packets_cons op ops :
  op_packets (op :: ops) =
  match op with OpSuccess k _ | OpDrop _ k _ => k + op_packets ops | _ => op_packets ops end.
Proof. by destruct op. Qed.

Lemma run_ops_packets c ops :
  Forall op_wf ops -> stats_wf (stats c) ->
  packets (succeeded (stats c)) + packets (dropped (stats c)) + op_packets ops <= u64_max ->
  packets (succeeded (stats (foldl run_op c ops))) + packets (dropped (stats (foldl run_op c ops))) =
  packets (succeeded (stats c)) + packets (dropped (stats c)) + op_packets ops.
Proof.
  intros Hops. revert c. induction Hops as [| op ops Hop Hops IH]; intros c Hc Hle; [cbn; lia |].
  pose proof (op_packets_nonneg ops Hops) as Hnn. pose proof Hc as (Hs & Hd & _).
  unfold pkt_wf in Hs, Hd. rewrite op_packets_cons in *. cbn [foldl].
  assert (packets (succeeded (stats (run_op c op))) + packets (dropped (stats (run_op c op))) =
          packets (succeeded (stats c)) + packets (dropped (stats c)) +
          match op with OpSuccess k _ | OpDrop _ k _ => k | _ => 0 end) as Hstep.
  { destruct op; cbn in *; unfold saturating_add; lia. }
  rewrite IH; [destruct op; lia | by apply run_op_wf | destruct op; lia].
Qed.

Lemma op_reason_app r o1 o2 : op_reason r (o1 ++ o2) = op_reason r o1 + op_reason r o2.
Proof.
  unfold op_reason. induction o1 as [| [] o1 IH]; cbn; [done | done | | done | done]. rewrite IH. lia.
Qed.

Lemma op_packets_app o1 o2 : op_packets (o1 ++ o2) = op_packets o1 + op_packets o2.
Proof. unfold op_packets. induction o1 as [| [] o1 IH]; cbn; lia. Qed.

(** Waiting operations leave the packet counts alone. *)
Definition waits (ops : list CounterOp) : Prop :=
  Forall (fun op => match op with OpQueueFull d | OpWouldBlock d => 0 <= d | _ => False end) ops.

Lemma waits_wf ops : waits ops -> Forall op_wf ops.
Proof. intros H. eapply Forall_impl; [exact H |]. by intros []. Qed.

Lemma waits_packets ops : waits ops -> op_packets ops = 0.
Proof. unfold op_packets. induction 1 as [| [] ops]; cbn; done. Qed.

Lemma waits_reason r ops : waits ops -> op_reason r ops = 0.
Proof. unfold op_reason. induction 1 as [| [] ops]; cbn; done. Qed.

Section sends.
Context {V : Type} {M : Mpsc V} {HM : MpscLaws M}.

Lemma send_with_backpressure_ops w tx v c r c' w' :
  send_with_backpressure w tx v on_send_event c = (r, c', w') ->
  exists qs, waits qs /\ c' = foldl run_op c qs /\
    match r with
    | Ok _ => sent w [(tx, v)] w'
    | Err _ => sent w [] w' /\ is_closed w' tx = true
    end.
Proof.
  intros H. apply send_with_backpressure_spec in H. destruct r as [u | e].
  - destruct H as [Hs [-> | (d & Hd & ->)]].
    + exists []. split_and!; [constructor | done | done].
    + exists [OpQueueFull d]. split_and!; [by repeat constructor | done | done].
  - destruct H as (_ & Hs & Hc & Hc'). exists []. split_and!; [constructor | | done | done].
    by destruct Hc' as [-> | ->].
Qed.

Lemma send_and_record_ops c w tx v n b ok c' w' :
  send_and_record c w tx v n b = (ok, c', w') ->
  exists qs, waits qs /\
    c' = foldl run_op c (qs ++ [if ok : bool then OpSuccess n b else OpDrop ChannelClosed n b]) /\
    if ok then sent w [(tx, v)] w' else sent w [] w' /\ is_closed w' tx = true.
Proof.
  unfold send_and_record. destruct (send_with_backpressure w tx v on_send_event c) as [[r c1] w1] eqn:Hs.
  apply send_with_backpressure_ops in Hs as (qs & Hq & -> & Hr).
  destruct r; intros; simplify_eq; exists qs; rewrite foldl_app; auto.
Qed.
End sends.

(** ** Properties *)

(** C38: whatever sequence of successes, drops and waits, for a full queue or a blocked
    device, a component records, every packet and wait counter stays within 64 bits and
    the waiting times within [Duration]'s range; the drop total is the sum over the drop
    reasons, and the wait counters are the numbers of waits, up to saturation; and while
    the packets add up to less than 2^64, succeeded plus dropped is exactly the number
    of packets recorded. *)
Theorem counters_balanced (s : Source) (d : Direction) (ops : list CounterOp) :
  Forall op_wf ops ->
  let st := stats (foldl run_op (counters_new s d) ops) in
  stats_wf st /\
  queue_full_count (congestion st) = Z.min u64_max (op_queue_full ops) /\
  would_block_count (congestion st) = Z.min u64_max (op_would_block ops) /\
  (op_packets ops <= u64_max -> packets (succeeded st) + packets (dropped st) = op_packets ops).
Proof.
  intros Hops st. split; [apply run_ops_wf; [done | apply stats_default_wf] |].
  destruct (run_ops_waits (counters_new s d) ops Hops) as [Hq Hw]; [apply stats_default_wf |].
  split; [exact Hq |]. split; [exact Hw |].
  intros Hle. unfold st. rewrite run_ops_packets; [done | done | apply stats_default_wf |]. cbn. lia.
Qed.

Lemma counters_balanced_witness :
  let ops := [OpSuccess 3 300; OpDrop NoRoute 2 80; OpQueueFull 5; OpWouldBlock 7; OpDrop TtlExpired 1 40] in
  let st := stats (foldl run_op (counters_new Router Rx) ops) in
  stats_wf st /\ would_block_count (congestion st) = 1 /\ packets (succeeded st) + packets (dropped st) = 6.
Proof.
  intros ops st. destruct (counters_balanced Router Rx ops) as (Hwf & _ & Hw & Hp).
  - unfold ops. repeat constructor; cbn; lia.
  - split; [exact Hwf |]. split; [exact Hw | apply Hp; vm_compute; discriminate].
Defined.
