(* ===== verification/Routing.v ===== *)
(** * Routing table

    Models the routing table of [src/src/router.rs] ([RouteEntry], [RouteMatch],
    [RoutingError], [RoutingTable] with [make], [insert], [lookup] and [len]) over the prefix trie interface of [Net].  The reference it is
    compared with is the flat list of claims: the prefixes of the peers that have
    a channel, in order, followed by the local host routes. *)

From S2P Require Import Prelude Net Config Channel.
#[local] Open Scope Z_scope.

Definition LOCAL_PEER_ID : rstr := lit "__local__".

Record RouteEntry : Type := { re_peer_id : rstr; re_tx : Sender }.

Section routing.
Context {L : IpNetLib} {T : TrieLib L}.

Record RouteMatch : Type := { rm_prefix : IpNet; rm_peer_id : rstr; rm_tx : Sender }.

Inductive RoutingError : Type :=
| ConflictingPrefix (prefix : IpNet) (existing_peer_id new_peer_id : rstr).

Definition RoutingTable : Type := IpnetTrie RouteEntry.

(** [RoutingTable::new]. *)
Definition routing_new : RoutingTable := trie_new.

(** [RoutingTable::insert]. *)
Definition routing_insert (t : RoutingTable) (prefix : IpNet) (entry : RouteEntry) :
    result RoutingTable RoutingError :=
  match trie_exact_match t prefix with
  | Some existing =>
      if decide (re_peer_id existing = re_peer_id entry) then Ok t
      else Err (ConflictingPrefix prefix (re_peer_id existing) (re_peer_id entry))
  | None => Ok (trie_insert t prefix entry)
  end.

(** The loop of [make] over one peer's prefixes, and over the peers. *)
Fixpoint insert_allowed (t : RoutingTable) (id : rstr) (tx : Sender) (nets : list IpNet) :
    result RoutingTable RoutingError :=
  match nets with
  | [] => Ok t
  | net :: nets' =>
      match routing_insert t net {| re_peer_id := id; re_tx := tx |} with
      | Ok t' => insert_allowed t' id tx nets'
      | Err e => Err e
      end
  end.

Fixpoint insert_peers (t : RoutingTable) (peer_txs : gmap rstr Sender) (peers : list Peer) :
    result RoutingTable RoutingError :=
  match peers with
  | [] => Ok t
  | peer :: peers' =>
      match peer_txs !! p_id peer with
      | None => insert_peers t peer_txs peers'
      | Some tx =>
          match insert_allowed t (p_id peer) tx (allowed_ips (p_tun peer)) with
          | Ok t' => insert_peers t' peer_txs peers'
          | Err e => Err e
          end
      end
  end.

(** The loop of [make] over the local addresses: a failed insert is logged. *)
Definition insert_local (t : RoutingTable) (input_tx : Sender) (addrs : list IpNet) : RoutingTable :=
  foldl (fun t addr =>
    match routing_insert t (ipnet_from (ipnet_addr addr))
            {| re_peer_id := LOCAL_PEER_ID; re_tx := input_tx |} with
    | Ok t' => t'
    | Err _ => t
    end) t addrs.

(** [RoutingTable::make]. *)
Definition routing_make (peers : list Peer) (peer_txs : gmap rstr Sender) (local_tun : LocalTun)
    (input_tx : Sender) : result RoutingTable RoutingError :=
  match insert_peers routing_new peer_txs peers with
  | Ok t => Ok (insert_local t input_tx (addrs local_tun))
  | Err e => Err e
  end.

(** [RoutingTable::lookup]. *)
Definition routing_lookup (t : RoutingTable) (addr : IpAddr) : option RouteMatch :=
  (fun '(prefix, entry) =>
     {| rm_prefix := prefix; rm_peer_id := re_peer_id entry; rm_tx := re_tx entry |})
    <$> trie_longest_match t (ipnet_from addr).

(** [RoutingTable::len]. *)
Definition routing_len (t : RoutingTable) : nat * nat := trie_len t.

(** ** The reference: a list of claims *)

Abbreviation claim := (IpNet * RouteEntry)%type.

Definition peer_claims (peer_txs : gmap rstr Sender) (peers : list Peer) : list claim :=
  peer ← peers;
  match peer_txs !! p_id peer with
  | Some tx => (fun net => (net, {| re_peer_id := p_id peer; re_tx := tx |})) <$> allowed_ips (p_tun peer)
  | None => []
  end.

Definition local_claims (input_tx : Sender) (addrs : list IpNet) : list claim :=
  (fun addr => (ipnet_from (ipnet_addr addr), {| re_peer_id := LOCAL_PEER_ID; re_tx := input_tx |}))
    <$> addrs.

(** All claims of a configuration, in the order [make] inserts them. *)
Definition all_claims (peers : list Peer) (peer_txs : gmap rstr Sender) (local_tun : LocalTun)
    (input_tx : Sender) : list claim :=
  peer_claims peer_txs peers ++ local_claims input_tx (addrs local_tun).

(** The first claim of a network, host bits ignored. *)
Fixpoint first_claim (cs : list claim) (q : IpNet) : option RouteEntry :=
  match cs with
  | [] => None
  | c :: cs' => if decide (trunc c.1 = trunc q) then Some c.2 else first_claim cs' q
  end.

(** No network is claimed under two peer ids. *)
Definition conflict_free (cs : list claim) : Prop :=
  forall c1 c2, c1 ∈ cs -> c2 ∈ cs -> trunc c1.1 = trunc c2.1 -> re_peer_id c1.2 = re_peer_id c2.2.

(** The table holds, for every network, its first claim. *)
Definition holds_claims (t : RoutingTable) (cs : list claim) : Prop :=
  forall q, trie_exact_match t q = first_claim cs q.

Fixpoint insert_claims (t : RoutingTable) (cs : list claim) : result RoutingTable RoutingError :=
  match cs with
  | [] => Ok t
  | c :: cs' =>
      match routing_insert t c.1 c.2 with Ok t' => insert_claims t' cs' | Err e => Err e end
  end.
End routing.

(** ** Lemmas *)

Section facts.
Context {L : IpNetLib} {T : TrieLib L} {HL : IpNetLaws L} {HT : TrieLaws T}.

Lemma first_claim_app cs1 cs2 q :
  first_claim (cs1 ++ cs2) q =
  match first_claim cs1 q with Some e => Some e | None => first_claim cs2 q end.
Proof. induction cs1 as [| c cs1 IH]; cbn; [done |]. by case_decide. Qed.

Lemma first_claim_Some cs q e :
  first_claim cs q = Some e -> exists net, (net, e) ∈ cs /\ trunc net = trunc q.
Proof.
  induction cs as [| [n e'] cs IH]; cbn; [done |]. case_decide.
  - intros [= ->]. exists n. set_solver.
  - intros H'. destruct (IH H') as (net & ? & ?). exists net. set_solver.
Qed.

Lemma first_claim_None cs q :
  first_claim cs q = None <-> forall c, c ∈ cs -> trunc c.1 <> trunc q.
Proof. induction cs as [| c cs IH]; cbn; [set_solver |]. case_decide; set_solver. Qed.

Lemma first_claim_trunc cs q : first_claim cs (trunc q) = first_claim cs q.
Proof. induction cs as [| c cs IH]; cbn; [done |]. by rewrite trunc_trunc, IH. Qed.

Lemma routing_insert_holds t cs net e :
  holds_claims t cs ->
  match routing_insert t net e with
  | Ok t' => holds_claims t' (cs ++ [(net, e)]) /\
             forall c, c ∈ cs -> trunc c.1 = trunc net -> first_claim cs net = Some c.2 ->
               re_peer_id c.2 = re_peer_id e
  | Err (ConflictingPrefix p old new) =>
      p = net /\ new = re_peer_id e /\ old <> new /\
      exists e', first_claim cs net = Some e' /\ re_peer_id e' = old
  end.
Proof.
  intros Ht. unfold routing_insert. rewrite (Ht net).
  destruct (first_claim cs net) as [e' |] eqn:He.
  - case_decide.
    + split; [| naive_solver]. intros q. rewrite Ht, first_claim_app.
      destruct (first_claim cs q) eqn:Hq; [done |]. cbn. case_decide as Hd; [| done].
      rewrite <- first_claim_trunc, Hd, first_claim_trunc in He. congruence.
    + naive_solver.
  - split; [| naive_solver]. intros q. rewrite exact_match_insert, first_claim_app, Ht. cbn.
    case_decide as Hd; [| by destruct (first_claim cs q)].
    by rewrite <- first_claim_trunc, <- Hd, first_claim_trunc, He.
Qed.

Lemma conflict_free_snoc cs c :
  conflict_free cs ->
  conflict_free (cs ++ [c]) <->
  (forall e, first_claim cs c.1 = Some e -> re_peer_id e = re_peer_id c.2).
Proof.
  intros Hcs. split.
  - intros H e He. destruct (first_claim_Some _ _ _ He) as (net & Hin & Ht).
    apply (H (net, e) c); [set_solver.. | done].
  - intros H. assert (forall c', c' ∈ cs -> trunc c'.1 = trunc c.1 -> re_peer_id c'.2 = re_peer_id c.2) as Hc.
    { intros c' Hin Ht. destruct (first_claim cs c.1) as [e |] eqn:He.
      - rewrite <- (H e) by done. destruct (first_claim_Some _ _ _ He) as (net & Hin' & Ht').
        apply (Hcs c' (net, e)); [done.. | by cbn; rewrite Ht, Ht'].
      - rewrite first_claim_None in He. by destruct (He c'). }
    intros c1 c2 [H1 | ->%list_elem_of_singleton]%elem_of_app [H2 | ->%list_elem_of_singleton]%elem_of_app Ht;
      [by apply Hcs | by apply Hc | symmetry; by apply Hc | done].
Qed.

Lemma insert_claims_spec t cs cs' :
  holds_claims t cs -> conflict_free cs ->
  (conflict_free (cs ++ cs') <-> is_ok (insert_claims t cs') = true) /\
  (forall t', insert_claims t cs' = Ok t' -> holds_claims t' (cs ++ cs')).
Proof.
  revert t cs. induction cs' as [| c cs' IH]; intros t cs Ht Hc; cbn [insert_claims].
  - rewrite app_nil_r. split; [done | by intros t' [= <-]].
  - pose proof (routing_insert_holds t cs c.1 c.2 Ht) as Hi.
    replace (c.1, c.2) with c in Hi by by destruct c.
    replace (cs ++ c :: cs') with ((cs ++ [c]) ++ cs') by by rewrite <- app_assoc.
    destruct (routing_insert t c.1 c.2) as [t1 | [p old new]].
    + destruct Hi as [Hi Hid]. apply IH; [done |]. apply conflict_free_snoc; [done |].
      intros e He. destruct (first_claim_Some _ _ _ He) as (net & Hin & Hn).
      apply (Hid (net, e)); done.
    + destruct Hi as (-> & -> & Hne & e' & He' & Hid). split; [| done]. split; [| done].
      intros Hcf. assert (conflict_free (cs ++ [c])) as Hcf1.
      { intros c1 c2 H1 H2. apply Hcf; set_solver. }
      rewrite conflict_free_snoc in Hcf1 by done. specialize (Hcf1 e' He'). congruence.
Qed.

(** A reported conflict is between two of the claims. *)
Lemma insert_claims_err t cs cs' p old new :
  holds_claims t cs -> insert_claims t cs' = Err (ConflictingPrefix p old new) ->
  old <> new /\ exists c1 c2, c1 ∈ cs ++ cs' /\ c2 ∈ cs' /\
    trunc c1.1 = trunc p /\ c2.1 = p /\ re_peer_id c1.2 = old /\ re_peer_id c2.2 = new.
Proof.
  revert t cs. induction cs' as [| c cs' IH]; intros t cs Ht He; cbn [insert_claims] in He; [done |].
  pose proof (routing_insert_holds t cs c.1 c.2 Ht) as Hi.
  replace (c.1, c.2) with c in Hi by by destruct c.
  destruct (routing_insert t c.1 c.2) as [t1 | [p' old' new']].
  - destruct (IH t1 (cs ++ [c]) (proj1 Hi) He) as (Hne & c1 & c2 & H1 & H2 & Hrest).
    split; [done |]. exists c1, c2. split_and!; try apply Hrest; set_solver.
  - injection He as -> -> ->. destruct Hi as (-> & -> & Hne & e' & He' & Hid). split; [done |].
    destruct (first_claim_Some _ _ _ He') as (net & Hin & Hn).
    exists (net, e'), c. split_and!; try done; set_solver.
Qed.

(** The loops of [make] are the insertion of the claims, in order. *)
Lemma insert_claims_app t cs1 cs2 :
  insert_claims t (cs1 ++ cs2) =
  match insert_claims t cs1 with Ok t' => insert_claims t' cs2 | Err e => Err e end.
Proof.
  revert t. induction cs1 as [| c cs1 IH]; intros t; cbn; [done |]. by destruct (routing_insert t _ _).
Qed.

Lemma insert_allowed_claims t id tx nets :
  insert_allowed t id tx nets =
  insert_claims t ((fun net => (net, {| re_peer_id := id; re_tx := tx |})) <$> nets).
Proof. revert t. induction nets as [| n nets IH]; intros t; cbn; [done |]. by destruct (routing_insert t _ _). Qed.

Lemma insert_peers_claims t peer_txs peers :
  insert_peers t peer_txs peers = insert_claims t (peer_claims peer_txs peers).
Proof.
  revert t. induction peers as [| p peers IH]; intros t; [done |].
  unfold peer_claims. rewrite bind_cons. cbn [insert_peers].
  destruct (peer_txs !! p_id p) as [tx |]; [| apply IH].
  rewrite insert_claims_app, insert_allowed_claims. destruct (insert_claims _ _); [apply IH | done].
Qed.

Lemma insert_local_holds t cs input_tx nets :
  holds_claims t cs -> holds_claims (insert_local t input_tx nets) (cs ++ local_claims input_tx nets).
Proof.
  unfold insert_local, local_claims. revert t cs.
  induction nets as [| n nets IH]; intros t cs Ht; cbn; [by rewrite app_nil_r |].
  set (c := (ipnet_from (ipnet_addr n), {| re_peer_id := LOCAL_PEER_ID; re_tx := input_tx |})).
  replace (cs ++ c :: _) with ((cs ++ [c]) ++ ((fun addr => (ipnet_from (ipnet_addr addr),
    {| re_peer_id := LOCAL_PEER_ID; re_tx := input_tx |})) <$> nets)) by by rewrite <- app_assoc.
  apply IH. pose proof (routing_insert_holds t cs c.1 c.2 Ht) as Hi. cbn in Hi.
  destruct (routing_insert t _ _) as [t1 | [p old new]]; [by destruct Hi |].
  destruct Hi as (_ & _ & _ & e' & He' & _). intros q. rewrite Ht, first_claim_app.
  destruct (first_claim cs q) eqn:Hq; [done |]. cbn. case_decide as Hd; [| done].
  rewrite <- first_claim_trunc, Hd, first_claim_trunc in He'. congruence.
Qed.

Lemma routing_new_holds : holds_claims routing_new [].
Proof. intros q. cbn. apply exact_match_new. Qed.

Lemma conflict_free_nil : conflict_free [].
Proof. intros c1 c2 H. set_solver. Qed.

Lemma routing_make_holds peers peer_txs local_tun input_tx t :
  routing_make peers peer_txs local_tun input_tx = Ok t ->
  holds_claims t (all_claims peers peer_txs local_tun input_tx).
Proof.
  unfold routing_make, all_claims. rewrite insert_peers_claims.
  destruct (insert_claims_spec routing_new [] (peer_claims peer_txs peers)
    routing_new_holds conflict_free_nil) as [_ H].
  destruct (insert_claims routing_new _) as [t1 |]; [| done]. intros [= <-].
  apply insert_local_holds. by apply H.
Qed.

(** A lookup in a table that holds [cs]. *)
Lemma routing_lookup_holds t cs addr :
  holds_claims t cs ->
  match routing_lookup t addr with
  | Some m =>
      first_claim cs (rm_prefix m) = Some {| re_peer_id := rm_peer_id m; re_tx := rm_tx m |} /\
      contains_addr (rm_prefix m) addr = true /\
      (forall c, c ∈ cs -> contains_addr c.1 addr = true -> prefix_len c.1 <= prefix_len (rm_prefix m))
  | None => forall c, c ∈ cs -> contains_addr c.1 addr = false
  end.
Proof.
  intros Ht. unfold routing_lookup.
  assert (forall c, c ∈ cs -> exists e, trie_exact_match t c.1 = Some e) as Hex.
  { intros c Hc. rewrite Ht. destruct (first_claim cs c.1) eqn:E; [by eexists |].
    rewrite first_claim_None in E. by destruct (E c). }
  destruct (trie_longest_match t (ipnet_from addr)) as [[p e] |] eqn:Hl; cbn.
  - apply longest_match_Some in Hl as (He & Hin & Hmax). rewrite Ht in He.
    rewrite contains_net_from in Hin. split_and!; [by destruct e | done |].
    intros c Hc Hca. destruct (Hex c Hc) as [w Hw]. apply (Hmax _ _ Hw). by rewrite contains_net_from.
  - intros c Hc. destruct (Hex c Hc) as [w Hw]. rewrite <- contains_net_from.
    by apply (longest_match_None _ _ _ Hl _ _ Hw).
Qed.

(** ** Properties *)

(** C4: longest-prefix match.  In a table built by [make], [lookup] returns a match
    exactly when some claim (a prefix of a peer with a channel, or a local host
    route) contains the address.  The match's prefix contains the address, no claim
    that contains it is longer, and the peer and channel are those of the first
    claim of that network. *)
Theorem routing_lookup_longest_prefix peers peer_txs local_tun input_tx t addr :
  routing_make peers peer_txs local_tun input_tx = Ok t ->
  let cs := all_claims peers peer_txs local_tun input_tx in
  match routing_lookup t addr with
  | Some m =>
      first_claim cs (rm_prefix m) = Some {| re_peer_id := rm_peer_id m; re_tx := rm_tx m |} /\
      contains_addr (rm_prefix m) addr = true /\
      (forall c, c ∈ cs -> contains_addr c.1 addr = true -> prefix_len c.1 <= prefix_len (rm_prefix m)) /\
      (forall c, c ∈ cs -> contains_addr c.1 addr = true -> prefix_len c.1 = prefix_len (rm_prefix m) ->
         trunc c.1 = trunc (rm_prefix m))
  | None => forall c, c ∈ cs -> contains_addr c.1 addr = false
  end.
Proof.
  intros Hm cs. pose proof (routing_lookup_holds t cs addr (routing_make_holds _ _ _ _ _ Hm)) as Hl.
  destruct (routing_lookup t addr) as [m |]; [| exact Hl].
  destruct Hl as (Hf & Hc & Hmax). split_and!; try done.
  intros c Hin Hca Hlen. by apply (contains_addr_same_len _ _ addr).
Qed.

(** [make] fails exactly when two peers that have a channel claim the same
    network under different ids (host bits ignored); local host routes never make
    it fail.  The error names a network and two owners that really conflict. *)
Theorem routing_make_conflicts peers peer_txs local_tun input_tx :
  (is_ok (routing_make peers peer_txs local_tun input_tx) = true <->
   conflict_free (peer_claims peer_txs peers)) /\
  (forall p old new,
     routing_make peers peer_txs local_tun input_tx = Err (ConflictingPrefix p old new) ->
     old <> new /\ exists c1 c2, c1 ∈ peer_claims peer_txs peers /\ c2 ∈ peer_claims peer_txs peers /\
       trunc c1.1 = trunc p /\ c2.1 = p /\ re_peer_id c1.2 = old /\ re_peer_id c2.2 = new).
Proof.
  unfold routing_make. rewrite insert_peers_claims. split.
  - destruct (insert_claims_spec routing_new [] (peer_claims peer_txs peers)
      routing_new_holds conflict_free_nil) as [H _]. cbn in H. rewrite H.
    by destruct (insert_claims _ _).
  - intros p old new He. apply (insert_claims_err routing_new [] _ _ _ _ routing_new_holds).
    by destruct (insert_claims _ _); simplify_eq.
Qed.
End facts.

(** ** Concrete tables *)

Definition sample_peer (id : string) (nets : list (@IpNet CidrNet.lib)) : @Peer CidrNet.lib :=
  {| p_id := lit id;
     p_transport := TransportBare
       {| pbare_endpoint := {| udp_host := lit "h"; udp_port := 6635 |}; pbare_bindif := None |};
     p_tun := {| allowed_ips := nets |} |}.

(** 10.0.0.0/8 through channel 1, 10.1.0.0/16 through channel 2, 10.1.2.3 local. *)
Definition sample_peers : list (@Peer CidrNet.lib) :=
  [sample_peer "a" [sample_net 167772160 8]; sample_peer "b" [sample_net 167837696 16]].
Definition sample_txs : gmap rstr Sender := {[ lit "a" := 1%nat; lit "b" := 2%nat ]}.
Definition sample_tun : @LocalTun CidrNet.lib :=
  {| ifname := default_ifname; addrs := [sample_net 167838211 24]; mtu := default_mtu |}.

Lemma sample_make_ok :
  is_ok (routing_make (T := MapTrie.lib) sample_peers sample_txs sample_tun 0%nat) = true.
Proof. by vm_compute. Qed.

Lemma routing_lookup_longest_prefix_witness :
  exists t, routing_make (T := MapTrie.lib) sample_peers sample_txs sample_tun 0%nat = Ok t /\
  forall addr m, routing_lookup t addr = Some m ->
    contains_addr (rm_prefix m) addr = true /\
    (forall c, c ∈ all_claims sample_peers sample_txs sample_tun 0%nat ->
       contains_addr c.1 addr = true -> prefix_len c.1 <= prefix_len (rm_prefix m)).
Proof.
  destruct (routing_make (T := MapTrie.lib) sample_peers sample_txs sample_tun 0%nat) as [t |] eqn:Hm.
  - exists t. split; [done |]. intros addr m Hl.
    pose proof (routing_lookup_longest_prefix _ _ _ _ t addr Hm) as H. cbv zeta in H.
    rewrite Hl in H. split; apply H.
  - pose proof sample_make_ok as Hok. rewrite Hm in Hok. discriminate.
Defined.

Lemma routing_make_conflicts_witness :
  is_ok (routing_make (T := MapTrie.lib) sample_peers sample_txs sample_tun 0%nat) = true /\
  conflict_free (peer_claims sample_txs sample_peers).
Proof.
  split; [apply sample_make_ok |].
  apply (routing_make_conflicts (T := MapTrie.lib) sample_peers sample_txs sample_tun 0%nat).
  apply sample_make_ok.
Defined.
