(* ===== verification/Router.v ===== *)
(** * Router data plane

    Models the batch handlers of the router actor in [src/src/router.rs]:
    [handle_output_batch] and [handle_ingress_batch].  The ingress handler
    forwards consecutive packets with the same destination as one group; the
    reference it is compared with routes every packet on its own. *)

From S2P Require Import Prelude Net Packet Config Channel Metrics Routing.
#[local] Open Scope Z_scope.

Section router.
Context {L : IpNetLib} {T : TrieLib L} {M : Mpsc (list packet)}.

(** [handle_output_batch(batch, routing, counters)]. *)
Definition handle_output_batch (batch : list packet) (routing : RoutingTable) (c : Counters)
    (w : world) : outcome (Counters * world) :=
  let '(pkt_count, total_bytes) := batch_stats batch in
  match head batch with
  | None => mret (c, w)
  | Some first =>
    dest ← extract_dst_ip first;
    match dest with
    | None => mret (record_drop c InvalidIpVersion pkt_count total_bytes, w)
    | Some dest =>
      match routing_lookup routing dest with
      | None => mret (record_drop c NoRoute pkt_count total_bytes, w)
      | Some route =>
        let '(_, c, w) := send_and_record c w (rm_tx route) batch pkt_count total_bytes in
        mret (c, w)
      end
    end
  end.

(** The inner [while] loop: the end of the run of packets with destination [dst]. *)
Fixpoint find_group_end (dst : IpAddr) (rest : list packet) (group_end : nat) : outcome nat :=
  match rest with
  | [] => mret group_end
  | p :: rest' =>
    d ← extract_dst_ip p;
    if decide (d <> Some dst) then mret group_end else find_group_end dst rest' (S group_end)
  end.

(** The [for] loop over a group: TTL decrement, and the partition into packets to
    forward and expired packets. *)
Fixpoint partition_group (group forward expired : list packet) (c : Counters) :
    outcome (list packet * list packet * Counters) :=
  match group with
  | [] => mret (forward, expired, c)
  | pkt :: group' =>
    r ← decrement_ttl pkt;
    let '(old, pkt) := r in
    match old with
    | Some t =>
        if decide (t = 0 \/ t = 1) then partition_group group' forward (expired ++ [pkt]) c
        else partition_group group' (forward ++ [pkt]) expired c
    | None => partition_group group' forward expired (record_drop c InvalidIpVersion 1 (zlen pkt))
    end
  end.

(** Forwarding of one group to a transport channel. *)
Definition forward_group (group : list packet) (tx input_tx : Sender) (c : Counters) (w : world) :
    outcome (Counters * world) :=
  r ← partition_group group [] [] c;
  let '(forward, expired, c) := r in
  let '(c, w) :=
    if decide (forward = []) then (c, w) else
    let '(fwd_count, fwd_bytes) := batch_stats forward in
    let '(_, c, w) := send_and_record c w tx forward fwd_count fwd_bytes in (c, w) in
  if decide (expired = []) then mret (c, w) else
  let '(exp_count, exp_bytes) := batch_stats expired in
  let c := record_drop c TtlExpired exp_count exp_bytes in
  match send_with_backpressure w input_tx expired on_send_event c with
  | (Err _, c, w) => mret (record_drop c ChannelClosed exp_count exp_bytes, w)
  | (Ok _, c, w) => mret (c, w)
  end.

(** One iteration of the outer loop on a non-empty batch: the packets left, the
    counters and the world. *)
Definition ingress_step (first : packet) (others : list packet) (routing : RoutingTable)
    (input_tx : Sender) (c : Counters) (w : world) : outcome (list packet * Counters * world) :=
  dst ← extract_dst_ip first;
  match dst with
  | None => mret (others, record_drop c InvalidIpVersion 1 (zlen first), w)
  | Some dst =>
    group_end ← find_group_end dst others 1;
    let group := take group_end (first :: others) in
    let batch := drop group_end (first :: others) in
    let '(group_count, group_bytes) := batch_stats group in
    match routing_lookup routing dst with
    | None => mret (batch, record_drop c NoRoute group_count group_bytes, w)
    | Some route =>
      if same_channel (rm_tx route) input_tx then
        let '(_, c, w) := send_and_record c w (rm_tx route) group group_count group_bytes in
        mret (batch, c, w)
      else
        cw ← forward_group group (rm_tx route) input_tx c w;
        let '(c, w) := cw in
        mret (batch, c, w)
    end
  end.

(** The [while !batch.is_empty()] loop, at most [fuel] iterations. *)
Fixpoint ingress_loop (fuel : nat) (batch : list packet) (routing : RoutingTable)
    (input_tx : Sender) (c : Counters) (w : world) : outcome (option (Counters * world)) :=
  match batch, fuel with
  | [], _ => mret (Some (c, w))
  | _ :: _, O => mret None
  | first :: others, S fuel' =>
    r ← ingress_step first others routing input_tx c w;
    let '(batch, c, w) := r in
    ingress_loop fuel' batch routing input_tx c w
  end.

(** [handle_ingress_batch]: every iteration removes a packet, so the number of
    packets bounds the iterations. *)
Definition handle_ingress_batch (batch : list packet) (routing : RoutingTable)
    (input_tx : Sender) (c : Counters) (w : world) : outcome (option (Counters * world)) :=
  ingress_loop (length batch) batch routing input_tx c w.

(** ** The reference: routing one packet *)

Inductive Verdict : Type :=
| VDrop (r : DropReason)
| VSend (tx : Sender) (p : packet)
| VExpire (p : packet).

Definition verdict (routing : RoutingTable) (input_tx : Sender) (p : packet) : Verdict :=
  match extract_dst_ip p with
  | Ret (Some dst) =>
    match routing_lookup routing dst with
    | None => VDrop NoRoute
    | Some route =>
      if same_channel (rm_tx route) input_tx then VSend (rm_tx route) p else
      match decrement_ttl p with
      | Ret (Some t, p') => if decide (t <= 1) then VExpire p' else VSend (rm_tx route) p'
      | _ => VDrop InvalidIpVersion
      end
    end
  | _ => VDrop InvalidIpVersion
  end.

(** What a packet puts on the channels, and the drop reason it is counted under. *)
Definition deliveries (input_tx : Sender) (v : Verdict) : list (Sender * packet) :=
  match v with VDrop _ => [] | VSend tx p => [(tx, p)] | VExpire p => [(input_tx, p)] end.

Definition verdict_reason (v : Verdict) : option DropReason :=
  match v with VDrop r => Some r | VSend _ _ => None | VExpire _ => Some TtlExpired end.

(** The packets a list of sends puts on channel [ch], in order. *)
Definition on_channel (ch : Sender) (log : list (Sender * list packet)) : list packet :=
  '(tx, b) ← log; if decide (tx = ch) then b else [].

Definition routed_to (ch : Sender) (l : list (Sender * packet)) : list packet :=
  '(tx, p) ← l; if decide (tx = ch) then [p] else [].

Definition count_reason (r : DropReason) (vs : list Verdict) : Z :=
  zlen (filter (fun v => verdict_reason v = Some r) vs).

(** [batch] was handled like packet-by-packet routing: on every channel that is
    still open the sends, none of them empty, carry exactly the packets routed to it, in order; every
    drop is counted under its reason; and as long as the TUN channel is open, every
    packet is counted exactly once. *)
Definition routed_like (routing : RoutingTable) (input_tx : Sender) (batch : list packet)
    (c : Counters) (w : world) (c' : Counters) (w' : world) : Prop :=
  let vs := verdict routing input_tx <$> batch in
  exists log ops,
    sent w log w' /\ Forall (fun e => e.2 <> []) log /\
    c' = foldl run_op c ops /\ Forall op_wf ops /\
    (forall ch, is_closed w' ch = false ->
       on_channel ch log = routed_to ch (vs ≫= deliveries input_tx)) /\
    (forall r, r <> ChannelClosed -> op_reason r ops = count_reason r vs) /\
    (is_closed w' input_tx = false -> op_packets ops = zlen batch).
End router.

(** ** Lemmas *)

Section facts.
Context {L : IpNetLib} {T : TrieLib L} {M : Mpsc (list packet)} {HM : MpscLaws M}.

Lemma on_channel_app ch l1 l2 : on_channel ch (l1 ++ l2) = on_channel ch l1 ++ on_channel ch l2.
Proof. apply bind_app. Qed.

Lemma routed_to_app ch l1 l2 : routed_to ch (l1 ++ l2) = routed_to ch l1 ++ routed_to ch l2.
Proof. apply bind_app. Qed.

Lemma count_reason_app r v1 v2 : count_reason r (v1 ++ v2) = count_reason r v1 + count_reason r v2.
Proof. unfold count_reason. by rewrite filter_app, zlen_app. Qed.

Lemma routed_like_nil routing input_tx c w : routed_like routing input_tx [] c w c w.
Proof.
  exists [], []. split_and!; try done. apply sent_refl.
Qed.

Lemma routed_like_app routing input_tx b1 b2 c w c1 w1 c2 w2 :
  routed_like routing input_tx b1 c w c1 w1 -> routed_like routing input_tx b2 c1 w1 c2 w2 ->
  routed_like routing input_tx (b1 ++ b2) c w c2 w2.
Proof.
  intros (l1 & o1 & S1 & N1 & -> & W1 & D1 & R1 & P1) (l2 & o2 & S2 & N2 & -> & W2 & D2 & R2 & P2).
  exists (l1 ++ l2), (o1 ++ o2). rewrite fmap_app, bind_app, foldl_app. split_and!.
  - by eapply sent_trans.
  - by apply Forall_app.
  - done.
  - by apply Forall_app.
  - intros ch Hch. rewrite on_channel_app, routed_to_app, D2 by done.
    by rewrite D1 by by eapply sent_open.
  - intros r Hr. by rewrite op_reason_app, count_reason_app, R1, R2.
  - intros Hc. rewrite op_packets_app, zlen_app, P2 by done. by rewrite P1 by by eapply sent_open.
Qed.

(** Packets to forward and expired packets among verdicts. *)
Definition sends (vs : list Verdict) : list packet :=
  omap (fun v => match v with VSend _ p => Some p | _ => None end) vs.
Definition expires (vs : list Verdict) : list packet :=
  omap (fun v => match v with VExpire p => Some p | _ => None end) vs.

(** Verdicts of a group on its way to [tx]: forwarded there, or expired. *)
Definition group_verdict (tx : Sender) (v : Verdict) : Prop :=
  match v with VSend tx' _ => tx' = tx | VExpire _ => True | VDrop _ => False end.

Lemma group_routed tx input_tx ch vs :
  Forall (group_verdict tx) vs -> tx <> input_tx ->
  routed_to ch (vs ≫= deliveries input_tx) =
  (if decide (tx = ch) then sends vs else []) ++ (if decide (input_tx = ch) then expires vs else []).
Proof.
  intros Hvs Hne. induction Hvs as [| v vs Hv Hvs IH]; [by repeat case_decide |].
  rewrite bind_cons, routed_to_app, IH. clear IH.
  destruct v as [r | tx' p | p]; cbn in Hv; [done | subst tx' |]; cbn;
    repeat case_decide; subst; cbn; rewrite ?app_nil_r; done.
Qed.

Lemma group_len tx vs : Forall (group_verdict tx) vs -> zlen vs = zlen (sends vs) + zlen (expires vs).
Proof.
  induction 1 as [| [] vs Hv _ IH]; [done | done | |]; cbn; rewrite !zlen_cons, IH; unfold sends, expires; lia.
Qed.

Lemma group_reason tx r vs :
  Forall (group_verdict tx) vs ->
  count_reason r vs = if decide (r = TtlExpired) then zlen (expires vs) else 0.
Proof.
  unfold count_reason. induction 1 as [| v vs Hv _ IH]; [by case_decide |]. rewrite filter_cons.
  destruct v as [| tx' p | p]; cbn in Hv; cbn [verdict_reason]; [done | |].
  - rewrite decide_False by done. rewrite IH. done.
  - destruct (decide (r = TtlExpired)) as [-> | Hr].
    + rewrite (decide_True (P := Some TtlExpired = Some TtlExpired)) by done.
      rewrite zlen_cons, IH. unfold expires. cbn. by rewrite zlen_cons.
    + rewrite (decide_False (P := Some TtlExpired = Some r)) by congruence. exact IH.
Qed.

(** The partition of a group whose packets all have a TTL. *)
Definition ttl_verdict (tx : Sender) (p : packet) : Verdict :=
  match decrement_ttl p with
  | Ret (Some t, p') => if decide (t <= 1) then VExpire p' else VSend tx p'
  | _ => VDrop InvalidIpVersion
  end.

Definition has_ttl (p : packet) : Prop := exists t p', decrement_ttl p = Ret (Some t, p') /\ 0 <= t.

Lemma ttl_verdict_group tx group : Forall has_ttl group -> Forall (group_verdict tx) (ttl_verdict tx <$> group).
Proof.
  intros H. apply Forall_fmap. eapply Forall_impl; [exact H |]. intros p (t & p' & Hd & _). cbn.
  unfold ttl_verdict. rewrite Hd. by case_decide.
Qed.

Lemma partition_group_spec tx group fwd expd c :
  Forall has_ttl group ->
  partition_group group fwd expd c =
  Ret (fwd ++ sends (ttl_verdict tx <$> group), expd ++ expires (ttl_verdict tx <$> group), c).
Proof.
  intros H. revert fwd expd. induction H as [| p group (t & p' & Hd & Ht) _ IH]; intros fwd expd.
  - cbn. by rewrite !app_nil_r.
  - cbn [partition_group]. rewrite Hd, fmap_cons. cbn [mbind outcome_bind].
    assert (ttl_verdict tx p = if decide (t <= 1) then VExpire p' else VSend tx p') as ->
      by (unfold ttl_verdict; by rewrite Hd).
    destruct (decide (t <= 1)); [rewrite decide_True by lia | rewrite decide_False by lia];
      rewrite IH; unfold sends, expires; cbn; by rewrite <- app_assoc.
Qed.

(** Sending [out] on one channel, the packets counted under [reason] beforehand. *)
Definition sent_on (tx : Sender) (out : list packet) (reason : option DropReason)
    (c : Counters) (w : world) (c' : Counters) (w' : world) : Prop :=
  exists log ops,
    sent w log w' /\ Forall (fun e => e.2 <> []) log /\
    c' = foldl run_op c ops /\ Forall op_wf ops /\
    (is_closed w' tx = false -> on_channel tx log = out) /\
    (forall ch, ch <> tx -> on_channel ch log = []) /\
    (forall r, r <> ChannelClosed -> op_reason r ops = if decide (reason = Some r) then zlen out else 0) /\
    (is_closed w' tx = false \/ reason = None -> op_packets ops = zlen out).

Lemma sent_on_nil tx reason c w : sent_on tx [] reason c w c w.
Proof.
  exists [], []. split_and!; try done; [apply sent_refl |]. intros r _. by case_decide.
Qed.

Lemma on_channel_one ch tx b : on_channel ch [(tx, b)] = if decide (tx = ch) then b else [].
Proof. cbn. by rewrite app_nil_r. Qed.

Lemma send_and_record_sent_on c w tx out ok c' w' :
  out <> [] -> send_and_record c w tx out (batch_stats out).1 (batch_stats out).2 = (ok, c', w') ->
  sent_on tx out None c w c' w'.
Proof.
  intros Hout H. apply send_and_record_ops in H as (qs & Hq & -> & Hs).
  pose proof (batch_stats_nonneg out) as [Hn Hb]. pose proof (waits_wf _ Hq) as Hwf.
  exists (if ok then [(tx, out)] else []),
    (qs ++ [if ok then OpSuccess (batch_stats out).1 (batch_stats out).2
            else OpDrop ChannelClosed (batch_stats out).1 (batch_stats out).2]).
  destruct ok; [| destruct Hs as [Hs Hc]]; split_and!; try done; try (by repeat constructor);
    try (apply Forall_app; split; [done | by repeat constructor]);
    try (by intros r Hr; rewrite op_reason_app, waits_reason by done; cbn; rewrite ?decide_False by congruence);
    try (by intros _; rewrite op_packets_app, waits_packets by done; cbn; rewrite Z.add_0_r).
  - intros _. by rewrite on_channel_one, decide_True.
  - intros ch Hch. by rewrite on_channel_one, decide_False.
  - rewrite Hc. done.
Qed.

Lemma expired_sent_on c w tx out r c' w' :
  out <> [] ->
  send_with_backpressure w tx out on_send_event
    (record_drop c TtlExpired (batch_stats out).1 (batch_stats out).2) = (r, c', w') ->
  sent_on tx out (Some TtlExpired) c w
    (match r with
     | Ok _ => c' | Err _ => record_drop c' ChannelClosed (batch_stats out).1 (batch_stats out).2 end) w'.
Proof.
  intros Hout H. apply send_with_backpressure_ops in H as (qs & Hq & -> & Hs).
  pose proof (batch_stats_nonneg out) as [Hn Hb]. pose proof (waits_wf _ Hq) as Hwf.
  remember (batch_stats out).1 as n eqn:Hlen. remember (batch_stats out).2 as b.
  change (n = zlen out) in Hlen.
  exists (match r with Ok _ => [(tx, out)] | Err _ => [] end),
    (OpDrop TtlExpired n b :: qs ++ match r with Ok _ => [] | Err _ => [OpDrop ChannelClosed n b] end).
  destruct r as [u | e]; [| destruct Hs as [Hs Hc]]; rewrite ?app_nil_r; split_and!; try done;
    try (by repeat constructor); try (by cbn; rewrite foldl_app).
  - intros _. by rewrite on_channel_one, decide_True.
  - intros ch Hch. by rewrite on_channel_one, decide_False.
  - intros r Hr. change (op_reason r (?o :: qs)) with (op_reason r ([o] ++ qs)).
    cbn. fold (op_reason r qs). rewrite waits_reason by done. rewrite Hlen.
    repeat case_decide; simplify_eq; lia.
  - intros _. cbn. fold (op_packets qs). rewrite waits_packets by done. lia.
  - constructor; [done |]. apply Forall_app. split; [done | by repeat constructor].
  - rewrite Hc. done.
  - intros r Hr. cbn. fold (op_reason r (qs ++ [OpDrop ChannelClosed n b])).
    rewrite op_reason_app, waits_reason by done. cbn. rewrite (decide_False (P := ChannelClosed = r)) by congruence.
    rewrite Hlen. repeat case_decide; simplify_eq; lia.
  - intros [Hx | Hx]; [congruence | done].
Qed.

(** Forwarding then expiring a group is routing its packets one by one. *)
Lemma sent_on_routed routing tx input_tx group c w c1 w1 c2 w2 :
  tx <> input_tx -> Forall (group_verdict tx) (verdict routing input_tx <$> group) ->
  let vs := verdict routing input_tx <$> group in
  sent_on tx (sends vs) None c w c1 w1 ->
  sent_on input_tx (expires vs) (Some TtlExpired) c1 w1 c2 w2 ->
  routed_like routing input_tx group c w c2 w2.
Proof.
  intros Hne Hvs vs (l1 & o1 & S1 & N1 & -> & W1 & D1 & E1 & R1 & P1)
    (l2 & o2 & S2 & N2 & -> & W2 & D2 & E2 & R2 & P2).
  exists (l1 ++ l2), (o1 ++ o2). fold vs. rewrite foldl_app. split_and!.
  - by eapply sent_trans.
  - by apply Forall_app.
  - done.
  - by apply Forall_app.
  - intros ch Hch. rewrite on_channel_app, (group_routed tx) by done.
    destruct (decide (tx = ch)) as [<- | Htx].
    + rewrite D1, E2, decide_False by (done || by eapply sent_open). done.
    + rewrite E1 by done. destruct (decide (input_tx = ch)) as [<- | Hin]; [by rewrite D2 |].
      by rewrite E2.
  - intros r Hr. rewrite op_reason_app, R1, R2, (group_reason tx) by done.
    rewrite (decide_False (P := None = Some r)) by done. rewrite Z.add_0_l.
    destruct (decide (r = TtlExpired)); [rewrite decide_True | rewrite decide_False]; congruence.
  - intros Hc. rewrite op_packets_app, P1, P2 by auto.
    transitivity (zlen vs); [by rewrite (group_len tx) |]. unfold vs, zlen. by rewrite length_fmap.
Qed.

Lemma forward_group_routed routing tx input_tx group c w :
  Forall has_ttl group -> tx <> input_tx ->
  verdict routing input_tx <$> group = ttl_verdict tx <$> group ->
  exists c' w', forward_group group tx input_tx c w = Ret (c', w') /\
    routed_like routing input_tx group c w c' w'.
Proof.
  intros Hg Hne Hv. pose proof (ttl_verdict_group tx group Hg) as Hvs.
  unfold forward_group. rewrite (partition_group_spec tx) by done. cbn [mbind outcome_bind app].
  rewrite <- Hv in *. set (vs := verdict routing input_tx <$> group) in *.
  assert (exists c1 w1, (if decide (sends vs = []) then (c, w) else
    let '(fwd_count, fwd_bytes) := batch_stats (sends vs) in
    let '(_, c, w) := send_and_record c w tx (sends vs) fwd_count fwd_bytes in (c, w)) = (c1, w1) /\
    sent_on tx (sends vs) None c w c1 w1) as (c1 & w1 & -> & H1).
  { case_decide as Hd; [rewrite Hd; eexists _, _; split; [done | apply sent_on_nil] |].
    destruct (send_and_record c w tx (sends vs) (batch_stats (sends vs)).1 (batch_stats (sends vs)).2)
      as [[ok c1] w1] eqn:Hs. apply send_and_record_sent_on in Hs as Hso; [| done].
    exists c1, w1. split; [| done]. rewrite (surjective_pairing (batch_stats _)), Hs. done. }
  case_decide as Hd.
  { exists c1, w1. split; [done |]. eapply sent_on_routed; [done | done | exact H1 |].
    fold vs. rewrite Hd. apply sent_on_nil. }
  rewrite (surjective_pairing (batch_stats _)).
  destruct (send_with_backpressure w1 input_tx (expires vs) on_send_event _) as [[r c2] w2] eqn:Hs.
  apply expired_sent_on in Hs; [| done].
  exists (match r with Ok _ => c2 | Err _ => record_drop c2 ChannelClosed (batch_stats (expires vs)).1
    (batch_stats (expires vs)).2 end), w2. split; [by destruct r |].
  by eapply sent_on_routed.
Qed.

Lemma routed_like_drops routing input_tx group c w r n b :
  verdict routing input_tx <$> group = (fun _ => VDrop r) <$> group -> r <> ChannelClosed ->
  n = zlen group -> 0 <= b ->
  routed_like routing input_tx group c w (record_drop c r n b) w.
Proof.
  intros Hv Hr -> Hb. exists [], [OpDrop r (zlen group) b]. rewrite Hv.
  assert (0 <= zlen group) by apply zlen_nonneg. split_and!; try done.
  - apply sent_refl.
  - by repeat constructor.
  - intros ch _. clear. induction group; [done |]. cbn. done.
  - intros q Hq. unfold count_reason. cbn. rewrite Z.add_0_r.
    destruct (decide (r = q)) as [<- | Hne].
    + clear. induction group as [| p group IH]; [done |].
      rewrite fmap_cons, filter_cons, decide_True by done. by rewrite !zlen_cons, IH.
    + clear -Hne. induction group as [| p group IH]; [done |].
      rewrite fmap_cons, filter_cons, decide_False by (cbn; congruence). exact IH.
  - intros _. cbn. by rewrite Z.add_0_r.
Qed.

Lemma routed_like_local routing input_tx group c w c' w' :
  verdict routing input_tx <$> group = VSend input_tx <$> group ->
  sent_on input_tx group None c w c' w' -> routed_like routing input_tx group c w c' w'.
Proof.
  intros Hv (l & o & S & N & -> & W & D & E & R & P). exists l, o. rewrite Hv. split_and!; try done.
  - intros ch Hch. transitivity (if decide (input_tx = ch) then group else []).
    + case_decide as Hd; [subst; by apply D | by apply E].
    + clear. induction group as [| p group IH]; [by case_decide |].
      rewrite fmap_cons, bind_cons, routed_to_app, <- IH. cbn. case_decide; done.
  - intros r Hr. rewrite R by done. cbn. clear. unfold count_reason.
    induction group as [| p group IH]; [done |]. rewrite fmap_cons, filter_cons, decide_False; done.
  - auto.
Qed.

Lemma find_group_end_spec dst others k :
  exists n, find_group_end dst others k = Ret (k + n)%nat /\ (n <= length others)%nat /\
    Forall (fun p => extract_dst_ip p = Ret (Some dst)) (take n others).
Proof.
  revert k. induction others as [| p others IH]; intros k; cbn.
  - exists 0%nat. rewrite Nat.add_0_r. split_and!; [done | lia | constructor].
  - destruct (extract_dst_ip_total p) as [d Hd]. rewrite Hd. cbn. case_decide as Hne.
    + exists 0%nat. rewrite Nat.add_0_r. split_and!; [done | lia | constructor].
    + destruct (IH (S k)) as (n & Hf & Hle & Hall). exists (S n).
      replace (k + S n)%nat with (S k + n)%nat by lia. split_and!; [done | lia |]. constructor; [| done].
      destruct (decide (d = Some dst)); [congruence | done].
Qed.

(** A packet with a destination has a TTL byte. *)
Lemma extract_has_ttl p dst :
  Forall is_byte p -> extract_dst_ip p = Ret (Some dst) -> has_ttl p.
Proof.
  intros Hb He. destruct (ttl_offset p) as [off |] eqn:Hoff.
  - destruct (index_in_range p off) as (t & Ht & _); [by apply ttl_offset_in_range |].
    assert (is_byte t) as Bt by by eapply Forall_lookup_1. unfold is_byte in Bt.
    destruct (decide (t = 0)) as [-> |].
    + exists 0, p. by rewrite (decrement_ttl_zero p off).
    + destruct (decrement_ttl_pos p off t) as (p' & Hd & _); [done.. | lia |]. exists t, p'. auto with lia.
  - exfalso. revert He Hoff. unfold extract_dst_ip, ttl_offset, IPV4_MIN_LEN, IPV6_MIN_LEN.
    destruct (head p); [| done]. cbn. repeat case_decide; try done; lia.
Qed.

(** One iteration consumes a non-empty prefix of the batch and routes it. *)
Lemma ingress_step_routed first others routing input_tx c w :
  Forall is_byte first -> Forall (Forall is_byte) others ->
  exists done batch c' w',
    ingress_step first others routing input_tx c w = Ret (batch, c', w') /\
    first :: others = done ++ batch /\ done <> [] /\
    routed_like routing input_tx done c w c' w'.
Proof.
  intros Hb Hbs. unfold ingress_step. destruct (extract_dst_ip_total first) as [d Hd].
  rewrite Hd. cbn [mbind outcome_bind]. destruct d as [dst |]; cycle 1.
  { eexists [first], others, _, _. split_and!; [done.. |]. pose proof (zlen_nonneg first).
    apply routed_like_drops; [| done | done | done]. unfold verdict. cbn. by rewrite Hd. }
  destruct (find_group_end_spec dst others 1) as (n & -> & Hn & Hall). cbn [mbind outcome_bind].
  change (1 + n)%nat with (S n). cbn [take drop]. set (group := first :: take n others).
  assert (Forall (fun p => extract_dst_ip p = Ret (Some dst)) group) as Hgrp by by constructor.
  assert (first :: others = group ++ drop n others) as Hsplit
    by (unfold group; cbn; by rewrite take_drop).
  assert (group <> []) as Hne by done.
  assert (Forall has_ttl group) as Httl.
  { apply Forall_forall. intros p Hp. rewrite Forall_forall in Hgrp.
    apply extract_has_ttl with dst; [| by apply Hgrp].
    assert (Forall (Forall is_byte) group) as Hbg by (constructor; [done | by apply Forall_take]).
    rewrite Forall_forall in Hbg. by apply Hbg. }
  assert (forall f, (forall p, extract_dst_ip p = Ret (Some dst) -> verdict routing input_tx p = f p) ->
    verdict routing input_tx <$> group = f <$> group) as Hverd.
  { intros f Hf. clear -Hgrp Hf. induction Hgrp; cbn; [done |]. f_equal; auto. }
  rewrite (surjective_pairing (batch_stats group)). pose proof (batch_stats_nonneg group) as [_ Hbn].
  destruct (routing_lookup routing dst) as [route |] eqn:Hl; cycle 1.
  { eexists group, _, _, _. split_and!; [done.. |]. apply routed_like_drops; try done.
    apply Hverd. intros p Hp. unfold verdict. by rewrite Hp, Hl. }
  destruct (same_channel (rm_tx route) input_tx) eqn:Hsame.
  - destruct (send_and_record c w (rm_tx route) group _ _) as [[ok c1] w1] eqn:Hs.
    apply send_and_record_sent_on in Hs; [| done]. eexists group, _, _, _. split_and!; [done.. |].
    unfold same_channel in Hsame. rewrite bool_decide_eq_true in Hsame. rewrite Hsame in *.
    apply routed_like_local; [| done]. apply Hverd. intros p Hp. unfold verdict.
    rewrite Hp, Hl, Hsame. unfold same_channel. by rewrite bool_decide_true.
  - unfold same_channel in Hsame. rewrite bool_decide_eq_false in Hsame.
    destruct (forward_group_routed routing (rm_tx route) input_tx group c w) as (c' & w' & -> & Hr);
      [done | done | | by eexists group, _, c', w'].
    apply Hverd. intros p Hp. unfold verdict, same_channel. by rewrite Hp, Hl, bool_decide_false by done.
Qed.

Lemma ingress_loop_routed fuel batch routing input_tx c w :
  (length batch <= fuel)%nat -> Forall (Forall is_byte) batch ->
  exists c' w', ingress_loop fuel batch routing input_tx c w = Ret (Some (c', w')) /\
    routed_like routing input_tx batch c w c' w'.
Proof.
  revert batch c w. induction fuel as [| fuel IH]; intros [| first others] c w Hle Hb; cbn [ingress_loop].
  - eexists _, _. split; [done | apply routed_like_nil].
  - cbn in Hle. lia.
  - eexists _, _. split; [done | apply routed_like_nil].
  - pose proof Hb as [Hf Ho]%Forall_cons.
    destruct (ingress_step_routed first others routing input_tx c w Hf Ho)
      as (dn & batch & c1 & w1 & -> & Hsplit & Hne & Hr). cbn [mbind outcome_bind].
    destruct (IH batch c1 w1) as (c' & w' & -> & Hr').
    + apply (f_equal length) in Hsplit. rewrite length_app in Hsplit. destruct dn; [done |].
      cbn in *. lia.
    + rewrite Hsplit in Hb. by apply Forall_app in Hb as [_ Hb].
    + exists c', w'. split; [done |]. rewrite Hsplit. by eapply routed_like_app.
Qed.

(** ** Properties *)

(** C3: batching is invisible.  For every batch of byte strings the ingress handler
    terminates within its bound without a panic, and it did exactly what routing
    the packets one at a time would do: per channel that is still open the same
    packets in the same order, TTL-expired packets on the TUN channel, every drop
    counted under its reason, and every packet counted once while the TUN channel
    is open. *)
Theorem handle_ingress_batch_per_packet (batch : list packet) (routing : RoutingTable)
    (input_tx : Sender) (c : Counters) (w : world) :
  Forall (Forall is_byte) batch ->
  exists c' w', handle_ingress_batch batch routing input_tx c w = Ret (Some (c', w')) /\
    routed_like routing input_tx batch c w c' w'.
Proof. intros Hb. by apply ingress_loop_routed. Qed.

(** The output handler sends a non-empty batch unchanged, as one message, to the
    channel of the route of its first packet; without a destination or a route it
    counts the whole batch as dropped and sends nothing.  It never panics. *)
Theorem handle_output_batch_spec (first : packet) (others : list packet) (routing : RoutingTable)
    (c : Counters) (w : world) :
  let batch := first :: others in
  exists c' w' ops, handle_output_batch batch routing c w = Ret (c', w') /\
    c' = foldl run_op c ops /\ op_packets ops = zlen batch /\
    match extract_dst_ip first with
    | Ret (Some dst) =>
      match routing_lookup routing dst with
      | Some m => sent w [(rm_tx m, batch)] w' /\ op_reason ChannelClosed ops = 0 \/
                  sent w [] w' /\ is_closed w' (rm_tx m) = true /\ op_reason ChannelClosed ops = zlen batch
      | None => w' = w /\ op_reason NoRoute ops = zlen batch
      end
    | _ => w' = w /\ op_reason InvalidIpVersion ops = zlen batch
    end.
Proof.
  intros batch. unfold handle_output_batch. rewrite (surjective_pairing (batch_stats batch)).
  cbn [head batch]. destruct (extract_dst_ip_total first) as [d Hd]. fold batch. rewrite Hd.
  cbn [mbind outcome_bind]. destruct d as [dst |].
  - destruct (routing_lookup routing dst) as [m |].
    + destruct (send_and_record c w (rm_tx m) batch _ _) as [[ok c'] w'] eqn:Hs.
      apply send_and_record_ops in Hs as (qs & Hq & Hc & Hs).
      eexists c', w', _. split_and!; [done | exact Hc | |].
      * rewrite op_packets_app, waits_packets by done. destruct ok; cbn; by rewrite Z.add_0_r.
      * rewrite op_reason_app, waits_reason by done. destruct ok; [left | right]; [done |].
        destruct Hs. split_and!; try done; cbn; by rewrite ?Z.add_0_r.
    + eexists _, _, [OpDrop NoRoute _ _]. split_and!; try done; cbn; by rewrite ?Z.add_0_r.
  - eexists _, _, [OpDrop InvalidIpVersion _ _]. split_and!; try done; cbn; by rewrite ?Z.add_0_r.
Qed.
End facts.

(** ** Concrete runs

    A table with 192.0.2.0/24 through channel 1, and a batch of a packet for it, one
    whose TTL expires and one without a route. *)
Definition run_table : @RoutingTable CidrNet.lib MapTrie.lib :=
  match routing_make [sample_peer "a" [sample_net 3221225984 24]] {[ lit "a" := 1%nat ]} sample_tun 0%nat with
  | Ok t => t | Err _ => routing_new end.

Definition run_batch : list packet :=
  [sample_packet; <[8%nat:=1]> sample_packet; <[16%nat:=9]> sample_packet; [255]].

Lemma run_batch_bytes : Forall (Forall is_byte) run_batch.
Proof. unfold run_batch, sample_packet, is_byte. cbn. repeat constructor; lia. Qed.

Lemma handle_ingress_batch_per_packet_witness :
  exists c' w',
    handle_ingress_batch (M := ListChannels.lib) run_batch run_table 0%nat
      (counters_new Router Rx) ListChannels.empty = Ret (Some (c', w')) /\
    routed_like (M := ListChannels.lib) run_table 0%nat run_batch (counters_new Router Rx) ListChannels.empty c' w' /\
    (verdict_reason ∘ verdict run_table 0%nat <$> run_batch) =
      [None; Some TtlExpired; Some NoRoute; Some InvalidIpVersion].
Proof.
  destruct (handle_ingress_batch_per_packet (M := ListChannels.lib) run_batch run_table 0%nat
    (counters_new Router Rx) ListChannels.empty run_batch_bytes) as (c' & w' & He & Hr).
  exists c', w'. split; [exact He | split; [exact Hr | by vm_compute]].
Defined.

Lemma handle_output_batch_spec_witness :
  exists c' w' ops,
    handle_output_batch (M := ListChannels.lib) run_batch run_table
      (counters_new Router Rx) ListChannels.empty = Ret (c', w') /\
    c' = foldl run_op (counters_new Router Rx) ops /\ op_packets ops = 4.
Proof.
  destruct (handle_output_batch_spec (M := ListChannels.lib) sample_packet
    [<[8%nat:=1]> sample_packet; <[16%nat:=9]> sample_packet; [255]] run_table
    (counters_new Router Rx) ListChannels.empty) as (c' & w' & ops & He & Hc & Hn & _).
  exists c', w', ops. split; [exact He | split; [exact Hc | exact Hn]].
Defined.
