(* ===== verification/Route.v ===== *)
(** * System route synchronization

    Models [src/src/route.rs]: [sync_tun_routes] with its helpers, and the message
    loop of the route actor.  The host's routes belong to the [route_manager]
    crate and the kernel: [RouteLib] is the crate's [Route] type, [RouteHandle] the
    trait of the same name, and [RouteHandleLaws] says what its operations do to
    the host's table.  Hash sets are finite sets; the order in which they are
    iterated is not used by any property. *)

From S2P Require Import Prelude Net.
#[local] Open Scope Z_scope.

(** [route_manager::Route]: the accessors and the constructor the code uses. *)
Class RouteLib : Type := {
  Route : Type;
  r_destination : Route -> IpAddr;
  r_prefix : Route -> Z;
  r_if_index : Route -> option Z;
  route_new : IpAddr -> Z -> Z -> Route;   (* Route::new(ip, prefix).with_if_index(i) *)
}.

Class RouteLaws (R : RouteLib) : Prop := {
  route_new_destination ip p i : r_destination (route_new ip p i) = ip;
  route_new_prefix ip p i : r_prefix (route_new ip p i) = p;
  route_new_if_index ip p i : r_if_index (route_new ip p i) = Some i;
}.

(** [trait RouteHandle]: [handle] is the state of the host, [table] its routes. *)
Class RouteHandle (R : RouteLib) : Type := {
  handle : Type;
  rt_table : handle -> list Route;
  rt_list : handle -> result (list Route) rstr * handle;
  rt_add : handle -> Route -> result unit rstr * handle;
  rt_delete : handle -> Route -> result unit rstr * handle;
}.

(** The route the kernel stores for a request: the network of its destination.  (For a
    destination with host bits it may also refuse.) *)
Definition stored {R : RouteLib} (rt rt' : Route) : Prop :=
  r_destination rt' = mask_ip (r_prefix rt) (r_destination rt) /\ r_prefix rt' = r_prefix rt /\ r_if_index rt' = r_if_index rt.

Class RouteHandleLaws {R : RouteLib} (H : RouteHandle R) : Prop := {
  rt_list_law h r h' : rt_list h = (r, h') ->
    rt_table h' = rt_table h /\ (forall rs, r = Ok rs -> rs = rt_table h);
  rt_add_law h rt r h' : rt_add h rt = (r, h') ->
    if is_ok r then exists rt', stored rt rt' /\ forall x, x ∈ rt_table h' <-> x ∈ rt_table h \/ x = rt'
    else rt_table h' = rt_table h;
  rt_delete_law h rt r h' : rt_delete h rt = (r, h') ->
    if is_ok r then forall x, x ∈ rt_table h' <-> x ∈ rt_table h /\ x <> rt
    else rt_table h' = rt_table h;
}.

Inductive RouteSyncError : Type :=
| InterfaceLookup (interface error : rstr)
| ListFailed (error : rstr).

Section route.
Context {L : IpNetLib}.

(** [split_default_prefix]. *)
Definition split_default_prefix (net : IpNet) : option (IpNet * IpNet) :=
  if decide (prefix_len net <> 0) then None else
  it ← subnets net 1;
  match it with a :: b :: _ => Some (a, b) | _ => None end.

(** [expand_allowed_prefixes]. *)
Definition expand_allowed_prefixes (allowed : list IpNet) : gset IpNet :=
  foldl (fun res net =>
    if decide (prefix_len net = 0) then
      match split_default_prefix net with
      | Some (a, b) => {[a; b]} ∪ res
      | None => {[net]} ∪ res
      end
    else {[net]} ∪ res) ∅ allowed.

(** [is_ipv6_kernel_route]. *)
Definition is_ipv6_kernel_route (net : IpNet) : bool :=
  match network net with
  | V6 a => is_unicast_link_local a || is_multicast a
  | V4 _ => false
  end.

(** The routes the kernel keeps for the TUN addresses. *)
Definition tun_kernel_nets (addr : IpNet) : list IpNet :=
  [trunc addr; ipnet_from (ipnet_addr addr)] ++
  (if is_ipv4 (ipnet_addr (trunc addr)) then
     if decide (prefix_len (trunc addr) <= 30) then
       [ipnet_from (network (trunc addr)); ipnet_from (broadcast (trunc addr))]
     else []
   else []).

Definition limited_broadcast : IpNet := ipnet_from (V4 (be_bytes [255; 255; 255; 255])).

Definition tun_v4_kernel_routes (tun_addrs : list IpNet) : gset IpNet :=
  {[limited_broadcast]} ∪ list_to_set (tun_addrs ≫= tun_kernel_nets).

Definition desired_routes (tun_addrs allowed : list IpNet) : gset IpNet :=
  let tun_prefixes := trunc <$> tun_addrs in
  filter (fun net => existsb (fun prefix => contains_net prefix net) tun_prefixes = false)
    (expand_allowed_prefixes allowed).

Section sync.
Context {R : RouteLib} {H : RouteHandle R}.

(** [ipnet_from_route]. *)
Definition ipnet_from_route (route : Route) : option IpNet :=
  ipnet_new (r_destination route) (r_prefix route).

(** The loop over the host's routes: what exists already, stale routes deleted. *)
Fixpoint scan_routes (tun_ifindex : Z) (desired kernel : gset IpNet) (routes : list Route)
    (existing : gset IpNet) (h : handle) : gset IpNet * handle :=
  match routes with
  | [] => (existing, h)
  | route :: routes' =>
    match ipnet_from_route route with
    | None => scan_routes tun_ifindex desired kernel routes' existing h
    | Some net =>
      if decide (r_if_index route = Some tun_ifindex) then
        if decide (net ∈ desired) then
          scan_routes tun_ifindex desired kernel routes' ({[net]} ∪ existing) h
        else if bool_decide (net ∈ kernel) || is_ipv6_kernel_route net then
          scan_routes tun_ifindex desired kernel routes' existing h
        else
          scan_routes tun_ifindex desired kernel routes' existing (rt_delete h route).2
      else scan_routes tun_ifindex desired kernel routes' existing h
    end
  end.

(** The loop that adds the missing routes. *)
Fixpoint add_routes (tun_ifindex : Z) (existing : gset IpNet) (nets : list IpNet) (h : handle) : handle :=
  match nets with
  | [] => h
  | net :: nets' =>
    if decide (net ∈ existing) then add_routes tun_ifindex existing nets' h
    else add_routes tun_ifindex existing nets'
           (rt_add h (route_new (ipnet_addr net) (prefix_len net) tun_ifindex)).2
  end.

(** [sync_tun_routes]; [resolve] is the [IfIndexResolver]. *)
Definition sync_tun_routes (resolve : rstr -> result Z RouteSyncError) (tun_if : rstr)
    (tun_addrs allowed : list IpNet) (h : handle) : result unit RouteSyncError * handle :=
  match resolve tun_if with
  | Err e => (Err e, h)
  | Ok tun_ifindex =>
    match rt_list h with
    | (Err err, h) => (Err (ListFailed err), h)
    | (Ok routes, h) =>
      let desired := desired_routes tun_addrs allowed in
      let '(existing, h) :=
        scan_routes tun_ifindex desired (tun_v4_kernel_routes tun_addrs) routes ∅ h in
      (Ok tt, add_routes tun_ifindex existing (elements desired) h)
    end
  end.

(** ** Warnings

    What the synchronization logs, besides its effect on the host. *)

Inductive RouteWarning : Type :=
| DefaultSplit (prefix : IpNet)
| RouteSkipped
| DeleteFailed (prefix : IpNet) (error : rstr)
| RouteConflict (prefix : IpNet) (existing_ifindex : option Z)
| AddFailed (prefix : IpNet) (error : rstr).

(** [expand_allowed_prefixes]. *)
Definition expand_warnings (allowed : list IpNet) : list RouteWarning :=
  omap (fun net => if decide (prefix_len net = 0) then Some (DefaultSplit net) else None) allowed.

(** The loop over the host's routes. *)
Fixpoint scan_warnings (tun_ifindex : Z) (desired kernel : gset IpNet) (routes : list Route) (h : handle) :
    list RouteWarning :=
  match routes with
  | [] => []
  | route :: routes' =>
    match ipnet_from_route route with
    | None => RouteSkipped :: scan_warnings tun_ifindex desired kernel routes' h
    | Some net =>
      if decide (r_if_index route = Some tun_ifindex) then
        if bool_decide (net ∈ desired) || bool_decide (net ∈ kernel) || is_ipv6_kernel_route net then
          scan_warnings tun_ifindex desired kernel routes' h
        else
          let '(r, h) := rt_delete h route in
          match r with Err err => [DeleteFailed net err] | Ok _ => [] end ++ scan_warnings tun_ifindex desired kernel routes' h
      else if decide (net ∈ desired) then
        RouteConflict net (r_if_index route) :: scan_warnings tun_ifindex desired kernel routes' h
      else scan_warnings tun_ifindex desired kernel routes' h
    end
  end.

(** The loop that adds the missing routes. *)
Fixpoint add_warnings (tun_ifindex : Z) (existing : gset IpNet) (nets : list IpNet) (h : handle) : list RouteWarning :=
  match nets with
  | [] => []
  | net :: nets' =>
    if decide (net ∈ existing) then add_warnings tun_ifindex existing nets' h
    else
      let '(r, h) := rt_add h (route_new (ipnet_addr net) (prefix_len net) tun_ifindex) in
      match r with Err err => [AddFailed net err] | Ok _ => [] end ++ add_warnings tun_ifindex existing nets' h
  end.

Definition sync_warnings (resolve : rstr -> result Z RouteSyncError) (tun_if : rstr)
    (tun_addrs allowed : list IpNet) (h : handle) : list RouteWarning :=
  match resolve tun_if with
  | Err _ => []
  | Ok tun_ifindex =>
    match rt_list h with
    | (Err _, _) => []
    | (Ok routes, h) =>
      let desired := desired_routes tun_addrs allowed in
      let kernel := tun_v4_kernel_routes tun_addrs in
      let '(existing, h') := scan_routes tun_ifindex desired kernel routes ∅ h in
      expand_warnings allowed ++ scan_warnings tun_ifindex desired kernel routes h ++
      add_warnings tun_ifindex existing (elements desired) h'
    end
  end.

(** The actor's loop.  A message is [None] when the mailbox is closed; the result is the
    failures it logged, what the task returned ([None] while it waits for a message) and
    the host. *)
Inductive RouteMsg : Type :=
| MsgSyncRoutes (tun_addrs allowed : list IpNet)
| MsgStop
| MsgOther.

Fixpoint route_actor (resolve : rstr -> result Z RouteSyncError) (tun_if : rstr)
    (inbox : list (option RouteMsg)) (h : handle) : list RouteSyncError * option (result unit rstr) * handle :=
  match inbox with
  | [] => ([], None, h)
  | Some (MsgSyncRoutes tun_addrs allowed) :: inbox' =>
      let '(r, h) := sync_tun_routes resolve tun_if tun_addrs allowed h in
      let '(failures, ret, h) := route_actor resolve tun_if inbox' h in
      (match r with Err err => [err] | Ok _ => [] end ++ failures, ret, h)
  | Some MsgStop :: _ | None :: _ => ([], Some (Ok tt), h)
  | Some MsgOther :: inbox' => route_actor resolve tun_if inbox' h
  end.
End sync.
End route.

(** A concrete host: a list of (destination, prefix, interface) routes. *)
Module ListRoutes.

#[export] Instance lib : RouteLib := {|
  Route := IpAddr * Z * option Z;
  r_destination r := r.1.1;
  r_prefix r := r.1.2;
  r_if_index r := r.2;
  route_new ip p i := (ip, p, Some i);
|}.

#[export] Instance hnd : RouteHandle lib := {|
  handle := list (IpAddr * Z * option Z);
  rt_table h := h;
  rt_list h := (Ok h, h);
  rt_add (h : list (IpAddr * Z * option Z)) r := (Ok tt, h ++ [(mask_ip r.1.2 r.1.1, r.1.2, r.2)]);
  rt_delete (h : list (IpAddr * Z * option Z)) r := (Ok tt, filter (fun x => x <> r) h);
|}.

End ListRoutes.

(** ** Specification *)

Section spec.
Context {L : IpNetLib} {R : RouteLib} {H : RouteHandle R}.

(** The routes the operating system manages on the TUN interface: the connected
    network and the address itself, for IPv4 networks of at least four addresses
    the two broadcast routes, the limited broadcast, and the IPv6 link-local and
    multicast routes. *)
Definition os_managed (tun_addrs : list IpNet) (net : IpNet) : Prop :=
  (exists addr, addr ∈ tun_addrs /\
     (net = trunc addr \/ net = ipnet_from (ipnet_addr addr) \/
      (is_ipv4 (ipnet_addr addr) = true /\ prefix_len addr <= 30 /\
       (net = ipnet_from (network addr) \/ net = ipnet_from (broadcast (trunc addr)))))) \/
  net = ipnet_from (V4 4294967295) \/
  is_ipv6_kernel_route net = true.

(** A route of the TUN interface that is neither desired nor the system's. *)
Definition stale (tun_ifindex : Z) (tun_addrs allowed : list IpNet) (r : Route) : Prop :=
  exists net, ipnet_from_route r = Some net /\ r_if_index r = Some tun_ifindex /\
    net ∉ desired_routes tun_addrs allowed /\ ~ os_managed tun_addrs net.

(** A route for [net] on the interface. *)
Definition on_tun (tun_ifindex : Z) (net : IpNet) (r : Route) : Prop :=
  r_if_index r = Some tun_ifindex /\ ipnet_from_route r = Some net.

(** Additions and deletions never fail. *)
Definition reliable : Prop :=
  (forall h r, is_ok (rt_add h r).1 = true) /\ (forall h r, is_ok (rt_delete h r).1 = true).
End spec.

(** ** Lemmas *)

(** *** Splitting default routes *)

Section split.
Context {L : IpNetLib} {HL : IpNetLaws L}.

Lemma split_default_spec net :
  prefix_len net = 0 ->
  exists a b, split_default_prefix net = Some (a, b) /\ prefix_len a = 1 /\ prefix_len b = 1 /\
    ipnet_addr a = network net /\
    ipnet_addr b = ip_with (network net) (ip_bits (network net) + 2 ^ (ip_width (ipnet_addr net) - 1)).
Proof.
  intros H0. unfold split_default_prefix. rewrite decide_False by lia.
  destruct (subnets_spec net 1) as (l & -> & Hl).
  { pose proof (prefix_len_range net). destruct (ipnet_addr net); cbn in *; lia. }
  rewrite H0 in Hl. change (Z.to_nat (2 ^ (1 - 0))) with 2%nat in Hl. cbn [seq fmap list_fmap] in Hl.
  destruct l as [| a [| b [| c l]]]; try discriminate. injection Hl as Ha Hap Hb Hbp.
  assert (ip_width (network net) = ip_width (ipnet_addr net)) as Hw
    by (rewrite network_spec, trunc_addr; apply mask_ip_width).
  exists a, b. cbn. split_and!; try done.
  - rewrite Ha. destruct (network net); cbn; f_equal; lia.
  - rewrite Hb, Hw. f_equal. lia.
Qed.

Lemma elem_of_expand allowed net :
  net ∈ expand_allowed_prefixes allowed <->
  exists a, a ∈ allowed /\
    (prefix_len a <> 0 /\ net = a \/
     prefix_len a = 0 /\ exists x y, split_default_prefix a = Some (x, y) /\ (net = x \/ net = y)).
Proof.
  unfold expand_allowed_prefixes.
  induction allowed as [| a l IH] using rev_ind; [cbn; set_solver |]. rewrite foldl_snoc.
  assert (forall P : IpNet -> Prop, (exists x, x ∈ l ++ [a] /\ P x) <-> P a \/ exists x, x ∈ l /\ P x) as Hex.
  { intros P. setoid_rewrite elem_of_app. setoid_rewrite list_elem_of_singleton. naive_solver. }
  rewrite Hex, <- IH. clear Hex IH. case_decide as H0.
  - destruct (split_default_spec a H0) as (x & y & -> & _). rewrite !elem_of_union, !elem_of_singleton.
    naive_solver.
  - rewrite elem_of_union, elem_of_singleton. naive_solver.
Qed.

Lemma half_mask w v :
  0 < w -> mask_bits w 0 v = v ->
  mask_bits w 1 v = v /\ mask_bits w 1 (v + 2 ^ (w - 1)) = v + 2 ^ (w - 1).
Proof.
  intros Hw. unfold mask_bits. rewrite Z.sub_0_r. set (P := 2 ^ (w - 1)). intros Hm.
  assert (0 < P) by (apply Z.pow_pos_nonneg; lia).
  assert (2 ^ w = 2 * P) as Hd by (unfold P; rewrite <- Z.pow_succ_r by lia; f_equal; lia).
  assert (v = (2 * (v / 2 ^ w)) * P) as Hv by (pose proof (Z.div_mod v (2 ^ w)); lia).
  assert (v mod P = 0) as H0 by (rewrite Hv; by apply Z.mod_mul; lia).
  assert ((v + P) mod P = 0) as H1 by (replace (v + P) with (v + 1 * P) by lia; by rewrite Z.mod_add by lia). lia.
Qed.

(** The halves of a network without host bits have none. *)
Lemma split_default_truncated net x y :
  prefix_len net = 0 -> trunc net = net -> split_default_prefix net = Some (x, y) -> trunc x = x /\ trunc y = y.
Proof.
  intros H0 Ht Hs. destruct (split_default_spec net H0) as (a & b & Hs' & Ha1 & Hb1 & Ha & Hb).
  rewrite Hs in Hs'. injection Hs' as <- <-. rewrite network_spec, Ht in Ha, Hb.
  assert (Hm : mask_ip 0 (ipnet_addr net) = ipnet_addr net) by (rewrite <- H0, <- trunc_addr; by rewrite Ht).
  split; (apply ipnet_ext; [| by rewrite trunc_len]); rewrite trunc_addr, ?Ha1, ?Hb1, ?Ha, ?Hb;
    destruct (ipnet_addr net) as [v | v]; unfold mask_ip in *; cbn -[mask_bits Z.pow] in *;
    injection Hm as Hm; f_equal; by apply half_mask in Hm as [? ?]; [| lia].
Qed.

(** Desired prefixes of allowed prefixes without host bits have none. *)
Lemma desired_truncated tun_addrs allowed net :
  Forall (fun net => trunc net = net) allowed -> net ∈ desired_routes tun_addrs allowed ->
  net ∈ expand_allowed_prefixes allowed /\ trunc net = net.
Proof.
  rewrite Forall_forall. intros Hall Hn. apply elem_of_filter in Hn as [_ Hn]. split; [done |].
  apply elem_of_expand in Hn as (a & Ha & [[_ ->] | (H0 & x & y & Hs & Hxy)]); [by apply Hall |].
  destruct (split_default_truncated a x y H0 (Hall a Ha) Hs). naive_solver.
Qed.
End split.

Section facts.
Context {L : IpNetLib} {HL : IpNetLaws L} {R : RouteLib} {HR : RouteLaws R}
  {H : RouteHandle R} {HH : RouteHandleLaws H}.

Lemma os_managed_bool tun_addrs net :
  (bool_decide (net ∈ tun_v4_kernel_routes tun_addrs) || is_ipv6_kernel_route net) = true <->
  os_managed tun_addrs net.
Proof.
  unfold os_managed, tun_v4_kernel_routes, limited_broadcast.
  rewrite orb_true_iff, bool_decide_eq_true, elem_of_union, elem_of_singleton, elem_of_list_to_set.
  rewrite list_elem_of_bind. change (be_bytes [255; 255; 255; 255]) with 4294967295.
  enough (forall addr, net ∈ tun_kernel_nets addr <->
    (net = trunc addr \/ net = ipnet_from (ipnet_addr addr) \/
      (is_ipv4 (ipnet_addr addr) = true /\ prefix_len addr <= 30 /\
       (net = ipnet_from (network addr) \/ net = ipnet_from (broadcast (trunc addr)))))) as Hk.
  { setoid_rewrite Hk. naive_solver. }
  intros addr. unfold tun_kernel_nets. rewrite trunc_addr, mask_ip_family, trunc_len.
  assert (network (trunc addr) = network addr) as -> by by rewrite !network_spec, trunc_trunc.
  destruct (is_ipv4 _); [case_decide |]; set_unfold; naive_solver.
Qed.

Definition stale_in (tun_ifindex : Z) (desired kernel : gset IpNet) (r : Route) : Prop :=
  exists net, ipnet_from_route r = Some net /\ r_if_index r = Some tun_ifindex /\
    net ∉ desired /\ (bool_decide (net ∈ kernel) || is_ipv6_kernel_route net) = false.

Lemma stale_in_iff ifi tun_addrs allowed r :
  stale_in ifi (desired_routes tun_addrs allowed) (tun_v4_kernel_routes tun_addrs) r <->
  stale ifi tun_addrs allowed r.
Proof.
  unfold stale_in, stale. setoid_rewrite <- os_managed_bool.
  setoid_rewrite not_true_iff_false. done.
Qed.

Lemma delete_subset h r x : x ∈ rt_table (rt_delete h r).2 -> x ∈ rt_table h.
Proof.
  destruct (rt_delete h r) as [res h'] eqn:E. pose proof (rt_delete_law _ _ _ _ E) as Hl. cbn.
  destruct (is_ok res); [| by rewrite Hl]. by intros [? _]%Hl.
Qed.

Lemma delete_keeps h r x : x ∈ rt_table h -> x <> r -> x ∈ rt_table (rt_delete h r).2.
Proof.
  destruct (rt_delete h r) as [res h'] eqn:E. pose proof (rt_delete_law _ _ _ _ E) as Hl. cbn.
  destruct (is_ok res); [| by rewrite Hl]. intros. by apply Hl.
Qed.

Lemma scan_routes_existing ifi D K rs ex h net :
  net ∈ (scan_routes ifi D K rs ex h).1 <->
  net ∈ ex \/ (net ∈ D /\ exists r, r ∈ rs /\ on_tun ifi net r).
Proof.
  revert ex h. induction rs as [| r rs IH]; intros ex h; cbn [scan_routes]; [cbn; set_solver |].
  assert (forall P : Route -> Prop, (exists x, x ∈ r :: rs /\ P x) <-> P r \/ exists x, x ∈ rs /\ P x) as Hex.
  { intros P. setoid_rewrite elem_of_cons. naive_solver. }
  rewrite Hex. unfold on_tun at 1.
  destruct (ipnet_from_route r) as [n |] eqn:Hn; [| rewrite IH; naive_solver].
  destruct (decide (r_if_index r = Some ifi)); [| rewrite IH; naive_solver].
  destruct (decide (n ∈ D)).
  - rewrite IH, elem_of_union, elem_of_singleton. naive_solver.
  - destruct (_ || _); rewrite IH; naive_solver.
Qed.

Lemma scan_routes_subset ifi D K rs ex h x :
  x ∈ rt_table (scan_routes ifi D K rs ex h).2 -> x ∈ rt_table h.
Proof.
  revert ex h. induction rs as [| r rs IH]; intros ex h; cbn [scan_routes]; [done |].
  destruct (ipnet_from_route r); [| apply IH]. repeat (case_decide; [| try apply IH]); try apply IH.
  destruct (_ || _); [apply IH |]. intros Hx%IH. by eapply delete_subset.
Qed.

Lemma scan_routes_keeps ifi D K rs ex h x :
  x ∈ rt_table h -> (x ∈ rs -> ~ stale_in ifi D K x) -> x ∈ rt_table (scan_routes ifi D K rs ex h).2.
Proof.
  revert ex h. induction rs as [| r rs IH]; intros ex h Hx Hs; cbn [scan_routes]; [done |].
  assert (x ∈ rs -> ~ stale_in ifi D K x) as Hs' by (intros; apply Hs; by right).
  destruct (ipnet_from_route r) as [n |] eqn:Hn; [| by apply IH].
  case_decide; [| by apply IH]. case_decide; [by apply IH |].
  destruct (_ || _) eqn:Hk; [by apply IH |]. apply IH; [| done]. apply delete_keeps; [done |].
  intros ->. apply Hs; [by left |]. by exists n.
Qed.

Lemma scan_routes_deletes ifi D K rs ex h x :
  reliable -> x ∈ rs -> stale_in ifi D K x -> x ∉ rt_table (scan_routes ifi D K rs ex h).2.
Proof.
  intros [_ Hrel] Hx (n & Hn & Hi & Hd & Hk). revert ex h.
  induction rs as [| r rs IH]; intros ex h; [set_solver |]. cbn [scan_routes].
  apply elem_of_cons in Hx as [<- | Hx].
  - rewrite Hn, decide_True, decide_False, Hk by done. intros Hc%scan_routes_subset.
    specialize (Hrel h x). destruct (rt_delete h x) as [res h'] eqn:E.
    pose proof (rt_delete_law _ _ _ _ E) as Hl. cbn in *. rewrite Hrel in Hl.
    apply Hl in Hc as [_ Hc]. done.
  - specialize (IH Hx). destruct (ipnet_from_route r) as [m |]; [| apply IH].
    destruct (decide (r_if_index r = Some ifi)); [| apply IH].
    destruct (decide (m ∈ D)); [apply IH |].
    destruct (bool_decide (m ∈ K) || _); apply IH.
Qed.

Lemma add_routes_keeps ifi ex nets h x : x ∈ rt_table h -> x ∈ rt_table (add_routes ifi ex nets h).
Proof.
  revert h. induction nets as [| n nets IH]; intros h Hx; cbn; [done |]. case_decide; [by apply IH |].
  apply IH. destruct (rt_add h _) as [res h'] eqn:E. pose proof (rt_add_law _ _ _ _ E) as Hl. cbn.
  destruct (is_ok res); [destruct Hl as (rt' & _ & Hl) | by rewrite Hl]. apply Hl. by left.
Qed.

Definition tun_route (ifi : Z) (net : IpNet) : Route := route_new (ipnet_addr net) (prefix_len net) ifi.

Lemma add_routes_new ifi ex nets h x :
  x ∈ rt_table (add_routes ifi ex nets h) ->
  x ∈ rt_table h \/ exists net, net ∈ nets /\ net ∉ ex /\ stored (tun_route ifi net) x.
Proof.
  revert h. induction nets as [| n nets IH]; intros h Hx; cbn in Hx; [by left |].
  case_decide; [destruct (IH _ Hx) as [| (m & ? & ? & ?)]; [by left | right; exists m; set_solver] |].
  apply IH in Hx as [Hx | (m & ? & ? & ?)]; [| right; exists m; set_solver].
  destruct (rt_add h _) as [res h'] eqn:E. pose proof (rt_add_law _ _ _ _ E) as Hl. cbn in Hx.
  destruct (is_ok res); [destruct Hl as (rt' & Hst & Hl) | left; by rewrite <- Hl].
  destruct (proj1 (Hl x) Hx) as [Hx' | Hx']; [by left |]. right. exists n. rewrite Hx'. split; [by left |]. by split.
Qed.

Lemma add_routes_adds ifi ex nets h net :
  reliable -> net ∈ nets -> net ∉ ex -> exists x, stored (tun_route ifi net) x /\ x ∈ rt_table (add_routes ifi ex nets h).
Proof.
  intros [Hrel _] Hn He. revert h. induction nets as [| n nets IH]; intros h; [set_solver |]. cbn.
  apply elem_of_cons in Hn as [<- | Hn].
  - rewrite decide_False by done. specialize (Hrel h (tun_route ifi net)).
    unfold tun_route in *. destruct (rt_add h _) as [res h'] eqn:E.
    pose proof (rt_add_law _ _ _ _ E) as Hl. cbn in *. rewrite Hrel in Hl. destruct Hl as (rt' & Hst & Hl).
    exists rt'. split; [done |]. apply add_routes_keeps, Hl. by right.
  - case_decide; by apply IH.
Qed.

Lemma add_routes_none ifi ex nets h : (forall n, n ∈ nets -> n ∈ ex) -> add_routes ifi ex nets h = h.
Proof.
  induction nets as [| n nets IH]; intros Hall; cbn; [done |].
  rewrite decide_True by (apply Hall; by left). apply IH. set_solver.
Qed.

Lemma scan_routes_none ifi D K rs ex h :
  (forall r, r ∈ rs -> ~ stale_in ifi D K r) -> (scan_routes ifi D K rs ex h).2 = h.
Proof.
  revert ex. induction rs as [| r rs IH]; intros ex Hs; cbn [scan_routes]; [done |].
  assert (forall r, r ∈ rs -> ~ stale_in ifi D K r) as Hs' by set_solver.
  destruct (ipnet_from_route r) as [n |] eqn:Hn; [| by apply IH].
  case_decide; [| by apply IH]. case_decide; [by apply IH |].
  destruct (_ || _) eqn:Hk; [by apply IH |]. exfalso. apply (Hs r); [by left |]. by exists n.
Qed.

Lemma stored_on_tun ifi net x : stored (tun_route ifi net) x -> on_tun ifi (trunc net) x.
Proof.
  unfold stored, on_tun, tun_route, ipnet_from_route.
  rewrite route_new_if_index, route_new_destination, route_new_prefix. intros (-> & -> & ->). split; [done |].
  apply ipnet_new_spec. rewrite trunc_addr, trunc_len. split; [rewrite mask_ip_width; apply prefix_len_range | done].
Qed.

(** A successful synchronization, unfolded. *)
Lemma sync_tun_routes_Ok resolve tun_if tun_addrs allowed h h' ifi :
  resolve tun_if = Ok ifi -> sync_tun_routes resolve tun_if tun_addrs allowed h = (Ok tt, h') ->
  exists h0 ex h1, (rt_list h).2 = h0 /\ rt_table h0 = rt_table h /\
    scan_routes ifi (desired_routes tun_addrs allowed) (tun_v4_kernel_routes tun_addrs)
      (rt_table h) ∅ h0 = (ex, h1) /\
    h' = add_routes ifi ex (elements (desired_routes tun_addrs allowed)) h1.
Proof.
  intros Hr. unfold sync_tun_routes. rewrite Hr.
  destruct (rt_list h) as [[rs | e] h0] eqn:Hl; [| done].
  pose proof (rt_list_law _ _ _ Hl) as [Ht Hrs]. rewrite (Hrs rs) by done. cbv zeta.
  destruct (scan_routes _ _ _ _ _ _) as [ex h1] eqn:Hs. intros [= <-].
  exists h0, ex, h1. by rewrite Ht.
Qed.

(** A conflict is reported for exactly the desired prefixes that are routed on another
    interface, and a reliable host gets no other warning about its routes. *)
Lemma scan_warnings_conflict ifi D K rs h net i :
  RouteConflict net i ∈ scan_warnings ifi D K rs h <->
  net ∈ D /\ i <> Some ifi /\ exists r, r ∈ rs /\ ipnet_from_route r = Some net /\ r_if_index r = i.
Proof.
  revert h. induction rs as [| r rs IH]; intros h; cbn [scan_warnings]; [set_solver |].
  destruct (ipnet_from_route r) as [n |] eqn:Hn.
  2: { rewrite elem_of_cons, IH. split; [intros [| (? & ? & ? & ? & ?)]; [done | set_solver] |].
       intros (? & ? & r' & [-> | ?]%elem_of_cons & ? & ?); [congruence | right; eauto 8]. }
  assert (Hrest : i <> Some ifi -> net ∈ D -> (exists r', r' ∈ r :: rs /\ ipnet_from_route r' = Some net /\ r_if_index r' = i) <->
    (n = net /\ r_if_index r = i) \/ exists r', r' ∈ rs /\ ipnet_from_route r' = Some net /\ r_if_index r' = i).
  { intros _ _. split; [intros (r' & [-> | ?]%elem_of_cons & ? & ?); [left; split; congruence | right; eauto] |].
    intros [[-> ?] | (r' & ? & ? & ?)]; [exists r | exists r']; set_solver. }
  case_decide as Hi.
  - assert (Hskip : forall h', RouteConflict net i ∈ scan_warnings ifi D K rs h' <->
      net ∈ D /\ i <> Some ifi /\ exists r', r' ∈ r :: rs /\ ipnet_from_route r' = Some net /\ r_if_index r' = i).
    { intros h'. rewrite IH. split; intros (? & ? & Hex); (split; [done | split; [done |]]).
      - apply Hrest; auto.
      - apply Hrest in Hex as [[_ ?] | ?]; [congruence | done | done | done]. }
    destruct (_ || _); [apply Hskip |]. destruct (rt_delete h r) as [[u | e] h']; cbn [app]; [apply Hskip |].
    rewrite elem_of_cons, <- (Hskip h'). split; [by intros [|] | auto].
  - case_decide as Hd.
    + rewrite elem_of_cons, IH. split.
      * intros [[= -> ->] | (? & ? & Hex)]; (split; [done | split; [done |]]); apply Hrest; auto.
      * intros (? & ? & Hex). apply Hrest in Hex as [[-> <-] | ?]; [by left | right; auto | done | done].
    + rewrite IH. split; intros (? & ? & Hex); (split; [done | split; [done |]]); [apply Hrest; auto |].
      apply Hrest in Hex as [[-> _] | ?]; done.
Qed.

Lemma sync_warnings_quiet resolve tun_if tun_addrs allowed h w :
  reliable -> w ∈ sync_warnings resolve tun_if tun_addrs allowed h ->
  match w with DeleteFailed _ _ | AddFailed _ _ => False | _ => True end.
Proof.
  intros [Hadd Hdel]. unfold sync_warnings. destruct (resolve tun_if); [| set_solver].
  destruct (rt_list h) as [[rs | e] h1]; [| set_solver]. destruct (scan_routes _ _ _ _ _ _) as [ex h2].
  rewrite !elem_of_app. intros [Hw | [Hw | Hw]].
  - apply list_elem_of_omap in Hw as (n & _ & Hn). by case_decide; simplify_eq.
  - revert h1 h2 Hw. induction rs as [| r rs IH]; intros h1 h2; cbn [scan_warnings]; [set_solver |].
    destruct (ipnet_from_route r); [| intros [-> | ?]%elem_of_cons; [done | by eapply IH]].
    case_decide; [destruct (_ || _); [by eapply IH |] | case_decide; [intros [-> | ?]%elem_of_cons; [done |] |]; by eapply IH].
    specialize (Hdel h1 r). destruct (rt_delete h1 r) as [[u | e] h']; [| done]. by eapply IH.
  - revert h2 Hw. induction (elements _) as [| n ns IH]; intros h2; cbn [add_warnings]; [set_solver |].
    case_decide; [by eapply IH |]. specialize (Hadd h2 (route_new (ipnet_addr n) (prefix_len n) a)).
    destruct (rt_add _ _) as [[u | e] h']; [| done]. by eapply IH.
Qed.

(** ** Properties *)

(** C18: route synchronization is safe whatever the kernel answers: a route of another
    interface, a desired route or a route the operating system manages for the TUN
    addresses is never removed, and the only routes that appear are, on the TUN interface,
    those of the networks of missing desired prefixes. *)
Theorem sync_tun_routes_safe resolve tun_if tun_addrs allowed h h' ifi :
  resolve tun_if = Ok ifi -> sync_tun_routes resolve tun_if tun_addrs allowed h = (Ok tt, h') ->
  (forall r, r ∈ rt_table h -> ~ stale ifi tun_addrs allowed r -> r ∈ rt_table h') /\
  (forall r, r ∈ rt_table h' -> r ∈ rt_table h \/
     exists net, net ∈ desired_routes tun_addrs allowed /\ on_tun ifi (trunc net) r /\
       forall r', r' ∈ rt_table h -> ~ on_tun ifi net r').
Proof.
  intros Hr Hs. destruct (sync_tun_routes_Ok _ _ _ _ _ _ _ Hr Hs) as (h0 & ex & h1 & _ & Ht & Hsc & ->).
  assert (h1 = (scan_routes ifi (desired_routes tun_addrs allowed) (tun_v4_kernel_routes tun_addrs)
    (rt_table h) ∅ h0).2) as Hh1 by by rewrite Hsc.
  split.
  - intros r Hin Hns. apply add_routes_keeps. rewrite Hh1. apply scan_routes_keeps; [by rewrite Ht |].
    intros _. by rewrite stale_in_iff.
  - intros r [Hin | (net & Hn & He & Hst)]%add_routes_new.
    + left. rewrite Hh1 in Hin. apply scan_routes_subset in Hin. by rewrite <- Ht.
    + right. exists net. rewrite elem_of_elements in Hn. split; [done |].
      split; [by apply stored_on_tun |]. intros r' Hin' Hon. apply He.
      replace ex with (scan_routes ifi (desired_routes tun_addrs allowed) (tun_v4_kernel_routes tun_addrs)
        (rt_table h) ∅ h0).1 by by rewrite Hsc.
      apply scan_routes_existing. right. eauto.
Qed.

(** C19: when no allowed prefix has host bits and the kernel accepts the changes,
    synchronization converges: afterwards every desired prefix has a route on the TUN
    interface, and every route of the TUN interface is for a desired prefix or managed by
    the operating system. *)
Theorem sync_tun_routes_converges resolve tun_if tun_addrs allowed h h' ifi :
  reliable -> Forall (fun net => trunc net = net) allowed -> resolve tun_if = Ok ifi ->
  sync_tun_routes resolve tun_if tun_addrs allowed h = (Ok tt, h') ->
  (forall net, net ∈ desired_routes tun_addrs allowed ->
     exists r, r ∈ rt_table h' /\ on_tun ifi net r) /\
  (forall r net, r ∈ rt_table h' -> on_tun ifi net r ->
     net ∈ desired_routes tun_addrs allowed \/ os_managed tun_addrs net).
Proof.
  intros Hrel Hbits Hr Hs. pose proof (fun net Hn => proj2 (desired_truncated tun_addrs allowed net Hbits Hn)) as HT.
  destruct (sync_tun_routes_Ok _ _ _ _ _ _ _ Hr Hs) as (h0 & ex & h1 & _ & Ht & Hsc & ->).
  set (D := desired_routes tun_addrs allowed) in *. set (K := tun_v4_kernel_routes tun_addrs) in *.
  assert (ex = (scan_routes ifi D K (rt_table h) ∅ h0).1) as Hex by by rewrite Hsc.
  assert (h1 = (scan_routes ifi D K (rt_table h) ∅ h0).2) as Hh1 by by rewrite Hsc.
  split.
  - intros net Hn. destruct (decide (net ∈ ex)) as [He | He].
    + rewrite Hex, scan_routes_existing in He. destruct He as [He | (_ & r & Hin & Hon)]; [set_solver |].
      exists r. split; [| done]. apply add_routes_keeps. rewrite Hh1. apply scan_routes_keeps; [by rewrite Ht |].
      intros _ (n & Hf & _ & Hd & _). destruct Hon as [_ Hon]. simplify_eq. done.
    + destruct (add_routes_adds ifi ex (elements D) h1 net Hrel) as (x & Hx & Hin); [by apply elem_of_elements | done |].
      exists x. split; [done |]. rewrite <- (HT net Hn). by apply stored_on_tun.
  - intros r net Hin [Hi Hf]. apply add_routes_new in Hin as [Hin | (m & Hm & _ & Hst)].
    + destruct (decide (net ∈ D)); [by left |]. right. rewrite <- os_managed_bool.
      destruct (_ || _) eqn:Hk; [done |]. exfalso.
      assert (r ∈ rt_table h) as Hrh by (rewrite <- Ht; rewrite Hh1 in Hin; by eapply scan_routes_subset).
      rewrite Hh1 in Hin. revert Hin. apply scan_routes_deletes; [done | done |]. by exists net.
    + left. destruct (stored_on_tun ifi m r Hst) as [_ Hfm]. rewrite elem_of_elements in Hm.
      rewrite (HT m Hm) in Hfm. by simplify_eq.
Qed.

(** Synchronizing twice changes nothing more: on a host where every desired prefix
    has its route and no route is stale, no addition or deletion is issued, so the
    host is left as the listing left it. *)
Theorem sync_tun_routes_idempotent resolve tun_if tun_addrs allowed h h' ifi :
  resolve tun_if = Ok ifi -> sync_tun_routes resolve tun_if tun_addrs allowed h = (Ok tt, h') ->
  (forall net, net ∈ desired_routes tun_addrs allowed ->
     exists r, r ∈ rt_table h /\ on_tun ifi net r) ->
  (forall r net, r ∈ rt_table h -> on_tun ifi net r ->
     net ∈ desired_routes tun_addrs allowed \/ os_managed tun_addrs net) ->
  h' = (rt_list h).2.
Proof.
  intros Hr Hs Hall Hclean.
  destruct (sync_tun_routes_Ok _ _ _ _ _ _ _ Hr Hs) as (h0 & ex & h1 & -> & Ht & Hsc & ->).
  set (D := desired_routes tun_addrs allowed) in *. set (K := tun_v4_kernel_routes tun_addrs) in *.
  assert (h1 = h0) as ->.
  { replace h1 with (scan_routes ifi D K (rt_table h) ∅ h0).2 by by rewrite Hsc.
    apply scan_routes_none. intros r Hin (n & Hf & Hi & Hd & Hk).
    destruct (Hclean r n Hin) as [Hx | Hx]; [done | done |].
    apply os_managed_bool in Hx. fold K in Hx. congruence. }
  apply add_routes_none. intros n Hn%elem_of_elements.
  replace ex with (scan_routes ifi D K (rt_table h) ∅ h0).1 by by rewrite Hsc.
  apply scan_routes_existing. right. split; [done |]. by apply Hall.
Qed.

End facts.

(** *** What the split covers *)

Section covers.
Context {L : IpNetLib} {HL : IpNetLaws L}.

Lemma half_bits w x : 0 < w -> 0 <= x < 2 ^ w ->
  mask_bits w 1 x = mask_bits w 1 0 \/ mask_bits w 1 x = mask_bits w 1 (2 ^ (w - 1)).
Proof.
  intros Hw Hx. unfold mask_bits. assert (0 < 2 ^ (w - 1)) as Hp by (apply Z.pow_pos_nonneg; lia).
  assert (2 ^ w = 2 * 2 ^ (w - 1)) as Hd by (rewrite <- Z.pow_succ_r by lia; f_equal; lia).
  rewrite Z.mod_0_l, Z.mod_same by lia. pose proof (Z.div_mod x (2 ^ (w - 1))) as Hdm.
  pose proof (Z.mod_pos_bound x (2 ^ (w - 1)) Hp).
  assert (x / 2 ^ (w - 1) = 0 \/ x / 2 ^ (w - 1) = 1) as [E | E].
  { assert (0 <= x / 2 ^ (w - 1)) by (apply Z.div_pos; lia).
    assert (x / 2 ^ (w - 1) < 2) by (apply Z.div_lt_upper_bound; lia). lia. }
  - left. rewrite E in Hdm. lia.
  - right. rewrite E in Hdm. lia.
Qed.

Lemma mask_zero ip : ip_wf ip -> mask_ip 0 ip = ip_with ip 0.
Proof.
  unfold ip_wf, mask_ip, mask_bits. intros H0. f_equal. rewrite Z.sub_0_r, Z.mod_small by done. lia.
Qed.

(** The halves of a default route cover exactly its addresses. *)
Lemma split_default_covers net x y ip :
  prefix_len net = 0 -> ip_wf (ipnet_addr net) -> ip_wf ip ->
  split_default_prefix net = Some (x, y) ->
  (contains_addr x ip = true \/ contains_addr y ip = true) <-> contains_addr net ip = true.
Proof.
  intros H0 Hwf Hip Hs. destruct (split_default_spec net H0) as (a & b & Hs' & Ha1 & Hb1 & Ha & Hb).
  rewrite Hs in Hs'. injection Hs' as <- <-.
  assert (network net = ip_with (ipnet_addr net) 0) as Hn
    by (rewrite network_spec, trunc_addr, H0; by apply mask_zero).
  rewrite Hn in Ha, Hb. rewrite !contains_addr_spec, H0, Ha, Hb, Ha1, Hb1, !mask_zero by done.
  unfold ip_wf in Hip. pose proof (half_bits (ip_width ip) (ip_bits ip)) as Hh.
  destruct (ipnet_addr net), ip as [v | v]; cbn -[mask_bits Z.pow] in *; unfold mask_ip;
    cbn -[mask_bits Z.pow]; rewrite ?Z.add_0_l.
  2, 3: split; [intros [[? _] | [? _]] | intros [? _]]; discriminate.
  all: split; [done |]; intros _; destruct (Hh ltac:(lia) Hip) as [-> | ->]; auto.
Qed.

(** Splitting the default routes is invisible to traffic: the prefixes that
    [expand_allowed_prefixes] returns cover exactly the addresses of the allowed
    prefixes, and none of them is a default route any more. *)
Theorem expand_allowed_prefixes_covers (allowed : list IpNet) (ip : IpAddr) :
  Forall (fun net => ip_wf (ipnet_addr net)) allowed -> ip_wf ip ->
  ((exists net, net ∈ expand_allowed_prefixes allowed /\ contains_addr net ip = true) <->
   (exists net, net ∈ allowed /\ contains_addr net ip = true)) /\
  (forall net, net ∈ expand_allowed_prefixes allowed -> 0 < prefix_len net).
Proof.
  intros Hwf Hip. rewrite Forall_forall in Hwf. split; [split |].
  - intros (net & (a & Ha & [[Hp ->] | (Hp & x & y & Hs & Hxy)])%elem_of_expand & Hc); [eauto |].
    exists a. split; [done |]. apply (split_default_covers a x y ip); auto. naive_solver.
  - intros (a & Ha & Hc). destruct (decide (prefix_len a = 0)) as [Hp | Hp].
    + destruct (split_default_spec a Hp) as (x & y & Hs & _).
      apply (split_default_covers a x y ip) in Hc; auto.
      destruct Hc; [exists x | exists y]; (split; [| done]); apply elem_of_expand; exists a; naive_solver.
    + exists a. split; [| done]. apply elem_of_expand. eauto.
  - intros net (a & Ha & [[Hp ->] | (Hp & x & y & Hs & Hxy)])%elem_of_expand.
    + pose proof (prefix_len_range a). lia.
    + destruct (split_default_spec a Hp) as (x' & y' & Hs' & ? & ? & _). naive_solver lia.
Qed.
End covers.

#[export] Instance ListRoutes_laws : RouteLaws ListRoutes.lib.
Proof. by split. Qed.

#[export] Instance ListRoutes_handle_laws : RouteHandleLaws ListRoutes.hnd.
Proof.
  split; cbn.
  - intros h r h' [= <- <-]. naive_solver.
  - intros h rt r h' [= <- <-]. cbn. exists (mask_ip rt.1.2 rt.1.1, rt.1.2, rt.2). split; [by unfold stored |]. intros x.
    rewrite elem_of_app, list_elem_of_singleton. done.
  - intros h rt r h' [= <- <-]. cbn. intros x. rewrite list_elem_of_filter. naive_solver.
Qed.

(** ** Concrete hosts

    TUN address 10.0.0.1/24 on interface 7; the host has its connected route, a
    stale 10.9.0.0/16 on the TUN interface and a default route elsewhere. *)
Definition sample_resolve (_ : rstr) : result Z RouteSyncError := Ok 7.
Definition sample_host : list (IpAddr * Z * option Z) :=
  [(V4 167772160, 24, Some 7); (V4 168361984, 16, Some 7); (V4 0, 0, Some 2)].
Definition sample_tun_addrs : list (@IpNet CidrNet.lib) := [sample_net 167772161 24].
Definition sample_allowed : list (@IpNet CidrNet.lib) := [sample_net 167837696 16; sample_net 0 0].

Definition sample_sync (h : list (IpAddr * Z * option Z)) :=
  sync_tun_routes (H := ListRoutes.hnd) sample_resolve (lit "h3llo0") sample_tun_addrs sample_allowed h.

Definition sample_host' : list (IpAddr * Z * option Z) := (sample_sync sample_host).2.

Lemma sample_sync_ok : sample_sync sample_host = (Ok tt, sample_host').
Proof. by vm_compute. Qed.

Lemma sample_allowed_truncated : Forall (fun net => trunc net = net) sample_allowed.
Proof. repeat constructor; by apply ipnet_ext; vm_compute. Qed.

Lemma ListRoutes_reliable : @reliable ListRoutes.lib ListRoutes.hnd.
Proof. by split. Qed.

Lemma sync_tun_routes_safe_witness :
  (V4 167772160, 24, Some 7) ∈ sample_host' /\ (V4 0, 0, Some 2) ∈ sample_host' /\
  (forall r : IpAddr * Z * option Z, r ∈ sample_host ->
     ~ stale (R := ListRoutes.lib) 7 sample_tun_addrs sample_allowed r -> r ∈ sample_host').
Proof.
  split; [by vm_compute; repeat constructor |]. split; [by vm_compute; repeat constructor |].
  destruct (sync_tun_routes_safe (H := ListRoutes.hnd) sample_resolve (lit "h3llo0") sample_tun_addrs
    sample_allowed sample_host sample_host' 7 eq_refl sample_sync_ok) as [Hs _]. exact Hs.
Defined.

Lemma sync_tun_routes_converges_witness :
  sample_host' = (V4 167772160, 24, Some 7) :: (V4 0, 0, Some 2) :: drop 2 sample_host' /\
  (forall net, net ∈ desired_routes sample_tun_addrs sample_allowed ->
     exists r : IpAddr * Z * option Z, r ∈ sample_host' /\ on_tun (R := ListRoutes.lib) 7 net r).
Proof.
  split; [by vm_compute |].
  destruct (sync_tun_routes_converges (H := ListRoutes.hnd) sample_resolve (lit "h3llo0") sample_tun_addrs
    sample_allowed sample_host sample_host' 7 ListRoutes_reliable sample_allowed_truncated eq_refl sample_sync_ok) as [Hd _].
  exact Hd.
Defined.

(** A host that is in sync already: nothing allowed, only the connected route. *)
Lemma sync_tun_routes_idempotent_witness :
  sync_tun_routes (H := ListRoutes.hnd) sample_resolve (lit "h3llo0") sample_tun_addrs []
    [(V4 167772160, 24, Some 7)] = (Ok tt, [(V4 167772160, 24, Some 7)]).
Proof.
  destruct (sync_tun_routes (H := ListRoutes.hnd) sample_resolve (lit "h3llo0") sample_tun_addrs []
    [(V4 167772160, 24, Some 7)]) as [r h'] eqn:Hs.
  assert (r = Ok tt) as -> by (apply (f_equal fst) in Hs; vm_compute in Hs; by rewrite <- Hs).
  f_equal. rewrite (sync_tun_routes_idempotent (H := ListRoutes.hnd) sample_resolve (lit "h3llo0")
    sample_tun_addrs [] [(V4 167772160, 24, Some 7)] h' 7 eq_refl Hs); [done | |].
  - intros net Hn. apply elem_of_filter in Hn as [_ Hn]. cbn in Hn. set_solver.
  - intros r net ->%list_elem_of_singleton [_ Hf]. right.
    left. exists (sample_net 167772161 24). split; [by left | left].
    apply (ipnet_new_spec (L := CidrNet.lib)) in Hf as (_ & Ha & Hp).
    apply ipnet_ext; [rewrite Ha | rewrite Hp]; by vm_compute.
Defined.

Lemma expand_allowed_prefixes_covers_witness :
  (exists net, net ∈ expand_allowed_prefixes sample_allowed /\ contains_addr net (V4 134744072) = true).
Proof.
  destruct (expand_allowed_prefixes_covers sample_allowed (V4 134744072)) as [[_ Hc] _].
  - repeat constructor; vm_compute; intuition congruence.
  - vm_compute. intuition congruence.
  - apply Hc. exists (sample_net 0 0). split; [right; left | by vm_compute].
Defined.

(** An allowed prefix with host bits (10.1.0.5/16) is compared as written: the route of its
    network, 10.1.0.0/16, is deleted as stale, and added again as the kernel stores it, so
    that the next synchronization does the same. *)
Theorem sync_tun_routes_host_bits :
  let host := [(V4 167837696, 16, Some 7)] in
  let allowed := [sample_net 167837701 16] in
  (scan_routes (H := ListRoutes.hnd) 7 (desired_routes sample_tun_addrs allowed) (tun_v4_kernel_routes sample_tun_addrs)
     host ∅ host).2 = [] /\
  (sync_tun_routes (H := ListRoutes.hnd) sample_resolve (lit "h3llo0") sample_tun_addrs allowed host).2 = host.
Proof. by vm_compute. Qed.
