(* ===== verification/Codec.v ===== *)
(** * Packet buffers and the CONNECT-IP datagram codec

    Models the DATAGRAM framing of [src/src/h3session.rs] (Quarter Stream ID and
    Context ID) and the buffer allocation of [src/src/helpers.rs].  QUIC variable
    length integers are the [octets] crate's (class [VarintLib], instance
    [Rfc9000]) and packet buffers the [buffer_pool] crate's (class [BufLib],
    instance [HeadBuf]). *)

From S2P Require Import Prelude.
#[local] Open Scope Z_scope.

(** ** The octets crate *)

Class VarintLib : Type := {
  varint_len : Z -> nat;
  varint_parse_len : Z -> nat;
  put_varint : Z -> option (list Z);    (* the bytes written, [None] on error *)
  get_varint : list Z -> option Z;
}.

(** RFC 9000, section 16: the values below 2^62 have an encoding of 1, 2, 4 or 8
    bytes whose first byte tells its length, and two values never share one. *)
Class VarintLaws (L : VarintLib) : Prop := {
  varint_len_range v : (1 <= varint_len v <= 8)%nat;
  put_varint_law v :
    0 <= v < 2 ^ 62 ->
    exists b bs, put_varint v = Some (b :: bs) /\ length (b :: bs) = varint_len v /\
      varint_parse_len b = varint_len v /\
      forall rest, get_varint (b :: bs ++ rest) = Some v;
  get_varint_law b buf v :
    Forall is_byte (b :: buf) -> get_varint (b :: buf) = Some v ->
    varint_parse_len b = varint_len v -> (varint_len v <= length (b :: buf))%nat ->
    put_varint v = Some (take (varint_len v) (b :: buf));
}.

(** ** The buffer_pool crate *)

Class BufLib : Type := {
  PooledBuf : Type;
  buf_bytes : PooledBuf -> list Z;            (* the visible bytes *)
  headroom : PooledBuf -> nat;                (* free bytes in front of them *)
  add_prefix : PooledBuf -> list Z -> bool * PooledBuf;
  pop_front : PooledBuf -> nat -> PooledBuf;
  truncate : PooledBuf -> nat -> PooledBuf;
  buf_write : PooledBuf -> list Z -> PooledBuf;  (* overwrite the visible bytes *)
  pool_get : nat -> PooledBuf;                   (* a pooled buffer expanded to a length *)
}.

Class BufLaws (B : BufLib) : Prop := {
  add_prefix_law b p :
    if decide (length p <= headroom b)%nat then
      (add_prefix b p).1 = true /\ buf_bytes (add_prefix b p).2 = p ++ buf_bytes b /\
      headroom (add_prefix b p).2 = (headroom b - length p)%nat
    else add_prefix b p = (false, b);
  pop_front_law b n : (n <= length (buf_bytes b))%nat ->
    buf_bytes (pop_front b n) = drop n (buf_bytes b) /\
    headroom (pop_front b n) = (headroom b + n)%nat;
  truncate_law b n :
    buf_bytes (truncate b n) = take n (buf_bytes b) /\ headroom (truncate b n) = headroom b;
  buf_write_law b d : length d = length (buf_bytes b) ->
    buf_bytes (buf_write b d) = d /\ headroom (buf_write b d) = headroom b;
  pool_get_law n : length (buf_bytes (pool_get n)) = n /\ headroom (pool_get n) = 0%nat;
}.

(** ** helpers.rs: allocation *)

Definition MAX_PACKET_BUFFER_SIZE : nat := Nat.mul 64 1024.
Definition HEADROOM : nat := 10.

Section alloc.
Context {B : BufLib} (MAX_DATAGRAM_SIZE : nat).

(** [alloc_uninit_packet_buf]. *)
Definition alloc_uninit_packet_buf (len : nat) : PooledBuf :=
  let capacity :=
    if decide (len + HEADROOM <= MAX_DATAGRAM_SIZE)%nat then MAX_DATAGRAM_SIZE
    else MAX_PACKET_BUFFER_SIZE in
  pop_front (pool_get capacity) HEADROOM.

(** [alloc_packet_buf]: [copy_from_slice] panics when the lengths differ. *)
Definition alloc_packet_buf (data : list Z) : outcome PooledBuf :=
  let buf := truncate (alloc_uninit_packet_buf (length data)) (length data) in
  if decide (length (buf_bytes buf) = length data) then mret (buf_write buf data) else Panic.
End alloc.

(** ** h3session.rs: the codec *)

Definition CONTEXT_ID_IP : Z := 0.
Definition CONNECT_IP_OVERHEAD : Z := 59.

(** [qsi_buf[..qsi_len]] is [qsi_bytes]. *)
Record ConnectIpDatagramCodec : Type := {
  expected_qsi : Z;
  qsi_buf : list Z;
  qsi_len : nat;
}.

Section codec.
Context {L : VarintLib} {B : BufLib}.

(** [encode_qsi]: a failed write is an [expect] that panics; the array has 8 bytes. *)
Definition encode_qsi (qsi : Z) : outcome (list Z * nat) :=
  let len := varint_len qsi in
  match put_varint qsi with
  | Some bs => if decide (length bs <= 8)%nat
      then mret (bs ++ replicate (8 - length bs) 0, len) else Panic
  | None => Panic
  end.

(** [decode_qsi]. *)
Definition decode_qsi (buf : list Z) : option (Z * nat) :=
  first ← head buf;
  let qsi_len := varint_parse_len first in
  if decide (length buf < qsi_len)%nat then None else
  qsi ← get_varint buf;
  Some (qsi, qsi_len).

(** [ConnectIpDatagramCodec::new]. *)
Definition codec_new (connect_stream_id : Z) : outcome ConnectIpDatagramCodec :=
  let qsi := connect_stream_id / 4 in
  e ← encode_qsi qsi;
  let '(buf, len) := e in
  mret {| expected_qsi := qsi; qsi_buf := buf; qsi_len := len |}.

(** [ConnectIpDatagramCodec::qsi_bytes]. *)
Definition qsi_bytes (c : ConnectIpDatagramCodec) : outcome (list Z) := slice (qsi_buf c) 0 (qsi_len c).

(** [ConnectIpDatagramCodec::prepend]: [&&] is lazy. *)
Definition prepend (c : ConnectIpDatagramCodec) (packet : PooledBuf) : outcome (bool * PooledBuf) :=
  match add_prefix packet [CONTEXT_ID_IP] with
  | (false, packet) => mret (false, packet)
  | (true, packet) => qsi ← qsi_bytes c; mret (add_prefix packet qsi)
  end.

(** [ConnectIpDatagramCodec::strip]. *)
Definition strip (c : ConnectIpDatagramCodec) (packet : PooledBuf) : outcome (bool * PooledBuf) :=
  match decode_qsi (buf_bytes packet) with
  | None => mret (false, packet)
  | Some (qsi, len) =>
    if decide (qsi <> expected_qsi c \/ len <> qsi_len c) then mret (false, packet) else
    let prefix_len := (len + 1)%nat in
    if decide (length (buf_bytes packet) < prefix_len)%nat then mret (false, packet) else
    ctx ← index (buf_bytes packet) len;
    if decide (ctx <> CONTEXT_ID_IP) then mret (false, packet) else
    if decide (length (buf_bytes packet) = prefix_len) then mret (false, packet) else
    mret (true, pop_front packet prefix_len)
  end.
End codec.

(** ** Concrete instances *)

(** The big-endian encoding of [x] in [n] bytes. *)
Fixpoint to_be (n : nat) (x : Z) : list Z :=
  match n with
  | O => []
  | S n' => x / 256 ^ Z.of_nat n' :: to_be n' (x mod 256 ^ Z.of_nat n')
  end.

Module Rfc9000.

(** The exponent of the length: 2^0, 2^1, 2^2 or 2^3 bytes. *)
Definition class (v : Z) : Z :=
  if decide (v < 2 ^ 6) then 0 else if decide (v < 2 ^ 14) then 1
  else if decide (v < 2 ^ 30) then 2 else 3.

Definition len (k : Z) : nat := Z.to_nat (2 ^ k).

Definition enc (v : Z) : list Z :=
  let k := class v in
  to_be (len k) (k * 2 ^ (8 * Z.of_nat (len k) - 2) + v).

Definition get (buf : list Z) : option Z :=
  b ← head buf;
  let n := len (b / 64) in
  if decide (n <= length buf)%nat
  then Some (be_bytes (take n buf) mod 2 ^ (8 * Z.of_nat n - 2)) else None.

#[export] Instance lib : VarintLib := {|
  varint_len v := len (class v);
  varint_parse_len b := len (b / 64);
  put_varint v := if decide (0 <= v < 2 ^ 62) then Some (enc v) else None;
  get_varint := get;
|}.
End Rfc9000.

Module HeadBuf.

Record buf : Type := { free : nat; data : list Z }.

#[export] Instance lib : BufLib := {|
  PooledBuf := buf;
  buf_bytes := data;
  headroom := free;
  add_prefix b p :=
    if decide (length p <= free b)%nat
    then (true, {| free := free b - length p; data := p ++ data b |}) else (false, b);
  pop_front b n := {| free := free b + n; data := drop n (data b) |};
  truncate b n := {| free := free b; data := take n (data b) |};
  buf_write b d := {| free := free b; data := d |};
  pool_get n := {| free := 0; data := replicate n 0 |};
|}.
End HeadBuf.

(** ** Lemmas: big-endian numbers *)

Lemma be_bytes_acc acc l :
  foldl (fun acc b => acc * 256 + b) acc l = acc * 256 ^ zlen l + be_bytes l.
Proof.
  unfold be_bytes. revert acc. induction l as [| b l IH]; intros acc; cbn [foldl].
  - unfold zlen. cbn. lia.
  - rewrite IH, (IH (0 * 256 + b)), zlen_cons, Z.pow_add_r by (pose proof (zlen_nonneg l); lia). lia.
Qed.

Lemma be_bytes_cons b l : be_bytes (b :: l) = b * 256 ^ zlen l + be_bytes l.
Proof. unfold be_bytes at 1. cbn [foldl]. rewrite be_bytes_acc. lia. Qed.

Lemma be_bytes_range l : Forall is_byte l -> 0 <= be_bytes l < 256 ^ zlen l.
Proof.
  induction 1 as [| b l Hb Hl IH]; [by cbn |]. rewrite be_bytes_cons, zlen_cons.
  rewrite Z.pow_add_r by (pose proof (zlen_nonneg l); lia). unfold is_byte in Hb. nia.
Qed.

Lemma to_be_length n x : length (to_be n x) = n.
Proof. revert x. induction n; intros; cbn; auto. Qed.

Lemma be_bytes_to_be n x : 0 <= x < 256 ^ Z.of_nat n -> be_bytes (to_be n x) = x.
Proof.
  revert x. induction n as [| n IH]; intros x Hx; [cbn in *; lia |]. cbn [to_be].
  assert (0 < 256 ^ Z.of_nat n) by (apply Z.pow_pos_nonneg; lia).
  rewrite be_bytes_cons, IH by (apply Z.mod_pos_bound; lia). unfold zlen. rewrite to_be_length.
  pose proof (Z.div_mod x (256 ^ Z.of_nat n)). lia.
Qed.

Lemma to_be_be_bytes l : Forall is_byte l -> to_be (length l) (be_bytes l) = l.
Proof.
  induction 1 as [| b l Hb Hl IH]; [done |]. cbn [to_be length]. rewrite be_bytes_cons.
  fold (zlen l). pose proof (be_bytes_range l Hl) as Hr.
  rewrite Z.div_add_l, Z.div_small, Z.add_0_r by lia.
  by rewrite Z.add_comm, Z.mod_add, Z.mod_small, IH by lia.
Qed.

Lemma to_be_cons n x : to_be (S n) x = x / 256 ^ Z.of_nat n :: to_be n (x mod 256 ^ Z.of_nat n).
Proof. done. Qed.

(** *** The RFC 9000 instance *)

Lemma class_cases v :
  0 <= v < 2 ^ 62 ->
  let k := Rfc9000.class v in
  (k = 0 \/ k = 1 \/ k = 2 \/ k = 3) /\ v < 2 ^ (8 * Z.of_nat (Rfc9000.len k) - 2).
Proof.
  intros Hv k. unfold k, Rfc9000.class. repeat case_decide; (split; [lia |]);
    unfold Rfc9000.len; rewrite Z2Nat.id by (apply Z.pow_nonneg; lia); assumption || apply Hv.
Qed.

(** The first byte of an encoding carries the length class. *)
Lemma enc_head k n v :
  (1 <= n)%nat -> 0 <= k <= 3 -> 0 <= v < 2 ^ (8 * Z.of_nat n - 2) ->
  let x := k * 2 ^ (8 * Z.of_nat n - 2) + v in
  0 <= x < 256 ^ Z.of_nat n /\ x / 256 ^ Z.of_nat (n - 1) / 64 = k /\ x mod 2 ^ (8 * Z.of_nat n - 2) = v.
Proof.
  intros Hn Hk Hv x. assert (256 ^ Z.of_nat n = 4 * 2 ^ (8 * Z.of_nat n - 2)) as Hp.
  { change 256 with (2 ^ 8). rewrite <- Z.pow_mul_r by lia. change 4 with (2 ^ 2).
    rewrite <- Z.pow_add_r by lia. f_equal. lia. }
  assert (256 ^ Z.of_nat (n - 1) * 64 = 2 ^ (8 * Z.of_nat n - 2)) as Hq.
  { change 256 with (2 ^ 8). rewrite <- Z.pow_mul_r by lia. change 64 with (2 ^ 6).
    rewrite <- Z.pow_add_r by lia. f_equal. lia. }
  assert (0 < 256 ^ Z.of_nat (n - 1)) by (apply Z.pow_pos_nonneg; lia).
  split; [unfold x; nia |]. split.
  - rewrite Z.div_div, Hq by lia. unfold x. rewrite Z.div_add_l, Z.div_small by lia. lia.
  - unfold x. rewrite Z.add_comm, Z.mod_add by lia. by apply Z.mod_small.
Qed.

Lemma len_pos k : (k = 0 \/ k = 1 \/ k = 2 \/ k = 3) -> (1 <= Rfc9000.len k <= 8)%nat.
Proof. intros [-> | [-> | [-> | ->]]]; vm_compute; lia. Qed.

(** An encoding starts with a byte of its length class, and reads back. *)
Lemma enc_shape v :
  0 <= v < 2 ^ 62 ->
  exists b bs, Rfc9000.enc v = b :: bs /\ length (b :: bs) = Rfc9000.len (Rfc9000.class v) /\
    b / 64 = Rfc9000.class v /\
    be_bytes (b :: bs) mod 2 ^ (8 * Z.of_nat (Rfc9000.len (Rfc9000.class v)) - 2) = v.
Proof.
  intros Hv. destruct (class_cases v Hv) as [Hk Hlt]. unfold Rfc9000.enc.
  set (k := Rfc9000.class v) in *. pose proof (len_pos k Hk) as Hn.
  destruct (enc_head k (Rfc9000.len k) v) as (Hx & Hh & Hm); [lia.. |]. cbv zeta in *.
  set (x := k * 2 ^ (8 * Z.of_nat (Rfc9000.len k) - 2) + v) in *.
  destruct (Rfc9000.len k) as [| n] eqn:En; [lia |]. rewrite Nat.sub_succ, Nat.sub_0_r in Hh.
  exists (x / 256 ^ Z.of_nat n), (to_be n (x mod 256 ^ Z.of_nat n)). split; [done |].
  rewrite <- to_be_cons, to_be_length, be_bytes_to_be by done. done.
Qed.

Lemma get_enc v rest : 0 <= v < 2 ^ 62 -> Rfc9000.get (Rfc9000.enc v ++ rest) = Some v.
Proof.
  intros Hv. destruct (enc_shape v Hv) as (b & bs & -> & Hl & Hb & Hm).
  unfold Rfc9000.get. cbn [head app mbind option_bind]. rewrite Hb, decide_True.
  - rewrite app_comm_cons, take_app_length' by done. by rewrite Hm.
  - rewrite app_comm_cons, length_app. lia.
Qed.

Lemma len_inj k k' :
  (k = 0 \/ k = 1 \/ k = 2 \/ k = 3) -> (k' = 0 \/ k' = 1 \/ k' = 2 \/ k' = 3) ->
  Rfc9000.len k = Rfc9000.len k' -> k = k'.
Proof. intros [-> | [-> | [-> | ->]]] [-> | [-> | [-> | ->]]]; vm_compute; congruence. Qed.

(** A byte string splits into its length class and its value. *)
Lemma be_bytes_class b l :
  Forall is_byte (b :: l) ->
  let q := 8 * zlen (b :: l) - 2 in be_bytes (b :: l) = b / 64 * 2 ^ q + be_bytes (b :: l) mod 2 ^ q.
Proof.
  intros [Hb Hl]%Forall_cons q. pose proof (be_bytes_range l Hl) as Hr. pose proof (zlen_nonneg l) as Hn.
  assert (2 ^ q = 64 * 256 ^ zlen l) as Hq.
  { unfold q. rewrite zlen_cons. change 256 with (2 ^ 8). rewrite <- Z.pow_mul_r by lia.
    change 64 with (2 ^ 6). rewrite <- Z.pow_add_r by lia. f_equal. lia. }
  assert (0 < 256 ^ zlen l) by (apply Z.pow_pos_nonneg; lia).
  rewrite Z.mod_eq by lia. enough (be_bytes (b :: l) / 2 ^ q = b / 64) as -> by lia.
  rewrite be_bytes_cons, Hq, (Z.mul_comm 64), <- Z.div_div by lia.
  by rewrite Z.div_add_l, (Z.div_small (be_bytes l)), Z.add_0_r by lia.
Qed.

(** For a given length there is one encoding of a value. *)
Lemma enc_unique b buf v :
  Forall is_byte (b :: buf) -> Rfc9000.get (b :: buf) = Some v ->
  Rfc9000.len (b / 64) = Rfc9000.len (Rfc9000.class v) ->
  0 <= v < 2 ^ 62 /\ Rfc9000.enc v = take (Rfc9000.len (Rfc9000.class v)) (b :: buf).
Proof.
  intros Hb Hg Hn. unfold Rfc9000.get in Hg. cbn [head mbind option_bind] in Hg.
  case_decide as Hle; [| done]. injection Hg as Hv. pose proof Hb as [Hb0 _]%Forall_cons.
  assert (b / 64 = 0 \/ b / 64 = 1 \/ b / 64 = 2 \/ b / 64 = 3) as Hk.
  { unfold is_byte in Hb0. pose proof (Z.div_mod b 64). pose proof (Z.mod_pos_bound b 64). lia. }
  set (k := b / 64) in *. pose proof (len_pos k Hk) as Hnk.
  set (bs := take (Rfc9000.len k) (b :: buf)) in *.
  assert (Forall is_byte bs) as Hbs by by apply Forall_take.
  assert (length bs = Rfc9000.len k) as Hbl by (unfold bs; rewrite length_take; lia).
  set (q := 8 * Z.of_nat (Rfc9000.len k) - 2) in *.
  assert (0 < 2 ^ q) as Hq by (apply Z.pow_pos_nonneg; lia).
  assert (0 <= v < 2 ^ q) as Hvr by (rewrite <- Hv; by apply Z.mod_pos_bound).
  assert (v < 2 ^ 62) as Hv62 by (enough (2 ^ q <= 2 ^ 62) by lia; apply Z.pow_le_mono_r; lia).
assert (Rfc9000.class v = k) as Hc.
  { symmetry. apply len_inj; [done | | done]. destruct (class_cases v) as [Hcv _]; [lia | exact Hcv]. }
  split; [lia |]. rewrite Hc. unfold Rfc9000.enc. rewrite Hc. fold q bs.
  rewrite <- (to_be_be_bytes bs Hbs), Hbl. f_equal. rewrite <- Hv.
  assert (bs = b :: take (Rfc9000.len k - 1) buf) as Hbb.
  { unfold bs. destruct (Rfc9000.len k) as [| n]; [lia |]. cbn. by rewrite Nat.sub_0_r. }
  pose proof (be_bytes_class b (take (Rfc9000.len k - 1) buf)) as Hbc. rewrite <- Hbb in Hbc.
  specialize (Hbc Hbs). unfold zlen in Hbc. rewrite Hbl in Hbc. fold q k in Hbc. cbv zeta in Hbc. lia.
Qed.

#[export] Instance Rfc9000_laws : VarintLaws Rfc9000.lib.
Proof.
  split.
  - intros v. cbn. apply len_pos. unfold Rfc9000.class. repeat case_decide; lia.
  - intros v Hv. cbn -[Rfc9000.get length]. rewrite decide_True by done. destruct (enc_shape v Hv) as (b & bs & He & Hl & Hb & _).
    exists b, bs. rewrite He, Hb. split_and!; try done. intros rest.
    rewrite app_comm_cons, <- He. by apply get_enc.
  - intros b buf v Hb Hg Hp _. cbn -[Rfc9000.get take] in *. destruct (enc_unique b buf v Hb Hg Hp) as [Hv He].
    by rewrite decide_True, He.
Qed.

#[export] Instance HeadBuf_laws : BufLaws HeadBuf.lib.
Proof.
  split; cbn.
  - intros b p. case_decide; done.
  - done.
  - done.
  - done.
  - intros n. by rewrite length_replicate.
Qed.

(** ** Lemmas: the codec *)

Section facts.
Context {L : VarintLib} {HL : VarintLaws L} {B : BufLib} {HB : BufLaws B}.

(** A codec for any stream id: its prefix is the encoding of the quarter id. *)
Lemma codec_new_spec sid :
  0 <= sid <= u64_max ->
  exists c b bs, codec_new sid = Ret c /\ qsi_bytes c = Ret (b :: bs) /\
    expected_qsi c = sid / 4 /\ qsi_len c = length (b :: bs) /\ (length (b :: bs) <= 8)%nat /\
    varint_len (sid / 4) = length (b :: bs) /\
    put_varint (sid / 4) = Some (b :: bs) /\ varint_parse_len b = length (b :: bs) /\
    forall rest, get_varint (b :: bs ++ rest) = Some (sid / 4).
Proof.
  intros Hs. assert (0 <= sid / 4 < 2 ^ 62) as Hq.
  { unfold u64_max in Hs. split; [apply Z.div_pos; lia | apply Z.div_lt_upper_bound; lia]. }
  destruct (put_varint_law _ Hq) as (b & bs & Hp & Hl & Hb & Hg).
  pose proof (varint_len_range (sid / 4)) as Hr.
  unfold codec_new, encode_qsi. cbv zeta. rewrite Hp, decide_True by lia. cbn [mbind outcome_bind].
  eexists _, b, bs. split; [done |]. cbn [expected_qsi qsi_len qsi_bytes qsi_buf]. split_and!; auto; try lia.
  unfold qsi_bytes. cbn [qsi_buf qsi_len].
  rewrite slice_Ret by (rewrite ?length_app, ?length_replicate; lia). rewrite drop_0, Nat.sub_0_r.
  by rewrite take_app_length' by lia.
Qed.

Lemma add_prefix_Ok b p :
  (length p <= headroom b)%nat ->
  exists b', add_prefix b p = (true, b') /\ buf_bytes b' = p ++ buf_bytes b /\
    headroom b' = (headroom b - length p)%nat.
Proof.
  intros H. pose proof (add_prefix_law b p) as Ha. rewrite decide_True in Ha by done.
  destruct (add_prefix b p) as [ok b']. cbn in Ha. destruct Ha as (-> & ? & ?). eauto.
Qed.

(** What [strip] does to a packet whose bytes start with the codec's prefix. *)
Lemma strip_prefixed sid c b bs pkt payload :
  0 <= sid <= u64_max -> codec_new sid = Ret c -> qsi_bytes c = Ret (b :: bs) ->
  buf_bytes pkt = (b :: bs) ++ CONTEXT_ID_IP :: payload -> payload <> [] ->
  strip c pkt = Ret (true, pop_front pkt (length (b :: bs) + 1)).
Proof.
  intros Hs Hc Hq Hb Hp. destruct (codec_new_spec sid Hs) as (c' & b' & bs' & Hc' & Hq' & He & Hl & _ & _ & _ & Hpl & Hg).
  rewrite Hc in Hc'. injection Hc' as <-. rewrite Hq in Hq'. injection Hq' as <- <-.
  unfold strip, decode_qsi. rewrite Hb. cbn [app head mbind option_bind]. rewrite Hpl.
  rewrite decide_False by (cbn [length]; rewrite length_app; lia). rewrite Hg.
  cbn [mbind option_bind]. rewrite decide_False by (rewrite He, Hl; intuition).
  cbv zeta. rewrite decide_False by (cbn [length]; rewrite length_app; cbn [length]; lia).
  rewrite (index_Ret _ _ CONTEXT_ID_IP); [| by rewrite app_comm_cons, list_lookup_middle].
  cbn [mbind outcome_bind]. rewrite decide_False by naive_solver. rewrite decide_False; [done |].
  cbn [length]. rewrite length_app. cbn [length]. destruct payload; [done | cbn; lia].
Qed.

(** [strip] on any packet. *)
Lemma strip_spec (sid : Z) (c : ConnectIpDatagramCodec) (qsi : list Z) (pkt : PooledBuf) :
  0 <= sid <= u64_max -> codec_new sid = Ret c -> qsi_bytes c = Ret qsi ->
  Forall is_byte (buf_bytes pkt) ->
  exists ok pkt', strip c pkt = Ret (ok, pkt') /\
    (ok = true <-> exists payload, payload <> [] /\ buf_bytes pkt = qsi ++ CONTEXT_ID_IP :: payload) /\
    (ok = true -> buf_bytes pkt = qsi ++ CONTEXT_ID_IP :: buf_bytes pkt') /\
    (ok = false -> pkt' = pkt).
Proof.
  intros Hs Hc Hq Hby. destruct (codec_new_spec sid Hs) as (c' & b' & bs' & Hc' & Hq' & He & Hl & _ & Hvl & Hput & Hpl & Hg).
  rewrite Hc in Hc'. injection Hc' as <-. rewrite Hq in Hq'. injection Hq' as ->.
  assert (forall payload, payload <> [] -> buf_bytes pkt = (b' :: bs') ++ CONTEXT_ID_IP :: payload ->
    strip c pkt = Ret (true, pop_front pkt (length (b' :: bs') + 1)) /\
    buf_bytes (pop_front pkt (length (b' :: bs') + 1)) = payload) as Hyes.
  { intros payload Hp Hb. split; [by eapply strip_prefixed |].
    destruct (pop_front_law pkt (length (b' :: bs') + 1)) as [-> _].
    { rewrite Hb, length_app. cbn [length]. lia. }
    rewrite Hb, drop_app_ge by lia. by replace (length (b' :: bs') + 1 - length (b' :: bs'))%nat with 1%nat by lia. }
  assert (strip c pkt = Ret (false, pkt) \/
    exists payload, payload <> [] /\ buf_bytes pkt = (b' :: bs') ++ CONTEXT_ID_IP :: payload) as [Hno | (payload & Hp & Hb)].
  { clear Hyes. unfold strip, decode_qsi. destruct (buf_bytes pkt) as [| x xs] eqn:Hb; [by left |].
    cbn [head mbind option_bind]. case_decide; [by left |].
    destruct (get_varint (x :: xs)) as [v |] eqn:Hv; [| by left]. cbn [mbind option_bind].
    case_decide as Hd; [by left |]. assert (v = sid / 4 /\ varint_parse_len x = length (b' :: bs')) as [-> Hx].
    { rewrite <- He, <- Hl. split; apply dec_stable; tauto. }
    cbv zeta. rewrite Hx in *. case_decide; [by left |].
    assert (take (length (b' :: bs')) (x :: xs) = b' :: bs') as Ht.
    { pose proof (get_varint_law x xs (sid / 4)) as Hgl. rewrite Hvl, Hput in Hgl.
      symmetry. apply (inj Some). apply Hgl; [done | done | done | lia]. }
    destruct (index_in_range (x :: xs) (length (b' :: bs'))) as (ctx & Hctx & ->); [lia |].
    cbn [mbind outcome_bind]. case_decide as Hcx; [by left |]. case_decide as Hlen; [by left |]. right.
    exists (drop (length (b' :: bs') + 1) (x :: xs)). split.
    - intros Hnil. apply (f_equal length) in Hnil. rewrite length_drop in Hnil. cbn [length] in *. lia.
    - assert (ctx = CONTEXT_ID_IP) as -> by (destruct (decide (ctx = CONTEXT_ID_IP)); naive_solver).
      rewrite <- Ht at 1. rewrite Nat.add_1_r, <- (drop_S _ _ _ Hctx). by rewrite take_drop. }
  - exists false, pkt. split_and!; try done. split; [done |]. intros (payload & Hp & Hb).
    destruct (Hyes payload Hp Hb) as [Hy _]. congruence.
  - destruct (Hyes payload Hp Hb) as [Hy Hpp]. eexists true, _. split; [done |].
    split_and!; [split; [by eauto | done] | by rewrite Hpp | done].
Qed.

(** [prepend] never panics; with nine bytes of headroom it succeeds and adds the
    codec's prefix. *)
Lemma prepend_spec sid c qsi pkt :
  0 <= sid <= u64_max -> codec_new sid = Ret c -> qsi_bytes c = Ret qsi ->
  exists ok pkt', prepend c pkt = Ret (ok, pkt') /\
    ((9 <= headroom pkt)%nat -> ok = true /\ buf_bytes pkt' = qsi ++ CONTEXT_ID_IP :: buf_bytes pkt).
Proof.
  intros Hs Hc Hq. destruct (codec_new_spec sid Hs) as (c' & b & bs & Hc' & Hq' & _ & _ & Hle & _).
  rewrite Hc in Hc'. injection Hc' as <-. rewrite Hq in Hq'. injection Hq' as ->.
  unfold prepend. destruct (decide (9 <= headroom pkt)%nat) as [Hh |].
  - destruct (add_prefix_Ok pkt [CONTEXT_ID_IP]) as (p0 & -> & Hb0 & Hh0); [cbn; lia |].
    rewrite Hq. cbn [mbind outcome_bind]. destruct (add_prefix_Ok p0 (b :: bs)) as (p1 & -> & Hb1 & Hh1); [cbn [length] in *; lia |].
    exists true, p1. split; [done |]. intros _. by rewrite Hb1, Hb0.
  - destruct (add_prefix pkt [CONTEXT_ID_IP]) as [[] p0]; [| by eexists _, _]. rewrite Hq. cbn [mbind outcome_bind].
    destruct (add_prefix p0 (b :: bs)) as [ok p1]. by eexists _, _.
Qed.

(** ** Properties *)

(** Framing round trip.  For every stream id and every non-empty packet with at
    least nine bytes of headroom, [prepend] succeeds and [strip] with the same codec
    gives back the packet's bytes and its headroom. *)
Theorem codec_roundtrip (sid : Z) (pkt : PooledBuf) :
  0 <= sid <= u64_max -> buf_bytes pkt <> [] -> (9 <= headroom pkt)%nat ->
  exists c pkt1 pkt2, codec_new sid = Ret c /\ prepend c pkt = Ret (true, pkt1) /\
    strip c pkt1 = Ret (true, pkt2) /\
    buf_bytes pkt2 = buf_bytes pkt /\ headroom pkt2 = headroom pkt.
Proof.
  intros Hs Hne Hh. destruct (codec_new_spec sid Hs) as (c & b & bs & Hc & Hq & _ & _ & Hle & _).
  destruct (add_prefix_Ok pkt [CONTEXT_ID_IP]) as (p0 & H0 & Hb0 & Hh0); [cbn; lia |].
  destruct (add_prefix_Ok p0 (b :: bs)) as (p1 & H1 & Hb1 & Hh1); [cbn [length] in *; lia |].
  exists c, p1, (pop_front p1 (length (b :: bs) + 1)). split; [done |]. unfold prepend.
  rewrite H0, Hq. cbn [mbind outcome_bind]. rewrite H1. split; [done |].
  rewrite Hb0 in Hb1. split; [by eapply strip_prefixed |].
  destruct (pop_front_law p1 (length (b :: bs) + 1)) as [-> ->].
  { rewrite Hb1, length_app. cbn [length app]. lia. }
  rewrite Hb1, drop_app_ge by lia. replace (length (b :: bs) + 1 - length (b :: bs))%nat with 1%nat by lia.
  split; [done |]. cbn [length] in *. lia.
Qed.

(** C24: [strip] never panics, and accepts exactly the datagrams of its own stream: it
    succeeds if and only if the bytes are the codec's Quarter Stream ID encoding, the
    IP Context ID and a non-empty payload, and then leaves the payload; otherwise the
    packet is untouched. *)
Theorem strip_exact (sid : Z) (c : ConnectIpDatagramCodec) (qsi : list Z) (pkt : PooledBuf) :
  0 <= sid <= u64_max -> codec_new sid = Ret c -> qsi_bytes c = Ret qsi ->
  Forall is_byte (buf_bytes pkt) ->
  exists ok pkt', strip c pkt = Ret (ok, pkt') /\
    (ok = true <-> exists payload, payload <> [] /\ buf_bytes pkt = qsi ++ CONTEXT_ID_IP :: payload) /\
    (ok = true -> buf_bytes pkt = qsi ++ CONTEXT_ID_IP :: buf_bytes pkt') /\
    (ok = false -> pkt' = pkt).
Proof. apply strip_spec. Qed.

(** A packet buffer for at most 65,526 bytes of data holds exactly the data and
    keeps the reserved headroom, which covers the codec's prefix; larger data makes
    the copy panic. *)
Theorem alloc_packet_buf_spec (MAX_DATAGRAM_SIZE : nat) (data : list Z) :
  (MAX_DATAGRAM_SIZE <= MAX_PACKET_BUFFER_SIZE)%nat ->
  if decide (length data + HEADROOM <= MAX_PACKET_BUFFER_SIZE)%nat then
    exists buf, alloc_packet_buf MAX_DATAGRAM_SIZE data = Ret buf /\ buf_bytes buf = data /\
      headroom buf = HEADROOM /\ (9 <= headroom buf)%nat
  else alloc_packet_buf MAX_DATAGRAM_SIZE data = Panic.
Proof.
  intros Hm. unfold alloc_packet_buf, alloc_uninit_packet_buf. cbv zeta.
  set (cap := if decide (length data + HEADROOM <= MAX_DATAGRAM_SIZE)%nat then MAX_DATAGRAM_SIZE
              else MAX_PACKET_BUFFER_SIZE).
  destruct (pool_get_law cap) as [Hlen Hroom].
  assert (HEADROOM <= MAX_PACKET_BUFFER_SIZE)%nat as Hmin by (apply Nat.leb_le; by vm_compute).
  assert (HEADROOM <= cap)%nat as Hcap by (unfold cap; case_decide; lia).
  destruct (pop_front_law (pool_get cap) HEADROOM) as [Hpb Hph]; [lia |].
  destruct (truncate_law (pop_front (pool_get cap) HEADROOM) (length data)) as [Htb Hth].
  set (buf := truncate (pop_front (pool_get cap) HEADROOM) (length data)) in *.
  assert (length (buf_bytes buf) = Nat.min (length data) (cap - HEADROOM)) as Hbl
    by (rewrite Htb, Hpb, length_take, length_drop, Hlen; done).
  case_decide as Hfit.
  - assert (length (buf_bytes buf) = length data) as He
      by (rewrite Hbl; unfold cap; case_decide; lia).
    rewrite decide_True by done. destruct (buf_write_law buf data ltac:(done)) as [Hwb Hwh].
    exists (buf_write buf data). split_and!; try done; rewrite Hwh, Hth, Hph, Hroom; [done | by vm_compute; lia].
  - rewrite decide_False; [done |]. rewrite Hbl. unfold cap. rewrite decide_False by lia. lia.
Qed.
End facts.

Lemma codec_roundtrip_witness :
  exists c pkt1 pkt2,
    codec_new (L := Rfc9000.lib) 400 = Ret c /\
    prepend (B := HeadBuf.lib) c {| HeadBuf.free := 10; HeadBuf.data := [69; 0; 0; 20] |} = Ret (true, pkt1) /\
    strip (L := Rfc9000.lib) c pkt1 = Ret (true, pkt2) /\
    buf_bytes pkt1 = [64; 100; 0; 69; 0; 0; 20] /\ buf_bytes pkt2 = [69; 0; 0; 20].
Proof.
  destruct (codec_roundtrip (L := Rfc9000.lib) (B := HeadBuf.lib) 400
    {| HeadBuf.free := 10; HeadBuf.data := [69; 0; 0; 20] |}) as (c & p1 & p2 & Hc & Hp & Hs & Hb & _).
  - unfold u64_max. lia.
  - done.
  - cbn. lia.
  - exists c, p1, p2. split; [exact Hc |]. split; [exact Hp |]. split; [exact Hs |].
    split; [| exact Hb]. injection Hc as <-. injection Hp as <-. by vm_compute.
Defined.

Definition sample_codec : ConnectIpDatagramCodec :=
  {| expected_qsi := 1; qsi_buf := [1; 0; 0; 0; 0; 0; 0; 0]; qsi_len := 1 |}.

Lemma strip_exact_witness :
  codec_new (L := Rfc9000.lib) 4 = Ret sample_codec /\
  exists pkt', strip (L := Rfc9000.lib) (B := HeadBuf.lib) sample_codec
    {| HeadBuf.free := 0; HeadBuf.data := [2; 0; 69] |} = Ret (false, pkt').
Proof.
  split; [by vm_compute |].
  destruct (strip_exact (L := Rfc9000.lib) (B := HeadBuf.lib) 4 sample_codec [1]
    {| HeadBuf.free := 0; HeadBuf.data := [2; 0; 69] |}) as (ok & pkt' & Hs & Hiff & _).
  - unfold u64_max. lia.
  - by vm_compute.
  - by vm_compute.
  - repeat constructor; unfold is_byte; lia.
  - destruct ok; [exfalso | by exists pkt'].
    destruct (proj1 Hiff eq_refl) as (payload & _ & Hb). cbn in Hb. discriminate.
Defined.
