(* ===== verification/Utf8.v ===== *)
(** * UTF-8

    The parts of [std::str] the header code uses: the bytes of a string
    ([as_bytes], [len]) and [String::from_utf8_lossy]. *)

From S2P Require Import Prelude.
#[local] Open Scope Z_scope.

(** A Unicode scalar value: what a Rust [char] can hold. *)
Definition is_char (c : Z) : Prop := 0 <= c < 55296 \/ 57344 <= c <= 1114111.

(** [s.as_bytes()]. *)
Definition char_bytes (c : Z) : list Z :=
  if decide (c < 128) then [c]
  else if decide (c < 2048) then [192 + c / 64; 128 + c mod 64]
  else if decide (c < 65536) then [224 + c / 4096; 128 + c / 64 mod 64; 128 + c mod 64]
  else [240 + c / 262144; 128 + c / 4096 mod 64; 128 + c / 64 mod 64; 128 + c mod 64].

Definition as_bytes (s : rstr) : list Z := s ≫= char_bytes.

Definition REPLACEMENT : Z := 65533.

Definition cont (b : Z) : bool := (128 <=? b) && (b <=? 191).

(** Whether [b1] may follow the first byte [b0] of a three- or four-byte sequence. *)
Definition second3 (b0 b1 : Z) : bool :=
  if decide (b0 = 224) then (160 <=? b1) && (b1 <=? 191)
  else if decide (b0 = 237) then (128 <=? b1) && (b1 <=? 159)
  else cont b1.

Definition second4 (b0 b1 : Z) : bool :=
  if decide (b0 = 240) then (144 <=? b1) && (b1 <=? 191)
  else if decide (b0 = 244) then (128 <=? b1) && (b1 <=? 143)
  else cont b1.

(** [String::from_utf8_lossy]: every maximal invalid prefix of a sequence becomes
    one replacement character. *)
Fixpoint from_utf8_lossy (bs : list Z) : rstr :=
  match bs with
  | [] => []
  | b0 :: r0 =>
    if decide (b0 < 128) then b0 :: from_utf8_lossy r0
    else if decide (194 <= b0 <= 223) then
      match r0 with
      | b1 :: r1 =>
        if cont b1 then ((b0 - 192) * 64 + (b1 - 128)) :: from_utf8_lossy r1
        else REPLACEMENT :: from_utf8_lossy r0
      | [] => [REPLACEMENT]
      end
    else if decide (224 <= b0 <= 239) then
      match r0 with
      | b1 :: r1 =>
        if second3 b0 b1 then
          match r1 with
          | b2 :: r2 =>
            if cont b2 then
              ((b0 - 224) * 4096 + (b1 - 128) * 64 + (b2 - 128)) :: from_utf8_lossy r2
            else REPLACEMENT :: from_utf8_lossy r1
          | [] => [REPLACEMENT]
          end
        else REPLACEMENT :: from_utf8_lossy r0
      | [] => [REPLACEMENT]
      end
    else if decide (240 <= b0 <= 244) then
      match r0 with
      | b1 :: r1 =>
        if second4 b0 b1 then
          match r1 with
          | b2 :: r2 =>
            if cont b2 then
              match r2 with
              | b3 :: r3 =>
                if cont b3 then
                  ((b0 - 240) * 262144 + (b1 - 128) * 4096 + (b2 - 128) * 64 + (b3 - 128))
                    :: from_utf8_lossy r3
                else REPLACEMENT :: from_utf8_lossy r2
              | [] => [REPLACEMENT]
              end
            else REPLACEMENT :: from_utf8_lossy r1
          | [] => [REPLACEMENT]
          end
        else REPLACEMENT :: from_utf8_lossy r0
      | [] => [REPLACEMENT]
      end
    else REPLACEMENT :: from_utf8_lossy r0
  end.

(** ** Lemmas *)

Lemma cont_tail x : cont (128 + x mod 64) = true.
Proof.
  pose proof (Z.mod_pos_bound x 64). unfold cont. rewrite andb_true_iff, !Z.leb_le. lia.
Qed.

Lemma from_utf8_lossy_char c rest :
  is_char c -> from_utf8_lossy (char_bytes c ++ rest) = c :: from_utf8_lossy rest.
Proof.
  unfold is_char, char_bytes. intros Hc.
  pose proof (Z.div_mod c 64). pose proof (Z.mod_pos_bound c 64).
  pose proof (Z.div_mod (c / 64) 64). pose proof (Z.mod_pos_bound (c / 64) 64).
  pose proof (Z.div_mod (c / 4096) 64). pose proof (Z.mod_pos_bound (c / 4096) 64).
  assert (c / 64 / 64 = c / 4096) as Hd1 by (rewrite Z.div_div by lia; done).
  assert (c / 4096 / 64 = c / 262144) as Hd2 by (rewrite Z.div_div by lia; done).
  rewrite Hd1, Hd2 in *. repeat case_decide; cbn [app from_utf8_lossy].
  - rewrite decide_True by lia. done.
  - rewrite decide_False, decide_True, cont_tail by lia. f_equal. lia.
  - rewrite decide_False, (decide_False (P := 194 <= _ <= 223)), decide_True by lia.
    assert (second3 (224 + c / 4096) (128 + c / 64 mod 64) = true) as ->.
    { unfold second3. repeat case_decide; [| | apply cont_tail];
        rewrite andb_true_iff, !Z.leb_le; lia. }
    rewrite cont_tail. f_equal. lia.
  - rewrite decide_False, (decide_False (P := 194 <= _ <= 223)),
      (decide_False (P := 224 <= _ <= 239)), decide_True by lia.
    assert (second4 (240 + c / 262144) (128 + c / 4096 mod 64) = true) as ->.
    { unfold second4. repeat case_decide; [| | apply cont_tail];
        rewrite andb_true_iff, !Z.leb_le; lia. }
    rewrite !cont_tail. f_equal. lia.
Qed.

(** Decoding the bytes of a string gives the string back. *)
Lemma from_utf8_lossy_as_bytes s : Forall is_char s -> from_utf8_lossy (as_bytes s) = s.
Proof.
  unfold as_bytes. induction 1 as [| c s Hc Hs IH]; [done |]. rewrite bind_cons.
  by rewrite from_utf8_lossy_char, IH.
Qed.

(** [len] counts bytes. *)
Lemma str_len_bytes s : str_len s = zlen (as_bytes s).
Proof.
  induction s as [| c s IH]; [done |]. unfold as_bytes in *. rewrite bind_cons, zlen_app, <- IH.
  cbn [str_len foldr]. unfold char_len, char_bytes. repeat case_decide; done.
Qed.

Lemma ascii_chars s : Forall (fun c => 0 <= c < 128) s -> as_bytes s = s.
Proof.
  unfold as_bytes. induction 1 as [| c s Hc Hs IH]; [done |]. rewrite bind_cons, IH. unfold char_bytes.
  by rewrite decide_True by lia.
Qed.

Lemma lit_chars s : Forall is_char (lit s).
Proof.
  induction s as [| a s IH]; cbn; constructor; [| done]. left.
  pose proof (Ascii.N_ascii_bounded a). lia.
Qed.
