(* ===== verification/Auth.v ===== *)
(** * CONNECT-IP authentication

    Models [src/src/auth.rs] and the request headers on both sides: what
    [send_connect_request] of [src/src/h3dialer.rs] sends, and how
    [validate_server_connect_headers] and [validate_server_auth] of
    [src/src/h3listener.rs] check it.  HMAC-SHA256 is the [hmac_sha256] crate's
    (class [HmacLib]); that no configured token other than the
    presented one has its MAC under the random key is the assumption [mac_unique], made
    of one request at a time and only where a theorem needs it. *)

From S2P Require Import Prelude Utf8.
#[local] Open Scope Z_scope.

Class HmacLib : Type := {
  hmac_key : Type;
  hmac_tag : Type;
  hmac_mac : list Z -> hmac_key -> hmac_tag;                  (* HMAC::mac *)
  hmac_verify : list Z -> hmac_key -> hmac_tag -> bool;       (* HMAC::verify *)
}.

(** [verify] compares the MAC of the message with the expected one. *)
Class HmacLaws (H : HmacLib) : Prop := {
  hmac_verify_spec m k t : hmac_verify m k t = true <-> hmac_mac m k = t;
}.

(** Among the configured tokens only [token] itself has the MAC of [token] under the key
    drawn. *)
Definition mac_unique {H : HmacLib} (k : hmac_key) (token : rstr) (tokens : list rstr) : Prop :=
  forall t, t ∈ tokens -> hmac_mac (as_bytes t) k = hmac_mac (as_bytes token) k -> as_bytes t = as_bytes token.

Inductive AuthError : Type := MissingHeader | NotBearer | EmptyToken | InvalidToken.

(** [bearer_auth_header]. *)
Definition bearer_auth_header (token : rstr) : rstr := lit "Bearer " ++ token.

Section auth.
Context {H : HmacLib}.

(** The loop of [validate_connect_auth]. *)
Fixpoint find_peer (k : hmac_key) (presented : hmac_tag) (tokens : list (rstr * rstr)) :
    result rstr AuthError :=
  match tokens with
  | [] => Err InvalidToken
  | (peer_id, peer_token) :: tokens' =>
      if hmac_verify (as_bytes peer_token) k presented then Ok peer_id
      else find_peer k presented tokens'
  end.

(** [validate_connect_auth]: [k] is the random key, [peer_tokens] the pairs of peer
    id and token in the order the map iterates them. *)
Definition validate_connect_auth (k : hmac_key) (header_value : option rstr)
    (peer_tokens : list (rstr * rstr)) : result rstr AuthError :=
  match header_value with
  | None => Err MissingHeader
  | Some header =>
    match strip_prefix (lit "Bearer ") header with
    | None => Err NotBearer
    | Some token =>
        if decide (token = []) then Err EmptyToken
        else find_peer k (hmac_mac (as_bytes token) k) peer_tokens
    end
  end.

(** [impl Display for AuthError]. *)
Definition auth_error_display (e : AuthError) : rstr :=
  match e with
  | MissingHeader => lit "missing Authorization header"
  | NotBearer => lit "not Bearer auth"
  | EmptyToken => lit "empty token"
  | InvalidToken => lit "unknown peer or invalid token"
  end.

(** A header of a request: name and value, in bytes. *)
Definition Header : Type := list Z * list Z.

Definition to_ascii_lowercase (b : Z) : Z := if decide (65 <= b <= 90) then b + 32 else b.
Definition eq_ignore_ascii_case (a b : list Z) : bool :=
  bool_decide (to_ascii_lowercase <$> a = to_ascii_lowercase <$> b).

(** [headers.iter().find(p).map(value)]. *)
Fixpoint find_header (p : list Z -> bool) (headers : list Header) : option (list Z) :=
  match headers with
  | [] => None
  | (name, value) :: headers' => if p name then Some value else find_header p headers'
  end.

Definition named (name : string) (n : list Z) : bool := bool_decide (n = lit name).
Definition named_ci (name : string) (n : list Z) : bool := eq_ignore_ascii_case n (lit name).

(** [validate_server_connect_headers]. *)
Definition validate_server_connect_headers (headers : list Header) : result unit rstr :=
  if decide (find_header (named ":method") headers <> Some (lit "CONNECT")) then
    Err (lit "invalid :method, expected CONNECT")
  else if decide (find_header (named ":protocol") headers <> Some (lit "connect-ip")) then
    Err (lit "invalid :protocol, expected connect-ip")
  else if decide (find_header (named_ci "capsule-protocol") headers <> Some (lit "?1")) then
    Err (lit "invalid capsule-protocol, expected ?1")
  else Ok tt.

(** [validate_server_auth]. *)
Definition validate_server_auth (k : hmac_key) (headers : list Header) (tokens : gmap rstr rstr) :
    result rstr rstr :=
  let auth_value := from_utf8_lossy <$> find_header (named_ci "authorization") headers in
  match validate_connect_auth k auth_value (map_to_list tokens) with
  | Ok id => Ok id
  | Err reason => Err (auth_error_display reason)
  end.

(** The headers of [send_connect_request]. *)
Definition connect_headers (authority connect_path auth_header : rstr) : list Header :=
  [(lit ":method", lit "CONNECT");
   (lit ":protocol", lit "connect-ip");
   (lit ":scheme", lit "https");
   (lit ":authority", as_bytes authority);
   (lit ":path", as_bytes connect_path);
   (lit "capsule-protocol", lit "?1");
   (lit "authorization", as_bytes auth_header)].
End auth.

(** A MAC that is the message itself: collision free, and computable. *)
Module PlainMac.
#[export] Instance lib : HmacLib := {|
  hmac_key := unit;
  hmac_tag := list Z;
  hmac_mac m _ := m;
  hmac_verify m _ t := bool_decide (m = t);
|}.
End PlainMac.

#[export] Instance PlainMac_laws : HmacLaws PlainMac.lib.
Proof. split. intros m k t. cbn. apply bool_decide_eq_true. Qed.

(** ** Lemmas *)

Lemma as_bytes_inj s s' : Forall is_char s -> Forall is_char s' -> as_bytes s = as_bytes s' -> s = s'.
Proof.
  intros Hs Hs' He. rewrite <- (from_utf8_lossy_as_bytes s), <- (from_utf8_lossy_as_bytes s') by done.
  by rewrite He.
Qed.

Section facts.
Context {H : HmacLib} {HH : HmacLaws H}.

(** The strings are Rust strings: sequences of scalar values. *)
Definition tokens_wf (tokens : list (rstr * rstr)) : Prop := Forall (fun pt => Forall is_char pt.2) tokens.

(** The peer found has a token with the MAC presented. *)
Lemma find_peer_mac k token tokens :
  match find_peer k (hmac_mac (as_bytes token) k) tokens with
  | Ok pid => exists t, (pid, t) ∈ tokens /\ hmac_mac (as_bytes t) k = hmac_mac (as_bytes token) k
  | Err e => e = InvalidToken /\ forall pid, (pid, token) ∉ tokens
  end.
Proof.
  induction tokens as [| [id t] tokens IH]; cbn [find_peer].
  - split; [done |]. set_solver.
  - destruct (hmac_verify _ _ _) eqn:Hv.
    + apply hmac_verify_spec in Hv. exists t. split; [set_solver | done].
    + assert (t <> token) as Hne.
      { intros ->. assert (hmac_verify (as_bytes token) k (hmac_mac (as_bytes token) k) = true)
          by by apply hmac_verify_spec. congruence. }
      destruct (find_peer k _ tokens); [destruct IH as (t' & ? & ?); exists t'; set_solver |].
      destruct IH as [-> IH]. split; [done |]. set_solver.
Qed.

(** Where MACs are unique it is the token presented. *)
Lemma mac_unique_token k token tokens pid t :
  Forall is_char token -> tokens_wf tokens -> mac_unique k token tokens.*2 -> (pid, t) ∈ tokens ->
  hmac_mac (as_bytes t) k = hmac_mac (as_bytes token) k -> t = token.
Proof.
  intros Ht Hw Hu Hin He. apply as_bytes_inj; [by apply (proj1 (Forall_forall _ _) Hw (pid, t)) | done |].
  apply Hu; [| done]. apply list_elem_of_fmap. by exists (pid, t).
Qed.

Lemma find_peer_spec k token tokens :
  mac_unique k token tokens.*2 -> Forall is_char token -> tokens_wf tokens ->
  match find_peer k (hmac_mac (as_bytes token) k) tokens with
  | Ok pid => (pid, token) ∈ tokens
  | Err e => e = InvalidToken /\ forall pid, (pid, token) ∉ tokens
  end.
Proof.
  intros Hu Ht Hw. pose proof (find_peer_mac k token tokens) as Hf.
  destruct (find_peer k _ tokens) as [pid | e]; [| done].
  destruct Hf as (t & Hin & He). by rewrite <- (mac_unique_token k token tokens pid t).
Qed.

(** ** Properties *)

(** C20: authentication is sound and complete.  A header of characters is accepted with
    peer [pid] only if it is "Bearer " followed by a non-empty token that has the MAC,
    under the key drawn, of the token configured for [pid]; unless another configured
    token has that MAC too, it is the token of [pid], and if tokens are distinct, of no
    other peer.  A header that carries the token of some peer is never refused, and each
    error tells what is wrong with the header. *)
Theorem validate_connect_auth_spec (k : hmac_key) (header : rstr) (tokens : list (rstr * rstr)) :
  Forall is_char header -> tokens_wf tokens ->
  match validate_connect_auth k (Some header) tokens with
  | Ok pid => exists token, header = bearer_auth_header token /\ token <> [] /\
      (exists t, (pid, t) ∈ tokens /\ hmac_mac (as_bytes t) k = hmac_mac (as_bytes token) k) /\
      (mac_unique k token tokens.*2 -> (pid, token) ∈ tokens /\
        (NoDup tokens.*2 -> forall pid', (pid', token) ∈ tokens -> pid' = pid))
  | Err MissingHeader => False
  | Err NotBearer => forall token, header <> bearer_auth_header token
  | Err EmptyToken => header = bearer_auth_header []
  | Err InvalidToken => exists token, header = bearer_auth_header token /\ forall pid, (pid, token) ∉ tokens
  end.
Proof.
  intros Hh Hw. unfold validate_connect_auth, bearer_auth_header.
  destruct (strip_prefix (lit "Bearer ") header) as [token |] eqn:Hs.
  - apply strip_prefix_Some in Hs as ->. case_decide as He; [by subst |].
    apply Forall_app in Hh as [_ Ht]. pose proof (find_peer_mac k token tokens) as Hf.
    destruct (find_peer k _ tokens) as [pid | e].
    + exists token. split; [done |]. split; [done |]. split; [done |]. intros Hu.
      destruct Hf as (t & Hin & Hm). rewrite (mac_unique_token k token tokens pid t) in Hin by done.
      split; [done |]. intros Hnd pid' Hin'.
      assert ((pid', token) = (pid, token)) as [= ->]; [| done]. by apply (NoDup_fmap_elem snd tokens).
    + destruct Hf as [-> Hf]. eauto.
  - intros token Heq. apply strip_prefix_Some in Heq. congruence.
Qed.

Lemma client_headers_find authority path auth :
  validate_server_connect_headers (connect_headers authority path auth) = Ok tt /\
  find_header (named_ci "authorization") (connect_headers authority path auth) = Some (as_bytes auth).
Proof.
  unfold validate_server_connect_headers, connect_headers. by split.
Qed.

(** Dialer and listener agree.  The request a dialer sends for a peer's token
    passes the listener's header checks, and the listener, whose token map holds that
    token for [pid] and no other token equal to it, authenticates it as [pid]. *)
Theorem connect_request_accepted (k : hmac_key) (tokens : gmap rstr rstr) (pid token authority path : rstr) :
  mac_unique k token (map_to_list tokens).*2 -> Forall is_char token -> token <> [] ->
  tokens_wf (map_to_list tokens) -> tokens !! pid = Some token ->
  (forall pid', tokens !! pid' = Some token -> pid' = pid) ->
  let headers := connect_headers authority path (bearer_auth_header token) in
  validate_server_connect_headers headers = Ok tt /\ validate_server_auth k headers tokens = Ok pid.
Proof.
  intros Hcf Ht Hne Hw Hl Hu headers.
  destruct (client_headers_find authority path (bearer_auth_header token)) as [Hv Hf].
  split; [exact Hv |]. unfold validate_server_auth, headers. rewrite Hf. cbn [fmap option_fmap option_map].
  assert (Forall is_char (bearer_auth_header token)) as Hc
    by (apply Forall_app; split; [apply lit_chars | done]).
  rewrite from_utf8_lossy_as_bytes by done. unfold validate_connect_auth, bearer_auth_header.
  rewrite (proj2 (strip_prefix_Some (lit "Bearer ") _ token)) by done. rewrite decide_False by done.
  pose proof (find_peer_spec k token (map_to_list tokens) Hcf Ht Hw) as Hp.
  destruct (find_peer k _ (map_to_list tokens)) as [pid' | e].
  - apply elem_of_map_to_list in Hp. by rewrite (Hu pid').
  - destruct Hp as [_ Hp]. destruct (Hp pid). by apply elem_of_map_to_list.
Qed.
End facts.

(** ** Concrete requests *)

Definition sample_tokens : gmap rstr rstr :=
  {[ lit "alice" := lit "alice-token-1"; lit "bob" := lit "bob-token-22" ]}.

Lemma PlainMac_unique token tokens : @mac_unique PlainMac.lib tt token tokens.
Proof. by intros t _ Heq. Qed.

Lemma sample_tokens_cases pid token :
  sample_tokens !! pid = Some token -> 
  (pid = lit "alice" /\ token = lit "alice-token-1") \/ (pid = lit "bob" /\ token = lit "bob-token-22").
Proof.
  unfold sample_tokens. rewrite lookup_insert_Some, lookup_singleton_Some. intros [[-> ->] | [_ [-> ->]]]; auto.
Qed.

Lemma sample_tokens_wf : tokens_wf (map_to_list sample_tokens).
Proof.
  apply Forall_forall. intros [i t] [[_ ->] | [_ ->]]%elem_of_map_to_list%sample_tokens_cases; apply lit_chars.
Qed.

Lemma sample_tokens_bob pid : sample_tokens !! pid = Some (lit "bob-token-22") -> pid = lit "bob".
Proof. intros [[_ He] | [-> _]]%sample_tokens_cases; [by vm_compute in He | done]. Qed.

Lemma validate_connect_auth_spec_witness :
  validate_connect_auth (H := PlainMac.lib) tt (Some (lit "Bearer bob-token-22"))
    [(lit "alice", lit "alice-token-1"); (lit "bob", lit "bob-token-22")] = Ok (lit "bob") /\
  exists token, lit "Bearer bob-token-22" = bearer_auth_header token /\ token <> [] /\
    (lit "bob", token) ∈ [(lit "alice", lit "alice-token-1"); (lit "bob", lit "bob-token-22")].
Proof.
  split; [by vm_compute |].
  pose proof (validate_connect_auth_spec (H := PlainMac.lib) tt (lit "Bearer bob-token-22")
    [(lit "alice", lit "alice-token-1"); (lit "bob", lit "bob-token-22")]) as Hs.
  destruct Hs as (token & He & Hn & _ & Hu).
  - apply lit_chars.
  - constructor; [apply lit_chars | constructor; [apply lit_chars | constructor]].
  - exists token. split; [exact He |]. split; [exact Hn |]. exact (proj1 (Hu (PlainMac_unique _ _))).
Defined.

Lemma connect_request_accepted_witness :
  validate_server_auth (H := PlainMac.lib) tt
    (connect_headers (lit "h") (lit "/") (bearer_auth_header (lit "bob-token-22"))) sample_tokens
  = Ok (lit "bob").
Proof.
  apply (connect_request_accepted (H := PlainMac.lib) tt sample_tokens (lit "bob") (lit "bob-token-22")).
  - apply PlainMac_unique.
  - apply lit_chars.
  - discriminate.
  - apply sample_tokens_wf.
  - by vm_compute.
  - apply sample_tokens_bob.
Defined.
