(* ===== verification/Session.v ===== *)
(** * HTTP/3 CONNECT-IP sessions

    Models the session of [src/src/h3session.rs] ([H3Session],
    [bind_connect_stream], [connect_ready], [poll_h3_events], [ConnectFailure])
    with the two header handlers it is driven by: the server's in
    [H3Engine::accept] ([src/src/h3listener.rs]) and the client's in
    [H3Engine::establish] ([src/src/h3dialer.rs]).

    The HTTP/3 connection is quiche's.  One call of [poll_h3_events] is modelled on
    the events quiche has queued, followed by what ends the call: [Done], with
    whether the peer enabled DATAGRAMs, or an error.  The calls the code makes into
    quiche are returned as [H3Out] values, in order. *)

From S2P Require Import Prelude Utf8 Codec Auth.
#[local] Open Scope Z_scope.

Inductive H3Event : Type :=
| Headers (stream_id : Z) (headers : list Header)
| Finished (stream_id : Z)
| ResetStream (stream_id code : Z)
| GoAway (stream_id : Z)
| PriorityUpdate (stream_id : Z)
| OtherEvent (stream_id : Z).

Inductive PollEnd : Type :=
| PollDone (dgram_enabled_by_peer : bool)
| PollError (error : rstr).

Inductive H3Out : Type :=
| ShutdownRead (stream_id : Z)
| SendResponse (stream_id : Z) (headers : list Header) (fin : bool).

Inductive HeaderAction : Type :=
| Accept (stream_id : Z) (peer_id : option rstr)
| Ignore.

Inductive ConnectProgress : Type := Pending | Ready.

Inductive ConnectFailure : Type :=
| Rejected (status : rstr)
| ClosedStream (reason : rstr)
| Poll (reason : rstr).

(** [ConnectFailure::into_actor_reason]. *)
Definition into_actor_reason (f : ConnectFailure) : rstr :=
  match f with
  | Rejected status => lit "CONNECT-IP rejected after establish: " ++ status
  | ClosedStream reason | Poll reason => reason
  end.

(** [H3Session] without the quiche connection. *)
Record H3Session : Type := {
  connect_stream_id : option Z;
  datagram_codec : ConnectIpDatagramCodec;
  connect_accepted : bool;
  accepted_peer_id : option rstr;
}.

Section session.
Context {L : VarintLib}.

(** [H3Session::with_transport], when quiche creates the connection. *)
Definition with_transport : outcome H3Session :=
  codec ← codec_new 0;
  mret {| connect_stream_id := None; datagram_codec := codec;
          connect_accepted := false; accepted_peer_id := None |}.

(** [bind_connect_stream]. *)
Definition bind_connect_stream (s : H3Session) (stream_id : Z) : outcome H3Session :=
  codec ← codec_new stream_id;
  mret {| connect_stream_id := Some stream_id; datagram_codec := codec;
          connect_accepted := connect_accepted s; accepted_peer_id := accepted_peer_id s |}.

(** [connect_ready]. *)
Definition connect_ready (s : H3Session) (dgram_enabled_by_peer : bool) : bool :=
  connect_accepted s && dgram_enabled_by_peer.

(** The handler of HEADERS: its result and the calls it makes into quiche. *)
Definition Handler : Type := Z -> list Header -> result HeaderAction ConnectFailure * list H3Out.

(** [poll_h3_events] on the queued events [evs]. *)
Fixpoint poll_h3_events (on_headers : Handler) (evs : list H3Event) (fin : PollEnd) (s : H3Session)
    (out : list H3Out) : outcome (result ConnectProgress ConnectFailure * H3Session * list H3Out) :=
  match evs with
  | [] =>
    mret (match fin with
          | PollDone dgram => Ok (if connect_ready s dgram then Ready else Pending)
          | PollError e => Err (Poll (lit "H3 poll: " ++ e))
          end, s, out)
  | Headers stream_id headers :: evs' =>
    if connect_accepted s then poll_h3_events on_headers evs' fin s (out ++ [ShutdownRead stream_id])
    else
      match on_headers stream_id headers with
      | (Err failure, calls) => mret (Err failure, s, out ++ calls)
      | (Ok (Accept sid pid), calls) =>
          s ← bind_connect_stream s sid;
          poll_h3_events on_headers evs' fin
            {| connect_stream_id := connect_stream_id s; datagram_codec := datagram_codec s;
               connect_accepted := true; accepted_peer_id := pid |} (out ++ calls)
      | (Ok Ignore, calls) => poll_h3_events on_headers evs' fin s (out ++ calls)
      end
  | Finished stream_id :: evs' =>
    if decide (connect_stream_id s = Some stream_id)
    then mret (Err (ClosedStream (lit "CONNECT-IP stream finished")), s, out)
    else poll_h3_events on_headers evs' fin s out
  | ResetStream stream_id code :: evs' =>
    if decide (connect_stream_id s = Some stream_id)
    then mret (Err (ClosedStream (lit "CONNECT-IP stream reset: " ++ dec code)), s, out)
    else poll_h3_events on_headers evs' fin s out
  | GoAway _ :: _ => mret (Err (ClosedStream (lit "received GOAWAY")), s, out)
  | PriorityUpdate _ :: evs' | OtherEvent _ :: evs' => poll_h3_events on_headers evs' fin s out
  end.

(** The server's handler ([server_handler] in [accept]); [send_200] is the result of
    quiche's [send_response] for the positive answer. *)
Definition status_header (code : string) : Header := (lit ":status", lit code).

Definition server_handler {H : HmacLib} (k : hmac_key) (peer_tokens : gmap rstr rstr)
    (send_200 : Z -> result unit rstr) : Handler := fun stream_id headers =>
  match validate_server_connect_headers headers with
  | Err _ => (Ok Ignore, [SendResponse stream_id [status_header "400"] true])
  | Ok _ =>
    match validate_server_auth k headers peer_tokens with
    | Err _ => (Ok Ignore, [SendResponse stream_id [status_header "401"] true])
    | Ok pid =>
      let calls := [SendResponse stream_id [status_header "200"; (lit "capsule-protocol", lit "?1")] false] in
      match send_200 stream_id with
      | Err e => (Err (ClosedStream (lit "send 200: " ++ e)), calls)
      | Ok _ => (Ok (Accept stream_id (Some pid)), calls)
      end
    end
  end.

(** The client's handler (the closure in [establish]). *)
Definition client_handler (connect_sid : option Z) : Handler := fun sid headers =>
  if decide (connect_sid <> Some sid) then (Ok Ignore, []) else
  match from_utf8_lossy <$> find_header (named ":status") headers with
  | Some code =>
      if decide (code = lit "200") then (Ok (Accept sid None), [])
      else (Err (Rejected code), [])
  | None => (Err (ClosedStream (lit "missing :status on CONNECT-IP response")), [])
  end.

(** The handler after establishment. *)
Definition ignore_handler : Handler := fun _ _ => (Ok Ignore, []).

(** Successive calls of [poll_h3_events], as the engine makes them: the session
    after them and the result of the last, stopping at the first failure. *)
Fixpoint poll_all (on_headers : Handler) (calls : list (list H3Event * PollEnd)) (s : H3Session)
    (out : list H3Out) : outcome (result ConnectProgress ConnectFailure * H3Session * list H3Out) :=
  match calls with
  | [] => mret (Ok Pending, s, out)
  | [(evs, fin)] => poll_h3_events on_headers evs fin s out
  | (evs, fin) :: calls' =>
    r ← poll_h3_events on_headers evs fin s out;
    let '(res, s, out) := r in
    match res with Ok _ => poll_all on_headers calls' s out | Err f => mret (Err f, s, out) end
  end.
End session.

(** ** Invariant *)

Section spec.
Context {L : VarintLib}.

(** The codec always frames for the bound stream. *)
Definition session_wf (s : H3Session) : Prop :=
  match connect_stream_id s with
  | Some sid => codec_new sid = Ret (datagram_codec s)
  | None => codec_new 0 = Ret (datagram_codec s) /\ connect_accepted s = false
  end.

(** Stream ids are QUIC stream ids. *)
Definition event_wf (e : H3Event) : Prop :=
  match e with
  | Headers sid _ | Finished sid | ResetStream sid _ | GoAway sid | PriorityUpdate sid | OtherEvent sid =>
      0 <= sid <= u64_max
  end.

Definition handler_wf (h : Handler) : Prop :=
  forall sid hs sid' pid, fst (h sid hs) = Ok (Accept sid' pid) -> sid' = sid.

(** [s] was accepted on the request [Headers sid hs] of [hist] by [h], which answered
    with peer [pid]. *)
Definition accepted_by (h : Handler) (hist : list H3Event) (s : H3Session) : Prop :=
  exists sid hs pid, Headers sid hs ∈ hist /\ fst (h sid hs) = Ok (Accept sid pid) /\
    connect_stream_id s = Some sid /\ accepted_peer_id s = pid.
End spec.

(** ** Lemmas *)

Section facts.
Context {L : VarintLib} {HL : VarintLaws L}.

Lemma codec_new_total sid : 0 <= sid <= u64_max -> exists c, codec_new sid = Ret c.
Proof.
  intros Hs. assert (0 <= sid / 4 < 2 ^ 62) as Hq.
  { unfold u64_max in Hs. split; [apply Z.div_pos; lia | apply Z.div_lt_upper_bound; lia]. }
  destruct (put_varint_law _ Hq) as (b & bs & Hp & Hl & _). pose proof (varint_len_range (sid / 4)).
  unfold codec_new, encode_qsi. cbv zeta. rewrite Hp, decide_True by lia. cbn. eauto.
Qed.

Lemma with_transport_wf : exists s, with_transport = Ret s /\ session_wf s /\ connect_accepted s = false /\
  connect_stream_id s = None /\ accepted_peer_id s = None.
Proof.
  destruct (codec_new_total 0) as [c Hc]; [unfold u64_max; lia |]. unfold with_transport. rewrite Hc. cbn.
  eexists. split; [done |]. done.
Qed.

Lemma bind_connect_stream_spec s sid :
  0 <= sid <= u64_max ->
  exists c, codec_new sid = Ret c /\ bind_connect_stream s sid =
    Ret {| connect_stream_id := Some sid; datagram_codec := c;
           connect_accepted := connect_accepted s; accepted_peer_id := accepted_peer_id s |}.
Proof.
  intros Hs. destruct (codec_new_total sid Hs) as [c Hc]. exists c. unfold bind_connect_stream.
  by rewrite Hc.
Qed.

(** One call: it returns, keeps the codec in step, and an accepted session is the one
    it was or was accepted by the handler on one of the events. *)
Lemma poll_h3_events_inv h evs fin s out :
  handler_wf h -> Forall event_wf evs -> session_wf s ->
  exists r s' out', poll_h3_events h evs fin s out = Ret (r, s', out') /\ session_wf s' /\
    (connect_accepted s = true -> s' = s) /\
    (connect_accepted s = false -> connect_accepted s' = true -> accepted_by h evs s') /\
    (connect_accepted s' = false -> s' = s) /\
    (r = Ok Ready -> connect_accepted s' = true).
Proof.
  intros Hh Hev. revert s out. induction Hev as [| e evs He Hev IH]; intros s out Hs; cbn [poll_h3_events].
  { eexists _, s, out. split; [done |]. split_and!; try done; try congruence.
    destruct fin as [d |]; [| done]. unfold connect_ready. by destruct (connect_accepted s). }
  assert (forall out, exists r s' out', poll_h3_events h evs fin s out = Ret (r, s', out') /\ session_wf s' /\
    (connect_accepted s = true -> s' = s) /\
    (connect_accepted s = false -> connect_accepted s' = true -> accepted_by h (e :: evs) s') /\
    (connect_accepted s' = false -> s' = s) /\ (r = Ok Ready -> connect_accepted s' = true)) as Hskip.
  { intros out0. destruct (IH s out0 Hs) as (r & s' & out' & Hp & Hw & H1 & H2 & H3).
    exists r, s', out'. split_and!; try done; try apply H3. intros Ha Ha'.
    destruct (H2 Ha Ha') as (sid & hs & pid & Hin & Hrest). exists sid, hs, pid. split; [by right | done]. }
  assert (forall f : ConnectFailure, exists r s' out', Ret (Err f, s, out) = Ret (r, s', out') /\ session_wf s' /\
    (connect_accepted s = true -> s' = s) /\
    (connect_accepted s = false -> connect_accepted s' = true -> accepted_by h (e :: evs) s') /\
    (connect_accepted s' = false -> s' = s) /\
    (r = Ok Ready -> connect_accepted s' = true)) as Hstop.
  { intros f. eexists _, s, out. split; [done |]. split_and!; try done; congruence. }
  destruct e as [sid hs | sid | sid code | sid | sid | sid]; try apply Hskip; try apply Hstop.
  - destruct (connect_accepted s) eqn:Ha; [apply Hskip |].
    pose proof (Hh sid hs) as Hhs. destruct (h sid hs) as [[[sid' pid |] | f] calls] eqn:Hr; [| apply Hskip |].
    + cbn in Hhs. rewrite (Hhs sid' pid) in * by done. cbn in He.
      destruct (bind_connect_stream_spec s sid He) as (c & Hc & Hb). rewrite Hb. cbn [mbind outcome_bind].
      set (s1 := {| connect_stream_id := _ |}).
      destruct (IH s1 (out ++ calls)) as (r & s' & out' & Hp & Hw & H1 & _ & H3 & H4); [done |].
      rewrite (H1 eq_refl) in *. exists r, s1, out'. split_and!; try done.
      intros _ _. exists sid, hs, pid. rewrite Hr. split_and!; try done. by left.
    + eexists _, s, (out ++ calls). split; [done |]. split_and!; try done; congruence.
  - case_decide; [apply Hstop | apply Hskip].
  - case_decide; [apply Hstop | apply Hskip].
Qed.

Lemma server_handler_wf {H : HmacLib} k tokens send_200 : handler_wf (server_handler k tokens send_200).
Proof.
  intros sid hs sid' pid. unfold server_handler.
  destruct (validate_server_connect_headers hs); [| done].
  destruct (validate_server_auth k hs tokens); [| done].
  destruct (send_200 sid); cbn; congruence.
Qed.

Lemma client_handler_wf c : handler_wf (client_handler c).
Proof.
  intros sid hs sid' pid. unfold client_handler. case_decide; [done |].
  destruct (from_utf8_lossy <$> _); [| done]. case_decide; cbn; congruence.
Qed.

(** The same for a sequence of calls. *)
Lemma poll_all_inv h calls s out :
  handler_wf h -> Forall (fun c => Forall event_wf c.1) calls -> session_wf s ->
  exists r s' out', poll_all h calls s out = Ret (r, s', out') /\ session_wf s' /\
    (connect_accepted s = true -> s' = s) /\
    (connect_accepted s = false -> connect_accepted s' = true -> accepted_by h (calls ≫= fst) s') /\
    (connect_accepted s' = false -> s' = s) /\
    (r = Ok Ready -> connect_accepted s' = true).
Proof.
  intros Hh Hc. revert s out. induction Hc as [| [evs fin] calls He Hc IH]; intros s out Hs.
  { eexists _, s, out. split; [done |]. split_and!; try done; congruence. }
  cbn in He. destruct (poll_h3_events_inv h evs fin s out Hh He Hs) as (r & s1 & out1 & Hp & Hw & H1 & H2 & H3 & H4).
  destruct calls as [| c calls].
  { exists r, s1, out1. cbn [poll_all]. rewrite bind_cons. cbn [mbind list_bind fst]. by rewrite app_nil_r. }
  cbn [poll_all]. rewrite Hp. cbn [mbind outcome_bind]. rewrite bind_cons. cbn [fst].
  assert (forall s', connect_accepted s = false -> accepted_by h evs s' ->
    accepted_by h (evs ++ ((c :: calls) ≫= fst)) s') as Hl.
  { intros s' _ (sid & hs & pid & Hin & Hrest). exists sid, hs, pid. split; [| done]. set_solver. }
  destruct r as [p | f].
  - destruct (IH s1 out1 Hw) as (r & s' & out' & Hp' & Hw' & G1 & G2 & G3 & G4).
    exists r, s', out'. split; [exact Hp' |]. split_and!; try done.
    + intros Ha. pose proof (H1 Ha) as ->. auto.
    + intros Ha Ha'. destruct (connect_accepted s1) eqn:E.
      * rewrite (G1 eq_refl) in *. apply Hl; auto.
      * destruct (G2 eq_refl Ha') as (sid & hs & pid & Hin & Hrest). exists sid, hs, pid. split; [| done]. set_solver.
    + intros Ha. pose proof (G3 Ha) as ->. auto.
  - exists (Err f), s1, out1. split; [done |]. split_and!; try done. intros Ha Ha'. apply Hl; auto.
Qed.

(** ** Properties *)

(** No session without authentication.  However the events of a new server
    connection arrive, the session reports [Ready] only after a CONNECT-IP request
    that passed the header checks and the token check; it is then bound to that
    request's stream, carries the peer id the token belongs to (so taking it does not
    panic), and frames datagrams for that stream. *)
Theorem server_session_authenticated {H : HmacLib} (k : hmac_key) (tokens : gmap rstr rstr)
    (send_200 : Z -> result unit rstr) (calls : list (list H3Event * PollEnd)) (s : H3Session) :
  with_transport = Ret s -> Forall (fun c => Forall event_wf c.1) calls ->
  exists r s' out, poll_all (server_handler k tokens send_200) calls s [] = Ret (r, s', out) /\
    (r = Ok Ready ->
     exists sid hs pid, Headers sid hs ∈ calls ≫= fst /\
       validate_server_connect_headers hs = Ok tt /\ validate_server_auth k hs tokens = Ok pid /\
       connect_stream_id s' = Some sid /\ accepted_peer_id s' = Some pid /\
       codec_new sid = Ret (datagram_codec s')).
Proof.
  intros Hn Hc. destruct with_transport_wf as (s0 & Hs0 & Hw & Ha & _). rewrite Hn in Hs0. injection Hs0 as <-.
  destruct (poll_all_inv _ calls s [] (server_handler_wf k tokens send_200) Hc Hw)
    as (r & s' & out & Hp & Hw' & _ & Hacc & _ & Hr).
  exists r, s', out. split; [done |]. intros ->.
  destruct (Hacc Ha (Hr eq_refl)) as (sid & hs & pid & Hin & Hh & Hsid & Hpid).
  unfold server_handler in Hh. destruct (validate_server_connect_headers hs) as [[] |] eqn:Hv; [| done].
  destruct (validate_server_auth k hs tokens) as [p |] eqn:Hau; [| done].
  destruct (send_200 sid); [| done]. cbn in Hh. injection Hh as <-. exists sid, hs, p.
  split_and!; try done. unfold session_wf in Hw'. by rewrite Hsid in Hw'.
Qed.

(** A client session reports [Ready] only after a response with status 200 on the
    stream of its own request; headers of other streams are ignored and never rebind
    it. *)
Theorem client_session_accepted (sid : Z) (calls : list (list H3Event * PollEnd)) (s0 s : H3Session) :
  0 <= sid <= u64_max -> with_transport = Ret s0 -> bind_connect_stream s0 sid = Ret s ->
  Forall (fun c => Forall event_wf c.1) calls ->
  exists r s' out, poll_all (client_handler (Some sid)) calls s [] = Ret (r, s', out) /\
    connect_stream_id s' = Some sid /\ codec_new sid = Ret (datagram_codec s') /\
    (r = Ok Ready ->
     exists hs value, Headers sid hs ∈ calls ≫= fst /\ find_header (named ":status") hs = Some value /\
       from_utf8_lossy value = lit "200").
Proof.
  intros Hsid Hn Hb Hc. destruct with_transport_wf as (s1 & Hs1 & _ & Ha & _).
  rewrite Hn in Hs1. injection Hs1 as <-.
  destruct (bind_connect_stream_spec s0 sid Hsid) as (c & Hc0 & Hb'). rewrite Hb in Hb'. injection Hb' as ->.
  set (s := {| connect_stream_id := Some sid |}).
  destruct (poll_all_inv _ calls s [] (client_handler_wf (Some sid)) Hc) as (r & s' & out & Hp & Hw' & Hk & Hacc & Hsame & Hr).
  { done. }
  assert (connect_accepted s = false) as Has by done.
  assert (connect_accepted s' = true -> exists hs value, Headers sid hs ∈ calls ≫= fst /\
     find_header (named ":status") hs = Some value /\ from_utf8_lossy value = lit "200" /\
     connect_stream_id s' = Some sid) as Hyes.
  { intros Ha'. destruct (Hacc Has Ha') as (sid' & hs & pid & Hin & Hh & Hs' & _).
    unfold client_handler in Hh. case_decide as Hd; [done |].
    assert (sid' = sid) as -> by (destruct (decide (sid' = sid)); [done | naive_solver]).
    destruct (find_header (named ":status") hs) as [value |] eqn:Hf; [| done]. cbn in Hh.
    case_decide; [| done]. eauto 6. }
  assert (connect_stream_id s' = Some sid) as Hs'.
  { destruct (connect_accepted s') eqn:E; [by destruct (Hyes eq_refl) as (? & ? & ? & ? & ? & ?) |].
    by rewrite (Hsame eq_refl). }
  exists r, s', out. split_and!; try done.
  - unfold session_wf in Hw'. by rewrite Hs' in Hw'.
  - intros ->. destruct (Hyes (Hr eq_refl)) as (hs & v & ? & ? & ? & _). eauto.
Qed.

(** An event that ends an established session. *)
Definition fatal (s : H3Session) (e : H3Event) : bool :=
  match e with
  | Finished sid | ResetStream sid _ => bool_decide (connect_stream_id s = Some sid)
  | GoAway _ => true
  | Headers _ _ | PriorityUpdate _ | OtherEvent _ => false
  end.

Definition shutdowns (evs : list H3Event) : list H3Out :=
  omap (fun e => match e with Headers sid _ => Some (ShutdownRead sid) | _ => None end) evs.

(** An established session is stable.  No header reaches the handler any more: the
    read side of each further stream is shut down, the session does not change, and it
    fails exactly on a GOAWAY, on the end or reset of its own stream, or on a polling
    error. *)
Theorem established_poll (h : Handler) (evs : list H3Event) (fin : PollEnd) (s : H3Session) :
  connect_accepted s = true ->
  exists r out, poll_h3_events h evs fin s [] = Ret (r, s, out) /\
    (is_ok r = false <-> existsb (fatal s) evs = true \/ exists e, fin = PollError e) /\
    (existsb (fatal s) evs = false -> out = shutdowns evs).
Proof.
  intros Ha. enough (forall out0, exists r out, poll_h3_events h evs fin s out0 = Ret (r, s, out) /\
    (is_ok r = false <-> existsb (fatal s) evs = true \/ exists e, fin = PollError e) /\
    (existsb (fatal s) evs = false -> out = out0 ++ shutdowns evs)) as Hg by apply (Hg []).
  induction evs as [| e evs IH]; intros out0; cbn [poll_h3_events existsb].
  - eexists _, out0. split; [done |]. unfold shutdowns. cbn. rewrite app_nil_r.
    destruct fin; cbn; naive_solver.
  - destruct e as [sid hs | sid | sid code | sid | sid | sid]; cbn [fatal]; rewrite ?Ha.
    + destruct (IH (out0 ++ [ShutdownRead sid])) as (r & out & Hp & Hr & Ho). exists r, out.
      split_and!; try done. intros He. rewrite (Ho He), <- app_assoc. done.
    + case_decide; [rewrite bool_decide_true by done | rewrite bool_decide_false by done; apply IH].
      eexists _, _. split; [done |]. cbn. naive_solver.
    + case_decide; [rewrite bool_decide_true by done | rewrite bool_decide_false by done; apply IH].
      eexists _, _. split; [done |]. cbn. naive_solver.
    + eexists _, _. split; [done |]. cbn. naive_solver.
    + apply IH.
    + apply IH.
Qed.
End facts.

(** ** Concrete sessions *)

Definition new_session : H3Session :=
  {| connect_stream_id := None;
     datagram_codec := {| expected_qsi := 0; qsi_buf := [0; 0; 0; 0; 0; 0; 0; 0]; qsi_len := 1 |};
     connect_accepted := false; accepted_peer_id := None |}.

Definition sample_request : list Header :=
  connect_headers (lit "h") (lit "/") (bearer_auth_header (lit "bob-token-22")).

Lemma server_session_authenticated_witness :
  exists s' out,
    poll_all (L := Rfc9000.lib) (server_handler (H := PlainMac.lib) tt sample_tokens (fun _ => Ok tt))
      [([Headers 8 []], PollDone true); ([Headers 4 sample_request], PollDone true)] new_session []
    = Ret (Ok Ready, s', out) /\
    exists pid, accepted_peer_id s' = Some pid.
Proof.
  destruct (server_session_authenticated (L := Rfc9000.lib) (H := PlainMac.lib) tt sample_tokens
    (fun _ => Ok tt) [([Headers 8 []], PollDone true); ([Headers 4 sample_request], PollDone true)]
    new_session) as (r & s' & out & Hp & Hr).
  - by vm_compute.
  - repeat constructor; unfold u64_max; lia.
  - assert (r = Ok Ready) as -> by (vm_compute in Hp; congruence).
    exists s', out. split; [exact Hp |].
    destruct (Hr eq_refl) as (sid & hs & pid & _ & _ & _ & _ & Hpid & _). exists pid. exact Hpid.
Defined.

Lemma client_session_accepted_witness :
  exists s s' out,
    bind_connect_stream (L := Rfc9000.lib) new_session 0 = Ret s /\
    poll_all (L := Rfc9000.lib) (client_handler (Some 0)) [([Headers 0 [status_header "200"]], PollDone true)] s []
    = Ret (Ok Ready, s', out) /\ connect_stream_id s' = Some 0.
Proof.
  eexists. destruct (client_session_accepted (L := Rfc9000.lib) 0
    [([Headers 0 [status_header "200"]], PollDone true)] new_session
    {| connect_stream_id := Some 0; datagram_codec := datagram_codec new_session;
       connect_accepted := false; accepted_peer_id := None |}) as (r & s' & out & Hp & Hs & _).
  - unfold u64_max. lia.
  - by vm_compute.
  - by vm_compute.
  - repeat constructor; unfold u64_max; lia.
  - assert (r = Ok Ready) as -> by (vm_compute in Hp; congruence).
    exists s', out. split; [| split; [exact Hp | exact Hs]]. by vm_compute.
Defined.

Definition bound_session : H3Session :=
  {| connect_stream_id := Some 0; datagram_codec := datagram_codec new_session;
     connect_accepted := true; accepted_peer_id := None |}.

Lemma established_poll_witness :
  exists r, poll_h3_events (L := Rfc9000.lib) ignore_handler [Headers 4 []; Finished 4] (PollDone true)
    bound_session [] = Ret (r, bound_session, [ShutdownRead 4]).
Proof.
  destruct (established_poll (L := Rfc9000.lib) ignore_handler [Headers 4 []; Finished 4] (PollDone true)
    bound_session eq_refl) as (r & out & Hp & _ & Ho).
  exists r. rewrite Hp. rewrite Ho; [done | by vm_compute].
Defined.
