(* ===== verification/Udp.v ===== *)
(** * UDP I/O actors

    Models [src/src/udp.rs]: the segmentation of a batch into [sendmsg] calls with
    one segment size each (GSO), the splitting of a received buffer (GRO), the
    classification of send errors; and [retry_on_transient!] of
    [src/src/helpers.rs].  The socket is the operating system's: [attempts] gives
    the results of the successive attempts to send a transmission. *)

From S2P Require Import Prelude Net Packet.
#[local] Open Scope Z_scope.

(** ** I/O errors *)

Inductive ErrorKind : Type :=
| Interrupted | WouldBlock
| ConnectionRefused | ConnectionReset | ConnectionAborted | HostUnreachable
| NetworkUnreachable | NetworkDown | AddrNotAvailable | InvalidInput | TimedOut
| OtherKind.

Record IoError : Type := { err_kind : ErrorKind; raw_os_error : option Z }.

#[export] Instance ErrorKind_eq_dec : EqDecision ErrorKind.
Proof. solve_decision. Defined.

(** Linux values of the errno constants the code names. *)
Definition EMSGSIZE : Z := 90.
Definition ENOBUFS : Z := 105.
Definition EIO : Z := 5.

(** [is_non_fatal_send_error], on Unix. *)
Definition is_non_fatal_send_error (e : IoError) (used_gso : bool) : bool :=
  let non_fatal_kind :=
    match err_kind e with
    | ConnectionRefused | ConnectionReset | ConnectionAborted | HostUnreachable
    | NetworkUnreachable | NetworkDown | AddrNotAvailable | InvalidInput | TimedOut => true
    | Interrupted | WouldBlock | OtherKind => false
    end in
  non_fatal_kind ||
  bool_decide (raw_os_error e = Some EMSGSIZE \/ raw_os_error e = Some ENOBUFS) ||
  (used_gso && bool_decide (raw_os_error e = Some EIO)).

(** [retry_on_transient!]: the result of the first attempt that is not transient,
    and whether an attempt would have blocked before.  [None]: all the attempts given
    were transient. *)
Fixpoint retry_on_transient {A} (attempts : list (result A IoError)) (blocked : bool) :
    option (result A IoError * bool) :=
  match attempts with
  | [] => None
  | Ok v :: _ => Some (Ok v, blocked)
  | Err e :: attempts' =>
      if decide (err_kind e = Interrupted) then retry_on_transient attempts' blocked
      else if decide (err_kind e = WouldBlock) then retry_on_transient attempts' true
      else Some (Err e, blocked)
  end.

(** ** Sending *)

Record Transmit : Type := { destination : SocketAddr; contents : list Z; segment_size : nat }.

(** The largest UDP payload of one [sendmsg]. *)
Definition max_udp_payload_for (dest : SocketAddr) : nat :=
  if is_ipv4 (sa_ip dest) then 65507 else 65527.

(** The inner [while]: consecutive packets of the segment size, at most [max_run]. *)
Fixpoint accumulate (seg max_run : nat) (packets : list packet) (gso_buf : list Z) :
    list Z * list packet :=
  match packets with
  | p :: packets' =>
      if decide (length p = seg /\ (length gso_buf / seg < max_run)%nat)
      then accumulate seg max_run packets' (gso_buf ++ p)
      else (gso_buf, packets)
  | [] => (gso_buf, [])
  end.

(** One iteration of the outer [while]: the transmission and the packets left.  An
    empty packet makes the division by its size panic. *)
Definition next_transmit (dest : SocketAddr) (max_segs : nat) (packets : list packet) :
    outcome (option (Transmit * list packet)) :=
  match packets with
  | [] => mret None
  | first :: _ =>
    let seg := length first in
    if decide (seg = 0%nat) then Panic else
    let max_segs_run := Nat.max (Nat.min max_segs (max_udp_payload_for dest / seg)) 1 in
    let '(gso_buf, rest) := accumulate seg max_segs_run packets [] in
    mret (Some ({| destination := dest; contents := gso_buf; segment_size := seg |}, rest))
  end.

(** An attempt to send: waiting for writability failed, or what [try_io] returned. *)
Inductive SendAttempt : Type :=
| NotWritable (e : IoError)
| Tried (r : result unit IoError).

(** The socket: the segment limit quinn-udp reports now, and the successive attempts to
    send a transmission. *)
Class UdpSocket : Type := {
  usock : Type;
  max_gso_segments : usock -> nat;
  attempts : usock -> Transmit -> list SendAttempt * usock;
}.

(** The attempts under [retry_on_transient!]: the [?] on the wait leaves the actor, the
    outer [Err]; a transient result is tried again.  [None]: all were transient. *)
Fixpoint send_retrying (atts : list SendAttempt) : option (result (result unit IoError) IoError) :=
  match atts with
  | [] => None
  | NotWritable e :: _ => Some (Err e)
  | Tried r :: atts =>
      match retry_on_transient [r] false with
      | Some (r, _) => Some (Ok r)
      | None => send_retrying atts
      end
  end.

Inductive BatchEnd : Type :=
| Sent                          (* the whole batch was sent *)
| DroppedRest (e : IoError)     (* a non-fatal failure: the rest is dropped *)
| Fatal (e : IoError)           (* the actor returns the error of the send *)
| WaitFailed (e : IoError)      (* the actor returns the error of the wait *)
| Blocked.                      (* a send never completed *)

Section send.
Context {U : UdpSocket}.

(** The loop over a batch: the transmissions sent, and how it ended. *)
Fixpoint send_batch (fuel : nat) (enable_offload : bool) (dest : SocketAddr) (packets : list packet)
    (s : usock) : outcome (list Transmit * BatchEnd * usock) :=
  match fuel with
  | O => mret ([], Sent, s)
  | S fuel' =>
    let max_segs := if enable_offload then max_gso_segments s else 1%nat in
    nt ← next_transmit dest max_segs packets;
    match nt with
    | None => mret ([], Sent, s)
    | Some (t, rest) =>
      let '(atts, s) := attempts s t in
      match send_retrying atts with
      | None => mret ([], Blocked, s)
      | Some (Err e) => mret ([], WaitFailed e, s)
      | Some (Ok (Err e)) =>
          let used_gso := bool_decide (segment_size t < length (contents t))%nat in
          if is_non_fatal_send_error e used_gso then mret ([], DroppedRest e, s)
          else mret ([], Fatal e, s)
      | Some (Ok (Ok _)) =>
          r ← send_batch fuel' enable_offload dest rest s;
          let '(sent, fin, s) := r in
          mret (t :: sent, fin, s)
      end
    end
  end.

(** A batch from the channel: every iteration takes a packet, so its length bounds
    the iterations. *)
Definition udp_tx_batch (enable_offload : bool) (dest : SocketAddr) (packets : list packet) (s : usock) :
    outcome (list Transmit * BatchEnd * usock) :=
  send_batch (length packets) enable_offload dest packets s.
End send.

(** ** Receiving *)

(** [slice.chunks(n)]: pieces of [n] bytes, the last one possibly shorter. *)
Fixpoint chunks_fuel (fuel n : nat) (l : list Z) : list (list Z) :=
  match fuel, l with
  | _, [] => []
  | O, _ => []
  | S fuel', _ => take n l :: chunks_fuel fuel' n (drop n l)
  end.
Definition chunks (n : nat) (l : list Z) : outcome (list (list Z)) :=
  if decide (n = 0%nat) then Panic else mret (chunks_fuel (length l) n l).

(** [quinn_udp::RecvMeta]. *)
Record RecvMeta : Type := { meta_addr : SocketAddr; meta_len : nat; meta_stride : nat }.

Inductive RxAction : Type :=
| RxBreak
| RxOutput (remote : SocketAddr) (batch : list packet)
| RxFatal (e : IoError).

(** One iteration of the receive loop: [r] is what [try_io] returned, the buffer holds
    [buf]. *)
Definition udp_rx_step (r : result Z IoError) (meta : RecvMeta) (buf : list Z) : outcome RxAction :=
  match r with
  | Ok n =>
    if decide (n = 0) then mret RxBreak
    else if decide (meta_len meta = 0%nat) then mret RxBreak
    else
      let stride := Nat.min (meta_stride meta) (meta_len meta) in
      data ← slice buf 0 (meta_len meta);
      batch ← chunks stride data;
      mret (RxOutput (meta_addr meta) batch)
  | Err e =>
    if decide (err_kind e = WouldBlock) then mret RxBreak
    else if decide (err_kind e = Interrupted) then mret RxBreak
    else mret (RxFatal e)
  end.

(** ** Lemmas *)

(** The packets a transmission puts on the wire. *)
Definition segments (t : Transmit) : list packet :=
  chunks_fuel (length (contents t)) (segment_size t) (contents t).

Lemma chunks_fuel_nil fuel n : chunks_fuel fuel n [] = [].
Proof. by destruct fuel. Qed.

(** Enough fuel: more does not change the result. *)
Lemma chunks_fuel_enough fuel fuel' n l :
  (0 < n)%nat -> (length l <= fuel)%nat -> (length l <= fuel')%nat ->
  chunks_fuel fuel n l = chunks_fuel fuel' n l.
Proof.
  intros Hn. revert fuel' l. induction fuel as [| fuel IH]; intros [| fuel'] [| x l] Hf Hf';
    cbn [length] in *; try done; try lia.
  cbn [chunks_fuel]. f_equal. apply IH; rewrite length_drop; cbn [length]; lia.
Qed.

Lemma chunks_fuel_app n p l fuel :
  (0 < n)%nat -> length p = n -> (length (p ++ l) <= fuel)%nat ->
  chunks_fuel fuel n (p ++ l) = p :: chunks_fuel (length l) n l.
Proof.
  intros Hn Hp Hf. rewrite length_app in Hf. destruct fuel as [| fuel]; [lia |].
  destruct p as [| x p]; [cbn in Hp; lia |]. cbn [app chunks_fuel].
  rewrite app_comm_cons, take_app_length', drop_app_length' by done. f_equal.
  apply chunks_fuel_enough; lia.
Qed.

(** Cutting concatenated packets of one size gives the packets back. *)
Lemma chunks_concat n ps fuel :
  (0 < n)%nat -> Forall (fun p => length p = n) ps -> (length (concat ps) <= fuel)%nat ->
  chunks_fuel fuel n (concat ps) = ps.
Proof.
  intros Hn Hps. revert fuel. induction Hps as [| p ps Hp Hps IH]; intros fuel Hf; [apply chunks_fuel_nil |].
  cbn [concat] in *. rewrite chunks_fuel_app by done. f_equal. by apply IH.
Qed.

Lemma length_concat_uniform n (ps : list packet) :
  Forall (fun p => length p = n) ps -> length (concat ps) = (length ps * n)%nat.
Proof. induction 1 as [| p ps Hp _ IH]; cbn; [done |]. rewrite length_app, Hp, IH. done. Qed.

(** What [accumulate] takes: a run of packets of the segment size. *)
Lemma accumulate_spec seg max_run packets taken :
  (0 < seg)%nat -> Forall (fun p => length p = seg) taken ->
  exists run, accumulate seg max_run packets (concat taken) =
      (concat (taken ++ run), drop (length run) packets) /\
    run = take (length run) packets /\ Forall (fun p => length p = seg) run /\
    (length taken + length run <= Nat.max max_run (length taken))%nat.
Proof.
  intros Hseg. revert taken. induction packets as [| p packets IH]; intros taken Ht; cbn [accumulate].
  { exists []. rewrite app_nil_r. split_and!; try done. cbn; lia. }
  case_decide as Hd.
  - destruct Hd as [Hp Hlt]. rewrite (length_concat_uniform seg), Nat.div_mul in Hlt by (done || lia).
    destruct (IH (taken ++ [p])) as (run & Hacc & Hrun & Hf & Hle); [apply Forall_app; split; [done | by constructor] |].
    rewrite concat_app in Hacc. cbn [concat] in Hacc. rewrite app_nil_r in Hacc.
    exists (p :: run). rewrite Hacc, <- app_assoc. cbn [app length drop take].
    split_and!; [done | by f_equal | by constructor |]. rewrite length_app in Hle. cbn in Hle. lia.
  - exists []. rewrite app_nil_r. split_and!; try done. cbn; lia.
Qed.

(** A run starts with the first packet. *)
Lemma accumulate_first seg max_run p packets :
  length p = seg -> (0 < seg)%nat -> (1 <= max_run)%nat ->
  accumulate seg max_run (p :: packets) [] = accumulate seg max_run packets p.
Proof.
  intros Hp Hs Hm. cbn [accumulate length]. rewrite Nat.Div0.div_0_l, decide_True by lia. done.
Qed.

(** A transmission is within the limits: one segment, or at most the segments and the
    bytes one [sendmsg] may carry. *)
Definition transmit_ok (max_segs : nat) (t : Transmit) : Prop :=
  (0 < segment_size t)%nat /\ contents t <> [] /\
  Forall (fun p => length p = segment_size t) (segments t) /\
  (length (segments t) = 1%nat \/
   (length (segments t) <= max_segs)%nat /\
   (length (contents t) <= max_udp_payload_for (destination t))%nat).

Lemma next_transmit_spec dest max_segs first packets :
  Forall (fun p => p <> []) (first :: packets) ->
  exists t rest, next_transmit dest max_segs (first :: packets) = Ret (Some (t, rest)) /\
    destination t = dest /\ first :: packets = segments t ++ rest /\ segments t <> [] /\
    transmit_ok max_segs t.
Proof.
  intros [Hne _]%Forall_cons. unfold next_transmit. set (seg := length first).
  assert (0 < seg)%nat as Hseg by (unfold seg; destruct first; [done | cbn; lia]).
  rewrite decide_False by lia. set (mr := Nat.max _ 1).
  rewrite accumulate_first by lia.
  destruct (accumulate_spec seg mr packets [first]) as (run & Hacc & Hrun & Hf & Hle);
    [done | by repeat constructor |].
  cbn [concat] in Hacc. rewrite app_nil_r in Hacc. rewrite Hacc. eexists _, _. split; [done |].
  assert (Forall (fun p => length p = seg) ([first] ++ run)) as Hall by (by constructor).
  assert (segments {| destination := dest; contents := concat ([first] ++ run); segment_size := seg |}
    = [first] ++ run) as Hsg by (unfold segments; cbn [contents segment_size]; by apply chunks_concat).
  unfold transmit_ok. rewrite Hsg. cbn [destination contents segment_size]. split_and!; try done.
  - cbn [app]. f_equal. rewrite Hrun at 1. by rewrite take_drop.
  - cbn. destruct first; [done |]. done.
  - rewrite (length_concat_uniform seg) by done. cbn [length app] in *.
    destruct run as [| q run]; [by left | right].
    assert (max_udp_payload_for dest / seg * seg <= max_udp_payload_for dest)%nat as Hd
      by (rewrite Nat.mul_comm; apply Nat.Div0.mul_div_le).
    cbn [length] in *. unfold mr in Hle. split; [lia |].
    etrans; [| exact Hd]. apply Nat.mul_le_mono_r. cbn [length]. lia.
Qed.

Section facts.
Context {U : UdpSocket}.

Lemma send_batch_spec fuel enable dest packets s K :
  (forall s, max_gso_segments s <= K)%nat -> (1 <= K)%nat ->
  (length packets <= fuel)%nat -> Forall (fun p => p <> []) packets ->
  exists ts fin s' rest, send_batch fuel enable dest packets s = Ret (ts, fin, s') /\
    packets = (ts ≫= segments) ++ rest /\ (fin = Sent -> rest = []) /\
    Forall (fun t => destination t = dest /\ transmit_ok K t /\
                     (enable = false -> length (segments t) = 1%nat)) ts.
Proof.
  intros HK HK1. revert packets s. induction fuel as [| fuel IH]; intros packets s Hf Hne.
  { destruct packets; [| cbn in Hf; lia]. exists [], Sent, s, []. by split_and!. }
  cbn [send_batch]. destruct packets as [| first packets].
  { exists [], Sent, s, []. by split_and!. }
  set (ms := if enable then max_gso_segments s else 1%nat).
  destruct (next_transmit_spec dest ms first packets Hne) as (t & rest & -> & Hd & Hsp & Hsn & Hok).
  cbn [mbind outcome_bind]. destruct (attempts s t) as [atts s1].
  assert (forall fin, fin <> Sent -> exists ts fin' s' rest, Ret ([], fin, s1) = Ret (ts, fin', s') /\
    first :: packets = (ts ≫= segments) ++ rest /\ (fin' = Sent -> rest = []) /\
    Forall (fun t => destination t = dest /\ transmit_ok K t /\
                     (enable = false -> length (segments t) = 1%nat)) ts) as Hstop.
  { intros fin Hfin. exists [], fin, s1, (first :: packets). by split_and!. }
  destruct (send_retrying atts) as [[[u | e] | e] |]; [| destruct (is_non_fatal_send_error _ _);
    by apply Hstop | by apply Hstop | by apply Hstop].
  destruct (IH rest s1) as (ts & fin & s' & rest' & Hs & Hr & Hfin & Hall).
  { apply (f_equal length) in Hsp. rewrite length_app in Hsp. destruct (segments t); [done |].
    cbn in *. lia. }
  { rewrite Hsp in Hne. by apply Forall_app in Hne as [_ Hne]. }
  rewrite Hs. cbn [mbind outcome_bind]. exists (t :: ts), fin, s', rest'. split; [done |].
  rewrite bind_cons, <- app_assoc, <- Hr. split_and!; [done | done |]. constructor; [| done].
  assert (ms <= K)%nat as Hms by (unfold ms; destruct enable; [apply HK | done]).
  destruct Hok as (H1 & H2 & H3 & H4). split_and!; try done.
  - split_and!; try done. destruct H4 as [H4 | [H4 H5]]; [by left | right]. split; [lia | done].
  - intros ->. destruct H4 as [H4 | [H4 _]]; [done |]. unfold ms in H4.
    destruct (segments t) as [| ? []]; [done | done | cbn in H4; lia].
Qed.

(** ** Properties *)

(** Segmentation loses nothing and respects the limits.  For a batch of non-empty
    packets the send loop terminates without a panic; the segments of the
    transmissions it sent, in order, are exactly a prefix of the batch, and the whole
    batch unless a send failed or blocked.  Every transmission has one segment size,
    is for the batch's destination, and carries one segment or at most the segments
    and bytes allowed; without offload it carries one. *)
Theorem udp_tx_batch_segments (K : nat) (enable : bool) (dest : SocketAddr) (packets : list packet) (s : usock) :
  (forall s, max_gso_segments s <= K)%nat -> (1 <= K)%nat -> Forall (fun p => p <> []) packets ->
  exists ts fin s' rest, udp_tx_batch enable dest packets s = Ret (ts, fin, s') /\
    packets = (ts ≫= segments) ++ rest /\ (fin = Sent -> rest = []) /\
    Forall (fun t => destination t = dest /\ transmit_ok K t /\
                     (enable = false -> length (segments t) = 1%nat)) ts.
Proof. intros HK HK1 Hne. by apply send_batch_spec. Qed.
End facts.

Lemma concat_chunks fuel n l : (0 < n)%nat -> (length l <= fuel)%nat -> concat (chunks_fuel fuel n l) = l.
Proof.
  intros Hn. revert l. induction fuel as [| fuel IH]; intros [| x l] Hf; try done; [cbn in Hf; lia |].
  cbn [chunks_fuel concat]. rewrite IH by (rewrite length_drop; cbn [length] in *; lia).
  apply take_drop.
Qed.

Lemma chunks_fuel_sizes fuel n l :
  (0 < n)%nat -> (length l <= fuel)%nat ->
  Forall (fun p => (0 < length p <= n)%nat) (chunks_fuel fuel n l).
Proof.
  intros Hn. revert l. induction fuel as [| fuel IH]; intros [| x l] Hf; cbn [chunks_fuel]; try done.
  constructor; [| apply IH; rewrite length_drop; cbn [length] in *; lia].
  rewrite length_take. cbn [length]. lia.
Qed.

(** Splitting a received buffer is the inverse of coalescing.  With a positive
    stride no byte is lost: the packets of the output, none of them empty or longer
    than the stride, concatenate to the received bytes; and the coalesced contents of
    a transmission come out as exactly its segments. *)
Theorem udp_rx_step_split (n : Z) (meta : RecvMeta) (buf : list Z) :
  n <> 0 -> (0 < meta_len meta <= length buf)%nat -> (0 < meta_stride meta)%nat ->
  exists batch, udp_rx_step (Ok n) meta buf = Ret (RxOutput (meta_addr meta) batch) /\
    concat batch = take (meta_len meta) buf /\
    Forall (fun p => (0 < length p <= meta_stride meta)%nat) batch /\
    (forall ps, buf = concat ps -> meta_len meta = length buf ->
       Forall (fun p => length p = meta_stride meta) ps -> batch = ps).
Proof.
  intros Hn Hl Hs. unfold udp_rx_step. rewrite decide_False, decide_False by lia.
  rewrite slice_Ret by lia. cbn [mbind outcome_bind]. rewrite drop_0, Nat.sub_0_r.
  unfold chunks. rewrite decide_False by lia. cbn [mbind outcome_bind]. eexists. split; [done |].
  set (stride := Nat.min (meta_stride meta) (meta_len meta)).
  assert (0 < stride)%nat as Hst by (unfold stride; lia).
  split_and!.
  - by apply concat_chunks.
  - eapply Forall_impl; [by apply chunks_fuel_sizes |]. cbn. unfold stride. lia.
  - intros ps -> Hlen Hps. rewrite Hlen, firstn_all.
    assert (stride = meta_stride meta) as Hsm.
    { unfold stride. rewrite Hlen, (length_concat_uniform (meta_stride meta)) by done.
      destruct ps; [cbn in *; lia |]. cbn [length]. lia. }
    rewrite Hsm. by apply chunks_concat.
Qed.

(** ** A concrete socket that always sends *)
Module FreeSocket.
#[export] Instance lib : UdpSocket := {|
  usock := nat;
  max_gso_segments _ := 64%nat;
  attempts s _ := ([Tried (Err {| err_kind := WouldBlock; raw_os_error := None |}); Tried (Ok tt)], S s);
|}.
End FreeSocket.

Definition sample_dest : SocketAddr := {| sa_ip := V4 3221225985; sa_port := 6635 |}.

Lemma udp_tx_batch_segments_witness :
  exists ts s', udp_tx_batch (U := FreeSocket.lib) true sample_dest [[1; 2]; [3; 4]; [5]] 0%nat = Ret (ts, Sent, s') /\
    (ts ≫= segments) = [[1; 2]; [3; 4]; [5]].
Proof.
  destruct (udp_tx_batch_segments (U := FreeSocket.lib) 64 true sample_dest [[1; 2]; [3; 4]; [5]] 0%nat)
    as (ts & fin & s' & rest & Hs & Hp & Hf & _).
  - intros. cbn. lia.
  - lia.
  - by repeat constructor.
  - assert (fin = Sent) as -> by (vm_compute in Hs; congruence).
    exists ts, s'. split; [exact Hs |]. rewrite (Hf eq_refl), app_nil_r in Hp. by rewrite Hp.
Defined.

Lemma udp_rx_step_split_witness :
  exists batch, udp_rx_step (Ok 1) {| meta_addr := sample_dest; meta_len := 5; meta_stride := 2 |}
    [1; 2; 3; 4; 5; 0; 0] = Ret (RxOutput sample_dest batch) /\ concat batch = [1; 2; 3; 4; 5].
Proof.
  destruct (udp_rx_step_split 1 {| meta_addr := sample_dest; meta_len := 5; meta_stride := 2 |}
    [1; 2; 3; 4; 5; 0; 0]) as (batch & Hs & Hc & _); [lia | cbn; lia | cbn; lia |].
  exists batch. split; [exact Hs | exact Hc].
Defined.
