(* ===== verification/AddrText.v ===== *)
(** * Textual addresses

    The address parser of [std::net] ([str::parse::<IpAddr>]) and the formatters
    of addresses, which the configuration, the DNS actor and the orchestrator use on
    host names. *)

From S2P Require Import Prelude Net.
#[local] Open Scope Z_scope.

(** A parser: the value and the rest of the input. *)
Definition parser (A : Type) : Type := rstr -> option (A * rstr).

Definition read_given_char (c : Z) : parser unit := fun s =>
  match s with x :: s' => if decide (x = c) then Some (tt, s') else None | [] => None end.

(** [char::to_digit]. *)
Definition to_digit (radix c : Z) : option Z :=
  let d :=
    if decide (48 <= c <= 57) then Some (c - 48)
    else if decide (97 <= c <= 102) then Some (c - 87)
    else if decide (65 <= c <= 70) then Some (c - 55)
    else None in
  d ← d; if decide (d < radix) then Some d else None.

(** [Parser::read_number]: up to [max_digits] digits, more of them fail, as does a
    value above [bound] and, unless allowed, a leading zero. *)
Fixpoint read_digits (radix bound : Z) (max_digits : nat) (acc : Z) (count : nat) (s : rstr) :
    option (Z * nat * rstr) :=
  match s with
  | c :: s' =>
    match to_digit radix c with
    | Some d =>
      match max_digits with
      | O => None
      | S m => if decide (acc * radix + d <= bound)
               then read_digits radix bound m (acc * radix + d) (S count) s' else None
      end
    | None => Some (acc, count, s)
    end
  | [] => Some (acc, count, [])
  end.

Definition read_number (radix bound : Z) (max_digits : nat) (allow_zero_prefix : bool) : parser Z :=
  fun s =>
    r ← read_digits radix bound max_digits 0 0 s;
    let '(v, count, rest) := r in
    if decide (count = 0%nat) then None
    else if negb allow_zero_prefix && bool_decide (head s = Some 48) && bool_decide (1 < count)%nat
    then None else Some (v, rest).

(** [Parser::read_separator]. *)
Definition read_separator {A} (sep : Z) (first : bool) (inner : parser A) : parser A := fun s =>
  if first then inner s else r ← read_given_char sep s; inner r.2.

(** [Parser::read_ipv4_addr]. *)
Definition read_octet (first : bool) : parser Z := read_separator 46 first (read_number 10 255 3 false).

Definition read_ipv4_addr : parser Z := fun s =>
  a ← read_octet true s;
  b ← read_octet false a.2;
  c ← read_octet false b.2;
  d ← read_octet false c.2;
  Some (be_bytes [a.1; b.1; c.1; d.1], d.2).

(** [read_groups]: at most [limit] groups, the last two possibly an IPv4 address.
    The groups, whether they end in one, and the rest. *)
Fixpoint read_groups (limit : nat) (first : bool) (s : rstr) : list Z * bool * rstr :=
  match limit with
  | O => ([], false, s)
  | S limit' =>
    let v4 := if decide (1 <= limit')%nat then read_separator 58 first read_ipv4_addr s else None in
    match v4 with
    | Some (a, rest) => ([a / 65536; a mod 65536], true, rest)
    | None =>
      match read_separator 58 first (read_number 16 65535 4 true) s with
      | Some (g, rest) =>
          let '(gs, v4, rest) := read_groups limit' false rest in (g :: gs, v4, rest)
      | None => ([], false, s)
      end
    end
  end.

Definition groups_value (gs : list Z) : Z := foldl (fun acc g => acc * 65536 + g) 0 gs.

(** [Parser::read_ipv6_addr]. *)
Definition read_ipv6_addr : parser Z := fun s =>
  let '(hd, hd4, rest) := read_groups 8 true s in
  if decide (length hd = 8%nat) then Some (groups_value hd, rest)
  else if hd4 : bool then None
  else
    r1 ← read_given_char 58 rest;
    r2 ← read_given_char 58 r1.2;
    let '(tl, _, rest) := read_groups (8 - (length hd + 1)) true r2.2 in
    Some (groups_value (hd ++ replicate (8 - length hd - length tl) 0 ++ tl), rest).

(** [s.parse::<IpAddr>().ok()]: the whole input must be an address. *)
Definition parse_ip (s : rstr) : option IpAddr :=
  match read_ipv4_addr s with
  | Some (a, rest) => if decide (rest = []) then Some (V4 a) else None
  | None =>
    match read_ipv6_addr s with
    | Some (a, rest) => if decide (rest = []) then Some (V6 a) else None
    | None => None
    end
  end.

(** [Ipv4Addr]'s [Display]. *)
Definition display_v4 (a : Z) : rstr :=
  dec (a / 16777216) ++ lit "." ++ dec (a / 65536 mod 256) ++ lit "." ++
  dec (a / 256 mod 256) ++ lit "." ++ dec (a mod 256).

(** Lower-case hexadecimal without leading zeros ([{:x}]) of a 16-bit number. *)
Definition hex_digit (d : Z) : Z := if decide (d < 10) then 48 + d else 87 + d.
Definition hex16 (n : Z) : rstr :=
  let ds := [n / 4096; n / 256 mod 16; n / 16 mod 16; n mod 16] in
  match drop_while (fun d => d =? 0) ds with [] => lit "0" | ds => hex_digit <$> ds end.

(** The eight segments of an IPv6 address. *)
Definition segments16 (a : Z) : list Z :=
  (fun i => a / 2 ^ (16 * (7 - Z.of_nat i)) mod 65536) <$> seq 0 8.

(** The first longest run of zero segments: its start and length. *)
Fixpoint zero_runs (segs : list Z) (i : nat) (longest current : nat * nat) : nat * nat :=
  match segs with
  | [] => longest
  | seg :: segs' =>
      if decide (seg = 0) then
        let current := (if decide (current.2 = 0%nat) then i else current.1, S current.2) in
        zero_runs segs' (S i) (if decide (longest.2 < current.2)%nat then current else longest) current
      else zero_runs segs' (S i) longest (0%nat, 0%nat)
  end.

(** Segments separated by colons. *)
Fixpoint fmt_subslice (chunk : list Z) : rstr :=
  match chunk with
  | [] => []
  | [seg] => hex16 seg
  | seg :: chunk' => hex16 seg ++ lit ":" ++ fmt_subslice chunk'
  end.

(** [Ipv6Addr]'s [Display]. *)
Definition display_v6 (a : Z) : rstr :=
  let segs := segments16 a in
  if decide (a / 2 ^ 32 = 65535) then lit "::ffff:" ++ display_v4 (a mod 2 ^ 32) else
  let '(start, len) := zero_runs segs 0 (0%nat, 0%nat) (0%nat, 0%nat) in
  if decide (1 < len)%nat then fmt_subslice (take start segs) ++ lit "::" ++ fmt_subslice (drop (start + len) segs)
  else fmt_subslice segs.

(** [SocketAddr]'s [Display]; the scope of an IPv6 address is 0. *)
Definition display_socket_addr (addr : SocketAddr) : rstr :=
  match sa_ip addr with
  | V4 a => display_v4 a ++ lit ":" ++ dec (sa_port addr)
  | V6 a => lit "[" ++ display_v6 a ++ lit "]:" ++ dec (sa_port addr)
  end.

(** ** Lemmas *)

(** An address starts with a hexadecimal digit or a colon. *)
Lemma parse_ip_bracket s : parse_ip (lit "[" ++ s) = None.
Proof. done. Qed.

(** The octets 0 to 255 print as up to three digits that read back. *)
Definition octet_reads (n : Z) : bool :=
  match dec n with
  | [a] => bool_decide (48 <= a <= 57 /\ a - 48 = n)
  | [a; b] => bool_decide (49 <= a <= 57 /\ 48 <= b <= 57 /\ (a - 48) * 10 + (b - 48) = n)
  | [a; b; c] => bool_decide (49 <= a <= 57 /\ 48 <= b <= 57 /\ 48 <= c <= 57 /\
                   ((a - 48) * 10 + (b - 48)) * 10 + (c - 48) = n)
  | _ => false
  end.

Lemma octets_read : forallb (fun i => octet_reads (Z.of_nat i)) (seq 0 256) = true.
Proof. by vm_compute. Qed.

Lemma octet_reads_all n : 0 <= n <= 255 -> octet_reads n = true.
Proof.
  intros Hn. pose proof octets_read as H. rewrite forallb_forall in H.
  specialize (H (Z.to_nat n)). rewrite Z2Nat.id in H by lia. apply H, in_seq. lia.
Qed.

Definition not_digit (s : rstr) : Prop :=
  match s with [] => True | c :: _ => to_digit 10 c = None end.

Lemma to_digit_10 c : 48 <= c <= 57 -> to_digit 10 c = Some (c - 48).
Proof.
  intros H. unfold to_digit. rewrite decide_True by lia. cbn. by rewrite decide_True by lia.
Qed.

Lemma read_digits_stop acc count m s :
  not_digit s -> read_digits 10 255 m acc count s = Some (acc, count, s).
Proof. destruct s as [| c s]; [by destruct m |]. cbn. intros H. destruct m; cbn; by rewrite H. Qed.

Lemma read_digits_step m acc count c s :
  48 <= c <= 57 -> acc * 10 + (c - 48) <= 255 ->
  read_digits 10 255 (S m) acc count (c :: s) = read_digits 10 255 m (acc * 10 + (c - 48)) (S count) s.
Proof. intros Hc Hb. cbn [read_digits]. by rewrite to_digit_10, decide_True. Qed.

Lemma read_octet_dec n rest :
  0 <= n <= 255 -> not_digit rest -> read_number 10 255 3 false (dec n ++ rest) = Some (n, rest).
Proof.
  intros Hn Hr. pose proof (octet_reads_all n Hn) as Ho. unfold octet_reads in Ho.
  unfold read_number. destruct (dec n) as [| a [| b [| c [|]]]]; try done; cbn [app];
    apply bool_decide_eq_true in Ho; destruct_and? Ho.
  - rewrite read_digits_step, read_digits_stop by (done || lia).
    cbn. rewrite andb_false_r. f_equal. f_equal. lia.
  - rewrite !read_digits_step, read_digits_stop by (done || lia).
    cbn. rewrite bool_decide_false by (intros [=]; lia). cbn. f_equal. f_equal. lia.
  - rewrite !read_digits_step, read_digits_stop by (done || lia).
    cbn. rewrite bool_decide_false by (intros [=]; lia). cbn. f_equal. f_equal. lia.
Qed.

(** Printing an IPv4 address and parsing it gives it back. *)
Lemma parse_display_v4 a : 0 <= a < 2 ^ 32 -> parse_ip (display_v4 a) = Some (V4 a).
Proof.
  intros Ha. unfold parse_ip, display_v4, read_ipv4_addr, read_octet, read_separator.
  assert (forall x, 0 <= x mod 256 <= 255) as Hm by (intros x; pose proof (Z.mod_pos_bound x 256); lia).
  assert (0 <= a / 16777216 <= 255) as Hq.
  { split; [apply Z.div_pos; lia |]. assert (a / 16777216 < 256); [| lia]. apply Z.div_lt_upper_bound; lia. }
  rewrite read_octet_dec by done. cbn [mbind option_bind snd].
  replace (dec (a mod 256)) with (dec (a mod 256) ++ []) by apply app_nil_r.
  cbn [lit app read_given_char]. rewrite decide_True by done. cbn [mbind option_bind snd].
  rewrite read_octet_dec by done. cbn [mbind option_bind snd read_given_char].
  rewrite decide_True by done. cbn [mbind option_bind snd].
  rewrite read_octet_dec by done. cbn [mbind option_bind snd read_given_char].
  rewrite decide_True by done. cbn [mbind option_bind snd].
  rewrite read_octet_dec by done. cbn [mbind option_bind fst snd]. rewrite decide_True by done.
  do 2 f_equal. unfold be_bytes. cbn [foldl].
  pose proof (Z.div_mod a 256). pose proof (Z.div_mod (a / 256) 256). pose proof (Z.div_mod (a / 65536) 256).
  assert (a / 256 / 256 = a / 65536) as E1 by (rewrite Z.div_div by lia; done).
  assert (a / 65536 / 256 = a / 16777216) as E2 by (rewrite Z.div_div by lia; done).
  rewrite E1, E2 in *. lia.
Qed.

(** Documentation examples of the IPv6 form: compression of the first longest run, the
    unspecified and loopback addresses, IPv4-mapped addresses. *)
Lemma display_v6_examples :
  display_v6 0 = lit "::" /\ display_v6 1 = lit "::1" /\
  display_v6 (65535 * 2 ^ 32 + 3221225985) = lit "::ffff:192.0.2.1" /\
  display_v6 (groups_value [8193; 3512; 0; 0; 1; 0; 0; 1]) = lit "2001:db8::1:0:0:1" /\
  display_v6 (groups_value [8193; 3512; 0; 1; 1; 1; 1; 1]) = lit "2001:db8:0:1:1:1:1:1".
Proof. by vm_compute. Qed.

(** ** IPv6 text *)

(** [s] does not start with a hexadecimal digit. *)
Definition not_hex (s : rstr) : Prop := match s with [] => True | c :: _ => to_digit 16 c = None end.

Lemma hex_digit_reads d : 0 <= d < 16 -> to_digit 16 (hex_digit d) = Some d.
Proof.
  intros Hd. unfold to_digit, hex_digit. destruct (decide (d < 10)).
  - rewrite decide_True by lia. cbn. rewrite decide_True by lia. f_equal. lia.
  - rewrite decide_False, decide_True by lia. cbn. rewrite decide_True by lia. f_equal. lia.
Qed.

Lemma read_hex_stop acc count m s : not_hex s -> read_digits 16 65535 m acc count s = Some (acc, count, s).
Proof. destruct s as [| c s]; [by destruct m |]. cbn. intros H. destruct m; cbn; by rewrite H. Qed.

(** A sequence of nibbles is read as their value. *)
Lemma read_hex_digits ds m acc count s :
  Forall (fun d => 0 <= d < 16) ds -> (length ds <= m)%nat -> 0 <= acc -> not_hex s ->
  foldl (fun acc d => acc * 16 + d) acc ds <= 65535 ->
  read_digits 16 65535 m acc count ((hex_digit <$> ds) ++ s) =
  Some (foldl (fun acc d => acc * 16 + d) acc ds, (count + length ds)%nat, s).
Proof.
  intros Hds. revert m acc count. induction Hds as [| d ds Hd Hds IH]; intros m acc count Hm Ha Hs Hb.
  - cbn. rewrite read_hex_stop by done. by rewrite Nat.add_0_r.
  - destruct m as [| m]; [cbn in Hm; lia |]. cbn [fmap list_fmap app read_digits foldl] in *. rewrite hex_digit_reads by done.
    assert (forall l x, 0 <= x -> Forall (fun d => 0 <= d < 16) l -> x <= foldl (fun acc d => acc * 16 + d) x l) as Hge.
    { clear. intros l. induction l as [| y l IH]; intros x Hx Hl; cbn; [lia |]. apply Forall_cons in Hl as [Hy Hl].
      etrans; [| apply IH; [lia | done]]. lia. }
    rewrite decide_True by (etrans; [apply Hge; [| exact Hds]; lia | exact Hb]).
    rewrite IH by (cbn in Hm; lia || done). do 3 f_equal. cbn [length]. lia.
Qed.

#[local] Ltac nibbles := split; [done |]; split; [repeat (constructor; [lia |]); constructor | cbn; lia].

(** The nibbles of a segment, without leading zeros. *)
Lemma hex16_nibbles g : 0 <= g < 65536 ->
  exists ds, hex16 g = hex_digit <$> ds /\ Forall (fun d => 0 <= d < 16) ds /\ (1 <= length ds <= 4)%nat /\
    foldl (fun acc d => acc * 16 + d) 0 ds = g.
Proof.
  intros Hg. unfold hex16.
  assert (0 <= g / 4096 < 16) as H3 by (split; [apply Z.div_pos; lia | apply Z.div_lt_upper_bound; lia]).
  assert (forall x, 0 <= x mod 16 < 16) as Hm by (intros x; apply Z.mod_pos_bound; lia).
  assert (Hv : ((g / 4096 * 16 + g / 256 mod 16) * 16 + g / 16 mod 16) * 16 + g mod 16 = g).
  { pose proof (Z.div_mod g 16). pose proof (Z.div_mod (g / 16) 16). pose proof (Z.div_mod (g / 256) 16).
    rewrite !Z.div_div in * by lia. change (16 * 16) with 256 in *. change (256 * 16) with 4096 in *. lia. }
  set (n3 := g / 4096) in *. set (n2 := g / 256 mod 16) in *. set (n1 := g / 16 mod 16) in *. set (n0 := g mod 16) in *.
  assert (0 <= n2 < 16 /\ 0 <= n1 < 16 /\ 0 <= n0 < 16) as (H2 & H1 & H0) by (subst n2 n1 n0; auto).
  cbn [drop_while]. clearbody n3 n2 n1 n0.
  destruct (n3 =? 0) eqn:E3; bool_to_prop; [| exists [n3; n2; n1; n0]; nibbles].
  destruct (n2 =? 0) eqn:E2; bool_to_prop; [| exists [n2; n1; n0]; nibbles].
  destruct (n1 =? 0) eqn:E1; bool_to_prop; [| exists [n1; n0]; nibbles].
  destruct (n0 =? 0) eqn:E0; bool_to_prop; [| exists [n0]; nibbles].
  exists [0]. nibbles.
Qed.

Lemma read_hex16 g s : 0 <= g < 65536 -> not_hex s -> read_number 16 65535 4 true (hex16 g ++ s) = Some (g, s).
Proof.
  intros Hg Hs. destruct (hex16_nibbles g Hg) as (ds & -> & Hds & Hl & Hv). unfold read_number.
  rewrite read_hex_digits by (done || lia). rewrite Hv. cbn [mbind option_bind].
  rewrite decide_False by lia. done.
Qed.

(** The digits read are a prefix of the input. *)
Lemma read_digits_suffix radix bound m acc count s v n rest :
  read_digits radix bound m acc count s = Some (v, n, rest) -> exists p, s = p ++ rest.
Proof.
  revert m acc count. induction s as [| c s IH]; intros m acc count H.
  - exists []. cbn [app]. destruct m; cbn in H; congruence.
  - assert (Hstop : read_digits radix bound m acc count (c :: s) = Some (acc, count, c :: s) -> exists p, c :: s = p ++ rest)
      by (intros H'; exists []; cbn; congruence).
    destruct m as [| m]; cbn [read_digits] in H, Hstop; destruct (to_digit radix c); try done; [by apply Hstop | | by apply Hstop].
    case_decide; [| done]. destruct (IH _ _ _ H) as [p ->]. by exists (c :: p).
Qed.

(** Without a dot there is no IPv4 address. *)
Lemma read_ipv4_no_dot s : 46 ∉ s -> read_ipv4_addr s = None.
Proof.
  intros Hs. unfold read_ipv4_addr. change (read_octet true s) with (read_number 10 255 3 false s).
  destruct (read_number 10 255 3 false s) as [[v rest] |] eqn:E; [| done]. cbn [mbind option_bind snd].
  unfold read_number in E. destruct (read_digits 10 255 3 0 0 s) as [[[v' n] rest'] |] eqn:Er; [| done]. cbn in E.
  apply read_digits_suffix in Er as [p ->]. assert (rest' = rest) as -> by (destruct (decide _); [done |]; destruct (_ && _); congruence).
  unfold read_octet, read_separator. destruct rest as [| c rest]; [done |]. cbn [read_given_char].
  rewrite decide_False; [done |]. intros ->. set_solver.
Qed.

(** The text of a list of segments has no dot, and what follows a segment is a colon. *)
Lemma hex16_no_dot g : 0 <= g < 65536 -> 46 ∉ hex16 g.
Proof.
  intros Hg. destruct (hex16_nibbles g Hg) as (ds & -> & Hds & _). intros (d & Heq & Hd)%list_elem_of_fmap.
  rewrite Forall_forall in Hds. specialize (Hds d Hd). unfold hex_digit in Heq. case_decide; lia.
Qed.

Definition segs_ok (gs : list Z) : Prop := Forall (fun g => 0 <= g < 65536) gs.

Lemma fmt_subslice_no_dot gs : segs_ok gs -> 46 ∉ fmt_subslice gs.
Proof.
  induction 1 as [| g gs Hg Hgs IH]; [set_solver |]. pose proof (hex16_no_dot g Hg) as Hn.
  destruct gs as [| g' gs]; [exact Hn |]. cbn [fmt_subslice]. intros [? | [Hc | ?]%elem_of_app]%elem_of_app; [done | | done].
  apply list_elem_of_singleton in Hc. by vm_compute in Hc.
Qed.

(** The text after the first segment. *)
Definition fmt_tail (gs : list Z) : rstr := gs ≫= fun g => lit ":" ++ hex16 g.

Lemma fmt_subslice_cons g gs : fmt_subslice (g :: gs) = hex16 g ++ fmt_tail gs.
Proof.
  revert g. induction gs as [| g' gs IH]; intros g; [cbn; by rewrite app_nil_r |].
  change (fmt_subslice (g :: g' :: gs)) with (hex16 g ++ lit ":" ++ fmt_subslice (g' :: gs)). rewrite IH.
  unfold fmt_tail. cbn [mbind list_bind]. by rewrite <- app_assoc.
Qed.

(** What ends a list of segments: the end, or a colon that no segment follows. *)
Definition group_end (s : rstr) : Prop := s = [] \/ exists s', s = 58 :: 58 :: s'.

Lemma group_end_not_hex gs s : group_end s -> not_hex (fmt_tail gs ++ s).
Proof. intros Hs. destruct gs as [| g gs]; [destruct Hs as [-> | [s' ->]]; done | done]. Qed.

Lemma read_groups_end limit s : group_end s -> read_groups limit false s = ([], false, s).
Proof.
  intros Hs. destruct limit as [| limit]; [done |]. cbn [read_groups].
  destruct (decide (1 <= limit)%nat); destruct Hs as [-> | [s' ->]]; reflexivity.
Qed.

Lemma read_group limit first g s :
  0 <= g < 65536 -> not_hex s -> 46 ∉ s ->
  read_groups (S limit) first ((if first then [] else lit ":") ++ hex16 g ++ s) =
  let '(gs, v4, rest) := read_groups limit false s in (g :: gs, v4, rest).
Proof.
  intros Hg Hs Hd. cbn [read_groups].
  assert (H4 : read_ipv4_addr (hex16 g ++ s) = None)
    by (apply read_ipv4_no_dot; pose proof (hex16_no_dot g Hg); set_solver).
  assert (Hsep : forall A (inner : parser A), read_separator 58 first inner ((if first then [] else lit ":") ++ hex16 g ++ s) = inner (hex16 g ++ s))
    by (intros A inner; by destruct first).
  rewrite !Hsep, H4, read_hex16 by done. by destruct (decide _).
Qed.

Lemma read_groups_tail gs limit s :
  segs_ok gs -> (length gs <= limit)%nat -> group_end s -> 46 ∉ s ->
  read_groups limit false (fmt_tail gs ++ s) = (gs, false, s).
Proof.
  intros Hgs Hl He Hs. revert limit Hl. induction Hgs as [| g gs Hg Hgs IH]; intros limit Hl.
  - by apply read_groups_end.
  - destruct limit as [| limit]; [cbn in Hl; lia |].
    assert (Hnd : 46 ∉ fmt_tail gs ++ s).
    { intros [Hin | ?]%elem_of_app; [| done]. apply list_elem_of_bind in Hin as (g' & Hin & Hg').
      apply elem_of_app in Hin as [Hin%list_elem_of_singleton | Hin]; [by vm_compute in Hin |].
      unfold segs_ok in Hgs. rewrite Forall_forall in Hgs. by apply (hex16_no_dot g' (Hgs g' Hg')). }
    unfold fmt_tail. cbn [mbind list_bind]. rewrite <- !app_assoc. fold (fmt_tail gs).
    rewrite (read_group limit false g (fmt_tail gs ++ s)) by (done || by apply group_end_not_hex).
    rewrite IH by (cbn in Hl; lia). done.
Qed.

Lemma read_groups_fmt gs limit s :
  segs_ok gs -> (length gs <= limit)%nat -> group_end s -> 46 ∉ s ->
  read_groups limit true (fmt_subslice gs ++ s) = (gs, false, s).
Proof.
  intros Hgs Hl He Hs. destruct gs as [| g gs].
  - cbn [fmt_subslice app]. destruct limit as [| limit]; [done |]. cbn [read_groups read_separator].
    rewrite read_ipv4_no_dot by done. destruct He as [-> | [s' ->]]; by destruct (decide _).
  - destruct limit as [| limit]; [cbn in Hl; lia |]. apply Forall_cons in Hgs as [Hg Hgs].
    rewrite fmt_subslice_cons, <- app_assoc.
    assert (46 ∉ fmt_tail gs ++ s) as Hnd.
    { pose proof (fmt_subslice_no_dot (g :: gs)) as Hf. rewrite fmt_subslice_cons in Hf.
      specialize (Hf ltac:(by constructor)). set_solver. }
    pose proof (read_group limit true g (fmt_tail gs ++ s) Hg (group_end_not_hex gs s He) Hnd) as Hr. cbn [app] in Hr. rewrite Hr.
    rewrite read_groups_tail by (done || cbn in Hl; lia). done.
Qed.

(** The segments of an address. *)
Lemma segments16_ok a : segs_ok (segments16 a) /\ length (segments16 a) = 8%nat.
Proof.
  split; [| done]. unfold segs_ok, segments16. apply Forall_fmap, Forall_forall. intros i _. cbn. apply Z.mod_pos_bound. lia.
Qed.

Lemma groups_value_segments a : 0 <= a < 2 ^ 128 -> groups_value (segments16 a) = a.
Proof.
  intros Ha.
  assert (Hq : forall k, 0 <= k -> a / 2 ^ (16 * (k + 1)) * 65536 + a / 2 ^ (16 * k) mod 65536 = a / 2 ^ (16 * k)).
  { intros k Hk. rewrite (Z.div_mod (a / 2 ^ (16 * k)) 65536) at 2 by lia. rewrite Z.div_div by (try apply Z.pow_pos_nonneg; lia).
    replace (2 ^ (16 * (k + 1))) with (2 ^ (16 * k) * 65536); [lia |].
    replace (16 * (k + 1)) with (16 * k + 16) by lia. by rewrite Z.pow_add_r by lia. }
  assert (Q7 : a / 2 ^ 128 * 65536 + a / 2 ^ 112 mod 65536 = a / 2 ^ 112) by (apply (Hq 7); lia).
  assert (Q6 : a / 2 ^ 112 * 65536 + a / 2 ^ 96 mod 65536 = a / 2 ^ 96) by (apply (Hq 6); lia).
  assert (Q5 : a / 2 ^ 96 * 65536 + a / 2 ^ 80 mod 65536 = a / 2 ^ 80) by (apply (Hq 5); lia).
  assert (Q4 : a / 2 ^ 80 * 65536 + a / 2 ^ 64 mod 65536 = a / 2 ^ 64) by (apply (Hq 4); lia).
  assert (Q3 : a / 2 ^ 64 * 65536 + a / 2 ^ 48 mod 65536 = a / 2 ^ 48) by (apply (Hq 3); lia).
  assert (Q2 : a / 2 ^ 48 * 65536 + a / 2 ^ 32 mod 65536 = a / 2 ^ 32) by (apply (Hq 2); lia).
  assert (Q1 : a / 2 ^ 32 * 65536 + a / 2 ^ 16 mod 65536 = a / 2 ^ 16) by (apply (Hq 1); lia).
  assert (Q0 : a / 2 ^ 16 * 65536 + a / 2 ^ 0 mod 65536 = a / 2 ^ 0) by (apply (Hq 0); lia).
  transitivity (((((((((a / 2 ^ 128) * 65536 + a / 2 ^ 112 mod 65536) * 65536 + a / 2 ^ 96 mod 65536) * 65536 + a / 2 ^ 80 mod 65536) * 65536 + a / 2 ^ 64 mod 65536) * 65536 + a / 2 ^ 48 mod 65536) * 65536 + a / 2 ^ 32 mod 65536) * 65536 + a / 2 ^ 16 mod 65536) * 65536 + a / 2 ^ 0 mod 65536).
  - rewrite (Z.div_small a (2 ^ 128)) by exact Ha. reflexivity.
  - rewrite Q7, Q6, Q5, Q4, Q3, Q2, Q1, Q0. apply Z.div_1_r.
Qed.

(** A run of zero segments. *)
Definition run_ok (l : list Z) (r : nat * nat) : Prop :=
  r.2 = 0%nat \/ (r.1 + r.2 <= length l)%nat /\ forall j, (r.1 <= j < r.1 + r.2)%nat -> l !! j = Some 0.

Lemma run_ok_app l k r : run_ok l r -> run_ok (l ++ k) r.
Proof.
  intros [? | [Hl Hz]]; [by left |]. right. rewrite length_app. split; [lia |]. intros j Hj.
  by apply lookup_app_l_Some, Hz.
Qed.

Lemma zero_runs_ok segs pre longest current :
  run_ok pre longest -> run_ok pre current -> (current.2 = 0 \/ current.1 + current.2 = length pre)%nat ->
  run_ok (pre ++ segs) (zero_runs segs (length pre) longest current).
Proof.
  revert pre longest current. induction segs as [| seg segs IH]; intros pre longest current Hl Hc Hend.
  - cbn. by rewrite app_nil_r.
  - cbn [zero_runs]. replace (pre ++ seg :: segs) with ((pre ++ [seg]) ++ segs) by by rewrite <- app_assoc.
    assert (Hlen : S (length pre) = length (pre ++ [seg])) by (rewrite length_app; cbn; lia). rewrite Hlen.
    case_decide as Hs; [| by apply IH; [apply run_ok_app | left | left]]. cbv zeta.
    set (cur := (_, S current.2)).
    assert (Hcur : run_ok (pre ++ [seg]) cur /\ (cur.1 + cur.2 = length (pre ++ [seg]))%nat).
    { subst seg cur. rewrite <- Hlen. cbn [fst snd]. case_decide as H0.
      - rewrite H0. split; [| lia]. right. rewrite <- Hlen. cbn. split; [lia |]. intros j Hj.
        assert (j = length pre) as -> by lia. by rewrite lookup_app_r, Nat.sub_diag by lia.
      - destruct Hend as [? | Hend]; [done |]. destruct Hc as [? | [Hc1 Hc2]]; [done |]. split; [| lia]. right.
        rewrite <- Hlen. cbn. split; [lia |]. intros j Hj. destruct (decide (j < length pre)%nat).
        + apply lookup_app_l_Some, Hc2. lia.
        + assert (j = length pre) as -> by lia. by rewrite lookup_app_r, Nat.sub_diag by lia. }
    apply IH; [| apply Hcur | right; apply Hcur]. case_decide; [apply Hcur | by apply run_ok_app].
Qed.

Lemma zero_run_split segs start len :
  zero_runs segs 0 (0%nat, 0%nat) (0%nat, 0%nat) = (start, len) -> (0 < len)%nat ->
  (start + len <= length segs)%nat /\ segs = take start segs ++ replicate len 0 ++ drop (start + len) segs.
Proof.
  intros Hz Hlen. pose proof (zero_runs_ok segs [] (0%nat, 0%nat) (0%nat, 0%nat)) as H. cbn [app length] in H. rewrite Hz in H.
  destruct H as [H | [Hle Hzero]]; [by left | by left | by left | cbn in H; lia |]. cbn in Hle, Hzero. split; [done |].
  rewrite <- (take_drop start segs) at 1. f_equal. rewrite <- (take_drop len (drop start segs)), drop_drop. f_equal.
  apply list_eq. intros j. destruct (decide (j < len)%nat).
  - rewrite lookup_take_lt, lookup_drop, lookup_replicate_2, Hzero by lia. done.
  - rewrite lookup_take_ge by lia. symmetry. apply lookup_replicate_None. lia.
Qed.

Lemma read_display_v4 x : 0 <= x < 2 ^ 32 -> read_ipv4_addr (display_v4 x) = Some (x, []).
Proof.
  intros Hx. pose proof (parse_display_v4 x Hx) as Hp. unfold parse_ip in Hp.
  destruct (read_ipv4_addr (display_v4 x)) as [[v rest] |].
  - case_decide; congruence.
  - destruct (read_ipv6_addr (display_v4 x)) as [[v rest] |]; [case_decide; congruence | done].
Qed.

(** IPv4-mapped addresses. *)
Lemma read_mapped x : 0 <= x < 2 ^ 32 -> parse_ip (lit "::ffff:" ++ display_v4 x) = Some (V6 (65535 * 2 ^ 32 + x)).
Proof.
  intros Hx. unfold parse_ip. change (read_ipv4_addr (lit "::ffff:" ++ display_v4 x)) with (@None (Z * rstr)).
  assert (Hg : read_groups 7 true (lit "ffff:" ++ display_v4 x) = ([65535; x / 65536; x mod 65536], true, [])).
  { transitivity (let '(gs, v4, rest) := read_groups 6 false (lit ":" ++ display_v4 x) in (65535 :: gs, v4, rest)); [reflexivity |].
    cbn [read_groups]. rewrite decide_True by lia.
    change (read_separator 58 false read_ipv4_addr (lit ":" ++ display_v4 x)) with (read_ipv4_addr (display_v4 x)).
    by rewrite read_display_v4. }
  assert (H6 : read_ipv6_addr (lit "::ffff:" ++ display_v4 x) =
    let '(tl, _, rest) := read_groups 7 true (lit "ffff:" ++ display_v4 x) in
    Some (groups_value ([] ++ replicate (8 - 0 - length tl) 0 ++ tl), rest)) by reflexivity.
  rewrite H6, Hg. rewrite decide_True by done. do 2 f_equal. unfold groups_value. cbn [length Nat.sub replicate app foldl].
  pose proof (Z.div_mod x 65536). lia.
Qed.

Lemma read_ipv6_compressed hd tl k :
  segs_ok hd -> segs_ok tl -> (length hd + k + length tl = 8)%nat -> (1 < k)%nat ->
  read_ipv6_addr (fmt_subslice hd ++ lit "::" ++ fmt_subslice tl) = Some (groups_value (hd ++ replicate k 0 ++ tl), []).
Proof.
  intros Hh Ht Hl Hk. unfold read_ipv6_addr.
  assert (Hnd : 46 ∉ lit "::" ++ fmt_subslice tl).
  { pose proof (fmt_subslice_no_dot tl Ht). cbn. set_solver by lia. }
  rewrite read_groups_fmt; [| done | lia | right; by eexists | done]. rewrite decide_False by lia.
  change (lit "::" ++ fmt_subslice tl) with (58 :: 58 :: fmt_subslice tl). cbn [read_given_char]. rewrite !decide_True by done.
  cbn [mbind option_bind snd read_given_char]. rewrite decide_True by done. cbn [mbind option_bind snd].
  rewrite <- (app_nil_r (fmt_subslice tl)). rewrite read_groups_fmt; [| done | lia | by left | set_solver].
  by replace (8 - length hd - length tl)%nat with k by lia.
Qed.

(** Printing an IPv6 address and parsing it gives it back. *)
Lemma parse_display_v6 a : 0 <= a < 2 ^ 128 -> parse_ip (display_v6 a) = Some (V6 a).
Proof.
  intros Ha. destruct (segments16_ok a) as [Hok Hlen]. pose proof (groups_value_segments a Ha) as Hv. unfold display_v6.
  case_decide as Hm.
  { rewrite read_mapped by (apply Z.mod_pos_bound; lia). do 2 f_equal. pose proof (Z.div_mod a (2 ^ 32)). lia. }
  set (segs := segments16 a) in *. clearbody segs.
  destruct (zero_runs segs 0 (0%nat, 0%nat) (0%nat, 0%nat)) as [start len] eqn:Hz. case_decide as Hl.
  - destruct (zero_run_split segs start len Hz) as [Hle Hsplit]; [lia |].
    assert (Hh : segs_ok (take start segs)) by by apply Forall_take.
    assert (Ht : segs_ok (drop (start + len) segs)) by by apply Forall_drop.
    unfold parse_ip. rewrite read_ipv4_no_dot.
    2: { pose proof (fmt_subslice_no_dot _ Hh). pose proof (fmt_subslice_no_dot _ Ht). cbn. set_solver by lia. }
    rewrite (read_ipv6_compressed _ _ len Hh Ht) by (rewrite ?length_take, ?length_drop; lia).
    rewrite decide_True, <- Hsplit, Hv by done. done.
  - unfold parse_ip. rewrite read_ipv4_no_dot by by apply fmt_subslice_no_dot. unfold read_ipv6_addr.
    rewrite <- (app_nil_r (fmt_subslice segs)), read_groups_fmt; [| done | lia | by left | set_solver].
    rewrite decide_True, Hv by done. by rewrite decide_True.
Qed.

(** The text after the last [c]. *)
Lemma split_last_inj (c : Z) l1 r1 l2 r2 : c ∉ r1 -> c ∉ r2 -> l1 ++ c :: r1 = l2 ++ c :: r2 -> l1 = l2 /\ r1 = r2.
Proof.
  revert l2. induction l1 as [| x l1 IH]; intros [| y l2] H1 H2; cbn.
  - by intros [= ->].
  - intros [= -> ->]. set_solver.
  - intros [= -> <-]. set_solver.
  - intros [= -> Heq]. destruct (IH l2 H1 H2 Heq) as [-> ->]. done.
Qed.

Definition addr_wf (addr : SocketAddr) : Prop := ip_wf (sa_ip addr) /\ 0 <= sa_port addr.

(** Two socket addresses with the same text are the same. *)
Lemma display_socket_addr_inj a b : addr_wf a -> addr_wf b -> display_socket_addr a = display_socket_addr b -> a = b.
Proof.
  assert (Hcol : forall p, 0 <= p -> 58 ∉ dec p).
  { intros p Hp Hin. pose proof (dec_digits p Hp) as Hd. rewrite Forall_forall in Hd. specialize (Hd _ Hin). lia. }
  assert (Hform : forall x, addr_wf x -> exists host, display_socket_addr x = host ++ 58 :: dec (sa_port x) /\
    match sa_ip x with V4 v => host = display_v4 v | V6 v => host = lit "[" ++ display_v6 v ++ lit "]" end).
  { intros [[v | v] p] _; unfold display_socket_addr; cbn [sa_ip sa_port]; eexists; (split; [| reflexivity]); [done |].
    by rewrite <- !app_assoc. }
  intros Ha Hb Heq. destruct (Hform a Ha) as (ha & Ea & Fa), (Hform b Hb) as (hb & Eb & Fb).
  rewrite Ea, Eb in Heq. destruct Ha as [Ha1 Ha2], Hb as [Hb1 Hb2].
  apply split_last_inj in Heq as [Hh Hp%dec_inj]; [| by apply Hcol ..]. clear Ea Eb.
  destruct a as [[x | x] p], b as [[y | y] q]; cbn [sa_ip sa_port ip_wf ip_bits ip_width] in *;
    rewrite Fa, Fb in Hh; f_equal; try exact Hp.
  - pose proof (parse_display_v4 x Ha1) as Hx. rewrite Hh, parse_display_v4 in Hx by done. congruence.
  - pose proof (parse_display_v4 x Ha1) as Hx. by rewrite Hh, parse_ip_bracket in Hx.
  - pose proof (parse_display_v4 y Hb1) as Hx. by rewrite <- Hh, parse_ip_bracket in Hx.
  - apply app_inv_head, app_inv_tail in Hh. pose proof (parse_display_v6 x Ha1) as Hx.
    rewrite Hh, parse_display_v6 in Hx by done. congruence.
Qed.
