(* ===== verification/Uri.v ===== *)
(** * Endpoint URIs

    Models the URI part of [src/src/config.rs]: [parse_endpoint_uri], the four parsers
    built on it and the formatters of [impl_uri_serde!] and [serialize_dns_server].  URIs
    are parsed by the [url] crate (class [UrlLib]); [UrlLaws] says what the URL standard
    documents for the three schemes used: default ports are dropped, and the parts of a
    parsed URL, written out again, parse to the same parts.  [SimpleUrl] is a concrete instance. *)

From S2P Require Import Prelude Net Config AddrText.
#[local] Open Scope Z_scope.

(** [url::Url]. *)
Class UrlLib : Type := {
  Url : Type;
  url_parse : rstr -> result Url rstr;
  url_scheme : Url -> rstr;
  url_username : Url -> rstr;
  url_password : Url -> option rstr;
  url_host_str : Url -> option rstr;
  url_port : Url -> option Z;
  url_path : Url -> rstr;
  url_query : Url -> option rstr;
  url_fragment : Url -> option rstr;
}.

(** The schemes the code uses: two special ones of the URL standard, and one that is
    not. *)
Definition used_scheme (scheme : rstr) : Prop :=
  scheme = lit "http" \/ scheme = lit "https" \/ scheme = lit "udp".

(** The default port of a scheme, for the schemes used. *)
Definition default_port (scheme : rstr) : option Z :=
  if decide (scheme = lit "http") then Some 80
  else if decide (scheme = lit "https") then Some 443 else None.

Definition drop_default (scheme : rstr) (port : option Z) : option Z :=
  if decide (port = default_port scheme) then None else port.

(** The port part of an authority. *)
Definition port_suffix (port : option Z) : rstr :=
  match port with Some p => lit ":" ++ dec p | None => [] end.

(** A path that comes back as [path']: unchanged, or empty, which the schemes with a
    default port, the special ones, turn into the root. *)
Definition path_reads (scheme path path' : rstr) : Prop :=
  path' = path \/ path = [] /\ path' = match default_port scheme with Some _ => lit "/" | None => [] end.

Class UrlLaws (L : UrlLib) : Prop := {
  url_port_law raw u : url_parse raw = Ok u -> used_scheme (url_scheme u) ->
    url_port u = drop_default (url_scheme u) (url_port u) /\
    forall p, url_port u = Some p -> 0 <= p <= u16_max;
  url_rebuild_law raw u host port path :
    url_parse raw = Ok u -> used_scheme (url_scheme u) -> url_host_str u = Some host -> host <> [] ->
    path = url_path u \/ path = [] -> (forall p, port = Some p -> 0 <= p <= u16_max) ->
    exists u', url_parse (url_scheme u ++ lit "://" ++ host ++ port_suffix port ++ path) = Ok u' /\
      url_scheme u' = url_scheme u /\ url_username u' = [] /\ url_password u' = None /\
      url_host_str u' = Some host /\ url_port u' = drop_default (url_scheme u) port /\
      path_reads (url_scheme u) path (url_path u') /\ (path = url_path u -> url_path u' = path) /\
      url_query u' = None /\ url_fragment u' = None;
}.

Section uri.
Context {L : UrlLib}.

Definition parse_endpoint_uri (raw expected_scheme : rstr) : result (rstr * option Z * rstr) rstr :=
  match url_parse raw with
  | Err e => Err e
  | Ok url =>
      if decide (url_scheme url <> expected_scheme) then Err (lit "scheme must be " ++ expected_scheme) else
      if decide (url_username url <> [] \/ is_Some (url_password url)) then Err (lit "userinfo is not supported") else
      match h ← url_host_str url; if decide (h = []) then None else Some h with
      | None => Err (lit "host is required")
      | Some host =>
          let path := url_path url in
          if decide (is_Some (url_query url) \/ is_Some (url_fragment url))
          then Err (lit "query and fragment are not supported")
          else Ok (host, url_port url, path)
      end
  end.

Definition parse_dns_server_uri (raw : rstr) : result SocketAddr rstr :=
  match parse_endpoint_uri raw (lit "udp") with
  | Err e => Err e
  | Ok (host, port, path) =>
      match port with
      | None => Err (lit "port is required (e.g., udp://1.1.1.1:53)")
      | Some port =>
          if decide (path <> lit "/" /\ path <> []) then Err (lit "path must be empty") else
          let host_stripped := default host (s ← strip_prefix (lit "[") host; strip_suffix (lit "]") s) in
          match parse_ip host_stripped with
          | None => Err (lit "host must be an IP literal")
          | Some ip => Ok {| sa_ip := ip; sa_port := port |}
          end
      end
  end.

Definition parse_h3_uri (raw : rstr) : result H3Endpoint rstr :=
  match parse_endpoint_uri raw (lit "https") with
  | Err e => Err e
  | Ok (host, port, path) => Ok {| h3_host := host; h3_port := default 443 port; h3_path := path |}
  end.

Definition parse_api_uri (raw : rstr) : result ApiEndpoint rstr :=
  match parse_endpoint_uri raw (lit "http") with
  | Err e => Err e
  | Ok (host, port, path) => Ok {| api_host := host; api_port := default 9090 port; api_path := path |}
  end.

Definition parse_udp_uri (raw : rstr) : result UdpEndpoint rstr :=
  match parse_endpoint_uri raw (lit "udp") with
  | Err e => Err e
  | Ok (host, port, path) =>
      match port with
      | None => Err (lit "port is required (e.g., udp://host:6635)")
      | Some port =>
          if decide (path <> lit "/" /\ path <> []) then Err (lit "path must be empty")
          else Ok {| udp_host := host; udp_port := port |}
      end
  end.
End uri.

(** The serializers. *)
Definition format_udp (ep : UdpEndpoint) : rstr := lit "udp://" ++ udp_host ep ++ lit ":" ++ dec (udp_port ep).

Definition format_h3 (ep : H3Endpoint) : rstr :=
  if decide (h3_port ep = 443) then lit "https://" ++ h3_host ep ++ h3_path ep
  else lit "https://" ++ h3_host ep ++ lit ":" ++ dec (h3_port ep) ++ h3_path ep.

Definition format_api (ep : ApiEndpoint) : rstr :=
  lit "http://" ++ api_host ep ++ lit ":" ++ dec (api_port ep) ++ api_path ep.

Definition serialize_dns_server (addr : SocketAddr) : rstr := lit "udp://" ++ display_socket_addr addr.

(** ** A concrete instance: the URIs scheme://host[:port][/path] of the three schemes. *)
Fixpoint span {A} (f : A -> bool) (l : list A) : list A * list A :=
  match l with
  | [] => ([], [])
  | x :: l' => if f x then let '(a, b) := span f l' in (x :: a, b) else ([], l)
  end.

Module SimpleUrl.
Record url : Type := { scheme : rstr; host : rstr; port : option Z; path : rstr }.

Definition schemes : list rstr := [lit "http"; lit "https"; lit "udp"].

(** Neither a colon, a slash, a question mark, a number sign nor an at sign. *)
Definition host_char (c : Z) : bool := negb (bool_decide (c ∈ lit ":/?#@")).
Definition path_char (c : Z) : bool := negb (bool_decide (c ∈ lit "?#")).

Definition digits_value (s : rstr) : Z := foldl (fun n c => 10 * n + (c - 48)) 0 s.

(** The port written [s], without leading zeros. *)
Definition read_port (s : rstr) : option Z :=
  let p := digits_value s in if decide (0 <= p <= u16_max /\ dec p = s) then Some p else None.

Definition read_path (sch p : rstr) : option rstr :=
  if decide (p = []) then Some (match default_port sch with Some _ => lit "/" | None => [] end)
  else if bool_decide (head p = Some 47) && forallb path_char p then Some p else None.

Definition parse_rest (sch rest : rstr) : option url :=
  let '(h, rest) := span host_char rest in
  if decide (h = []) then None else
  match strip_prefix (lit ":") rest with
  | Some rest =>
      let '(digits, rest) := span (fun c => negb (c =? 47)) rest in
      p ← read_port digits; q ← read_path sch rest;
      Some {| scheme := sch; host := h; port := drop_default sch (Some p); path := q |}
  | None => q ← read_path sch rest; Some {| scheme := sch; host := h; port := None; path := q |}
  end.

Definition parse (raw : rstr) : result url rstr :=
  match omap (fun sch => rest ← strip_prefix (sch ++ lit "://") raw; parse_rest sch rest) schemes with
  | u :: _ => Ok u
  | [] => Err (lit "invalid URL")
  end.

#[export] Instance lib : UrlLib := {|
  Url := url;
  url_parse := parse;
  url_scheme := scheme;
  url_username _ := [];
  url_password _ := None;
  url_host_str u := Some (host u);
  url_port := port;
  url_path := path;
  url_query _ := None;
  url_fragment _ := None;
|}.
End SimpleUrl.

(** ** Lemmas *)

Lemma used_http : used_scheme (lit "http").
Proof. by left. Qed.
Lemma used_https : used_scheme (lit "https").
Proof. right. by left. Qed.
Lemma used_udp : used_scheme (lit "udp").
Proof. right. by right. Qed.

Section facts.
Context {L : UrlLib}.

Lemma parse_endpoint_uri_spec raw scheme host port path :
  parse_endpoint_uri raw scheme = Ok (host, port, path) <->
  exists u, url_parse raw = Ok u /\ url_scheme u = scheme /\ url_username u = [] /\ url_password u = None /\
    url_host_str u = Some host /\ host <> [] /\ url_port u = port /\ url_path u = path /\
    url_query u = None /\ url_fragment u = None.
Proof.
  unfold parse_endpoint_uri. destruct (url_parse raw) as [u | e]; [| naive_solver].
  assert (forall A (o : option A), ~ is_Some o <-> o = None) as Hn by (intros; symmetry; apply eq_None_not_Some).
  split.
  - case_decide as H1; [done |]. case_decide as H2; [done |].
    destruct (url_host_str u) as [h |] eqn:Hh; cbn; [| done]. case_decide as H3; [done |].
    case_decide as H4; [done |]. intros [= -> <- <-]. exists u.
    destruct (decide (url_username u = [])) as [-> | ?]; [| tauto].
    assert (url_password u = None) by (apply Hn; tauto).
    assert (url_query u = None) by (apply Hn; tauto). assert (url_fragment u = None) by (apply Hn; tauto).
    by split_and!.
  - intros (u' & [= <-] & <- & -> & -> & -> & Hne & <- & <- & -> & ->).
    rewrite decide_False by tauto. rewrite decide_False by (intros [? | [? ?]]; done). cbn.
    rewrite decide_False by done. by rewrite decide_False by (intros [[? ?] | [? ?]]; done).
Qed.

Context {U : UrlLaws L}.

(** Writing the parts of a parsed endpoint out and parsing again. *)
Lemma parse_endpoint_rebuild raw scheme host port path port' path' :
  used_scheme scheme ->
  parse_endpoint_uri raw scheme = Ok (host, port, path) -> path' = path \/ path' = [] ->
  (forall p, port' = Some p -> 0 <= p <= u16_max) ->
  exists path2, parse_endpoint_uri (scheme ++ lit "://" ++ host ++ port_suffix port' ++ path') scheme =
      Ok (host, drop_default scheme port', path2) /\
    (path' = path -> path2 = path) /\ path_reads scheme path' path2.
Proof.
  intros Hsch (u & Hu & <- & _ & _ & Hh & Hne & <- & <- & _)%parse_endpoint_uri_spec Hp Hr.
  destruct (url_rebuild_law _ _ _ port' path' Hu Hsch Hh Hne Hp Hr)
    as (u' & Hu' & Hs & Hun & Hpw & Hh' & Hpo & Hpa & Hsame & Hq & Hf).
  exists (url_path u'). split; [| split; [by intros ->; apply Hsame | done]].
  apply parse_endpoint_uri_spec. by exists u'.
Qed.

Lemma parse_endpoint_port raw scheme host port path :
  used_scheme scheme -> parse_endpoint_uri raw scheme = Ok (host, port, path) ->
  drop_default scheme port = port /\ forall p, port = Some p -> 0 <= p <= u16_max.
Proof.
  intros Hsch (u & Hu & <- & _ & _ & _ & _ & <- & _)%parse_endpoint_uri_spec.
  destruct (url_port_law _ _ Hu Hsch) as [Hd Hr]. by split.
Qed.

(** ** Properties *)

(** C39: endpoints survive the configuration file.  Every HTTP/3, UDP or API endpoint
    read from a URI is read back from the URI it is written as; only an API port 80,
    which is the default of its scheme, is read as 9090 when it is given explicitly. *)
Theorem endpoint_uri_roundtrip raw :
  (forall ep, parse_h3_uri raw = Ok ep -> parse_h3_uri (format_h3 ep) = Ok ep) /\
  (forall ep, parse_udp_uri raw = Ok ep -> parse_udp_uri (format_udp ep) = Ok ep) /\
  (forall ep, parse_api_uri raw = Ok ep -> parse_api_uri (format_api ep) = Ok ep /\
     parse_api_uri (format_api {| api_host := api_host ep; api_port := 80; api_path := api_path ep |}) =
     Ok {| api_host := api_host ep; api_port := 9090; api_path := api_path ep |}).
Proof.
  split_and!; intros ep.
  - unfold parse_h3_uri at 1. destruct (parse_endpoint_uri raw (lit "https")) as [[[h p] q] | e] eqn:He; [| done].
    intros [= <-]. destruct (parse_endpoint_port _ _ _ _ _ used_https He) as [Hd Hr].
    destruct (parse_endpoint_rebuild _ _ _ _ _ p q used_https He (or_introl eq_refl) Hr) as (q2 & H2 & Hq & _).
    rewrite (Hq eq_refl), Hd in H2. unfold format_h3, parse_h3_uri. cbn [h3_host h3_port h3_path].
    assert (default 443 p = 443 <-> p = None) as Hp.
    { destruct p as [p |]; cbn; [| tauto]. unfold drop_default in Hd. case_decide as Hc; [done |].
      split; [| done]. intros ->. by destruct Hc. }
    case_decide as Hc.
    + apply Hp in Hc as ->. change (parse_endpoint_uri (lit "https://" ++ h ++ q) (lit "https") = Ok (h, None, q)) in H2. by rewrite H2.
    + destruct p as [p |]; [| done]. change (default 443 (Some p)) with p.
      change (parse_endpoint_uri (lit "https://" ++ h ++ lit ":" ++ dec p ++ q) (lit "https") = Ok (h, Some p, q)) in H2.
      by rewrite H2.
  - unfold parse_udp_uri at 1. destruct (parse_endpoint_uri raw (lit "udp")) as [[[h p] q] | e] eqn:He; [| done].
    destruct p as [p |]; [| done]. case_decide; [done |]. intros [= <-].
    destruct (parse_endpoint_port _ _ _ _ _ used_udp He) as [Hd Hr].
    destruct (parse_endpoint_rebuild _ _ _ _ _ (Some p) [] used_udp He (or_intror eq_refl) Hr) as (q2 & H2 & _ & Hq).
    rewrite Hd, app_nil_r in H2. unfold format_udp, parse_udp_uri. cbn [udp_host udp_port].
    change (parse_endpoint_uri (lit "udp://" ++ h ++ lit ":" ++ dec p) (lit "udp") = Ok (h, Some p, q2)) in H2.
    rewrite H2. assert (q2 = []) as -> by (destruct Hq as [-> | [_ ->]]; done). done.
  - unfold parse_api_uri at 1. destruct (parse_endpoint_uri raw (lit "http")) as [[[h p] q] | e] eqn:He; [| done].
    intros [= <-]. destruct (parse_endpoint_port _ _ _ _ _ used_http He) as [Hd Hr].
    assert (forall n, 0 <= n <= u16_max -> parse_api_uri (format_api {| api_host := h; api_port := n; api_path := q |}) =
      Ok {| api_host := h; api_port := default 9090 (drop_default (lit "http") (Some n)); api_path := q |}) as Hb.
    { intros n Hn. destruct (parse_endpoint_rebuild _ _ _ _ _ (Some n) q used_http He (or_introl eq_refl)) as (q2 & H2 & Hq & _);
        [by intros ? [= <-] |].
      rewrite (Hq eq_refl) in H2. unfold format_api, parse_api_uri. cbn [api_host api_port api_path].
      change (parse_endpoint_uri (lit "http://" ++ h ++ lit ":" ++ dec n ++ q) (lit "http") =
        Ok (h, drop_default (lit "http") (Some n), q)) in H2. by rewrite H2. }
    cbn [api_host api_port api_path]. split; [| by rewrite Hb].
    rewrite Hb by (destruct p as [p |]; cbn; [by apply Hr | done]).
    destruct p as [p |]; [change (default 9090 (Some p)) with p; by rewrite Hd | done].
Qed.
End facts.

(** ** The instance *)

Lemma span_app {A} (f : A -> bool) l r :
  Forall (fun x => f x = true) l -> match r with [] => True | x :: _ => f x = false end ->
  span f (l ++ r) = (l, r).
Proof.
  intros Hl Hr. induction Hl as [| x l Hx Hl IH]; cbn; [destruct r; cbn; [done | by rewrite Hr] |].
  by rewrite Hx, IH.
Qed.

Lemma span_spec {A} (f : A -> bool) l : Forall (fun x => f x = true) (span f l).1 /\
  l = (span f l).1 ++ (span f l).2 /\ match (span f l).2 with [] => True | x :: _ => f x = false end.
Proof.
  induction l as [| x l (IH1 & IH2 & IH3)]; cbn; [by split_and! |].
  destruct (f x) eqn:Hx; [| by split_and!]. destruct (span f l) as [a b]. cbn in *.
  split_and!; [by constructor | by f_equal | done].
Qed.

Lemma digits_value_from (l : rstr) a :
  foldl (fun n c => 10 * n + (c - 48)) a l = a * 10 ^ zlen l + SimpleUrl.digits_value l.
Proof.
  unfold SimpleUrl.digits_value. revert a. induction l as [| c l IH]; intros a; [cbn [foldl]; change (zlen []) with 0; lia |].
  cbn [foldl]. rewrite IH, (IH (10 * 0 + (c - 48))), zlen_cons.
  rewrite (Z.pow_add_r 10 1 (zlen l)); [ring | lia | apply zlen_nonneg].
Qed.

Lemma pretty_char_value (d : N) : (d < 10)%N -> Z.of_N (Ascii.N_of_ascii (pretty_N_char d)) - 48 = Z.of_N d.
Proof.
  intros Hd. assert (d ∈ (N.of_nat <$> seq 0 10)) as Hin.
  { apply list_elem_of_fmap. exists (N.to_nat d). split; [lia | apply elem_of_seq; lia]. }
  cbn in Hin. repeat (apply elem_of_cons in Hin as [-> | Hin]; [done |]). by apply elem_of_nil in Hin.
Qed.

Lemma pretty_go_value (x : N) (s : string) :
  SimpleUrl.digits_value (lit (pretty_N_go x s)) = Z.of_N x * 10 ^ zlen (lit s) + SimpleUrl.digits_value (lit s).
Proof.
  revert s. induction (N.lt_wf_0 x) as [x _ IH]. intros s. destruct (decide (0 < x)%N) as [Hx | Hx].
  - rewrite pretty_N_go_step by done. rewrite IH by by apply N.div_lt. cbn [lit].
    unfold SimpleUrl.digits_value at 1. cbn [foldl]. rewrite digits_value_from, zlen_cons.
    rewrite Z.pow_add_r by (pose proof (zlen_nonneg (lit s)); lia).
    assert (x mod 10 < 10)%N as Hm by by apply N.mod_lt.
    pose proof (pretty_char_value _ Hm) as Hc. rewrite Z.mul_0_r, Z.add_0_l, Hc.
    rewrite N2Z.inj_div, N2Z.inj_mod. pose proof (Z.div_mod (Z.of_N x) 10). nia.
  - replace x with 0%N by lia. by rewrite pretty_N_go_0.
Qed.

Lemma digits_value_dec p : 0 <= p -> SimpleUrl.digits_value (dec p) = p.
Proof.
  intros Hp. unfold dec. destruct p as [| p | p]; [done | | lia].
  change (pretty (Z.pos p)) with (pretty_N_go (N.pos p) ""). rewrite pretty_go_value.
  change (zlen (lit "")) with 0. change (SimpleUrl.digits_value (lit "")) with 0. lia.
Qed.

Lemma read_port_dec p : 0 <= p <= u16_max -> SimpleUrl.read_port (dec p) = Some p.
Proof. intros Hp. unfold SimpleUrl.read_port. rewrite digits_value_dec by lia. by rewrite decide_True. Qed.

Lemma read_port_range s p : SimpleUrl.read_port s = Some p -> 0 <= p <= u16_max.
Proof. unfold SimpleUrl.read_port. case_decide; naive_solver. Qed.

Lemma dec_no_slash p : 0 <= p <= u16_max -> Forall (fun c => negb (c =? 47) = true) (dec p).
Proof.
  intros Hp. apply (Forall_impl _ _ _ (dec_digits p ltac:(lia))). intros c Hc.
  apply negb_true_iff, Z.eqb_neq. lia.
Qed.

(** What a parsed URI is made of. *)
Definition simple_ok (u : SimpleUrl.url) : Prop :=
  SimpleUrl.scheme u ∈ SimpleUrl.schemes /\ SimpleUrl.host u <> [] /\
  Forall (fun c => SimpleUrl.host_char c = true) (SimpleUrl.host u) /\
  SimpleUrl.port u = drop_default (SimpleUrl.scheme u) (SimpleUrl.port u) /\
  (forall p, SimpleUrl.port u = Some p -> 0 <= p <= u16_max) /\
  SimpleUrl.read_path (SimpleUrl.scheme u) (SimpleUrl.path u) = Some (SimpleUrl.path u) /\
  (SimpleUrl.path u = [] \/ head (SimpleUrl.path u) = Some 47).

Lemma read_path_fix sch p q :
  SimpleUrl.read_path sch p = Some q -> SimpleUrl.read_path sch q = Some q /\ (q = [] \/ head q = Some 47).
Proof.
  unfold SimpleUrl.read_path at 1. case_decide as Hp.
  - intros [= <-]. unfold SimpleUrl.read_path. destruct (default_port sch); [| by split; [| left]].
    split; [by vm_compute | by right].
  - destruct (bool_decide (head p = Some 47) && forallb SimpleUrl.path_char p) eqn:E; [| done]. intros [= <-].
    unfold SimpleUrl.read_path. rewrite decide_False, E by done. split; [done | right].
    apply andb_true_iff in E as [E _]. by apply bool_decide_eq_true in E.
Qed.

Lemma drop_default_idem sch p : drop_default sch (drop_default sch p) = drop_default sch p.
Proof. unfold drop_default. repeat case_decide; congruence. Qed.

Lemma drop_default_None sch : drop_default sch None = None.
Proof. unfold drop_default. by case_decide. Qed.

Lemma parse_rest_ok sch rest u :
  sch ∈ SimpleUrl.schemes -> SimpleUrl.parse_rest sch rest = Some u -> simple_ok u.
Proof.
  intros Hs. unfold SimpleUrl.parse_rest. destruct (span_spec SimpleUrl.host_char rest) as (Hh & _ & _).
  destruct (span SimpleUrl.host_char rest) as [h r]. cbn in Hh. case_decide as Hne; [done |].
  assert (forall r p, (p = drop_default sch p) -> (forall n, p = Some n -> 0 <= n <= u16_max) ->
    (q ← SimpleUrl.read_path sch r; Some {| SimpleUrl.scheme := sch; SimpleUrl.host := h; SimpleUrl.port := p; SimpleUrl.path := q |}) = Some u ->
    simple_ok u) as Hok.
  { intros r0 p Hp Hr H. destruct (SimpleUrl.read_path sch r0) as [q |] eqn:Hq; [| done]. injection H as <-.
    apply read_path_fix in Hq as [Hq1 Hq2]. by split_and!. }
  intros H. assert (forall r p0, SimpleUrl.read_port p0 ≫= (fun p => q ← SimpleUrl.read_path sch r;
    Some {| SimpleUrl.scheme := sch; SimpleUrl.host := h; SimpleUrl.port := drop_default sch (Some p); SimpleUrl.path := q |}) = Some u ->
    simple_ok u) as Hport.
  { intros r0 p0 H0. destruct (SimpleUrl.read_port p0) as [p |] eqn:Hp; [| done]. apply read_port_range in Hp.
    eapply Hok; [symmetry; apply drop_default_idem | | exact H0].
    intros n. unfold drop_default. case_decide; [done |]. by intros [= <-]. }
  destruct (strip_prefix (lit ":") r) as [rest' |].
  - destruct (span _ rest') as [d r2]. by eapply Hport.
  - eapply (Hok r None); [by rewrite drop_default_None | done | done].
Qed.

Lemma parse_rest_build sch host port path path' :
  host <> [] -> Forall (fun c => SimpleUrl.host_char c = true) host ->
  (forall p, port = Some p -> 0 <= p <= u16_max) ->
  SimpleUrl.read_path sch path = Some path' -> path = [] \/ head path = Some 47 ->
  SimpleUrl.parse_rest sch (host ++ port_suffix port ++ path) =
  Some {| SimpleUrl.scheme := sch; SimpleUrl.host := host; SimpleUrl.port := drop_default sch port; SimpleUrl.path := path' |}.
Proof.
  intros Hne Hh Hp Hpath Hslash. unfold SimpleUrl.parse_rest. rewrite span_app; [| done |].
  - rewrite decide_False by done. destruct port as [p |].
    + change (port_suffix (Some p) ++ path) with (lit ":" ++ dec p ++ path). rewrite strip_prefix_app.
      rewrite span_app; [| by apply dec_no_slash, Hp | destruct path; [done |]; destruct Hslash as [| [= ->]]; done].
      rewrite read_port_dec by by apply Hp. cbn [mbind option_bind]. by rewrite Hpath.
    + cbn [port_suffix app]. rewrite drop_default_None.
      assert (strip_prefix (lit ":") path = None) as ->.
      { destruct path as [| c path]; [done |]. destruct Hslash as [| [= ->]]; done. }
      by rewrite Hpath.
  - destruct port as [p |]; [done |]. cbn [port_suffix app]. destruct path as [| c path]; [done |].
    destruct Hslash as [| [= ->]]; done.
Qed.

Lemma simple_parse_ok raw u : SimpleUrl.parse raw = Ok u -> simple_ok u.
Proof.
  unfold SimpleUrl.parse. destruct (omap _ _) as [| u' l] eqn:E; [done |]. intros [= <-].
  assert (u' ∈ omap (fun sch => rest ← strip_prefix (sch ++ lit "://") raw; SimpleUrl.parse_rest sch rest) SimpleUrl.schemes) as H
    by (rewrite E; set_solver).
  apply list_elem_of_omap in H as (sch & Hs & H). destruct (strip_prefix _ raw) as [rest |]; [| done].
  by eapply parse_rest_ok.
Qed.

Lemma simple_parse_scheme sch rest :
  sch ∈ SimpleUrl.schemes ->
  SimpleUrl.parse (sch ++ lit "://" ++ rest) =
  match SimpleUrl.parse_rest sch rest with Some u => Ok u | None => Err (lit "invalid URL") end.
Proof.
  intros Hs. unfold SimpleUrl.parse. rewrite app_assoc.
  assert (omap (fun s => r ← strip_prefix (s ++ lit "://") ((sch ++ lit "://") ++ rest); SimpleUrl.parse_rest s r)
    SimpleUrl.schemes = option_list (SimpleUrl.parse_rest sch rest)) as ->;
    [| by destruct (SimpleUrl.parse_rest sch rest)].
  assert (forall s, s ∈ SimpleUrl.schemes -> strip_prefix (s ++ lit "://") ((sch ++ lit "://") ++ rest) =
    if decide (s = sch) then Some rest else None) as Hstrip.
  { unfold SimpleUrl.schemes in *. intros s Hs'. case_decide as Hd; [subst; apply strip_prefix_app |].
    repeat (apply elem_of_cons in Hs as [-> | Hs]); try (by apply elem_of_nil in Hs);
    repeat (apply elem_of_cons in Hs' as [-> | Hs']); try (by apply elem_of_nil in Hs'); done. }
  unfold SimpleUrl.schemes in *. cbn [omap list_omap]. rewrite !Hstrip by set_solver.
  repeat (apply elem_of_cons in Hs as [-> | Hs]); [| | | by apply elem_of_nil in Hs];
    repeat case_decide; try done; cbn [mbind option_bind]; by destruct (SimpleUrl.parse_rest _ rest).
Qed.

#[export] Instance SimpleUrl_laws : UrlLaws SimpleUrl.lib.
Proof.
  split.
  - intros raw u (_ & _ & _ & Hp & Hr & _)%simple_parse_ok _. by split.
  - intros raw u host port path (Hs & Hne & Hh & _ & _ & Hpath & Hslash)%simple_parse_ok _ [= <-] _ Hp Hr.
    cbn [url_scheme url_path url_parse SimpleUrl.lib] in *.
    assert (exists path', SimpleUrl.read_path (SimpleUrl.scheme u) path = Some path' /\
      path_reads (SimpleUrl.scheme u) path path' /\ (path = SimpleUrl.path u -> path' = path)) as (path' & Hrp & Hpr & Hsame).
    { destruct Hp as [-> | ->]; [exists (SimpleUrl.path u); split_and!; [done | by left | done] |].
      unfold SimpleUrl.read_path. rewrite decide_True by done. eexists. split; [done |]. split; [by right |].
      intros He. rewrite <- He in Hpath. unfold SimpleUrl.read_path in Hpath. rewrite decide_True in Hpath by done. congruence. }
    rewrite simple_parse_scheme, (parse_rest_build _ _ _ _ path') by (done || by destruct Hp as [-> | ->]; auto).
    eexists. split; [done |]. cbn. by split_and!.
Qed.

Lemma endpoint_uri_roundtrip_witness :
  parse_h3_uri (L := SimpleUrl.lib) (lit "https://vpn.example/connect") =
    Ok {| h3_host := lit "vpn.example"; h3_port := 443; h3_path := lit "/connect" |} /\
  parse_h3_uri (L := SimpleUrl.lib)
    (format_h3 {| h3_host := lit "vpn.example"; h3_port := 443; h3_path := lit "/connect" |}) =
    Ok {| h3_host := lit "vpn.example"; h3_port := 443; h3_path := lit "/connect" |}.
Proof.
  assert (Hp : parse_h3_uri (L := SimpleUrl.lib) (lit "https://vpn.example/connect") =
    Ok {| h3_host := lit "vpn.example"; h3_port := 443; h3_path := lit "/connect" |}) by by vm_compute.
  split; [exact Hp |]. destruct (endpoint_uri_roundtrip (L := SimpleUrl.lib) (lit "https://vpn.example/connect")) as [H _].
  exact (H _ Hp).
Defined.
