(* ===== verification/Dns.v ===== *)
(** * DNS resolver actor

    Models [src/src/dns.rs]: the actor's state and every handler, the event loop as
    a step function on the branch taken, and the receive loop of [exchange].  DNS
    messages are the [hickory_proto] crate's; [Message] has the fields the code
    reads.  Time is an argument of every operation that reads the clock.  The choice
    a hash set makes ([extract_if(..).next()]) and the task that finishes first are
    part of the event. *)

From stdpp Require Import countable.
From S2P Require Import Prelude Net Config AddrText.
#[local] Open Scope Z_scope.

Inductive RecordType : Type := A | AAAA | OtherType (code : Z).

#[export] Instance RecordType_eq_dec : EqDecision RecordType.
Proof. solve_decision. Defined.
#[export] Instance RecordType_countable : Countable RecordType.
Proof.
  refine (inj_countable' (fun t => match t with A => inl true | AAAA => inl false | OtherType c => inr c end)
            (fun s => match s with inl true => A | inl false => AAAA | inr c => OtherType c end) _).
  by intros [].
Defined.

Record DnsQuery : Type := { q_hostname : rstr; q_type : RecordType }.

#[export] Instance DnsQuery_eq_dec : EqDecision DnsQuery.
Proof. solve_decision. Defined.
#[export] Instance DnsQuery_countable : Countable DnsQuery.
Proof.
  refine (inj_countable' (fun q => (q_hostname q, q_type q))
            (fun p => {| q_hostname := p.1; q_type := p.2 |}) _).
  by intros [].
Defined.

(** ** hickory_proto *)

Inductive ResponseCode : Type := NoError | NXDomain | Refused | OtherCode (code : Z).

#[export] Instance ResponseCode_eq_dec : EqDecision ResponseCode.
Proof. solve_decision. Defined.

Inductive RData : Type := RA (addr : Z) | RAAAA (addr : Z) | ROther.
Record Answer : Type := { a_type : RecordType; a_data : RData; a_ttl : Z }.

(** A question: [to_ascii()] of its name and its type. *)
Record Question : Type := { qn_ascii : rstr; qn_type : RecordType }.

Record Message : Type := {
  m_id : Z;
  m_code : ResponseCode;
  m_truncation : bool;
  m_queries : list Question;
  m_answers : list Answer;
}.

(** ** State *)

Record HostnameState : Type := { ips : gmap IpAddr Z; next_refresh_at : Z }.

Record DnsActor : Type := {
  dns_tuning : DnsTuning;
  hostnames : gmap rstr HostnameState;
  queued_queries : gset DnsQuery;
  tasks : list DnsQuery;
  pending_queries : gset DnsQuery;
  dirty : bool;
}.

(** [DnsActor::new]. *)
Definition dns_new (t : DnsTuning) : DnsActor :=
  {| dns_tuning := t; hostnames := ∅; queued_queries := ∅; tasks := []; pending_queries := ∅;
     dirty := false |}.

Definition with_hostnames (a : DnsActor) (h : gmap rstr HostnameState) (d : bool) : DnsActor :=
  {| dns_tuning := dns_tuning a; hostnames := h; queued_queries := queued_queries a; tasks := tasks a;
     pending_queries := pending_queries a; dirty := d |}.

Definition with_queries (a : DnsActor) (q : gset DnsQuery) (ts : list DnsQuery) (p : gset DnsQuery) : DnsActor :=
  {| dns_tuning := dns_tuning a; hostnames := hostnames a; queued_queries := q; tasks := ts;
     pending_queries := p; dirty := dirty a |}.

(** [normalize_dns_name], on [name.to_ascii()]. *)
Definition ascii_lowercase (c : Z) : Z := if decide (65 <= c <= 90) then c + 32 else c.
Definition normalize_dns_name (ascii : rstr) : rstr :=
  ascii_lowercase <$> default ascii (strip_suffix (lit ".") ascii).

(** [HostnameState::default]. *)
Definition hostname_default (now : Z) : HostnameState := {| ips := ∅; next_refresh_at := now |}.

(** [set_hostnames]. *)
Definition set_hostnames (now : Z) (hosts : gset rstr) (a : DnsActor) : DnsActor :=
  let removed := filter (fun he => he.1 ∉ hosts) (hostnames a) in
  let kept := filter (fun he => he.1 ∈ hosts) (hostnames a) in
  let dirty1 := dirty a || bool_decide (removed <> ∅) in
  let queued := filter (fun q => q_hostname q ∈ hosts) (queued_queries a) in
  let '(hs, d) := foldl (fun st host =>
    match st.1 !! host with
    | Some _ => st
    | None => (<[host:=hostname_default now]> st.1, true)
    end) (kept, dirty1) (elements hosts) in
  with_queries (with_hostnames a hs d) queued (tasks a) (pending_queries a).

(** [record_ip]. *)
Definition record_ip (now : Z) (host : rstr) (ip : IpAddr) (ttl : Z) (a : DnsActor) : DnsActor :=
  match hostnames a !! host with
  | None => a
  | Some entry =>
    let effective_ttl := Z.max (from_secs ttl) (dns_min_ttl (dns_tuning a)) in
    let expires_at := now + effective_ttl in
    let entry' := {| ips := <[ip:=expires_at]> (ips entry); next_refresh_at := next_refresh_at entry |} in
    let d := match ips entry !! ip with None => true | Some _ => dirty a end in
    with_hostnames a (<[host:=entry']> (hostnames a)) d
  end.

(** [expire_stale]. *)
Definition expire_entry (now : Z) (e : HostnameState) : HostnameState :=
  {| ips := filter (fun ie => now < ie.2) (ips e); next_refresh_at := next_refresh_at e |}.

Definition has_expired (now : Z) (e : HostnameState) : bool :=
  bool_decide (filter (fun ie => ie.2 <= now) (ips e) <> ∅).

Definition expire_stale (now : Z) (a : DnsActor) : DnsActor :=
  with_hostnames a (expire_entry now <$> hostnames a)
    (dirty a || existsb (fun he => has_expired now he.2) (map_to_list (hostnames a))).

(** The snapshot: hostname to resolved addresses. *)
Definition view (a : DnsActor) : gmap rstr (gset IpAddr) := (fun e => dom (ips e)) <$> hostnames a.

(** [emit_snapshot]: the event the owner receives, if any.  The flag is cleared also when
    the owner's inbox is closed and the snapshot is dropped. *)
Definition emit_snapshot (owner_open : bool) (a : DnsActor) : DnsActor * option (gmap rstr (gset IpAddr)) :=
  if dirty a then (with_hostnames a (hostnames a) false, if owner_open then Some (view a) else None) else (a, None).

(** [trigger_refresh]. *)
Definition refresh_due (now : Z) (host : rstr) (e : HostnameState) : bool :=
  bool_decide (parse_ip host = None) && (next_refresh_at e <=? now).

Definition refresh_entry (now interval : Z) (host : rstr) (e : HostnameState) : HostnameState :=
  if refresh_due now host e then {| ips := ips e; next_refresh_at := now + interval |} else e.

Definition due_queries (now : Z) (hs : gmap rstr HostnameState) : list DnsQuery :=
  he ← map_to_list hs;
  if refresh_due now he.1 he.2
  then [{| q_hostname := he.1; q_type := A |}; {| q_hostname := he.1; q_type := AAAA |}] else [].

Definition trigger_refresh (now : Z) (a : DnsActor) : DnsActor :=
  let queued := foldl (fun qs q => if decide (q ∈ pending_queries a) then qs else {[q]} ∪ qs)
    (queued_queries a) (due_queries now (hostnames a)) in
  with_queries
    (with_hostnames a (map_imap (fun h e => Some (refresh_entry now (dns_refresh_interval (dns_tuning a)) h e))
       (hostnames a)) (dirty a))
    queued (tasks a) (pending_queries a).

(** [spawn_query]. *)
Definition spawn_query (q : DnsQuery) (a : DnsActor) : DnsActor :=
  with_queries a (queued_queries a) (tasks a ++ [q]) ({[q]} ∪ pending_queries a).

(** [extract_records]: the first TTL of each address of the expected type. *)
Definition extract_records (m : Message) (expected : RecordType) : gmap IpAddr Z :=
  foldl (fun records answer =>
    let found := match a_data answer with
      | RA addr => if decide (expected = A) then Some (V4 addr) else None
      | RAAAA addr => if decide (expected = AAAA) then Some (V6 addr) else None
      | ROther => None end in
    match found with
    | Some ip => match records !! ip with Some _ => records | None => <[ip:=a_ttl answer]> records end
    | None => records
    end) ∅ (m_answers m).

(** [handle_response]. *)
Definition handle_response (now : Z) (m : Message) (host : rstr) (t : RecordType) (a : DnsActor) : DnsActor :=
  let records := extract_records m t in
  if decide (m_code m = NoError /\ records = ∅ /\ Exists (fun an => a_type an <> t) (m_answers m)) then a
  else foldl (fun a r => record_ip now host r.1 r.2 a) a (map_to_list records).

(** [handle_query_result]. *)
Definition handle_query_result (now : Z) (q : DnsQuery) (r : result Message rstr) (a : DnsActor) : DnsActor :=
  let a := with_queries a (queued_queries a) (tasks a) (pending_queries a ∖ {[q]}) in
  match hostnames a !! q_hostname q with
  | None => a
  | Some _ =>
    match r with
    | Ok message => handle_response now message (q_hostname q) (q_type q) a
    | Err _ => with_queries a ({[q]} ∪ queued_queries a) (tasks a) (pending_queries a)
    end
  end.

(** [handle_set_hostnames]. *)
Definition handle_set_hostnames (now : Z) (hosts : gset rstr) (a : DnsActor) : DnsActor :=
  let a := set_hostnames now hosts a in
  let a := foldl (fun a host =>
    match parse_ip host with Some ip => record_ip now host ip u32_max a | None => a end)
    a (elements hosts) in
  trigger_refresh now (with_hostnames a (hostnames a) true).

(** ** The event loop: one iteration on the branch taken at time [now].  [None] is a
    branch that is not enabled. *)
Inductive DnsInput : Type :=
| InSetHostnames (hosts : gset rstr)
| InOther
| InJoined (q : DnsQuery) (r : result Message rstr)
| InRefreshTick
| InQueryTick (q : DnsQuery).

(** Removes the finished task from the set. *)
Fixpoint remove_task (q : DnsQuery) (ts : list DnsQuery) : list DnsQuery :=
  match ts with
  | [] => []
  | t :: ts' => if decide (t = q) then ts' else t :: remove_task q ts'
  end.

Definition dns_branch (now : Z) (i : DnsInput) (a : DnsActor) : option DnsActor :=
  match i with
  | InSetHostnames hosts => Some (handle_set_hostnames now hosts a)
  | InOther => Some a
  | InJoined q r =>
      if decide (q ∈ tasks a) then
        Some (handle_query_result now q r
                (with_queries a (queued_queries a) (remove_task q (tasks a)) (pending_queries a)))
      else None
  | InRefreshTick => Some (expire_stale now (trigger_refresh now a))
  | InQueryTick q =>
      if decide (q ∈ queued_queries a) then
        Some (spawn_query q (with_queries a (queued_queries a ∖ {[q]}) (tasks a) (pending_queries a)))
      else None
  end.

Definition dns_step (owner_open : bool) (now : Z) (i : DnsInput) (a : DnsActor) :
    option (DnsActor * option (gmap rstr (gset IpAddr))) :=
  emit_snapshot owner_open <$> dns_branch now i a.

(** ** One query

    The receive loop of [exchange] on what its socket receives: the first message
    that answers the query and is not truncated, or the first error. *)
Definition answers_query (id : Z) (q : DnsQuery) (m : Message) : bool :=
  bool_decide (m_id m = id) &&
  match head (m_queries m) with
  | Some question =>
      bool_decide (qn_type question = q_type q) &&
      bool_decide (normalize_dns_name (qn_ascii question) = q_hostname q)
  | None => false
  end.

(** What a [recv] of the socket gives: a message, bytes that do not decode, or an
    error. *)
Inductive Received : Type :=
| RxMessage (m : Message)
| RxGarbage
| RxError (e : rstr).

(** [None]: still waiting after these. *)
Fixpoint exchange_recv (id : Z) (q : DnsQuery) (packets : list Received) : option (result Message rstr) :=
  match packets with
  | [] => None
  | RxError e :: _ => Some (Err e)
  | RxGarbage :: packets' => exchange_recv id q packets'
  | RxMessage m :: packets' =>
      if negb (answers_query id q m) then exchange_recv id q packets'
      else if m_truncation m then exchange_recv id q packets'
      else Some (Ok m)
  end.

(** [resolve] started at [start]: [exchange] would finish at the given time, or never.
    The result and the time it is reported. *)
Definition resolve (start timeout : Z) (exchange : option (Z * result Message rstr)) :
    result Message rstr * Z :=
  let deadline := start + timeout in
  match exchange with
  | Some (t, Ok m) => if decide (t <= deadline) then (Ok m, t)
                      else (Err (lit "query timed out after " ++ debug_duration timeout), deadline)
  | Some (t, Err e) => if decide (t <= deadline) then (Err e, deadline)
                       else (Err (lit "query timed out after " ++ debug_duration timeout), deadline)
  | None => (Err (lit "query timed out after " ++ debug_duration timeout), deadline)
  end.

(** ** Invariants *)

(** No query is both queued and in flight; every pending query has exactly one task;
    queued queries are for registered hostnames that are not IP literals. *)
Definition dns_wf (a : DnsActor) : Prop :=
  queued_queries a ## pending_queries a /\
  NoDup (tasks a) /\ (forall q, q ∈ tasks a <-> q ∈ pending_queries a) /\
  (forall q, q ∈ queued_queries a -> is_Some (hostnames a !! q_hostname q)) /\
  (forall q, q ∈ queued_queries a ∪ pending_queries a ->
     parse_ip (q_hostname q) = None /\ (q_type q = A \/ q_type q = AAAA)).

(** States the loop can reach, with the last snapshot the owner received and whether the
    owner's inbox is open; a closed inbox stays closed. *)
Inductive dns_reach (t : DnsTuning) : DnsActor -> gmap rstr (gset IpAddr) -> bool -> Prop :=
| reach_new : dns_reach t (dns_new t) ∅ true
| reach_step a last was_open owner_open now i a' out :
    dns_reach t a last was_open -> (owner_open = true -> was_open = true) ->
    dns_step owner_open now i a = Some (a', out) -> dns_reach t a' (default last out) owner_open.

(** An operation that changes no query and no registration. *)
Definition same_queries (a a' : DnsActor) : Prop :=
  queued_queries a' = queued_queries a /\ tasks a' = tasks a /\ pending_queries a' = pending_queries a /\
  dom (hostnames a') = dom (hostnames a) /\ dns_tuning a' = dns_tuning a.

(** An operation that leaves the actor clean only if it changed nothing visible. *)
Definition quiet (a a' : DnsActor) : Prop := dirty a' = false -> dirty a = false /\ view a' = view a.

(** ** Lemmas *)

#[export] Instance same_queries_preorder : PreOrder same_queries.
Proof.
  split; [by intros a |]. unfold same_queries. intros a b c H1 H2. destruct_and!. split_and!; congruence.
Qed.

#[export] Instance quiet_preorder : PreOrder quiet.
Proof.
  split; [by intros a |]. unfold quiet. intros a b c H1 H2 Hc.
  destruct (H2 Hc) as [Hb Hv]. destruct (H1 Hb) as [Ha Hv']. split; [done | by rewrite Hv].
Qed.

Lemma same_queries_wf a a' : same_queries a a' -> dns_wf a -> dns_wf a'.
Proof.
  intros (Hq & Ht & Hp & Hd & _) (W1 & W2 & W3 & W4 & W5). unfold dns_wf. rewrite Hq, Ht, Hp.
  split_and!; try done. intros q Hin. specialize (W4 q Hin).
  by rewrite <- elem_of_dom, Hd, elem_of_dom.
Qed.

Lemma view_insert a h e d :
  view (with_hostnames a (<[h:=e]> (hostnames a)) d) = <[h:=dom (ips e)]> (view a).
Proof. unfold view. cbn. by rewrite fmap_insert. Qed.

Lemma record_ip_same now host ip ttl a : same_queries a (record_ip now host ip ttl a).
Proof.
  unfold record_ip. destruct (hostnames a !! host) eqn:Hh; [| done].
  unfold same_queries. cbn. split_and!; try done. rewrite dom_insert_L. apply elem_of_dom_2 in Hh. set_solver.
Qed.

Lemma record_ip_quiet now host ip ttl a : quiet a (record_ip now host ip ttl a).
Proof.
  unfold record_ip. destruct (hostnames a !! host) as [e |] eqn:Hh; [| done]. unfold quiet.
  destruct (ips e !! ip) eqn:Hi; [| done]. intros Hd. split; [done |]. rewrite view_insert. cbn [ips].
  apply insert_id. unfold view. rewrite lookup_fmap, Hh. cbn. f_equal. rewrite dom_insert_L.
  apply elem_of_dom_2 in Hi. set_solver.
Qed.

(** Folding an operation that satisfies a preorder. *)
Lemma fold_preorder {B} (R : DnsActor -> DnsActor -> Prop) `{!PreOrder R} (f : DnsActor -> B -> DnsActor) l a :
  (forall a b, R a (f a b)) -> R a (foldl f a l).
Proof.
  intros Hf. revert a. induction l as [| b l IH]; intros a; cbn; [done |].
  etrans; [apply Hf | apply IH].
Qed.

Lemma handle_response_same now m host t a : same_queries a (handle_response now m host t a).
Proof.
  unfold handle_response. case_decide; [done |]. apply (fold_preorder same_queries).
  intros. apply record_ip_same.
Qed.

Lemma handle_response_quiet now m host t a : quiet a (handle_response now m host t a).
Proof.
  unfold handle_response. case_decide; [done |]. apply (fold_preorder quiet). intros. apply record_ip_quiet.
Qed.

(** The registration loop of [set_hostnames]. *)
Definition register (now : Z) (st : gmap rstr HostnameState * bool) (host : rstr) : gmap rstr HostnameState * bool :=
  match st.1 !! host with
  | Some _ => st
  | None => (<[host:=hostname_default now]> st.1, true)
  end.

Lemma register_fold now l st :
  dom (foldl (register now) st l).1 = dom st.1 ∪ list_to_set l /\
  ((foldl (register now) st l).2 = false -> foldl (register now) st l = st).
Proof.
  revert st. induction l as [| h l IH]; intros st; cbn [foldl list_to_set].
  - split; [set_solver | done].
  - destruct (IH (register now st h)) as [Hd Hf]. split.
    + rewrite Hd. unfold register. destruct (st.1 !! h) eqn:Hh.
      * apply elem_of_dom_2 in Hh. set_solver.
      * cbn. rewrite dom_insert_L. set_solver.
    + intros H. pose proof (Hf H) as He. rewrite He in H |- *. unfold register in *.
      destruct (st.1 !! h); [done | cbn in H; done].
Qed.

Lemma set_hostnames_dom now hosts a : dom (hostnames (set_hostnames now hosts a)) = hosts.
Proof.
  unfold set_hostnames. fold (register now). cbv zeta.
  pose proof (register_fold now (elements hosts) (filter (fun he => he.1 ∈ hosts) (hostnames a),
    dirty a || bool_decide (filter (fun he => he.1 ∉ hosts) (hostnames a) <> ∅))) as [Hd _].
  destruct (foldl (register now) _ _) as [hs d]. cbn in *. rewrite Hd, list_to_set_elements_L.
  apply set_eq. intros h. rewrite elem_of_union, elem_of_dom. split; [| by right].
  intros [[e He] | Hin]; [| done]. apply map_lookup_filter_Some in He as [_ He]. done.
Qed.

Lemma filter_empty_all {V} (P : rstr * V -> Prop) `{!forall x, Decision (P x)} (m : gmap rstr V) :
  filter (fun x => ~ P x) m = ∅ -> filter P m = m.
Proof.
  intros He. apply map_filter_id. intros i x Hix. destruct (decide (P (i, x))) as [| Hn]; [done |].
  exfalso. apply (map_filter_empty_not_lookup _ _ i x He); done.
Qed.

Lemma set_hostnames_quiet now hosts a : quiet a (set_hostnames now hosts a).
Proof.
  unfold set_hostnames, quiet. fold (register now). cbv zeta.
  pose proof (register_fold now (elements hosts) (filter (fun he => he.1 ∈ hosts) (hostnames a),
    dirty a || bool_decide (filter (fun he => he.1 ∉ hosts) (hostnames a) <> ∅))) as [_ Hf].
  destruct (foldl (register now) _ _) as [hs d]. cbn in *. intros ->. specialize (Hf eq_refl).
  injection Hf as Hhs Hd. apply eq_sym, orb_false_iff in Hd as [Hd Hr]. split; [done |].
  apply bool_decide_eq_false, dec_stable in Hr. unfold view. cbn. f_equal. rewrite Hhs.
  by apply (filter_empty_all (fun he => he.1 ∈ hosts)).
Qed.

Lemma expire_stale_same now a : same_queries a (expire_stale now a).
Proof. unfold same_queries. cbn. split_and!; try done. by rewrite dom_fmap_L. Qed.

Lemma expire_entry_id now e : has_expired now e = false -> expire_entry now e = e.
Proof.
  unfold has_expired, expire_entry. intros H%bool_decide_eq_false%dec_stable. destruct e as [m t].
  cbn in *. f_equal. apply map_filter_id. intros i x Hix. cbn.
  destruct (decide (now < x)) as [| Hn]; [done |]. exfalso.
  apply (map_filter_empty_not_lookup _ _ i x H); [cbn; lia | done].
Qed.

Lemma expire_stale_quiet now a : quiet a (expire_stale now a).
Proof.
  unfold quiet, expire_stale. intros Hd. cbn in Hd. apply orb_false_iff in Hd as [Hd He].
  split; [done |]. unfold view. cbn. rewrite <- map_fmap_compose.
  apply map_fmap_ext. intros h e Hh. cbn [compose]. rewrite expire_entry_id; [done |].
  destruct (has_expired now e) eqn:Hx; [| done].
  assert (existsb (fun he => has_expired now he.2) (map_to_list (hostnames a)) = true); [| congruence].
  apply existsb_exists. exists (h, e). split; [| done].
  by apply list_elem_of_In, elem_of_map_to_list.
Qed.

Lemma trigger_refresh_hostnames now a h :
  hostnames (trigger_refresh now a) !! h =
  refresh_entry now (dns_refresh_interval (dns_tuning a)) h <$> hostnames a !! h.
Proof. unfold trigger_refresh. cbn. rewrite map_lookup_imap. by destruct (hostnames a !! h). Qed.

Lemma trigger_refresh_quiet now a : quiet a (trigger_refresh now a).
Proof.
  unfold quiet. intros Hd. split; [done |]. apply map_eq. intros h. unfold view.
  rewrite !lookup_fmap, trigger_refresh_hostnames. destruct (hostnames a !! h) as [e |]; cbn; [| done].
  unfold refresh_entry. by case_match.
Qed.

Lemma elem_of_due now hs q :
  q ∈ due_queries now hs <->
  exists e, hs !! q_hostname q = Some e /\ refresh_due now (q_hostname q) e = true /\
    (q_type q = A \/ q_type q = AAAA).
Proof.
  unfold due_queries. rewrite list_elem_of_bind. split.
  - intros ([h e] & Hq & Hin%elem_of_map_to_list). cbn in Hq. destruct (refresh_due now h e) eqn:Hd; [| set_solver].
    exists e. assert (q_hostname q = h) as -> by (set_unfold; naive_solver).
    split_and!; try done. set_unfold. naive_solver.
  - intros (e & Hh & Hd & Ht). exists (q_hostname q, e). split; [| by apply elem_of_map_to_list].
    cbn. rewrite Hd. destruct q as [h t]. cbn in *. destruct Ht as [-> | ->]; set_solver.
Qed.

Lemma enqueue_fold (pend : gset DnsQuery) (l : list DnsQuery) (qs : gset DnsQuery) (q : DnsQuery) :
  q ∈ foldl (fun qs q => if decide (q ∈ pend) then qs else {[q]} ∪ qs) qs l <->
  q ∈ qs \/ (q ∈ l /\ q ∉ pend).
Proof.
  revert qs. induction l as [| x l IH]; intros qs; cbn [foldl]; [set_solver |].
  rewrite IH. case_decide; set_solver.
Qed.

Lemma trigger_refresh_queued now a q :
  q ∈ queued_queries (trigger_refresh now a) <->
  q ∈ queued_queries a \/ (q ∈ due_queries now (hostnames a) /\ q ∉ pending_queries a).
Proof. apply enqueue_fold. Qed.

Lemma trigger_refresh_wf now a : dns_wf a -> dns_wf (trigger_refresh now a).
Proof.
  intros (W1 & W2 & W3 & W4 & W5). unfold dns_wf.
  change (tasks (trigger_refresh now a)) with (tasks a).
  change (pending_queries (trigger_refresh now a)) with (pending_queries a).
  assert (forall q, is_Some (hostnames a !! q_hostname q) ->
    is_Some (hostnames (trigger_refresh now a) !! q_hostname q)) as Hreg.
  { intros q [e He]. rewrite trigger_refresh_hostnames, He. by eexists. }
  split_and!; try done.
  - intros q Hq Hp. apply trigger_refresh_queued in Hq as [Hq | [_ Hq]]; [by apply (W1 q) | done].
  - intros q [Hq | [Hq _]]%trigger_refresh_queued; apply Hreg; [by apply W4 |].
    apply elem_of_due in Hq as (e & -> & _). by eexists.
  - intros q. rewrite elem_of_union, trigger_refresh_queued.
    intros [[Hq | [Hq _]] | Hq]; [apply W5; set_solver | | apply W5; set_solver].
    apply elem_of_due in Hq as (e & _ & Hd & Ht). split; [| done]. unfold refresh_due in Hd.
    by apply andb_true_iff in Hd as [Hd%bool_decide_eq_true _].
Qed.

Lemma set_hostnames_queries now hosts a :
  queued_queries (set_hostnames now hosts a) = filter (fun q => q_hostname q ∈ hosts) (queued_queries a) /\
  tasks (set_hostnames now hosts a) = tasks a /\ pending_queries (set_hostnames now hosts a) = pending_queries a.
Proof. unfold set_hostnames. cbv zeta. by destruct (foldl _ _ _). Qed.

Lemma set_hostnames_wf now hosts a : dns_wf a -> dns_wf (set_hostnames now hosts a).
Proof.
  intros (W1 & W2 & W3 & W4 & W5). destruct (set_hostnames_queries now hosts a) as (Hq & Ht & Hp).
  unfold dns_wf. rewrite Hq, Ht, Hp. split_and!; try done.
  - set_solver.
  - intros q [Hq' _]%elem_of_filter. by rewrite <- elem_of_dom, set_hostnames_dom.
  - intros q Hin. apply W5. set_solver.
Qed.

Lemma literals_same now l a :
  same_queries a (foldl (fun a host =>
    match parse_ip host with Some ip => record_ip now host ip u32_max a | None => a end) a l).
Proof.
  apply (fold_preorder same_queries). intros b host. destruct (parse_ip host); [apply record_ip_same | done].
Qed.

Lemma handle_set_hostnames_wf now hosts a : dns_wf a -> dns_wf (handle_set_hostnames now hosts a).
Proof.
  intros Hw. unfold handle_set_hostnames. cbv zeta. apply trigger_refresh_wf.
  eapply same_queries_wf; [| by apply (set_hostnames_wf now hosts)].
  etrans; [apply literals_same |]. done.
Qed.

Lemma remove_task_spec q ts :
  NoDup ts -> NoDup (remove_task q ts) /\ forall x, x ∈ remove_task q ts <-> x ∈ ts /\ x <> q.
Proof.
  induction 1 as [| t ts Ht Hts [IH1 IH2]]; cbn; [split; [constructor | set_solver] |].
  case_decide as Hd.
  - subst. split; [done |]. set_solver.
  - split; [constructor; [rewrite IH2; naive_solver | done] |]. intros x. rewrite !elem_of_cons, IH2. naive_solver.
Qed.

Lemma joined_wf now q r a :
  dns_wf a -> q ∈ tasks a ->
  dns_wf (handle_query_result now q r
    (with_queries a (queued_queries a) (remove_task q (tasks a)) (pending_queries a))).
Proof.
  intros (W1 & W2 & W3 & W4 & W5) Hin. assert (q ∈ pending_queries a) as Hp by by apply W3.
  destruct (remove_task_spec q (tasks a) W2) as [N1 N2].
  assert (dns_wf (with_queries a (queued_queries a) (remove_task q (tasks a)) (pending_queries a ∖ {[q]}))) as Hbase.
  { unfold dns_wf. cbn. split_and!; try done; [set_solver | | set_solver].
    intros x. rewrite N2, W3. set_solver. }
  unfold handle_query_result. cbv zeta. cbn [hostnames with_queries].
  destruct (hostnames a !! q_hostname q) eqn:Hh; [| exact Hbase].
  destruct r as [m | e]; [eapply same_queries_wf; [apply handle_response_same | exact Hbase] |].
  destruct Hbase as (B1 & B2 & B3 & B4 & B5). unfold dns_wf. cbn in *. split_and!; try done.
  - set_solver.
  - intros x [->%elem_of_singleton | Hx]%elem_of_union; [by rewrite Hh | by apply B4].
  - intros x Hx. destruct (decide (x = q)) as [-> | Hne]; [apply W5; set_solver | apply B5; set_solver].
Qed.

Lemma spawn_wf q a :
  dns_wf a -> q ∈ queued_queries a ->
  dns_wf (spawn_query q (with_queries a (queued_queries a ∖ {[q]}) (tasks a) (pending_queries a))).
Proof.
  intros (W1 & W2 & W3 & W4 & W5) Hq. unfold dns_wf. cbn. split_and!.
  - set_solver.
  - apply NoDup_app. split_and!; [done | | by apply NoDup_singleton].
    intros x Hx ->%list_elem_of_singleton. apply W3 in Hx. by apply (W1 q).
  - intros x. rewrite elem_of_app, list_elem_of_singleton, W3. set_solver.
  - intros x Hx. apply W4. set_solver.
  - intros x Hx. apply W5. set_solver.
Qed.

Lemma dns_branch_wf now i a a' : dns_wf a -> dns_branch now i a = Some a' -> dns_wf a'.
Proof.
  intros Hw. destruct i as [hosts | | q r | | q]; cbn; intros Hb; simplify_option_eq; try done.
  - by apply handle_set_hostnames_wf.
  - by apply joined_wf.
  - eapply same_queries_wf; [apply expire_stale_same | by apply trigger_refresh_wf].
  - by apply spawn_wf.
Qed.

Lemma dns_branch_quiet now i a a' : dns_branch now i a = Some a' -> quiet a a'.
Proof.
  destruct i as [hosts | | q r | | q]; cbn; intros Hb; simplify_option_eq; try done.
  - unfold handle_query_result. cbv zeta. cbn [hostnames with_queries].
    destruct (hostnames a !! q_hostname q); [| done]. destruct r; [| done].
    etrans; [| apply handle_response_quiet]. done.
  - etrans; [apply trigger_refresh_quiet | apply expire_stale_quiet].
Qed.

Lemma dns_reach_wf t a last owner_open : dns_reach t a last owner_open -> dns_wf a.
Proof.
  induction 1 as [| a last was_open owner_open now i a' out _ IH _ Hs].
  - unfold dns_wf. cbn. split_and!; [set_solver | constructor | set_solver ..].
  - unfold dns_step in Hs. destruct (dns_branch now i a) as [b |] eqn:Hb; [| done].
    apply (dns_branch_wf _ _ _ _ IH) in Hb. cbn in Hs. unfold emit_snapshot in Hs.
    destruct (dirty b); by simplify_eq/=.
Qed.

Lemma dns_reach_view t a last owner_open :
  dns_reach t a last owner_open -> dirty a = false /\ (owner_open = true -> last = view a).
Proof.
  induction 1 as [| a last was_open owner_open now i a' out _ [IH1 IH2] Ho Hs]; [done |].
  unfold dns_step in Hs. destruct (dns_branch now i a) as [b |] eqn:Hb; [| done].
  apply dns_branch_quiet in Hb. cbn in Hs. unfold emit_snapshot in Hs.
  destruct (dirty b) eqn:Hd; simplify_eq/=; [split; [done |]; by intros -> |]. destruct (Hb Hd) as [_ Hv].
  split; [done |]. intros Hopen. rewrite Hv. by apply IH2, Ho.
Qed.

Lemma extract_records_first m t ip ttl :
  extract_records m t !! ip = Some ttl -> exists an, an ∈ m_answers m /\ a_ttl an = ttl /\
    ((t = A /\ exists x, ip = V4 x /\ a_data an = RA x) \/ (t = AAAA /\ exists x, ip = V6 x /\ a_data an = RAAAA x)).
Proof.
  unfold extract_records. revert ip ttl. generalize (m_answers m). intros l.
  induction l as [| an l IH] using rev_ind; intros ip ttl; [done |].
  rewrite foldl_app. cbn [foldl]. set (records := foldl _ _ l) in *. cbv zeta. intros H.
  assert (Hold : records !! ip = Some ttl -> exists an0, an0 ∈ l ++ [an] /\ a_ttl an0 = ttl /\
    ((t = A /\ exists x, ip = V4 x /\ a_data an0 = RA x) \/ (t = AAAA /\ exists x, ip = V6 x /\ a_data an0 = RAAAA x))).
  { intros Hr. destruct (IH _ _ Hr) as (an0 & ? & Hrest). exists an0. split; [set_solver | done]. }
  destruct (a_data an) eqn:Hd; try (case_decide; subst); try (by apply Hold); case_match; try (by apply Hold);
    (apply lookup_insert_Some in H as [[<- <-] | [_ H]];
     [exists an; split; [set_solver | naive_solver] | by apply Hold]).
Qed.

(** The addresses a snapshot taken at [now] still lists for a hostname. *)
Definition listed (now : Z) (a : DnsActor) (host : rstr) : option (gset IpAddr) :=
  view (expire_stale now a) !! host.

Lemma elem_of_listed now a host s ip :
  listed now a host = Some s ->
  (ip ∈ s <-> exists e t, hostnames a !! host = Some e /\ ips e !! ip = Some t /\ now < t).
Proof.
  unfold listed, view. cbn. rewrite !lookup_fmap. destruct (hostnames a !! host) as [e |]; [| done].
  cbn. intros [= <-]. rewrite elem_of_dom. unfold is_Some. setoid_rewrite map_lookup_filter_Some. naive_solver.
Qed.

Lemma record_ip_lookup now host ip ttl a h :
  hostnames (record_ip now host ip ttl a) !! h =
  (fun e => if decide (h = host)
            then {| ips := <[ip:=now + Z.max (from_secs ttl) (dns_min_ttl (dns_tuning a))]> (ips e);
                    next_refresh_at := next_refresh_at e |}
            else e) <$> hostnames a !! h.
Proof.
  unfold record_ip. destruct (decide (h = host)) as [-> | Hne].
  - destruct (hostnames a !! host) eqn:He; cbn; rewrite ?lookup_insert_eq, ?He; done.
  - destruct (hostnames a !! host) eqn:He; cbn; rewrite ?lookup_insert_ne by done; by destruct (hostnames a !! h).
Qed.

Lemma literals_hostnames now l a host e :
  hostnames a !! host = Some e ->
  exists e', hostnames (foldl (fun a h =>
      match parse_ip h with Some ip => record_ip now h ip u32_max a | None => a end) a l) !! host = Some e' /\
    dom (ips e') = dom (ips e) ∪ (if decide (host ∈ l) then option_to_set (parse_ip host) else ∅) /\
    next_refresh_at e' = next_refresh_at e.
Proof.
  revert a e. induction l as [| x l IH]; intros a e He; cbn [foldl].
  { exists e. split_and!; [done | set_solver | done]. }
  destruct (parse_ip x) as [ip |] eqn:Hx.
  - edestruct (IH (record_ip now x ip u32_max a)) as (e' & H1 & H2 & H3); [by rewrite record_ip_lookup, He |].
    exists e'. split; [exact H1 |]. split; [| rewrite H3; by case_decide].
    rewrite H2. destruct (decide (host = x)) as [-> |].
    + cbn [ips]. rewrite dom_insert_L, Hx. rewrite (decide_True (P := x ∈ x :: l)) by set_solver. cbn.
      case_decide; set_solver.
    + repeat case_decide; set_solver.
  - destruct (IH a e He) as (e' & H1 & H2 & H3). exists e'. split; [done |]. split; [| done]. rewrite H2.
    destruct (decide (x = host)) as [-> |]; [rewrite Hx; cbn; repeat case_decide; set_solver |].
    repeat case_decide; set_solver.
Qed.

Lemma register_fold_entry now l st host :
  (foldl (register now) st l).1 !! host =
  match st.1 !! host with
  | Some e => Some e
  | None => if decide (host ∈ l) then Some (hostname_default now) else None
  end.
Proof.
  revert st. induction l as [| h l IH]; intros st; cbn [foldl].
  - destruct (st.1 !! host); [done |]. by rewrite decide_False by set_solver.
  - rewrite IH. unfold register. destruct (decide (h = host)) as [-> | Hne].
    + destruct (st.1 !! host) eqn:Hh; cbn; rewrite ?Hh, ?lookup_insert_eq; [done |].
      by rewrite decide_True by set_solver.
    + destruct (st.1 !! h) eqn:Hh; cbn; rewrite ?lookup_insert_ne by done;
        (destruct (st.1 !! host); [done |]); repeat case_decide; try done; set_solver.
Qed.

Lemma set_hostnames_entry now hosts a host :
  host ∈ hosts ->
  hostnames (set_hostnames now hosts a) !! host =
  Some (default (hostname_default now) (hostnames a !! host)).
Proof.
  intros Hin. unfold set_hostnames. fold (register now). cbv zeta.
  pose proof (register_fold_entry now (elements hosts) (filter (fun he => he.1 ∈ hosts) (hostnames a),
    dirty a || bool_decide (filter (fun he => he.1 ∉ hosts) (hostnames a) <> ∅)) host) as He.
  destruct (foldl (register now) _ _) as [hs d]. cbn in *. rewrite He.
  rewrite decide_True by by apply elem_of_elements. rewrite map_lookup_filter.
  destruct (hostnames a !! host); cbn; [| done]. by rewrite option_guard_True.
Qed.

Lemma view_trigger_refresh now a : view (trigger_refresh now a) = view a.
Proof.
  apply map_eq. intros h. unfold view. rewrite !lookup_fmap, trigger_refresh_hostnames.
  destruct (hostnames a !! h) as [e |]; cbn; [| done]. unfold refresh_entry. by case_match.
Qed.

(** What the loop skips. *)
Definition skipped (id : Z) (q : DnsQuery) (r : Received) : bool :=
  match r with
  | RxMessage m => negb (answers_query id q m) || m_truncation m
  | RxGarbage => true
  | RxError _ => false
  end.

Definition received (r : Received) : option (result Message rstr) :=
  match r with RxMessage m => Some (Ok m) | RxGarbage => None | RxError e => Some (Err e) end.

Lemma exchange_recv_cons id q r packets :
  exchange_recv id q (r :: packets) = if skipped id q r then exchange_recv id q packets else received r.
Proof. destruct r as [m | | e]; cbn; [| done | done]. by destruct (answers_query id q m), (m_truncation m). Qed.

Lemma exchange_recv_first id q packets :
  match exchange_recv id q packets with
  | None => Forall (fun r => skipped id q r = true) packets
  | Some res => exists pre r post, packets = pre ++ r :: post /\ Forall (fun r => skipped id q r = true) pre /\
      skipped id q r = false /\ received r = Some res
  end.
Proof.
  induction packets as [| r packets IH]; [constructor |]. rewrite exchange_recv_cons.
  destruct (skipped id q r) eqn:Hs.
  - destruct (exchange_recv id q packets); [| by constructor].
    destruct IH as (pre & r' & post & -> & Hpre & Hrest). exists (r :: pre), r', post. split_and!; [done | by constructor | apply Hrest ..].
  - destruct (received r) as [res |] eqn:Hr; [by exists [], r, packets |]. by destruct r.
Qed.

Lemma normalize_no_upper s c : c ∈ normalize_dns_name s -> ~ 65 <= c <= 90.
Proof.
  unfold normalize_dns_name. intros (x & -> & _)%list_elem_of_fmap. unfold ascii_lowercase. case_decide; lia.
Qed.

(** A hostname with an upper-case letter matches no response: the name of the
    response is lower-cased, the registered hostname is not. *)
Lemma exchange_upper_case_never id q packets m :
  Exists (fun c => 65 <= c <= 90) (q_hostname q) -> exchange_recv id q packets <> Some (Ok m).
Proof.
  intros (c & Hc & Hup)%Exists_exists He. pose proof (exchange_recv_first id q packets) as Hf. rewrite He in Hf.
  destruct Hf as (_ & r & _ & _ & _ & Hs & Hr). destruct r as [m' | | e]; [| done | done].
  cbn in Hs. apply orb_false_iff in Hs as [Ha%negb_false_iff _]. unfold answers_query in Ha.
  apply andb_true_iff in Ha as [_ Ha]. destruct (head (m_queries m')); [| done].
  apply andb_true_iff in Ha as [_ Ha%bool_decide_eq_true]. rewrite <- Ha in Hc.
  by apply normalize_no_upper in Hc.
Qed.

(** ** Properties *)

(** C15: in every state the resolver's loop can reach, the last snapshot the owner
    received is the current view of hostnames and addresses, as long as the owner's inbox
    is open (an address or hostname change is never left unreported, nothing is reported
    that is not held); and, whether it is open or not, no query
    is both queued and in flight, every query in flight has exactly one task, and
    only registered hostnames that are not IP literals are queried. *)
Theorem dns_actor_in_sync t a last owner_open :
  dns_reach t a last owner_open -> (owner_open = true -> last = view a) /\ dns_wf a.
Proof. intros H. split; [by apply (dns_reach_view _ _ _ _ H) | by apply (dns_reach_wf _ _ _ _ H)]. Qed.

(** Registering a set of hostnames makes it exactly the set of the view, marks the
    view for publication, keeps the addresses already known, resolves an IP literal
    to itself without a query, and leaves both address queries of every newly
    registered name queued or in flight. *)
Theorem handle_set_hostnames_spec now hosts a :
  let a' := handle_set_hostnames now hosts a in
  dom (view a') = hosts /\ dirty a' = true /\
  forall host, host ∈ hosts ->
    view a' !! host = Some (default ∅ (view a !! host) ∪ option_to_set (parse_ip host)) /\
    (hostnames a !! host = None -> parse_ip host = None ->
     forall t, t = A \/ t = AAAA ->
       {| q_hostname := host; q_type := t |} ∈ queued_queries a' ∪ pending_queries a').
Proof.
  cbv zeta. unfold handle_set_hostnames. cbv zeta. set (b := foldl _ _ _).
  assert (Hb : forall host, host ∈ hosts -> exists e, hostnames b !! host = Some e /\
    dom (ips e) = default ∅ (view a !! host) ∪ option_to_set (parse_ip host) /\
    next_refresh_at e = next_refresh_at (default (hostname_default now) (hostnames a !! host))).
  { intros host Hin. destruct (literals_hostnames now (elements hosts) _ _ _ (set_hostnames_entry now hosts a host Hin))
      as (e & He & Hd & Hn). exists e. split; [exact He |]. split; [| exact Hn].
    rewrite Hd, decide_True by by apply elem_of_elements.
    unfold view. rewrite lookup_fmap. by destruct (hostnames a !! host). }
  assert (Hdom : dom (hostnames b) = hosts).
  { destruct (literals_same now (elements hosts) (set_hostnames now hosts a)) as (_ & _ & _ & Hd & _).
    by rewrite <- (set_hostnames_dom now hosts a). }
  rewrite view_trigger_refresh. split_and!; [| done |].
  { unfold view. by rewrite dom_fmap_L. }
  intros host Hin. destruct (Hb host Hin) as (e & He & Hd & Hn). split.
  { unfold view at 1. cbn. by rewrite lookup_fmap, He, <- Hd. }
  intros Hnew Hlit t Ht. rewrite elem_of_union, trigger_refresh_queued.
  change (pending_queries (trigger_refresh now (with_hostnames b (hostnames b) true))) with (pending_queries b).
  destruct (decide ({| q_hostname := host; q_type := t |} ∈ pending_queries b)) as [| Hp]; [by right |].
  left. right. split; [| exact Hp]. apply elem_of_due. exists e. split_and!; [exact He | | done].
  unfold refresh_due. cbn. rewrite Hn, Hnew, bool_decide_eq_true_2 by done. cbn. lia.
Qed.

(** A resolved address stays listed exactly until the larger of its TTL and the
    configured minimum has passed, and a record for a hostname that is no longer
    registered is dropped. *)
Theorem record_ip_ttl_floor now later host ip ttl a s :
  listed later (record_ip now host ip ttl a) host = Some s ->
  (ip ∈ s <-> later < now + Z.max (from_secs ttl) (dns_min_ttl (dns_tuning a))) /\
  (forall other, other <> ip ->
     other ∈ s <-> exists s0, listed later a host = Some s0 /\ other ∈ s0).
Proof.
  intros Hs. pose proof Hs as Hs'. unfold listed, view in Hs'. cbn in Hs'.
  rewrite !lookup_fmap, record_ip_lookup in Hs'.
  destruct (hostnames a !! host) as [e |] eqn:He; [| done]. clear Hs'.
  assert (Hl : exists s0, listed later a host = Some s0).
  { unfold listed, view. cbn. rewrite !lookup_fmap, He. by eexists. }
  destruct Hl as [s0 Hl]. split.
  - rewrite (elem_of_listed _ _ _ _ _ Hs), record_ip_lookup, He. cbn. rewrite decide_True by done. split.
    + intros (e' & t & [= <-] & Ht & Hlt). cbn in Ht. rewrite lookup_insert_eq in Ht. by simplify_eq.
    + intros Hlt. eexists _, _. split; [done |]. cbn. by rewrite lookup_insert_eq.
  - intros other Hne. rewrite (elem_of_listed _ _ _ _ _ Hs), record_ip_lookup, He. cbn.
    rewrite decide_True by done. split.
    + intros (e' & t & [= <-] & Ht & Hlt). cbn in Ht. rewrite lookup_insert_ne in Ht by done.
      exists s0. split; [done |]. apply (elem_of_listed _ _ _ _ _ Hl). by exists e, t.
    + intros (s1 & Hs1 & Hin). rewrite Hl in Hs1. injection Hs1 as <-.
      apply (elem_of_listed _ _ _ _ _ Hl) in Hin as (e' & t & He' & Ht & Hlt). simplify_eq.
      eexists _, t. split; [done |]. cbn. by rewrite lookup_insert_ne by done.
Qed.

(** A refresh leaves both address queries of every due hostname queued or in
    flight, schedules its next refresh one interval later, touches no other
    hostname, and (for a positive interval) leaves nothing due. *)
Theorem trigger_refresh_complete now a :
  0 < dns_refresh_interval (dns_tuning a) ->
  let a' := trigger_refresh now a in
  (forall host e t, hostnames a !! host = Some e -> refresh_due now host e = true -> t = A \/ t = AAAA ->
     {| q_hostname := host; q_type := t |} ∈ queued_queries a' ∪ pending_queries a' /\
     exists e', hostnames a' !! host = Some e' /\ ips e' = ips e /\
       next_refresh_at e' = now + dns_refresh_interval (dns_tuning a)) /\
  (forall host e, hostnames a !! host = Some e -> refresh_due now host e = false -> hostnames a' !! host = Some e) /\
  due_queries now (hostnames a') = [].
Proof.
  intros Hi. cbv zeta. split_and!.
  - intros host e t He Hd Ht. split.
    + rewrite elem_of_union, trigger_refresh_queued.
      destruct (decide ({| q_hostname := host; q_type := t |} ∈ pending_queries a)) as [| Hp]; [by right |].
      left. right. split; [| done]. apply elem_of_due. by exists e.
    + rewrite trigger_refresh_hostnames, He. cbn. unfold refresh_entry. rewrite Hd. by eexists.
  - intros host e He Hd. rewrite trigger_refresh_hostnames, He. cbn. unfold refresh_entry. by rewrite Hd.
  - destruct (due_queries now (hostnames (trigger_refresh now a))) as [| q l] eqn:Hq; [done |]. exfalso.
    assert (q ∈ due_queries now (hostnames (trigger_refresh now a))) as Hin by (rewrite Hq; set_solver).
    apply elem_of_due in Hin as (e & He & Hd & _). rewrite trigger_refresh_hostnames in He.
    destruct (hostnames a !! q_hostname q) as [e0 |]; [| done]. cbn in He. simplify_eq.
    unfold refresh_entry in Hd. destruct (refresh_due now (q_hostname q) e0) eqn:Hd0; [| congruence].
    unfold refresh_due in Hd. cbn in Hd. lia.
Qed.

(** [exchange] returns the first message that carries the query's id, asks the
    query's type for the query's name and is not truncated, unless the socket fails
    before; it skips everything else (undecodable, mismatched or truncated) and keeps
    waiting exactly while nothing else arrived. *)
Theorem exchange_recv_spec id q packets :
  (exchange_recv id q packets = None <->
     forall r, r ∈ packets -> r = RxGarbage \/
       exists m, r = RxMessage m /\ (answers_query id q m = false \/ m_truncation m = true)) /\
  (forall m, exchange_recv id q packets = Some (Ok m) ->
     answers_query id q m = true /\ m_truncation m = false /\
     exists pre post, packets = pre ++ RxMessage m :: post /\ exchange_recv id q pre = None).
Proof.
  assert (Hnone : forall l, exchange_recv id q l = None <-> Forall (fun r => skipped id q r = true) l).
  { intros l. pose proof (exchange_recv_first id q l) as Hf. destruct (exchange_recv id q l); [| naive_solver].
    split; [done |]. destruct Hf as (pre & r' & post & -> & _ & Hs & _). rewrite Forall_forall. intros H.
    specialize (H r' ltac:(set_solver)). congruence. }
  split.
  - rewrite Hnone, Forall_forall. split; intros H r Hr; specialize (H r Hr).
    + destruct r as [m | | e]; [right; exists m; split; [done |] | by left | done].
      cbn in H. apply orb_true_iff in H as [H%negb_true_iff | H]; auto.
    + destruct H as [-> | (m & -> & [H | H])]; cbn; rewrite ?H, ?orb_true_r; done.
  - intros m He. pose proof (exchange_recv_first id q packets) as Hf. rewrite He in Hf.
    destruct Hf as (pre & r & post & Heq & Hpre & Hs & Hr). destruct r as [m' | | e]; [| done | done].
    injection Hr as ->. cbn in Hs. apply orb_false_iff in Hs as [Ha%negb_false_iff Ht].
    split_and!; [done | done |]. exists pre, post. split; [done |]. by apply Hnone.
Qed.

(** ** Witnesses *)

Definition sample_host : rstr := lit "vpn.example".
Definition sample_registered : DnsActor := handle_set_hostnames 0 {[sample_host]} (dns_new DnsTuning_default).

Lemma dns_actor_in_sync_witness :
  exists a last, dns_reach DnsTuning_default a last true /\ last = view a /\ dns_wf a.
Proof.
  eexists (emit_snapshot true sample_registered).1, _.
  assert (H : dns_reach DnsTuning_default (emit_snapshot true sample_registered).1
                (default ∅ (Some (view sample_registered))) true).
  { apply (reach_step _ (dns_new DnsTuning_default) ∅ true true 0 (InSetHostnames {[sample_host]})); [constructor | done |].
    reflexivity. }
  destruct (dns_actor_in_sync _ _ _ _ H) as [Hv Hw]. split; [exact H |]. split; [exact (Hv eq_refl) | exact Hw].
Defined.

Lemma record_ip_ttl_floor_witness :
  exists s, listed 5 (record_ip 0 sample_host (V4 1) 1 sample_registered) sample_host = Some s /\
    (V4 1 ∈ s <-> 5 < 0 + Z.max (from_secs 1) (from_secs 300)).
Proof.
  eexists. split; [reflexivity |].
  apply (record_ip_ttl_floor 0 5 sample_host (V4 1) 1 sample_registered). reflexivity.
Defined.

Lemma trigger_refresh_complete_witness :
  0 < dns_refresh_interval (dns_tuning sample_registered) /\
  due_queries (from_secs 500) (hostnames (trigger_refresh (from_secs 500) sample_registered)) = [].
Proof. split; [reflexivity | apply (trigger_refresh_complete (from_secs 500) sample_registered); reflexivity]. Defined.
