(* ===== verification/Events.v ===== *)
(** * Control-plane events

    Models [src/src/events.rs] and the exit notification of [src/src/actor.rs]: the
    messages the actors exchange.  A [oneshot] reply channel is its identity; an
    [anyhow::Error] is the list of its messages, outermost context first. *)

From stdpp Require Import countable.
From S2P Require Import Prelude Net Config Channel Metrics Routing.
#[local] Open Scope Z_scope.

Definition anyhow : Type := list rstr.

(** [Endpoint]. *)
Inductive Endpoint : Type :=
| Udp (ep : UdpEndpoint)
| H3 (ep : H3Endpoint).

#[export] Instance Endpoint_eq_dec : EqDecision Endpoint.
Proof. solve_decision. Defined.

(** Parts of [DialContext] the actors read; the route probe is the caller's. *)
Record DialContext : Type := {
  dial_peer_id : rstr;
  dial_ip : IpAddr;
  dial_tun_if : rstr;
  dial_tun_mtu : Z;
  dial_tuning : Tuning;
}.

Record ConnectedEvent : Type := {
  conn_peer_id : rstr;
  conn_remote_addr : SocketAddr;
  conn_tx : Sender;
  conn_endpoint : option Endpoint;
}.

Record DialFailedEvent : Type := { failed_peer_id : rstr; failed_ip : IpAddr }.

Record DnsEvent : Type := { dns_state : gmap rstr (gset IpAddr) }.

(** [SupervisionPolicy] and [ActorExit] of [actor.rs]; the inner result is the
    actor's own, the outer one is the task's ([JoinError]). *)
Inductive SupervisionPolicy : Type := Critical | Restartable | Detached.

#[export] Instance SupervisionPolicy_eq_dec : EqDecision SupervisionPolicy.
Proof. solve_decision. Defined.

Record ActorExit : Type := {
  exit_name : rstr;
  exit_policy : SupervisionPolicy;
  exit_result : result (result unit anyhow) rstr;
}.

Abbreviation ReplyTx := nat.

Section events.
Context {L : IpNetLib} {T : TrieLib L}.

(** [Event]. *)
Inductive Event : Type :=
| Stop
| ActorExited (exit : ActorExit)
| MetricsEvent (metrics : Metrics)
| Connected (event : ConnectedEvent)
| DialFailed (event : DialFailedEvent)
| Dns (event : DnsEvent)
| GetConfig (reply_tx : ReplyTx)
| PostConfig (peers : list Peer) (reply_tx : ReplyTx)
| DeleteConfig (peer_ids : list rstr) (reply_tx : ReplyTx)
| GetMetricsSnapshot (reply_tx : ReplyTx)
| UpdateRouting (routing : RoutingTable)
| UpdateAcceptedSources (sources : gset IpAddr)
| UpdatePeerTokens (tokens : gmap rstr rstr)
| SetHostnames (hosts : gset rstr)
| SyncRoutes (tun_addrs allowed : list IpNet).

End events.
