(* ===== verification/RouterLoop.v ===== *)
(** * Router actor

    Models the loop of [spawn_router] in [src/src/router.rs] as a step function on
    the branch taken: the two data-plane channels, the control inbox and the metrics
    ticker.  The batch handlers are those of [Router]. *)

From S2P Require Import Prelude Net Packet Config Channel Metrics Routing Router Events.
#[local] Open Scope Z_scope.

Section loop.
Context {L : IpNetLib} {T : TrieLib L} {M : Mpsc (list packet)}.

Record RouterActor : Type := {
  routing : RoutingTable;
  router_counters : Counters;
  router_world : world;
  router_emitted : list Metrics;
}.

(** [InTick owner_open]: whether the owner's inbox accepts the metrics. *)
Inductive RouterInput : Type :=
| InOutput (batch : option (list packet))
| InIngress (batch : option (list packet))
| InMessage (message : option Event)
| InTick (owner_open : bool).

(** The actor before its first iteration. *)
Definition router_start (t : RoutingTable) (w : world) : RouterActor :=
  {| routing := t; router_counters := counters_new Metrics.Router Rx; router_world := w; router_emitted := [] |}.

Definition with_routing (a : RouterActor) (t : RoutingTable) : RouterActor :=
  {| routing := t; router_counters := router_counters a; router_world := router_world a;
     router_emitted := router_emitted a |}.

Definition with_data (a : RouterActor) (cw : Counters * world) : RouterActor :=
  {| routing := routing a; router_counters := cw.1; router_world := cw.2; router_emitted := router_emitted a |}.

(** One iteration; [None]: the actor returned.  The loop of [handle_ingress_batch]
    never runs out of its fuel ([Router]). *)
Definition router_step (input_tx : Sender) (i : RouterInput) (a : RouterActor) : outcome (option RouterActor) :=
  match i with
  | InOutput None | InIngress None => Ret None
  | InOutput (Some packets) =>
      match handle_output_batch packets (routing a) (router_counters a) (router_world a) with
      | Ret cw => Ret (Some (with_data a cw))
      | Panic => Panic
      end
  | InIngress (Some packets) =>
      match handle_ingress_batch packets (routing a) input_tx (router_counters a) (router_world a) with
      | Ret (Some cw) => Ret (Some (with_data a cw))
      | Ret None | Panic => Panic
      end
  | InMessage (Some (UpdateRouting t)) => Ret (Some (with_routing a t))
  | InMessage (Some Stop) | InMessage None => Ret None
  | InMessage (Some _) => Ret (Some a)
  | InTick owner_open =>
      Ret (if owner_open : bool then
             Some {| routing := routing a; router_counters := router_counters a; router_world := router_world a;
                     router_emitted := router_emitted a ++ [snapshot (router_counters a) None None] |}
           else None)
  end.

Fixpoint router_run (input_tx : Sender) (ins : list RouterInput) (a : RouterActor) : outcome (option RouterActor) :=
  match ins with
  | [] => Ret (Some a)
  | i :: ins =>
      match router_step input_tx i a with
      | Ret (Some a) => router_run input_tx ins a
      | Ret None => Ret None
      | Panic => Panic
      end
  end.

(** The table an input installs. *)
Definition installs (i : RouterInput) : option RoutingTable :=
  match i with InMessage (Some (UpdateRouting t)) => Some t | _ => None end.

Lemma router_step_routing input_tx i a a' :
  router_step input_tx i a = Ret (Some a') -> routing a' = default (routing a) (installs i).
Proof.
  destruct i as [[b |] | [b |] | [[] |] | []]; cbn [router_step installs]; intros H; try done;
    try (by injection H as <-).
  - destruct (handle_output_batch _ _ _ _); [by injection H as <- | done].
  - destruct (handle_ingress_batch _ _ _ _ _) as [[cw |] |]; [by injection H as <- | done | done].
Qed.

(** The table in use is always the last one received. *)
Lemma router_run_latest input_tx ins a a' :
  router_run input_tx ins a = Ret (Some a') -> routing a' = default (routing a) (last (omap installs ins)).
Proof.
  revert a. induction ins as [| i ins IH]; intros a H; [by injection H as <- |]. cbn [router_run] in H.
  destruct (router_step input_tx i a) as [[a1 |] |] eqn:Hs; [| done | done]. apply router_step_routing in Hs.
  apply IH in H. rewrite H, Hs. cbn. destruct (installs i) as [t |]; [| done].
  rewrite last_cons. by destruct (last (omap installs ins)).
Qed.
End loop.
