(* ===== verification/Orch.v ===== *)
(** * Orchestrator

    Models [src/src/orch.rs]: the peer entries with their connections and dial
    states, the handlers of the orchestrator, and its event loop as a step function
    on the branch taken.  Every step is given the time and which packet channels are
    closed ([closed]); what it sends to other actors is its list of outputs.  A
    failed [ctx.send] is only logged, so an output is an attempt to send.  A
    [HashMap] is iterated in an unspecified order; the model iterates [map_to_list].
    The setup before the first state is in [Start], the dial tasks in [Dial]. *)

From stdpp Require Import countable.
From S2P Require Import Prelude Net Config Channel Metrics Routing Events.
#[local] Open Scope Z_scope.

#[export] Instance Source_countable : Countable Source.
Proof.
  refine (inj_countable'
    (fun s => match s with Tun => (true, true) | BareUdp => (true, false) | Http3 => (false, true) | Router => (false, false) end)
    (fun p => match p with (true, true) => Tun | (true, false) => BareUdp | (false, true) => Http3 | (false, false) => Router end) _).
  by intros [].
Defined.

#[export] Instance Direction_countable : Countable Direction.
Proof.
  refine (inj_countable' (fun d => match d with Rx => true | Tx => false end)
            (fun b : bool => if b then Rx else Tx) _).
  by intros [].
Defined.

#[export] Instance Labels_countable : Countable Labels.
Proof.
  refine (inj_countable' (fun l => (lab_source l, lab_direction l, lab_peer_id l, lab_remote_addr l))
    (fun p => let '(s, d, i, a) := p in
       {| lab_source := s; lab_direction := d; lab_peer_id := i; lab_remote_addr := a |}) _).
  by intros [].
Defined.

(** ** Peer entries *)

Record ActiveConn : Type := {
  ac_endpoint : option Endpoint;
  dest : SocketAddr;
  ac_tx : Sender;
  rx_metrics : option Metrics;
  tx_metrics : option Metrics;
}.

Record DialState : Type := { attempt : Z; next_allowed_at : Z; in_flight : bool }.

(** [DialState::new_in_flight]. *)
Definition new_in_flight (now : Z) : DialState := {| attempt := 0; next_allowed_at := now; in_flight := true |}.

(** [DialState::record_failure]. *)
Definition backoff_delay (backoff_min backoff_max attempt : Z) : Z :=
  let multiplier := Z.shiftl 1 (Z.min attempt 30) in
  Z.min backoff_max (saturating_mul duration_max backoff_min multiplier).

Definition record_failure (now backoff_min backoff_max : Z) (s : DialState) : DialState :=
  {| attempt := saturating_add u32_max (attempt s) 1;
     next_allowed_at := now + backoff_delay backoff_min backoff_max (attempt s);
     in_flight := false |}.

Section orch.
Context {L : IpNetLib} {T : TrieLib L}.

Record PeerEntry : Type := {
  config : Peer;
  bounds : list ActiveConn;
  resolved_ips : gset IpAddr;
  dials : gmap IpAddr DialState;
}.

(** [PeerEntry::new]. *)
Definition entry_new (p : Peer) : PeerEntry :=
  {| config := p; bounds := []; resolved_ips := ∅; dials := ∅ |}.

(** [preferred_tx]. *)
Definition preferred_tx (e : PeerEntry) : option Sender := ac_tx <$> head (bounds e).

(** [config_endpoint]. *)
Definition config_endpoint (e : PeerEntry) : option Endpoint :=
  match p_transport (config e) with
  | TransportBare bare => Some (Udp (pbare_endpoint bare))
  | TransportH3 h3 => H3 <$> ph3_endpoint h3
  end.

(** The predicate [prune] retains bounds with. *)
Definition bound_valid (closed : Sender -> bool) (e : PeerEntry) (b : ActiveConn) : bool :=
  if closed (ac_tx b) then false
  else match ac_endpoint b with
       | None => true
       | Some bound_ep =>
           if decide (config_endpoint e <> Some bound_ep) then false
           else bool_decide (sa_ip (dest b) ∈ resolved_ips e)
       end.

(** [prune]: the entry and whether the preferred channel changed. *)
Definition prune (closed : Sender -> bool) (e : PeerEntry) : PeerEntry * bool :=
  let old_first_tx := preferred_tx e in
  let bounds' := filter (fun b => bound_valid closed e b = true) (bounds e) in
  let e' := {| config := config e; bounds := bounds'; resolved_ips := resolved_ips e;
               dials := filter (fun d => d.1 ∈ resolved_ips e) (dials e) |} in
  (e', match old_first_tx, head bounds' with
       | Some old, Some new => negb (same_channel old (ac_tx new))
       | None, None => false
       | _, _ => true
       end).

(** [try_connect]: the entry and the addresses dialled. *)
Definition dial_allowed (now : Z) (e : PeerEntry) (ip : IpAddr) : bool :=
  match dials e !! ip with
  | Some state => if in_flight state then false else negb (now <? next_allowed_at state)
  | None => true
  end.

Definition covered_ips (e : PeerEntry) : gset IpAddr := list_to_set ((fun b => sa_ip (dest b)) <$> bounds e).

Definition uncovered (now : Z) (e : PeerEntry) : list IpAddr :=
  filter (fun ip => dial_allowed now e ip = true) (elements (resolved_ips e ∖ covered_ips e)).

Definition mark_in_flight (now : Z) (ds : gmap IpAddr DialState) (ip : IpAddr) : gmap IpAddr DialState :=
  <[ip := match ds !! ip with
          | Some s => {| attempt := attempt s; next_allowed_at := next_allowed_at s; in_flight := true |}
          | None => new_in_flight now
          end]> ds.

Definition try_connect (now : Z) (e : PeerEntry) : PeerEntry * list IpAddr :=
  let ips := uncovered now e in
  ({| config := config e; bounds := bounds e; resolved_ips := resolved_ips e;
      dials := foldl (mark_in_flight now) (dials e) ips |}, ips).

(** [strip_ipv6_brackets] and [peer_dns_hostname]. *)
Definition strip_ipv6_brackets (host : rstr) : rstr :=
  trim_end_matches (fun c => c =? 93) (trim_start_matches (fun c => c =? 91) host).

Definition peer_dns_hostname (p : Peer) : option rstr :=
  match p_transport p with
  | TransportBare bare => Some (udp_host (pbare_endpoint bare))
  | TransportH3 h3 => (fun ep => strip_ipv6_brackets (h3_host ep)) <$> ph3_endpoint h3
  end.

(** [collect_allowed_ips] and [collect_hostnames]. *)
Definition collect_allowed_ips (peers : list Peer) : list IpNet := peers ≫= fun p => allowed_ips (p_tun p).
Definition collect_hostnames (peers : list Peer) : gset rstr := list_to_set (omap peer_dns_hostname peers).

(** ** The orchestrator *)

(** The actor references that may be absent are flags; [router] and [dns] always
    exist. *)
Record Orchestrator : Type := {
  o_tun_if : rstr;
  o_tun_mtu : Z;
  o_tuning : Tuning;
  peers : gmap rstr PeerEntry;
  has_bare_rx : bool;
  has_h3_listener : bool;
  has_route : bool;
  input_tx : Sender;
  o_local : Local;
  non_peer_metrics : gmap Labels Metrics;
}.

Definition with_peers (o : Orchestrator) (ps : gmap rstr PeerEntry) : Orchestrator :=
  {| o_tun_if := o_tun_if o; o_tun_mtu := o_tun_mtu o; o_tuning := o_tuning o; peers := ps;
     has_bare_rx := has_bare_rx o; has_h3_listener := has_h3_listener o; has_route := has_route o;
     input_tx := input_tx o; o_local := o_local o; non_peer_metrics := non_peer_metrics o |}.

Definition with_metrics (o : Orchestrator) (ms : gmap Labels Metrics) : Orchestrator :=
  {| o_tun_if := o_tun_if o; o_tun_mtu := o_tun_mtu o; o_tuning := o_tuning o; peers := peers o;
     has_bare_rx := has_bare_rx o; has_h3_listener := has_h3_listener o; has_route := has_route o;
     input_tx := input_tx o; o_local := o_local o; non_peer_metrics := ms |}.

Inductive Reply : Type :=
| ReplyConfig (c : Config)
| ReplyPeers (r : result Config (list ValidationError))
| ReplyMetrics (snapshot : gmap Labels Metrics).

(** What a step does outside the orchestrator's own state. *)
Inductive OrchOut : Type :=
| ToBareRx (event : Event)
| ToH3Listener (event : Event)
| ToDns (event : Event)
| ToRouter (event : Event)
| ToRoute (event : Event)
| RoutingNotUpdated (e : RoutingError)
| SpawnDial (transport : PeerTransport) (dial : DialContext)
| SendReply (reply_tx : ReplyTx) (r : Reply).

(** [peer_configs]. *)
Definition peer_configs (o : Orchestrator) : list Peer := (map_to_list (config <$> peers o)).*2.

(** [update_accepted_sources]. *)
Definition accepted_sources (ps : gmap rstr PeerEntry) : gset IpAddr :=
  ⋃ ((fun ie : rstr * PeerEntry =>
    match p_transport (config ie.2) with
    | TransportBare _ => resolved_ips ie.2
    | TransportH3 _ => ∅
    end) <$> map_to_list ps).

Definition update_accepted_sources (o : Orchestrator) : list OrchOut :=
  if has_bare_rx o then [ToBareRx (UpdateAcceptedSources (accepted_sources (peers o)))] else [].

(** [sync_peers_to_actors]. *)
Definition peer_tokens (configs : list Peer) : gmap rstr rstr :=
  list_to_map (omap (fun p =>
    match p_transport p with
    | TransportH3 h3 => Some (p_id p, ph3_token h3)
    | TransportBare _ => None
    end) configs).

Definition sync_peers_to_actors (o : Orchestrator) : list OrchOut :=
  (if has_h3_listener o then [ToH3Listener (UpdatePeerTokens (peer_tokens (peer_configs o)))] else []) ++
  [ToDns (SetHostnames (collect_hostnames (peer_configs o)))].

(** [update_routing]. *)
Definition peer_txs (o : Orchestrator) : gmap rstr Sender := omap preferred_tx (peers o).

Definition build_routing (o : Orchestrator) : result RoutingTable RoutingError :=
  routing_make (peer_configs o) (peer_txs o) (l_tun (o_local o)) (input_tx o).

Definition update_routing (o : Orchestrator) : list OrchOut :=
  [match build_routing o with
   | Ok routing => ToRouter (UpdateRouting routing)
   | Err e => RoutingNotUpdated e
   end] ++
  (if has_route o
   then [ToRoute (SyncRoutes (addrs (l_tun (o_local o))) (collect_allowed_ips (peer_configs o)))] else []).

(** The end of [Orchestrator::new]: the state built from the configuration
    ([route_ok]: the route actor could be made), and the first synchronisation. *)
Definition orch_new (c : Config) (route_ok : bool) (tun_tx : Sender) : Orchestrator * list OrchOut :=
  let o :=
    {| o_tun_if := ifname (l_tun (c_local c)); o_tun_mtu := mtu (l_tun (c_local c)); o_tuning := c_tuning c;
       peers := list_to_map ((fun p => (p_id p, entry_new p)) <$> rev (c_peers c));
       has_bare_rx := bool_decide (is_Some (l_bare (c_local c)));
       has_h3_listener := bool_decide (is_Some (l_h3 (c_local c)));
       has_route := l_table (c_local c) && route_ok;
       input_tx := tun_tx; o_local := c_local c; non_peer_metrics := ∅ |} in
  (o, sync_peers_to_actors o).

(** The dials [try_connect] spawns for an entry. *)
Definition spawn_dials (o : Orchestrator) (e : PeerEntry) (ips : list IpAddr) : list OrchOut :=
  (fun ip => SpawnDial (p_transport (config e))
    {| dial_peer_id := p_id (config e); dial_ip := ip; dial_tun_if := o_tun_if o;
       dial_tun_mtu := o_tun_mtu o; dial_tuning := o_tuning o |}) <$> ips.

(** [prune] followed by [try_connect] on every entry: the peers, whether a preferred
    channel changed, and the dials. *)
Definition refresh_entry (now : Z) (closed : Sender -> bool) (e : PeerEntry) : PeerEntry * bool * list IpAddr :=
  let '(e, changed) := prune closed e in
  let '(e, ips) := try_connect now e in
  (e, changed, ips).

Definition refresh_peers (now : Z) (closed : Sender -> bool) (o : Orchestrator) :
    Orchestrator * bool * list OrchOut :=
  let refreshed := refresh_entry now closed <$> peers o in
  (with_peers o ((fun r => r.1.1) <$> refreshed),
   existsb (fun ir => ir.2.1.2) (map_to_list refreshed),
   map_to_list refreshed ≫= fun ir => spawn_dials o ir.2.1.1 ir.2.2).

(** [reconcile]. *)
Definition reconcile (now : Z) (closed : Sender -> bool) (o : Orchestrator) : Orchestrator * list OrchOut :=
  let '(o, routing_changed, outs) := refresh_peers now closed o in
  (o, outs ++ if (routing_changed : bool) then update_routing o else []).

(** [handle_actor_exit]. *)
Definition handle_actor_exit (now : Z) (closed : Sender -> bool) (exit : ActorExit) (o : Orchestrator) :
    result unit anyhow * Orchestrator * list OrchOut :=
  match exit_policy exit with
  | Critical =>
      let tick := lit "`" in
      (Err (match exit_result exit with
       | Ok (Err actor_error) => (lit "critical actor `" ++ exit_name exit ++ lit "` failed") :: actor_error
       | Ok (Ok _) => [lit "critical actor `" ++ exit_name exit ++ lit "` exited unexpectedly"]
       | Err error => [lit "join critical actor `" ++ exit_name exit ++ tick; error]
       end), o, [])
  | Restartable => let '(o, outs) := reconcile now closed o in (Ok tt, o, outs)
  | Detached => (Ok tt, o, [])
  end.

(** [collect_metrics_snapshot]. *)
Definition bound_metrics (b : ActiveConn) : list Metrics :=
  omap id [rx_metrics b; tx_metrics b].

Definition collect_metrics_snapshot (o : Orchestrator) : gmap Labels Metrics :=
  foldl (fun s m => <[m_labels m := m]> s) (non_peer_metrics o)
    (map_to_list (peers o) ≫= fun ie => bounds ie.2 ≫= bound_metrics).

(** [config_snapshot]. *)
Definition config_snapshot (o : Orchestrator) : Config :=
  {| c_local := o_local o; c_tuning := o_tuning o; c_peers := peer_configs o |}.

(** [handle_post_config]. *)
Definition merged_peers (o : Orchestrator) (new_peers : list Peer) : gmap rstr Peer :=
  foldl (fun m p => <[p_id p := p]> m) (config <$> peers o) new_peers.

Definition upsert (ps : gmap rstr PeerEntry) (p : Peer) : gmap rstr PeerEntry :=
  match ps !! p_id p with
  | Some existing =>
      <[p_id p := {| config := p; bounds := bounds existing; resolved_ips := resolved_ips existing;
                     dials := dials existing |}]> ps
  | None => <[p_id p := entry_new p]> ps
  end.

Definition handle_post_config (new_peers : list Peer) (o : Orchestrator) :
    result unit (list ValidationError) * Orchestrator * list OrchOut :=
  match validate_peers ((map_to_list (merged_peers o new_peers)).*2) with
  | Err e => (Err e, o, [])
  | Ok _ =>
      let o := with_peers o (foldl upsert (peers o) new_peers) in
      (Ok tt, o, sync_peers_to_actors o)
  end.

(** [handle_delete_config]. *)
Definition handle_delete_config (peer_ids : list rstr) (o : Orchestrator) : Orchestrator * list OrchOut :=
  let before := size (peers o) in
  let o := with_peers o (foldl (fun ps id => delete id ps) (peers o) peer_ids) in
  (o, if decide (size (peers o) < before)%nat then sync_peers_to_actors o else []).

(** [handle_dns_snapshot]. *)
Definition set_resolved (state : gmap rstr (gset IpAddr)) (e : PeerEntry) : PeerEntry :=
  {| config := config e; bounds := bounds e;
     resolved_ips := default ∅ (h ← peer_dns_hostname (config e); state !! h);
     dials := dials e |}.

Definition handle_dns_snapshot (now : Z) (closed : Sender -> bool) (ev : DnsEvent) (o : Orchestrator) :
    Orchestrator * list OrchOut :=
  let o := with_peers o (set_resolved (dns_state ev) <$> peers o) in
  let '(o, _, outs) := refresh_peers now closed o in
  (o, outs ++ update_accepted_sources o ++ update_routing o).

(** [update_bound]. *)
Definition add_bound (endpoint : option Endpoint) (d : SocketAddr) (tx : Sender) (e : PeerEntry) : PeerEntry :=
  {| config := config e;
     bounds := bounds e ++ [{| ac_endpoint := endpoint; dest := d; ac_tx := tx;
                               rx_metrics := None; tx_metrics := None |}];
     resolved_ips := resolved_ips e;
     dials := match endpoint with Some _ => delete (sa_ip d) (dials e) | None => dials e end |}.

Definition update_bound (closed : Sender -> bool) (peer_id : rstr) (endpoint : option Endpoint)
    (d : SocketAddr) (tx : Sender) (o : Orchestrator) : Orchestrator * list OrchOut :=
  match peers o !! peer_id with
  | None => (o, [])
  | Some entry =>
      let was_empty := bool_decide (bounds entry = []) in
      let '(entry', first_changed) := prune closed (add_bound endpoint d tx entry) in
      let o := with_peers o (<[peer_id := entry']> (peers o)) in
      (o, if was_empty || first_changed then update_routing o else [])
  end.

(** [handle_connected]. *)
Definition handle_connected (closed : Sender -> bool) (ev : ConnectedEvent) (o : Orchestrator) :
    Orchestrator * list OrchOut :=
  update_bound closed (conn_peer_id ev) (conn_endpoint ev) (conn_remote_addr ev) (conn_tx ev) o.

(** [handle_dial_failed]. *)
Definition handle_dial_failed (now : Z) (ev : DialFailedEvent) (o : Orchestrator) : Orchestrator :=
  match peers o !! failed_peer_id ev with
  | None => o
  | Some entry =>
      match dials entry !! failed_ip ev with
      | None => o
      | Some state =>
          let state' := record_failure now (reconnect_backoff_min (o_tuning o))
                          (reconnect_backoff_max (o_tuning o)) state in
          with_peers o (<[failed_peer_id ev :=
            {| config := config entry; bounds := bounds entry; resolved_ips := resolved_ips entry;
               dials := <[failed_ip ev := state']> (dials entry) |}]> (peers o))
      end
  end.

(** The [Event::Metrics] branch of [handle_event]. *)
Definition set_bound_metrics (m : Metrics) (b : ActiveConn) : ActiveConn :=
  {| ac_endpoint := ac_endpoint b; dest := dest b; ac_tx := ac_tx b;
     rx_metrics := match lab_direction (m_labels m) with Rx => Some m | Tx => rx_metrics b end;
     tx_metrics := match lab_direction (m_labels m) with Rx => tx_metrics b | Tx => Some m end |}.

Fixpoint update_first (addr : SocketAddr) (m : Metrics) (bs : list ActiveConn) : list ActiveConn :=
  match bs with
  | [] => []
  | b :: bs' => if decide (dest b = addr) then set_bound_metrics m b :: bs' else b :: update_first addr m bs'
  end.

Definition handle_metrics (m : Metrics) (o : Orchestrator) : Orchestrator :=
  match lab_peer_id (m_labels m), lab_remote_addr (m_labels m) with
  | Some pid, Some addr =>
      match peers o !! pid with
      | None => o
      | Some e =>
          with_peers o (<[pid := {| config := config e; bounds := update_first addr m (bounds e);
                                    resolved_ips := resolved_ips e; dials := dials e |}]> (peers o))
      end
  | _, _ => with_metrics o (<[m_labels m := m]> (non_peer_metrics o))
  end.

(** [handle_event]; [Stop] is handled by the loop. *)
Definition handle_event (now : Z) (closed : Sender -> bool) (message : Event) (o : Orchestrator) :
    outcome (result unit anyhow * Orchestrator * list OrchOut) :=
  match message with
  | ActorExited exit => Ret (handle_actor_exit now closed exit o)
  | Dns ev => let '(o, outs) := handle_dns_snapshot now closed ev o in Ret (Ok tt, o, outs)
  | GetConfig reply_tx => Ret (Ok tt, o, [SendReply reply_tx (ReplyConfig (config_snapshot o))])
  | PostConfig ps reply_tx =>
      let '(r, o, outs) := handle_post_config ps o in
      let r := match r with Ok _ => Ok (config_snapshot o) | Err e => Err e end in
      Ret (Ok tt, o, outs ++ [SendReply reply_tx (ReplyPeers r)])
  | DeleteConfig ids reply_tx =>
      let '(o, outs) := handle_delete_config ids o in
      Ret (Ok tt, o, outs ++ [SendReply reply_tx (ReplyPeers (Ok (config_snapshot o)))])
  | GetMetricsSnapshot reply_tx =>
      Ret (Ok tt, o, [SendReply reply_tx (ReplyMetrics (collect_metrics_snapshot o))])
  | MetricsEvent m => Ret (Ok tt, handle_metrics m o, [])
  | Connected ev => let '(o, outs) := handle_connected closed ev o in Ret (Ok tt, o, outs)
  | DialFailed ev => Ret (Ok tt, handle_dial_failed now ev o, [])
  | Stop => Panic
  | _ => Ret (Ok tt, o, [])
  end.

(** ** The event loop: one iteration of [run] on the branch taken. *)
Inductive OrchInput : Type :=
| InMessage (message : option Event)
| InReconcileTick
| InMetricsLogTick
| InDrive (r : result unit rstr)
| InShutdown.

Inductive OrchNext : Type :=
| Continue (o : Orchestrator) (outs : list OrchOut)
| Exit (r : result unit anyhow).

Definition run_step (now : Z) (closed : Sender -> bool) (i : OrchInput) (o : Orchestrator) : outcome OrchNext :=
  match i with
  | InMessage (Some Stop) | InMessage None => Ret (Exit (Ok tt))
  | InMessage (Some message) =>
      '(r, o, outs) ← handle_event now closed message o;
      Ret (match r with Ok _ => Continue o outs | Err e => Exit (Err e) end)
  | InReconcileTick => let '(o, outs) := reconcile now closed o in Ret (Continue o outs)
  | InMetricsLogTick => Ret (Continue o [])
  | InDrive (Ok _) => Ret (Continue o [])
  | InDrive (Err e) => Ret (Exit (Err [lit "drive actor bus"; e]))
  | InShutdown => Ret (Exit (Ok tt))
  end.

(** ** What the other actors were last told *)

Record Downstream : Type := {
  d_hosts : gset rstr;
  d_tokens : gmap rstr rstr;
  d_routing : option (result RoutingTable RoutingError);
  d_pending : bool;
}.

(** [d_pending]: hostnames were sent after the last routing build, so a DNS snapshot
    is due. *)
Definition apply_out (d : Downstream) (out : OrchOut) : Downstream :=
  match out with
  | ToDns (SetHostnames hosts) =>
      {| d_hosts := hosts; d_tokens := d_tokens d; d_routing := d_routing d; d_pending := true |}
  | ToH3Listener (UpdatePeerTokens tokens) =>
      {| d_hosts := d_hosts d; d_tokens := tokens; d_routing := d_routing d; d_pending := d_pending d |}
  | ToRouter (UpdateRouting r) =>
      {| d_hosts := d_hosts d; d_tokens := d_tokens d; d_routing := Some (Ok r); d_pending := false |}
  | RoutingNotUpdated e =>
      {| d_hosts := d_hosts d; d_tokens := d_tokens d; d_routing := Some (Err e); d_pending := false |}
  | _ => d
  end.

Definition downstream_new : Downstream := {| d_hosts := ∅; d_tokens := ∅; d_routing := None; d_pending := false |}.

(** States the loop can reach, with what was sent so far. *)
Inductive orch_reach (c : Config) : Orchestrator -> Downstream -> Prop :=
| orch_start route_ok tun_tx o outs :
    orch_new c route_ok tun_tx = (o, outs) -> orch_reach c o (foldl apply_out downstream_new outs)
| orch_next o d now closed i o' outs :
    orch_reach c o d -> run_step now closed i o = Ret (Continue o' outs) ->
    orch_reach c o' (foldl apply_out d outs).

(** What the routing table is built from. *)
Definition same_routing (o o' : Orchestrator) : Prop :=
  config <$> peers o' = config <$> peers o /\ peer_txs o' = peer_txs o /\
  l_tun (o_local o') = l_tun (o_local o) /\ input_tx o' = input_tx o.

(** The part of the state no handler changes. *)
Definition same_frame (o o' : Orchestrator) : Prop :=
  o_local o' = o_local o /\ o_tuning o' = o_tuning o /\ input_tx o' = input_tx o /\
  has_h3_listener o' = has_h3_listener o /\ has_bare_rx o' = has_bare_rx o /\ has_route o' = has_route o.

End orch.

Section orch_lemmas.
Context {L : IpNetLib} {T : TrieLib L}.
Implicit Types (e : PeerEntry) (o : Orchestrator) (closed : Sender -> bool).

Lemma build_routing_ext o o' : same_routing o o' -> build_routing o' = build_routing o.
Proof. intros (H1 & H2 & H3 & H4). unfold build_routing, peer_configs. by rewrite H1, H2, H3, H4. Qed.

Lemma prune_config closed e : config (prune closed e).1 = config e.
Proof. done. Qed.

Lemma prune_flag closed e : (prune closed e).2 = true <-> preferred_tx (prune closed e).1 <> preferred_tx e.
Proof.
  unfold prune, preferred_tx. cbn. destruct (head (bounds e)) as [b |], (head (filter _ (bounds e))) as [b' |]; cbn;
    [| naive_solver ..].
  unfold same_channel. rewrite negb_true_iff, bool_decide_eq_false. naive_solver.
Qed.

Lemma try_connect_frame now e :
  config (try_connect now e).1 = config e /\ bounds (try_connect now e).1 = bounds e /\
  resolved_ips (try_connect now e).1 = resolved_ips e.
Proof. done. Qed.

Lemma elem_of_uncovered now e ip :
  ip ∈ uncovered now e <-> ip ∈ resolved_ips e /\ ip ∉ covered_ips e /\ dial_allowed now e ip = true.
Proof. unfold uncovered. rewrite list_elem_of_filter, elem_of_elements. set_solver. Qed.

Lemma mark_fold now ips (ds : gmap IpAddr DialState) ip :
  foldl (mark_in_flight now) ds ips !! ip =
  if decide (ip ∈ ips) then
    Some (match ds !! ip with
          | Some s => {| attempt := attempt s; next_allowed_at := next_allowed_at s; in_flight := true |}
          | None => new_in_flight now end)
  else ds !! ip.
Proof.
  revert ds. induction ips as [| x ips IH]; intros ds; cbn [foldl].
  { by rewrite decide_False by set_solver. }
  rewrite IH. unfold mark_in_flight. destruct (decide (x = ip)) as [-> | Hne].
  - rewrite lookup_insert_eq, (decide_True (P := ip ∈ ip :: ips)) by set_solver.
    case_decide; by destruct (ds !! ip).
  - rewrite !lookup_insert_ne by done. repeat case_decide; try done; set_solver.
Qed.

Lemma try_connect_dials now e ip :
  dials (try_connect now e).1 !! ip =
  if decide (ip ∈ (try_connect now e).2) then
    Some (match dials e !! ip with
          | Some s => {| attempt := attempt s; next_allowed_at := next_allowed_at s; in_flight := true |}
          | None => new_in_flight now end)
  else dials e !! ip.
Proof. apply mark_fold. Qed.

Lemma refresh_entry_config now closed e : config (refresh_entry now closed e).1.1 = config e.
Proof. done. Qed.

Lemma refresh_entry_tx now closed e :
  preferred_tx (refresh_entry now closed e).1.1 = preferred_tx (prune closed e).1.
Proof. done. Qed.

Lemma refresh_peers_config now closed o :
  config <$> peers (refresh_peers now closed o).1.1 = config <$> peers o.
Proof.
  unfold refresh_peers. cbn [fst with_peers peers]. rewrite <- !map_fmap_compose. by apply map_fmap_ext.
Qed.

Lemma refresh_peers_frame now closed o : same_frame o (refresh_peers now closed o).1.1.
Proof. done. Qed.

Lemma refresh_peers_lookup now closed o id :
  peers (refresh_peers now closed o).1.1 !! id = (fun e => (refresh_entry now closed e).1.1) <$> peers o !! id.
Proof. unfold refresh_peers. cbn [fst with_peers peers]. rewrite !lookup_fmap. by destruct (peers o !! id). Qed.

Lemma refresh_peers_unchanged now closed o :
  (refresh_peers now closed o).1.2 = false -> same_routing o (refresh_peers now closed o).1.1.
Proof.
  intros Hc. split_and!; try done; [apply refresh_peers_config |].
  unfold peer_txs. apply map_eq. intros id. rewrite !lookup_omap, refresh_peers_lookup.
  destruct (peers o !! id) as [e |] eqn:He; [| done]. cbn -[refresh_entry]. rewrite refresh_entry_tx.
  assert ((prune closed e).2 = false) as Hp.
  { unfold refresh_peers in Hc. cbn in Hc. destruct ((prune closed e).2) eqn:Hp; [| done].
    rewrite <- Hc. symmetry. apply existsb_exists.
    exists (id, refresh_entry now closed e). split.
    - apply list_elem_of_In, elem_of_map_to_list. by rewrite lookup_fmap, He.
    - exact Hp. }
  destruct (decide (preferred_tx (prune closed e).1 = preferred_tx e)) as [-> | Hne]; [done |].
  apply prune_flag in Hne. congruence.
Qed.

(** Outputs that do not change what the DNS, H3 listener and router actors hold. *)
Definition neutral (out : OrchOut) : Prop :=
  match out with
  | ToBareRx _ | ToRoute _ | SpawnDial _ _ | SendReply _ _ => True
  | _ => False
  end.

Lemma neutral_fold d outs : Forall neutral outs -> foldl apply_out d outs = d.
Proof. revert d. induction outs as [| out outs IH]; intros d H; [done |]. inversion_clear H. destruct out; try done; by apply IH. Qed.

Lemma apply_routing d o :
  foldl apply_out d (update_routing o) =
  {| d_hosts := d_hosts d; d_tokens := d_tokens d; d_routing := Some (build_routing o); d_pending := false |}.
Proof. unfold update_routing. destruct (build_routing o); by destruct (has_route o). Qed.

Lemma apply_sync d o :
  foldl apply_out d (sync_peers_to_actors o) =
  {| d_hosts := collect_hostnames (peer_configs o);
     d_tokens := if has_h3_listener o then peer_tokens (peer_configs o) else d_tokens d;
     d_routing := d_routing d; d_pending := true |}.
Proof. unfold sync_peers_to_actors. by destruct (has_h3_listener o). Qed.

Definition in_sync (o : Orchestrator) (d : Downstream) : Prop :=
  d_hosts d = collect_hostnames (peer_configs o) /\
  (has_h3_listener o = true -> d_tokens d = peer_tokens (peer_configs o)) /\
  (d_pending d = false -> d_routing d = Some (build_routing o)).

Lemma in_sync_neutral o o' d outs :
  same_routing o o' -> same_frame o o' -> Forall neutral outs -> in_sync o d -> in_sync o' (foldl apply_out d outs).
Proof.
  intros Hr Hf Hn (H1 & H2 & H3). rewrite neutral_fold by done. unfold in_sync. rewrite (build_routing_ext _ _ Hr).
  destruct Hf as (_ & _ & _ & -> & _). destruct Hr as [Hc _]. assert (peer_configs o' = peer_configs o) as -> by (unfold peer_configs; by rewrite Hc). auto.
Qed.

Lemma in_sync_routing o o' d outs :
  config <$> peers o' = config <$> peers o -> same_frame o o' -> Forall neutral outs -> in_sync o d ->
  in_sync o' (foldl apply_out d (outs ++ update_routing o')).
Proof.
  intros Hc Hf Hn (H1 & H2 & H3). rewrite foldl_app, (neutral_fold d outs), apply_routing by done. unfold in_sync. cbn.
  destruct Hf as (_ & _ & _ & -> & _). assert (peer_configs o' = peer_configs o) as -> by (unfold peer_configs; by rewrite Hc). auto.
Qed.

Lemma in_sync_sync o d outs : Forall neutral outs -> in_sync o (foldl apply_out d (sync_peers_to_actors o ++ outs)).
Proof.
  intros Hn. rewrite foldl_app, apply_sync, (neutral_fold _ outs) by done. unfold in_sync. cbn.
  split_and!; [done | | done]. by intros ->.
Qed.

Lemma spawn_dials_neutral o e ips : Forall neutral (spawn_dials o e ips).
Proof. unfold spawn_dials. apply Forall_fmap, Forall_true. done. Qed.

Lemma refresh_peers_neutral now closed o : Forall neutral (refresh_peers now closed o).2.
Proof.
  unfold refresh_peers. cbn [snd]. apply Forall_bind, Forall_true. intros ir. apply spawn_dials_neutral.
Qed.

Lemma reconcile_in_sync now closed o d :
  in_sync o d -> let '(o', outs) := reconcile now closed o in in_sync o' (foldl apply_out d outs).
Proof.
  intros Hs. unfold reconcile. pose proof (refresh_peers_config now closed o) as Hc.
  pose proof (refresh_peers_frame now closed o) as Hf. pose proof (refresh_peers_neutral now closed o) as Hn.
  pose proof (refresh_peers_unchanged now closed o) as Hu.
  destruct (refresh_peers now closed o) as [[o' changed] outs]. cbn in *. destruct changed.
  - by apply (in_sync_routing o).
  - rewrite app_nil_r. apply (in_sync_neutral o); auto.
Qed.

Lemma set_resolved_config st o :
  config <$> peers (with_peers o (set_resolved st <$> peers o)) = config <$> peers o.
Proof. cbn. rewrite <- map_fmap_compose. by apply map_fmap_ext. Qed.

Lemma dns_snapshot_in_sync now closed ev o d :
  in_sync o d -> let '(o', outs) := handle_dns_snapshot now closed ev o in in_sync o' (foldl apply_out d outs).
Proof.
  intros Hs. unfold handle_dns_snapshot. cbv zeta. set (o1 := with_peers o _).
  pose proof (refresh_peers_config now closed o1) as Hc. pose proof (refresh_peers_frame now closed o1) as Hf.
  pose proof (refresh_peers_neutral now closed o1) as Hn.
  destruct (refresh_peers now closed o1) as [[o' changed] outs]. cbn -[peers] in *.
  rewrite app_assoc. apply (in_sync_routing o); [| done | | done].
  - rewrite Hc. apply set_resolved_config.
  - apply Forall_app. split; [done |]. unfold update_accepted_sources. destruct (has_bare_rx o'); by repeat constructor.
Qed.

Lemma fmap_insert_same (ps : gmap rstr PeerEntry) id e e' :
  ps !! id = Some e -> config e' = config e -> config <$> <[id:=e']> ps = config <$> ps.
Proof. intros He Hc. rewrite fmap_insert, Hc. apply insert_id. by rewrite lookup_fmap, He. Qed.

Lemma omap_insert_same (ps : gmap rstr PeerEntry) id e e' :
  ps !! id = Some e -> preferred_tx e' = preferred_tx e -> omap preferred_tx (<[id:=e']> ps) = omap preferred_tx ps.
Proof.
  intros He Hp. apply map_eq. intros i. rewrite !lookup_omap. destruct (decide (i = id)) as [-> |].
  - by rewrite lookup_insert_eq, He.
  - by rewrite lookup_insert_ne.
Qed.

Lemma update_bound_in_sync closed pid ep dst tx o d :
  in_sync o d -> let '(o', outs) := update_bound closed pid ep dst tx o in in_sync o' (foldl apply_out d outs).
Proof.
  intros Hs. unfold update_bound. destruct (peers o !! pid) as [e |] eqn:He; [| done]. cbv zeta.
  pose proof (prune_flag closed (add_bound ep dst tx e)) as Hp.
  assert (Hc : config (prune closed (add_bound ep dst tx e)).1 = config e) by done.
  destruct (prune closed (add_bound ep dst tx e)) as [e' changed]. cbn in Hp, Hc.
  destruct (bool_decide (bounds e = []) || changed) eqn:Hd.
  - apply (in_sync_routing o _ _ []); [by apply (fmap_insert_same _ _ e) | done | done | done].
  - apply orb_false_iff in Hd as [Hne%bool_decide_eq_false Hd]. apply (in_sync_neutral o _ _ []); try done.
    split_and!; try done; [by apply (fmap_insert_same _ _ e) |]. apply (omap_insert_same _ _ e); [done |].
    transitivity (preferred_tx (add_bound ep dst tx e)).
    + destruct (decide (preferred_tx e' = preferred_tx (add_bound ep dst tx e))) as [| Hx]; [done |].
      apply Hp in Hx. congruence.
    + unfold preferred_tx. cbn. by destruct (bounds e).
Qed.

Lemma update_first_tx addr m bs : ac_tx <$> head (update_first addr m bs) = ac_tx <$> head bs.
Proof. destruct bs; cbn; [done |]. by case_decide. Qed.

Lemma handle_metrics_routing m o : same_routing o (handle_metrics m o) /\ same_frame o (handle_metrics m o).
Proof.
  unfold handle_metrics. destruct (lab_peer_id (m_labels m)) as [pid |], (lab_remote_addr (m_labels m)) as [addr |]; try done.
  destruct (peers o !! pid) as [e |] eqn:He; [| done]. split; [| done]. split_and!; try done; cbn.
  - by apply (fmap_insert_same _ _ e).
  - apply (omap_insert_same _ _ e); [done |]. apply update_first_tx.
Qed.

Lemma handle_dial_failed_routing now ev o :
  same_routing o (handle_dial_failed now ev o) /\ same_frame o (handle_dial_failed now ev o).
Proof.
  unfold handle_dial_failed. destruct (peers o !! failed_peer_id ev) as [e |] eqn:He; [| done].
  destruct (dials e !! failed_ip ev); [| done]. split; [| done]. split_and!; try done; cbn.
  - by apply (fmap_insert_same _ _ e).
  - by apply (omap_insert_same _ _ e).
Qed.

Lemma upsert_config ps p : config <$> upsert ps p = <[p_id p := p]> (config <$> ps).
Proof. unfold upsert. destruct (ps !! p_id p); by rewrite fmap_insert. Qed.

Lemma upsert_fold_config l ps :
  config <$> foldl upsert ps l = foldl (fun m p => <[p_id p := p]> m) (config <$> ps) l.
Proof. revert ps. induction l as [| p l IH]; intros ps; [done |]. cbn [foldl]. by rewrite IH, upsert_config. Qed.

Lemma delete_fold_config (l : list rstr) (ps : gmap rstr PeerEntry) :
  config <$> foldl (fun ps id => delete id ps) ps l = foldl (fun ps id => delete id ps) (config <$> ps) l.
Proof. revert ps. induction l as [| p l IH]; intros ps; [done |]. cbn [foldl]. by rewrite IH, fmap_delete. Qed.

Lemma delete_fold_lookup {V} (l : list rstr) (ps : gmap rstr V) id :
  foldl (fun ps id => delete id ps) ps l !! id = if decide (id ∈ l) then None else ps !! id.
Proof.
  revert ps. induction l as [| x l IH]; intros ps; cbn [foldl].
  { by rewrite decide_False by set_solver. }
  rewrite IH. destruct (decide (x = id)) as [-> |].
  - rewrite lookup_delete_eq, (decide_True (P := id ∈ id :: l)) by set_solver. by case_decide.
  - rewrite lookup_delete_ne by done. repeat case_decide; try done; set_solver.
Qed.

Lemma delete_fold_same {V} (l : list rstr) (ps : gmap rstr V) :
  ~ (size (foldl (fun ps id => delete id ps) ps l) < size ps)%nat -> foldl (fun ps id => delete id ps) ps l = ps.
Proof.
  revert ps. induction l as [| x l IH]; intros ps Hs; cbn [foldl] in *; [done |].
  destruct (ps !! x) as [v |] eqn:Hx.
  - exfalso. apply Hs. assert (size ps = S (size (delete x ps))) as ->.
    { rewrite map_size_delete, Hx. cbn. assert (size ps <> 0%nat); [| lia].
      intros H0%map_size_empty_inv. by rewrite H0, lookup_empty in Hx. }
    apply Nat.lt_succ_r, map_subseteq_size. apply map_subseteq_spec. intros i y.
    rewrite delete_fold_lookup. by case_decide.
  - rewrite delete_id in * by done. auto.
Qed.

Lemma post_config_in_sync ps o d :
  in_sync o d -> forall post, Forall neutral post ->
  let '(_, o', outs) := handle_post_config ps o in in_sync o' (foldl apply_out d (outs ++ post)).
Proof.
  intros Hs post Hp. unfold handle_post_config. destruct (validate_peers _); cbv zeta.
  - by apply in_sync_sync.
  - by apply (in_sync_neutral o).
Qed.

Lemma delete_config_in_sync ids o d :
  in_sync o d -> forall post, Forall neutral post ->
  let '(o', outs) := handle_delete_config ids o in in_sync o' (foldl apply_out d (outs ++ post)).
Proof.
  intros Hs post Hp. unfold handle_delete_config. cbv zeta. case_decide as Hsz.
  - by apply in_sync_sync.
  - cbn in Hsz. apply delete_fold_same in Hsz. rewrite Hsz. by apply (in_sync_neutral o).
Qed.

#[local] Arguments reconcile : simpl never.
#[local] Arguments handle_dns_snapshot : simpl never.
#[local] Arguments handle_post_config : simpl never.
#[local] Arguments handle_delete_config : simpl never.
#[local] Arguments handle_connected : simpl never.
#[local] Arguments handle_actor_exit : simpl never.
#[local] Arguments handle_metrics : simpl never.
#[local] Arguments handle_dial_failed : simpl never.
#[local] Arguments update_bound : simpl never.
#[local] Arguments refresh_peers : simpl never.
#[local] Arguments prune : simpl never.

Lemma run_step_in_sync now closed i o o' outs d :
  run_step now closed i o = Ret (Continue o' outs) -> in_sync o d -> in_sync o' (foldl apply_out d outs).
Proof.
  intros Hr Hs. destruct i as [[m |] | | | [] |]; cbn in Hr; simplify_eq; try done.
  2: { pose proof (reconcile_in_sync now closed o d Hs) as H. destruct (reconcile now closed o). by simplify_eq/=. }
  destruct m as [| exit | m | ev | ev | ev | tx | ps tx | ids tx | tx | | | | |]; cbn in Hr; simplify_eq; try done.
  - unfold handle_actor_exit in Hr. destruct (exit_policy exit); cbn in Hr; simplify_eq; [| done].
    pose proof (reconcile_in_sync now closed o d Hs) as H. destruct (reconcile now closed o). by simplify_eq/=.
  - destruct (handle_metrics_routing m o) as [H1 H2]. by apply (in_sync_neutral o _ _ []).
  - unfold handle_connected in Hr.
    pose proof (update_bound_in_sync closed (conn_peer_id ev) (conn_endpoint ev) (conn_remote_addr ev) (conn_tx ev) o d Hs) as H.
    destruct (update_bound _ _ _ _ _ _). by simplify_eq/=.
  - destruct (handle_dial_failed_routing now ev o) as [H1 H2]. by apply (in_sync_neutral o _ _ []).
  - pose proof (dns_snapshot_in_sync now closed ev o d Hs) as H. destruct (handle_dns_snapshot _ _ _ _). by simplify_eq/=.
  - pose proof (post_config_in_sync ps o d Hs) as H.
    destruct (handle_post_config ps o) as [[r o1] outs1]. simplify_eq/=. apply H. by repeat constructor.
  - pose proof (delete_config_in_sync ids o d Hs) as H.
    destruct (handle_delete_config ids o) as [o1 outs1]. simplify_eq/=. apply H. by repeat constructor.
Qed.

Lemma orch_reach_in_sync c o d : orch_reach c o d -> in_sync o d.
Proof.
  induction 1 as [route_ok tun_tx o outs Hn | o d now closed i o' outs _ IH Hs].
  - unfold orch_new in Hn. injection Hn as <- <-. rewrite <- (app_nil_r (sync_peers_to_actors _)). by apply in_sync_sync.
  - by apply (run_step_in_sync _ _ _ _ _ _ _ Hs).
Qed.

(** How a step changes the configured peers. *)
Lemma run_step_configs now closed i o o' outs :
  run_step now closed i o = Ret (Continue o' outs) ->
  config <$> peers o' = config <$> peers o \/
  (exists l, config <$> peers o' = merged_peers o l /\ validate_peers ((map_to_list (merged_peers o l)).*2) = Ok tt) \/
  (exists ids : list rstr, config <$> peers o' = foldl (fun ps id => delete id ps) (config <$> peers o) ids).
Proof.
  assert (Hrec : config <$> peers (reconcile now closed o).1 = config <$> peers o).
  { rewrite <- (refresh_peers_config now closed o). unfold reconcile. by destruct (refresh_peers now closed o) as [[]]. }
  intros Hr. destruct i as [[m |] | | | [] |]; cbn in Hr; simplify_eq; auto.
  2: { destruct (reconcile now closed o). simplify_eq/=. auto. }
  destruct m as [| exit | m | ev | ev | ev | tx | ps tx | ids tx | tx | | | | |]; cbn in Hr; simplify_eq; auto.
  - unfold handle_actor_exit in Hr. destruct (exit_policy exit); cbn in Hr; simplify_eq; auto.
    destruct (reconcile now closed o). simplify_eq/=. auto.
  - left. apply handle_metrics_routing.
  - left. unfold handle_connected, update_bound in Hr. destruct (peers o !! conn_peer_id ev) as [e |] eqn:He; [| by simplify_eq/=].
    cbn -[prune] in Hr. assert (config (prune closed (add_bound (conn_endpoint ev) (conn_remote_addr ev) (conn_tx ev) e)).1 = config e) as Hc by done.
    destruct (prune _ _) as [e' ch]. simplify_eq/=. by apply (fmap_insert_same _ _ e).
  - left. apply handle_dial_failed_routing.
  - left. unfold handle_dns_snapshot in Hr. cbv zeta in Hr.
    pose proof (refresh_peers_config now closed (with_peers o (set_resolved (dns_state ev) <$> peers o))) as Hc.
    destruct (refresh_peers _ _ _) as [[o1 ch] outs1]. simplify_eq/=. rewrite Hc. apply set_resolved_config.
  - unfold handle_post_config in Hr. destruct (validate_peers ((map_to_list (merged_peers o ps)).*2)) as [[] |] eqn:Hv; simplify_eq/=; [| auto].
    right. left. exists ps. split; [| done]. apply upsert_fold_config.
  - unfold handle_delete_config in Hr. simplify_eq/=. right. right. exists ids. apply delete_fold_config.
Qed.

Lemma peers_valid_perm ps ps' : ps ≡ₚ ps' -> peers_valid ps -> peers_valid ps'.
Proof. intros Hp. unfold peers_valid. by rewrite Hp. Qed.

Lemma peers_valid_tail p ps : peers_valid (p :: ps) -> peers_valid ps.
Proof.
  intros (H1 & H2 & H3). inversion_clear H1. rewrite fmap_cons in H2. inversion_clear H2.
  split_and!; [done .. |]. cbn in H3. destruct (peer_token p); [by inversion_clear H3 | done].
Qed.

(** The configured peers are valid and filed under their id. *)
Definition configs_ok (m : gmap rstr Peer) : Prop :=
  peers_valid ((map_to_list m).*2) /\ forall id p, m !! id = Some p -> p_id p = id.

Lemma configs_ok_delete l m : configs_ok m -> configs_ok (foldl (fun ps id => delete id ps) m l).
Proof.
  revert m. induction l as [| x l IH]; intros m Hm; [done |]. cbn [foldl]. apply IH.
  destruct (m !! x) as [p |] eqn:Hx; [| by rewrite delete_id]. destruct Hm as [H1 H2]. split.
  - apply (peers_valid_tail p). eapply peers_valid_perm; [| exact H1].
    rewrite <- (map_to_list_delete m x p) by done. done.
  - intros id q. rewrite lookup_delete_Some. intros [_ Hq]. by apply H2.
Qed.

Lemma merged_ids o l : (forall id e, peers o !! id = Some e -> p_id (config e) = id) ->
  forall id p, merged_peers o l !! id = Some p -> p_id p = id.
Proof.
  unfold merged_peers. intros H.
  assert (forall id p, (config <$> peers o) !! id = Some p -> p_id p = id) as H'.
  { intros id p. rewrite lookup_fmap. destruct (peers o !! id) eqn:He; [| done]. cbn. intros [= <-]. by apply H. }
  clear H. revert H'. generalize (config <$> peers o). induction l as [| q l IH]; intros m Hm; [done |].
  cbn [foldl]. apply IH. intros id p. rewrite lookup_insert_Some. intros [[<- <-] | [_ Hp]]; [done | by apply Hm].
Qed.

(** [s] after the new peers were put in: the last one of an id counts. *)
Definition posted (s : gmap rstr Peer) (new_peers : list Peer) (s' : gmap rstr Peer) : Prop :=
  forall id, s' !! id =
    match last (filter (fun p => p_id p = id) new_peers) with Some p => Some p | None => s !! id end.

Lemma merged_lookup (l : list Peer) (m : gmap rstr Peer) id :
  foldl (fun m p => <[p_id p := p]> m) m l !! id =
  match last (filter (fun p => p_id p = id) l) with Some p => Some p | None => m !! id end.
Proof.
  revert m. induction l as [| p l IH] using rev_ind; intros m; [done |].
  rewrite foldl_app, filter_app. cbn [foldl]. destruct (decide (p_id p = id)) as [Hid | Hne].
  - rewrite filter_cons_True, filter_nil, last_snoc by done. by rewrite <- Hid, lookup_insert_eq.
  - rewrite filter_cons_False, filter_nil, app_nil_r by done. by rewrite lookup_insert_ne, IH by done.
Qed.

Lemma merged_posted o l : posted (config <$> peers o) l (merged_peers o l).
Proof. intros id. apply merged_lookup. Qed.

Lemma posted_unique s l s1 s2 : posted s l s1 -> posted s l s2 -> s1 = s2.
Proof. intros H1 H2. apply map_eq. intros id. by rewrite H1, H2. Qed.

Lemma orch_new_configs c route_ok tun_tx :
  peers_valid (c_peers c) -> configs_ok (config <$> peers (orch_new c route_ok tun_tx).1).
Proof.
  intros Hv. cbn [orch_new fst peers]. rewrite <- list_to_map_fmap.
  assert (Hl : prod_map id config <$> ((fun p => (p_id p, entry_new p)) <$> rev (c_peers c))
               = (fun p => (p_id p, p)) <$> rev (c_peers c)).
  { rewrite <- list_fmap_compose. apply list_fmap_ext. done. }
  rewrite Hl. assert (Hp : rev (c_peers c) ≡ₚ c_peers c) by (symmetry; apply Permutation_rev).
  assert (Hnd : NoDup ((fun p => (p_id p, p)) <$> rev (c_peers c)).*1).
  { rewrite <- list_fmap_compose. change (fst ∘ (fun p : Peer => (p_id p, p))) with p_id. rewrite Hp. apply Hv. }
  split.
  - eapply peers_valid_perm; [| exact Hv]. rewrite (map_to_list_to_map _ Hnd), <- list_fmap_compose.
    change (snd ∘ (fun p : Peer => (p_id p, p))) with (@id Peer). by rewrite list_fmap_id, Hp.
  - intros i p Hi. apply elem_of_list_to_map_2, list_elem_of_fmap in Hi as (q & [= -> ->] & _). done.
Qed.

Lemma orch_reach_configs c o d : peers_valid (c_peers c) -> orch_reach c o d -> configs_ok (config <$> peers o).
Proof.
  intros Hv. induction 1 as [route_ok tun_tx o outs Hn | o d now closed i o' outs _ IH Hs].
  - replace o with (orch_new c route_ok tun_tx).1 by by rewrite Hn. by apply orch_new_configs.
  - apply run_step_configs in Hs as [-> | [(l & -> & Hl) | (ids & ->)]]; [done | | by apply configs_ok_delete].
    split; [by apply validate_peers_iff |]. apply merged_ids. intros id e He.
    apply (proj2 IH). by rewrite lookup_fmap, He.
Qed.

Lemma elem_of_accepted_sources ps ip :
  ip ∈ accepted_sources ps <->
  exists id e bare, ps !! id = Some e /\ p_transport (config e) = TransportBare bare /\ ip ∈ resolved_ips e.
Proof.
  unfold accepted_sources. rewrite elem_of_union_list. split.
  - intros (X & HX & Hip). apply list_elem_of_fmap in HX as ([id e] & -> & Hin%elem_of_map_to_list). cbn in Hip.
    destruct (p_transport (config e)) as [h3 | bare] eqn:Ht; [set_solver |]. by exists id, e, bare.
  - intros (id & e & bare & He & Ht & Hip). exists (resolved_ips e). split; [| done].
    apply list_elem_of_fmap. exists (id, e). cbn. rewrite Ht. split; [done |]. by apply elem_of_map_to_list.
Qed.

Lemma bound_valid_spec closed e b :
  bound_valid closed e b = true <->
  closed (ac_tx b) = false /\
  forall ep, ac_endpoint b = Some ep -> config_endpoint e = Some ep /\ sa_ip (dest b) ∈ resolved_ips e.
Proof.
  unfold bound_valid. destruct (closed (ac_tx b)); [naive_solver |].
  destruct (ac_endpoint b) as [ep |]; [| naive_solver]. case_decide as Hd.
  - split; [done |]. intros [_ H]. destruct (H ep eq_refl). done.
  - rewrite bool_decide_eq_true. naive_solver.
Qed.

(** ** Properties *)

(** C8: whatever events, ticks and channel closures the orchestrator sees, the DNS
    actor was last told exactly the hostnames of the configured peers and the H3
    listener exactly their tokens; and unless a change of the configured peers is
    still waiting for its DNS snapshot, the router was last sent the routing table
    built from the current peers and their preferred channels (or that build failed
    and was reported). *)
Theorem orch_downstream_in_sync c o d :
  orch_reach c o d ->
  d_hosts d = collect_hostnames (peer_configs o) /\
  (has_h3_listener o = true -> d_tokens d = peer_tokens (peer_configs o)) /\
  (d_pending d = false -> d_routing d = Some (build_routing o)).
Proof. apply orch_reach_in_sync. Qed.

(** C26: started from a valid configuration, the orchestrator's peers are valid (ids and
    tokens unique, every peer well-formed) in every state it can reach, and each
    peer is filed under its own id. *)
Theorem orch_peers_valid c o d :
  config_valid c -> orch_reach c o d ->
  peers_valid (peer_configs o) /\ forall id e, peers o !! id = Some e -> p_id (config e) = id.
Proof.
  intros Hv Hr. destruct (orch_reach_configs c o d) as [H1 H2]; [apply Hv | done |]. split; [done |].
  intros id e He. apply H2. by rewrite lookup_fmap, He.
Qed.

(** C27: a configuration update is atomic.  Let [merged] be the peers by id in which the
    last of the new peers with an id replaces the old one and the other old peers stay.
    The update is accepted exactly when [merged], old peers included, is valid; a
    rejected update changes and sends nothing; an accepted one installs [merged], keeps
    the connections, addresses and dial states of the peers that existed, and sends the
    HTTP/3 listener and the DNS actor the tokens and hostnames of the new set. *)
Theorem handle_post_config_atomic new_peers o :
  let '(r, o', outs) := handle_post_config new_peers o in
  exists merged, posted (config <$> peers o) new_peers merged /\
  (is_ok r = true <-> peers_valid ((map_to_list merged).*2)) /\
  (is_ok r = false -> o' = o /\ outs = []) /\
  (is_ok r = true ->
   config <$> peers o' = merged /\
   (forall id e, peers o !! id = Some e -> exists e', peers o' !! id = Some e' /\
      bounds e' = bounds e /\ resolved_ips e' = resolved_ips e /\ dials e' = dials e) /\
   outs = sync_peers_to_actors o').
Proof.
  unfold handle_post_config. pose proof (validate_peers_iff ((map_to_list (merged_peers o new_peers)).*2)) as Hv.
  destruct (validate_peers _) as [[] | errs]; cbn -[sync_peers_to_actors]; exists (merged_peers o new_peers);
    (split; [apply merged_posted |]).
  2: { split_and!; try done. split; [done |]. intros H%Hv. done. }
  split_and!; [tauto | done |]. intros _. split_and!; [| | done].
  - apply upsert_fold_config.
  - clear Hv. generalize (peers o). induction new_peers as [| p l IH]; intros ps id e He; [by exists e |].
    cbn [foldl]. assert (exists e1, upsert ps p !! id = Some e1 /\ bounds e1 = bounds e /\
      resolved_ips e1 = resolved_ips e /\ dials e1 = dials e) as (e1 & He1 & H1 & H2 & H3).
    { unfold upsert. destruct (decide (p_id p = id)) as [-> | Hne].
      - rewrite He, lookup_insert_eq. by eexists.
      - destruct (ps !! p_id p); rewrite lookup_insert_ne by done; by exists e. }
    destruct (IH _ _ _ He1) as (e' & He' & ? & ? & ?). exists e'. split_and!; congruence.
Qed.

(** C29: after a DNS snapshot every peer's addresses are those the snapshot gives its
    hostname; the connections that remain are the ones whose channel is open and
    that, when dialled by us, still go to the configured endpoint at a resolved
    address; and the BareUDP receiver is told to accept exactly the addresses of
    the BareUDP peers. *)
Theorem handle_dns_snapshot_reconciles now closed ev o :
  let '(o', outs) := handle_dns_snapshot now closed ev o in
  dom (peers o') = dom (peers o) /\
  (forall id e, peers o !! id = Some e -> exists e', peers o' !! id = Some e' /\ config e' = config e /\
     resolved_ips e' = default ∅ (h ← peer_dns_hostname (config e); dns_state ev !! h) /\
     forall b, b ∈ bounds e' <-> b ∈ bounds e /\ closed (ac_tx b) = false /\
       forall ep, ac_endpoint b = Some ep -> config_endpoint e = Some ep /\ sa_ip (dest b) ∈ resolved_ips e') /\
  (has_bare_rx o = true -> exists s, ToBareRx (UpdateAcceptedSources s) ∈ outs /\
     forall ip, ip ∈ s <-> exists id e bare, peers o' !! id = Some e /\
       p_transport (config e) = TransportBare bare /\ ip ∈ resolved_ips e).
Proof.
  unfold handle_dns_snapshot. cbv zeta. set (o1 := with_peers o _).
  pose proof (fun id => refresh_peers_lookup now closed o1 id) as Hl.
  assert (Hb : has_bare_rx (refresh_peers now closed o1).1.1 = has_bare_rx o) by done.
  destruct (refresh_peers now closed o1) as [[o' changed] outs]. cbn [fst] in *.
  assert (Hl' : forall id, peers o' !! id =
    (fun e => (refresh_entry now closed (set_resolved (dns_state ev) e)).1.1) <$> peers o !! id).
  { intros id. rewrite Hl. cbn. rewrite lookup_fmap. by destruct (peers o !! id). }
  split_and!.
  - apply set_eq. intros id. by rewrite !elem_of_dom, Hl', fmap_is_Some.
  - intros id e He. eexists. rewrite Hl', He. split; [done |]. split_and!; [done | done |].
    intros b. unfold refresh_entry, prune. cbn. rewrite list_elem_of_filter, bound_valid_spec. cbn. tauto.
  - intros Hbare. exists (accepted_sources (peers o')). split; [| apply elem_of_accepted_sources].
    unfold update_accepted_sources. rewrite Hb, Hbare. set_solver.
Qed.

(** [try_connect] dials each resolved address that no connection covers, no dial is
    in flight to and no backoff holds back, exactly once; the dials are marked in
    flight with their attempt counts kept, so a second call dials nothing. *)
Theorem try_connect_spec now later e :
  let '(e', ips) := try_connect now e in
  NoDup ips /\
  (forall ip, ip ∈ ips <-> ip ∈ resolved_ips e /\ (forall b, b ∈ bounds e -> sa_ip (dest b) <> ip) /\
     forall s, dials e !! ip = Some s -> in_flight s = false /\ next_allowed_at s <= now) /\
  (forall ip, ip ∈ ips -> exists s, dials e' !! ip = Some s /\ in_flight s = true /\
     attempt s = default 0 (attempt <$> dials e !! ip)) /\
  (later <= now -> (try_connect later e').2 = []).
Proof.
  pose proof (try_connect_dials now e) as Hd. destruct (try_connect now e) as [e' ips] eqn:Ht.
  cbn [fst snd] in Hd. assert (Hi : ips = uncovered now e) by by injection Ht as _ <-.
  assert (Hb : bounds e' = bounds e /\ resolved_ips e' = resolved_ips e) by (injection Ht as <- _; done).
  clear Ht. split_and!.
  - rewrite Hi. apply NoDup_filter, NoDup_elements.
  - intros ip. rewrite Hi, elem_of_uncovered. unfold covered_ips, dial_allowed.
    rewrite elem_of_list_to_set, list_elem_of_fmap.
    assert ((match dials e !! ip with
             | Some state => if in_flight state then false else negb (now <? next_allowed_at state)
             | None => true end) = true <->
            (forall s, dials e !! ip = Some s -> in_flight s = false /\ next_allowed_at s <= now)) as ->.
    { destruct (dials e !! ip) as [s |]; [| naive_solver]. destruct (in_flight s) eqn:Hf; [naive_solver |].
      rewrite negb_true_iff, Z.ltb_ge. naive_solver. }
    naive_solver.
  - intros ip Hin. rewrite Hd, decide_True by done. eexists. split; [done |]. by destruct (dials e !! ip).
  - intros Hle. cbn. destruct (uncovered later e') as [| ip l] eqn:Hu; [done |]. exfalso.
    assert (ip ∈ uncovered later e') as Hin by (rewrite Hu; set_solver).
    apply elem_of_uncovered in Hin as (H1 & H2 & H3). destruct Hb as [Hb1 Hb2].
    unfold dial_allowed in H3. rewrite Hd in H3. case_decide as Hx; [by destruct (dials e !! ip) |].
    apply Hx. rewrite Hi, elem_of_uncovered. unfold covered_ips in *. rewrite Hb1 in H2. rewrite Hb2 in H1.
    split_and!; [done | done |]. unfold dial_allowed. destruct (dials e !! ip) as [s |]; [| done].
    destruct (in_flight s); [done |]. lia.
Qed.

(** C30: after a failed dial the address is dialled again exactly when it is still
    resolved and uncovered and the backoff [min(max, min * 2^attempt)] (with the
    exponent capped at 30) has passed. *)
Theorem dial_backoff now later ev o e s :
  peers o !! failed_peer_id ev = Some e -> dials e !! failed_ip ev = Some s ->
  reconnect_backoff_max (o_tuning o) <= duration_max ->
  exists e', peers (handle_dial_failed now ev o) !! failed_peer_id ev = Some e' /\
    (failed_ip ev ∈ (try_connect later e').2 <->
     failed_ip ev ∈ resolved_ips e /\ failed_ip ev ∉ covered_ips e /\
     now + Z.min (reconnect_backoff_max (o_tuning o))
             (reconnect_backoff_min (o_tuning o) * 2 ^ Z.min (attempt s) 30) <= later).
Proof.
  intros He Hs Hmax. unfold handle_dial_failed. rewrite He, Hs. cbv zeta. cbn [peers with_peers].
  eexists. rewrite lookup_insert_eq. split; [done |]. cbn [snd try_connect]. rewrite elem_of_uncovered.
  cbn [resolved_ips]. unfold covered_ips, dial_allowed. cbn [bounds dials]. rewrite lookup_insert_eq.
  cbn [in_flight next_allowed_at record_failure]. rewrite negb_true_iff, Z.ltb_ge.
  unfold backoff_delay. cbv zeta. rewrite Z.shiftl_1_l. unfold saturating_mul.
  assert (Z.min (reconnect_backoff_max (o_tuning o))
    (Z.min duration_max (reconnect_backoff_min (o_tuning o) * 2 ^ Z.min (attempt s) 30)) =
    Z.min (reconnect_backoff_max (o_tuning o)) (reconnect_backoff_min (o_tuning o) * 2 ^ Z.min (attempt s) 30)) as -> by lia.
  done.
Qed.

(** Handling the connected event of a dial clears the dial of its address; when the peer still has
    the endpoint and the address and the channel is open, the connection is listed, the
    peer has a preferred channel and the address is not dialled again. *)
Lemma handle_connected_clears closed ev o e ep :
  peers o !! conn_peer_id ev = Some e -> conn_endpoint ev = Some ep ->
  exists e', peers (handle_connected closed ev o).1 !! conn_peer_id ev = Some e' /\
    e' = (prune closed (add_bound (conn_endpoint ev) (conn_remote_addr ev) (conn_tx ev) e)).1 /\
    dials e' !! sa_ip (conn_remote_addr ev) = None.
Proof.
  intros He Hep. unfold handle_connected, update_bound. rewrite He.
  destruct (prune closed _) as [e' ch] eqn:Hp. exists e'. cbn [fst peers with_peers]. rewrite lookup_insert_eq.
  split; [done |]. split; [done |]. unfold prune in Hp. injection Hp as <- _. cbn [dials add_bound]. rewrite Hep.
  rewrite map_lookup_filter_None. left. by rewrite lookup_delete_eq.
Qed.

Lemma handle_connected_covers closed ev o e ep later :
  peers o !! conn_peer_id ev = Some e -> conn_endpoint ev = Some ep -> config_endpoint e = Some ep ->
  sa_ip (conn_remote_addr ev) ∈ resolved_ips e -> closed (conn_tx ev) = false ->
  exists e', peers (handle_connected closed ev o).1 !! conn_peer_id ev = Some e' /\
    (exists b, b ∈ bounds e' /\ dest b = conn_remote_addr ev /\ ac_tx b = conn_tx ev) /\
    is_Some (preferred_tx e') /\ dials e' !! sa_ip (conn_remote_addr ev) = None /\
    sa_ip (conn_remote_addr ev) ∉ (try_connect later e').2.
Proof.
  intros He Hep Hcfg Hip Hcl. destruct (handle_connected_clears closed ev o e ep He Hep) as (e' & Hl & He' & Hd).
  exists e'. split; [done |].
  set (b := {| ac_endpoint := conn_endpoint ev; dest := conn_remote_addr ev; ac_tx := conn_tx ev;
               rx_metrics := None; tx_metrics := None |}).
  assert (b ∈ bounds e') as Hb.
  { subst e'. cbn [fst prune bounds add_bound]. apply list_elem_of_filter. split; [| set_solver].
    apply bound_valid_spec. split; [done |]. cbn. rewrite Hep. by intros ? [= <-]. }
  split_and!; [by exists b | | done |].
  - unfold preferred_tx. destruct (bounds e') as [| b0 bs]; [by apply elem_of_nil in Hb | by eexists].
  - cbn [snd try_connect]. rewrite elem_of_uncovered. intros (_ & Hn & _). apply Hn. unfold covered_ips.
    apply elem_of_list_to_set, list_elem_of_fmap. by exists b.
Qed.

End orch_lemmas.

(** ** Witnesses *)

Definition sample_config : @Config CidrNet.lib :=
  {| c_local := {| l_table := false; l_dns := {| dns_server := default_dns_server; dns_bindif := None |};
                   l_h3 := None; l_bare := None; l_api := None; l_tun := sample_tun |};
     c_tuning := Tuning_default; c_peers := sample_peers |}.

Definition sample_orch : @Orchestrator CidrNet.lib :=
  (orch_new (T := MapTrie.lib) sample_config false 0%nat).1.

Lemma sample_config_valid : config_valid sample_config.
Proof.
  apply validate_iff. by vm_compute.
Qed.

Lemma orch_downstream_in_sync_witness :
  exists o d, orch_reach (T := MapTrie.lib) sample_config o d /\
    d_hosts d = collect_hostnames (peer_configs o).
Proof.
  exists sample_orch. eexists.
  assert (H : orch_reach (T := MapTrie.lib) sample_config sample_orch
    (foldl apply_out downstream_new (orch_new sample_config false 0%nat).2)).
  { by apply (orch_start _ false 0%nat). }
  split; [exact H | apply (orch_downstream_in_sync _ _ _ H)].
Defined.

Lemma orch_peers_valid_witness :
  exists o d, orch_reach (T := MapTrie.lib) sample_config o d /\ peers_valid (peer_configs o).
Proof.
  exists sample_orch. eexists.
  assert (H : orch_reach (T := MapTrie.lib) sample_config sample_orch
    (foldl apply_out downstream_new (orch_new sample_config false 0%nat).2)).
  { by apply (orch_start _ false 0%nat). }
  split; [exact H | apply (orch_peers_valid _ _ _ sample_config_valid H)].
Defined.

(** A peer with one resolved address whose dial failed twice before. *)
Definition sample_entry : @PeerEntry CidrNet.lib :=
  {| config := sample_peer "a" []; bounds := []; resolved_ips := {[V4 1]};
     dials := {[ V4 1 := {| attempt := 2; next_allowed_at := 0; in_flight := true |} ]} |}.
Definition sample_dialing : @Orchestrator CidrNet.lib := with_peers sample_orch {[ lit "a" := sample_entry ]}.
Definition sample_failed : DialFailedEvent := {| failed_peer_id := lit "a"; failed_ip := V4 1 |}.

Lemma dial_backoff_witness :
  exists e', peers (handle_dial_failed 0 sample_failed sample_dialing) !! lit "a" = Some e' /\
    V4 1 ∈ (try_connect (from_secs 60) e').2 /\ V4 1 ∉ (try_connect 1 e').2.
Proof.
  pose proof (fun later => dial_backoff 0 later sample_failed sample_dialing sample_entry
    {| attempt := 2; next_allowed_at := 0; in_flight := true |} eq_refl eq_refl) as H.
  destruct (H (from_secs 60) ltac:(discriminate)) as (e' & He & H1).
  destruct (H 1 ltac:(discriminate)) as (e2 & He2 & H2). rewrite He in He2. injection He2 as <-.
  exists e'. split; [exact He |]. split.
  - apply H1. split_and!; [set_solver | set_solver | by vm_compute].
  - intros (_ & _ & Hle)%H2. by vm_compute in Hle.
Defined.
