(* ===== verification/Actor.v ===== *)
(** * Actor bus

    Models the supervision of [src/src/actor.rs] as a transition system: actors with
    their inboxes and link queues, the registrations the bus has not driven yet, and
    one monitor per driven registration.  A [link] is two independent sends, a
    monitor closes the link queue, stops the actors in it and then notifies the
    owner; every interleaving of these steps is a run.  What eventually happens in fair
    runs is in [Live], the runtimes the tasks run on are in [Runtime]. *)

From stdpp Require Import countable.
From S2P Require Import Prelude Net Config Channel Metrics Routing Events.
#[local] Open Scope Z_scope.

(** An [ActorRef] is the identity of its actor. *)
Abbreviation ActorRef := nat.

Abbreviation JoinResult := (result (result unit anyhow) rstr).

(** The task and its monitor: running; finished but not seen by the monitor; the
    monitor drains the links; the owner was notified; aborted with the bus. *)
Inductive Phase : Type :=
| Running
| Finished (r : JoinResult)
| Draining (r : JoinResult)
| Reported (r : JoinResult)
| Aborted.

Section actor.
Context {L : IpNetLib} {T : TrieLib L}.

Record Actor : Type := {
  a_name : rstr;
  a_policy : SupervisionPolicy;
  a_owner : ActorRef;
  a_inbox : list Event;
  a_inbox_open : bool;
  a_links : list ActorRef;
  a_links_open : bool;
  a_phase : Phase;
  a_monitored : bool;
}.

(** [delivered] logs every event an inbox accepted and [linked] every half of a
    [link] that was executed. *)
Record Bus : Type := {
  actors : gmap ActorRef Actor;
  next_ref : ActorRef;
  registrations : list ActorRef;
  bus_open : bool;
  delivered : list (ActorRef * Event);
  linked : list (ActorRef * ActorRef);
}.

Definition with_actor (b : Bus) (a : ActorRef) (st : Actor) : Bus :=
  {| actors := <[a := st]> (actors b); next_ref := next_ref b; registrations := registrations b;
     bus_open := bus_open b; delivered := delivered b; linked := linked b |}.

Definition with_inbox (st : Actor) (inbox : list Event) : Actor :=
  {| a_name := a_name st; a_policy := a_policy st; a_owner := a_owner st; a_inbox := inbox;
     a_inbox_open := a_inbox_open st; a_links := a_links st; a_links_open := a_links_open st;
     a_phase := a_phase st; a_monitored := a_monitored st |}.

Definition with_links (st : Actor) (links : list ActorRef) (is_open : bool) (phase : Phase) : Actor :=
  {| a_name := a_name st; a_policy := a_policy st; a_owner := a_owner st; a_inbox := a_inbox st;
     a_inbox_open := a_inbox_open st; a_links := links; a_links_open := is_open;
     a_phase := phase; a_monitored := a_monitored st |}.

(** [ActorBus::mailbox]: the root actor owns itself and its link queue is closed. *)
Definition bus_new (root_name : rstr) : Bus :=
  {| actors := {[ 0%nat := {| a_name := root_name; a_policy := Critical; a_owner := 0%nat; a_inbox := [];
       a_inbox_open := true; a_links := []; a_links_open := false; a_phase := Running; a_monitored := false |} ]};
     next_ref := 1%nat; registrations := []; bus_open := true; delivered := []; linked := [] |}.

(** [ActorContext::send] and [notify_owner]: the event is dropped when the inbox is
    closed. *)
Definition bus_send (target : ActorRef) (ev : Event) (b : Bus) : Bus :=
  match actors b !! target with
  | Some st =>
      if a_inbox_open st then
        {| actors := <[target := with_inbox st (a_inbox st ++ [ev])]> (actors b); next_ref := next_ref b;
           registrations := registrations b; bus_open := bus_open b;
           delivered := delivered b ++ [(target, ev)]; linked := linked b |}
      else b
  | None => b
  end.

(** [ActorContext::spawn]: the child inherits the owner; if the bus is gone the task
    is aborted with its registration. *)
Definition spawn (parent : ActorRef) (name : rstr) (policy : SupervisionPolicy) (b : Bus) : option Bus :=
  p ← actors b !! parent;
  Some {| actors := <[next_ref b :=
       {| a_name := name; a_policy := policy; a_owner := a_owner p; a_inbox := []; a_inbox_open := bus_open b;
          a_links := []; a_links_open := bus_open b; a_phase := if bus_open b then Running else Aborted;
          a_monitored := false |}]> (actors b);
     next_ref := S (next_ref b);
     registrations := if bus_open b then registrations b ++ [next_ref b] else registrations b;
     bus_open := bus_open b; delivered := delivered b; linked := linked b |}.

(** One half of [ActorRef::link]: [a.links_tx.send(other)], or [Stop] to [other]. *)
Definition link_half (a other : ActorRef) (b : Bus) : option Bus :=
  st ← actors b !! a;
  _ ← actors b !! other;
  let b' := if a_links_open st then with_actor b a (with_links st (a_links st ++ [other]) true (a_phase st))
            else bus_send other Stop b in
  Some {| actors := actors b'; next_ref := next_ref b'; registrations := registrations b'; bus_open := bus_open b';
          delivered := delivered b'; linked := linked b' ++ [(a, other)] |}.

(** [drive]: the monitor of the next registration starts. *)
Definition drive (b : Bus) : option Bus :=
  match registrations b with
  | [] => None
  | a :: rest =>
      st ← actors b !! a;
      Some {| actors := <[a := {| a_name := a_name st; a_policy := a_policy st; a_owner := a_owner st;
                 a_inbox := a_inbox st; a_inbox_open := a_inbox_open st; a_links := a_links st;
                 a_links_open := a_links_open st; a_phase := a_phase st; a_monitored := true |}]> (actors b);
              next_ref := next_ref b; registrations := rest; bus_open := bus_open b;
              delivered := delivered b; linked := linked b |}
  end.

(** The task ends: its context, and with it the inbox, is dropped. *)
Definition task_exit (a : ActorRef) (r : JoinResult) (b : Bus) : option Bus :=
  st ← actors b !! a;
  match a_phase st with
  | Running => Some (with_actor b a
      {| a_name := a_name st; a_policy := a_policy st; a_owner := a_owner st; a_inbox := [];
         a_inbox_open := false; a_links := a_links st; a_links_open := a_links_open st;
         a_phase := Finished r; a_monitored := a_monitored st |})
  | _ => None
  end.

(** [ActorContext::recv] when a message is ready. *)
Definition recv (a : ActorRef) (b : Bus) : option (Event * Bus) :=
  st ← actors b !! a;
  match a_inbox st with
  | [] => None
  | ev :: rest => Some (ev, with_actor b a (with_inbox st rest))
  end.

(** The monitor of [drive], step by step: [task.await] and [links_rx.close()]; one
    turn of the [while] loop; the notification. *)
Definition monitor_close (a : ActorRef) (b : Bus) : option Bus :=
  st ← actors b !! a;
  match a_phase st, a_monitored st with
  | Finished r, true => Some (with_actor b a (with_links st (a_links st) false (Draining r)))
  | _, _ => None
  end.

Definition monitor_stop (a : ActorRef) (b : Bus) : option Bus :=
  st ← actors b !! a;
  match a_phase st, a_links st with
  | Draining r, l :: rest => Some (bus_send l Stop (with_actor b a (with_links st rest false (Draining r))))
  | _, _ => None
  end.

Definition exit_event (st : Actor) (r : JoinResult) : Event :=
  ActorExited {| exit_name := a_name st; exit_policy := a_policy st; exit_result := r |}.

Definition monitor_report (a : ActorRef) (b : Bus) : option Bus :=
  st ← actors b !! a;
  match a_phase st, a_links st with
  | Draining r, [] =>
      Some (bus_send (a_owner st) (exit_event st r) (with_actor b a (with_links st [] false (Reported r))))
  | _, _ => None
  end.

(** Dropping the bus cancels the monitors, and with them their tasks; this is the state
    once these cancellations have run.  The root actor is not one of them. *)
Definition abort (st : Actor) : Actor :=
  match a_phase st with
  | Reported _ => st
  | _ => {| a_name := a_name st; a_policy := a_policy st; a_owner := a_owner st; a_inbox := [];
            a_inbox_open := false; a_links := []; a_links_open := false; a_phase := Aborted;
            a_monitored := a_monitored st |}
  end.

Definition drop_bus (b : Bus) : Bus :=
  {| actors := map_imap (fun a st => Some (if decide (a = 0%nat) then st else abort st)) (actors b); next_ref := next_ref b; registrations := []; bus_open := false;
     delivered := delivered b; linked := linked b |}.

Inductive BusOp : Type :=
| OpSpawn (parent : ActorRef) (name : rstr) (policy : SupervisionPolicy)
| OpLink (a other : ActorRef)
| OpDrive
| OpExit (a : ActorRef) (r : JoinResult)
| OpSend (target : ActorRef) (ev : Event)
| OpRecv (a : ActorRef)
| OpClose (a : ActorRef)
| OpStop (a : ActorRef)
| OpReport (a : ActorRef)
| OpDrop.

Definition bus_step (op : BusOp) (b : Bus) : option Bus :=
  match op with
  | OpSpawn parent name policy => spawn parent name policy b
  | OpLink a other => link_half a other b
  | OpDrive => drive b
  | OpExit a r => if decide (a = 0%nat) then None else task_exit a r b
  | OpSend target ev => Some (bus_send target ev b)
  | OpRecv a => snd <$> recv a b
  | OpClose a => monitor_close a b
  | OpStop a => monitor_stop a b
  | OpReport a => monitor_report a b
  | OpDrop => Some (drop_bus b)
  end.

Definition bus_run (ops : list BusOp) (b : Bus) : option Bus :=
  foldl (fun ob op => b ← ob; bus_step op b) (Some b) ops.

(** [wait_for_stop] on the events that arrive: the events left after the stop. *)
Fixpoint wait_for_stop (events : list Event) : option (list Event) :=
  match events with
  | [] => None
  | Stop :: rest => Some rest
  | _ :: rest => wait_for_stop rest
  end.

(** [run_until_stopped]: the stop is polled first. *)
Definition run_until_stopped {A} (events : list Event) (operation : option A) : option (option A) :=
  match wait_for_stop events with
  | Some _ => Some None
  | None => Some <$> operation
  end.

Inductive bus_reach (root : rstr) : Bus -> Prop :=
| bus_start : bus_reach root (bus_new root)
| bus_next b op b' : bus_reach root b -> bus_step op b = Some b' -> bus_reach root b'.

(** [other] was stopped, or has ended. *)
Definition closed_inbox (b : Bus) (a : ActorRef) : Prop :=
  exists st, actors b !! a = Some st /\ a_inbox_open st = false.

Definition stopped (b : Bus) (other : ActorRef) : Prop :=
  (other, Stop) ∈ delivered b \/ closed_inbox b other.

(** The owner was told, or has ended. *)
Definition notified (b : Bus) (st : Actor) (r : JoinResult) : Prop :=
  (a_owner st, exit_event st r) ∈ delivered b \/ closed_inbox b (a_owner st).

(** Actors keep their identity and a closed inbox stays closed. *)
Definition same_actor (st st' : Actor) : Prop :=
  a_name st' = a_name st /\ a_policy st' = a_policy st /\ a_owner st' = a_owner st /\
  (a_inbox_open st = false -> a_inbox_open st' = false).

Definition grows (b b' : Bus) : Prop :=
  (forall x, x ∈ delivered b -> x ∈ delivered b') /\
  forall a st, actors b !! a = Some st -> exists st', actors b' !! a = Some st' /\ same_actor st st'.

(** The invariant of an actor: its owner and the actors in its link queue exist; once its exit is reported, its link
    queue is empty and closed and its owner was told. *)
Definition phase_ok (b : Bus) (st : Actor) : Prop :=
  (forall o, o ∈ a_links st -> is_Some (actors b !! o)) /\
  match a_phase st with
  | Running | Finished _ | Aborted => True
  | Draining _ => a_links_open st = false
  | Reported r => a_links st = [] /\ a_links_open st = false /\ notified b st r
  end.

Definition actor_ok (b : Bus) (st : Actor) : Prop := is_Some (actors b !! a_owner st) /\ phase_ok b st.

(** The invariant of a link. *)
Definition link_ok (b : Bus) (ao : ActorRef * ActorRef) : Prop :=
  is_Some (actors b !! ao.2) /\
  exists st, actors b !! ao.1 = Some st /\ (a_phase st = Aborted \/ ao.2 ∈ a_links st \/ stopped b ao.2).

Definition bus_ok (b : Bus) : Prop :=
  (forall a, is_Some (actors b !! a) -> (a < next_ref b)%nat) /\
  (forall a st, actors b !! a = Some st -> actor_ok b st) /\
  (forall ao, ao ∈ linked b -> link_ok b ao).

End actor.

Section actor_lemmas.
Context {L : IpNetLib} {T : TrieLib L}.
Implicit Types (b : Bus) (st : Actor).

#[export] Instance same_actor_preorder : PreOrder same_actor.
Proof. unfold same_actor. split; [by intros st | intros x y z H1 H2; destruct_and!; split_and!; congruence || auto]. Qed.

#[export] Instance grows_preorder : PreOrder grows.
Proof.
  split.
  - intros b. split; [done |]. intros a st Ha. by exists st.
  - intros x y z [H1 H2] [H3 H4]. split; [auto |]. intros a st Ha. destruct (H2 _ _ Ha) as (st' & Ha' & Hs).
    destruct (H4 _ _ Ha') as (st'' & Ha'' & Hs'). exists st''. split; [done | by etrans].
Qed.

Lemma closed_inbox_grows b b' a : grows b b' -> closed_inbox b a -> closed_inbox b' a.
Proof. intros [_ H] (st & Ha & Hc). destruct (H _ _ Ha) as (st' & Ha' & Hs). exists st'. split; [done |]. by apply Hs. Qed.

Lemma stopped_grows b b' a : grows b b' -> stopped b a -> stopped b' a.
Proof. intros H [Hd | Hc]; [left; by apply H | right; by eapply closed_inbox_grows]. Qed.

Lemma notified_grows b b' st st' r :
  grows b b' -> same_actor st st' -> notified b st r -> notified b' st' r.
Proof.
  intros Hg (H1 & H2 & H3 & _) [Hd | Hc]; unfold notified, exit_event in *; rewrite H1, H2, H3.
  - left. by apply Hg.
  - right. by eapply closed_inbox_grows.
Qed.

Lemma is_Some_grows b b' a : grows b b' -> is_Some (actors b !! a) -> is_Some (actors b' !! a).
Proof. intros [_ H] [st Ha]. destruct (H _ _ Ha) as (st' & Ha' & _). by exists st'. Qed.

Lemma bus_send_lookup t ev b a :
  actors (bus_send t ev b) !! a =
  (fun st => if decide (a = t /\ a_inbox_open st = true) then with_inbox st (a_inbox st ++ [ev]) else st) <$> actors b !! a.
Proof.
  unfold bus_send. destruct (actors b !! t) as [st |] eqn:Ht.
  - destruct (a_inbox_open st) eqn:Ho; cbn.
    + destruct (decide (a = t)) as [-> |].
      * rewrite lookup_insert_eq, Ht. cbn. by rewrite decide_True.
      * rewrite lookup_insert_ne by done. destruct (actors b !! a); [| done]. cbn. by rewrite decide_False by naive_solver.
    + destruct (actors b !! a) as [st' |] eqn:Ha; [| done]. cbn. case_decide as Hd; [| done].
      destruct Hd as [-> Hx]. congruence.
  - destruct (actors b !! a) as [st' |] eqn:Ha; [| done]. cbn. case_decide as Hd; [| done].
    destruct Hd as [-> Hx]. congruence.
Qed.

Lemma bus_send_grows t ev b : grows b (bus_send t ev b).
Proof.
  split.
  - intros x Hx. unfold bus_send. destruct (actors b !! t) as [st |]; [| done]. destruct (a_inbox_open st); [| done].
    cbn. set_solver.
  - intros a st Ha. rewrite bus_send_lookup, Ha. eexists. split; [done |]. by case_decide.
Qed.

Lemma bus_send_sent t ev b :
  is_Some (actors b !! t) -> (t, ev) ∈ delivered (bus_send t ev b) \/ closed_inbox (bus_send t ev b) t.
Proof.
  intros [st Ht]. unfold bus_send. rewrite Ht. destruct (a_inbox_open st) eqn:Ho.
  - left. cbn. set_solver.
  - right. by exists st.
Qed.

Lemma with_actor_grows b a st st' :
  actors b !! a = Some st -> same_actor st st' -> grows b (with_actor b a st').
Proof.
  intros Ha Hs. split; [done |]. intros x stx Hx. cbn. destruct (decide (x = a)) as [-> |].
  - rewrite lookup_insert_eq. exists st'. simplify_eq. done.
  - rewrite lookup_insert_ne by done. by exists stx.
Qed.

(** The step of one actor: its phase invariant holds again, and a pending link stays
    pending or its actor was stopped. *)
Definition advances b' st st' : Prop :=
  phase_ok b' st' /\
  forall o, a_phase st = Aborted \/ o ∈ a_links st -> a_phase st' = Aborted \/ o ∈ a_links st' \/ stopped b' o.

Lemma advances_same b b' st st' :
  grows b b' -> same_actor st st' -> a_phase st' = a_phase st -> a_links st' = a_links st ->
  a_links_open st' = a_links_open st -> phase_ok b st -> advances b' st st'.
Proof.
  intros Hg Hs Hp Hl Ho Hok. split; [| rewrite Hp, Hl; naive_solver]. unfold phase_ok in *. rewrite Hp, Hl, Ho.
  destruct Hok as [Hex Hok]. split; [intros o Ho'; by eapply is_Some_grows, Hex |].
  destruct (a_phase st); try done. destruct Hok as (? & ? & Hn). split_and!; [done .. |]. by eapply notified_grows.
Qed.

Lemma bus_ok_mono b b' :
  bus_ok b -> grows b b' -> next_ref b' = next_ref b -> linked b' = linked b ->
  (forall a st', actors b' !! a = Some st' -> exists st, actors b !! a = Some st /\ same_actor st st' /\
     (phase_ok b st -> advances b' st st')) ->
  bus_ok b'.
Proof.
  intros (H1 & H2 & H3) Hg Hn Hl Hstep. split_and!.
  - intros a [st' Ha]. rewrite Hn. destruct (Hstep _ _ Ha) as (st & Hst & _). apply H1. by exists st.
  - intros a st' Ha. destruct (Hstep _ _ Ha) as (st & Hst & Hs & Hadv). destruct (H2 _ _ Hst) as [Ho Hp].
    split; [| by apply Hadv]. destruct Hs as (_ & _ & -> & _). by eapply is_Some_grows.
  - intros ao Hin. rewrite Hl in Hin. destruct (H3 _ Hin) as (Hs2 & st & Hst & Hcase).
    split; [by eapply is_Some_grows |]. destruct (proj2 Hg _ _ Hst) as (st' & Hst' & _). exists st'. split; [done |].
    destruct (Hstep _ _ Hst') as (st0 & Hst0 & _ & Hadv). simplify_eq.
    destruct (Hadv (proj2 (H2 _ _ Hst))) as [_ Hlinks].
    destruct Hcase as [? | [? | Hstop]]; [apply Hlinks; by left | apply Hlinks; by right |].
    right. right. by eapply stopped_grows.
Qed.

Lemma bus_send_ok t ev b : bus_ok b -> bus_ok (bus_send t ev b).
Proof.
  intros Hok. pose proof (bus_send_grows t ev b) as Hg. apply (bus_ok_mono b); try done.
  - unfold bus_send. destruct (actors b !! t) as [st |]; [| done]. by destruct (a_inbox_open st).
  - unfold bus_send. destruct (actors b !! t) as [st |]; [| done]. by destruct (a_inbox_open st).
  - intros a st' Ha. rewrite bus_send_lookup in Ha. destruct (actors b !! a) as [st |]; [| done].
    cbn in Ha. injection Ha as <-. exists st. split; [done |].
    assert (same_actor st (if decide (a = t /\ a_inbox_open st = true) then with_inbox st (a_inbox st ++ [ev]) else st))
      by by case_decide.
    split; [done |]. intros Hp. apply (advances_same b); try done; by case_decide.
Qed.

(** A step that replaces one actor. *)
Lemma with_actor_ok b a st st' :
  bus_ok b -> actors b !! a = Some st -> same_actor st st' ->
  (phase_ok b st -> advances (with_actor b a st') st st') -> bus_ok (with_actor b a st').
Proof.
  intros Hok Ha Hs Hadv. pose proof (with_actor_grows b a st st' Ha Hs) as Hg. apply (bus_ok_mono b); try done.
  intros x stx Hx. cbn in Hx. destruct (decide (x = a)) as [-> |].
  - rewrite lookup_insert_eq in Hx. simplify_eq. by exists st.
  - rewrite lookup_insert_ne in Hx by done. exists stx. split; [done |]. split; [done |].
    intros Hp. by apply (advances_same b).
Qed.

Lemma spawn_ok parent name policy b b' : bus_ok b -> spawn parent name policy b = Some b' -> bus_ok b' /\ grows b b'.
Proof.
  intros (H1 & H2 & H3) Hs. unfold spawn in Hs. destruct (actors b !! parent) as [p |] eqn:Hp; [| done].
  cbn in Hs. injection Hs as <-.
  assert (Hfresh : forall a st, actors b !! a = Some st -> a <> next_ref b).
  { intros a st Ha ->. assert (next_ref b < next_ref b)%nat; [| lia]. apply H1. by exists st. }
  set (b' := {| actors := _ |}). assert (Hg : grows b b').
  { split; [done |]. intros a st Ha. exists st. split; [| done]. cbn. rewrite lookup_insert_ne; [done |].
    intros Heq. by apply (Hfresh a st Ha). }
  split; [| done]. split_and!.
  - cbn. intros a [st Ha]. destruct (decide (a = next_ref b)) as [-> |]; [lia |].
    rewrite lookup_insert_ne in Ha by done. assert (a < next_ref b)%nat; [apply H1; by exists st | lia].
  - intros a st Ha. cbn in Ha. destruct (decide (a = next_ref b)) as [-> |].
    + rewrite lookup_insert_eq in Ha. injection Ha as <-. split.
      * apply (is_Some_grows b b' _ Hg). apply (proj1 (H2 parent p Hp)).
      * unfold phase_ok. cbn. split; [set_solver | by destruct (bus_open b)].
    + rewrite lookup_insert_ne in Ha by done. destruct (H2 _ _ Ha) as [Ho Hph].
      split; [by apply (is_Some_grows b) |]. by apply (advances_same b b' st st).
  - intros ao Hin. destruct (H3 ao Hin) as (Hs2 & st & Hst & Hcase). split; [by apply (is_Some_grows b) |].
    exists st. split. { cbn. rewrite lookup_insert_ne; [done |]. intros Heq. by apply (Hfresh _ _ Hst). }
    destruct Hcase as [? | [? | ?]]; auto. right. right. by apply (stopped_grows b).
Qed.

Lemma drive_ok b b' : bus_ok b -> drive b = Some b' -> bus_ok b'.
Proof.
  intros Hok Hd. unfold drive in Hd. destruct (registrations b) as [| a rest]; [done |].
  destruct (actors b !! a) as [st |] eqn:Ha; [| done]. cbn in Hd. injection Hd as <-.
  set (st' := {| a_name := _ |}). assert (bus_ok (with_actor b a st')) as Hw.
  { apply (with_actor_ok b a st); try done. intros Hp. by apply (advances_same b); [apply (with_actor_grows b a st) | ..]. }
  exact Hw.
Qed.

Lemma task_exit_ok a r b b' : bus_ok b -> task_exit a r b = Some b' -> bus_ok b'.
Proof.
  intros Hok He. unfold task_exit in He. destruct (actors b !! a) as [st |] eqn:Ha; [| done].
  cbn in He. destruct (a_phase st) eqn:Hp; try done. injection He as <-.
  apply (with_actor_ok b a st); try done. intros [Hex _]. split; [| intros o [? | ?]; [congruence | by right; left]].
  split; [| done]. intros o Ho. eapply (is_Some_grows b); [by apply (with_actor_grows b a st) |]. by apply Hex.
Qed.

Lemma recv_ok a b ev b' : bus_ok b -> recv a b = Some (ev, b') -> bus_ok b'.
Proof.
  intros Hok He. unfold recv in He. destruct (actors b !! a) as [st |] eqn:Ha; [| done].
  cbn in He. destruct (a_inbox st) as [| ev' rest]; [done |]. injection He as <- <-.
  apply (with_actor_ok b a st); try done. intros Hp. by apply (advances_same b); [apply (with_actor_grows b a st) | ..].
Qed.

Lemma monitor_close_ok a b b' : bus_ok b -> monitor_close a b = Some b' -> bus_ok b'.
Proof.
  intros Hok He. unfold monitor_close in He. destruct (actors b !! a) as [st |] eqn:Ha; [| done].
  cbn in He. destruct (a_phase st) eqn:Hp; try done. destruct (a_monitored st); [| done]. injection He as <-.
  apply (with_actor_ok b a st); try done. intros [Hex _]. split; [| intros o [? | ?]; [congruence | by right; left]].
  split; [| done]. intros o Ho. eapply (is_Some_grows b); [by apply (with_actor_grows b a st) |]. by apply Hex.
Qed.

(** A step that replaces one actor and sends an event. *)
Lemma with_actor_send_ok b a st st' t ev :
  bus_ok b -> actors b !! a = Some st -> same_actor st st' -> a_inbox st' = a_inbox st ->
  (phase_ok b st -> advances (bus_send t ev (with_actor b a st')) st st') ->
  bus_ok (bus_send t ev (with_actor b a st')).
Proof.
  intros Hok Ha Hs Hi Hadv. pose proof (with_actor_grows b a st st' Ha Hs) as Hg1.
  pose proof (bus_send_grows t ev (with_actor b a st')) as Hg2.
  assert (Hg : grows b (bus_send t ev (with_actor b a st'))) by by etrans.
  apply (bus_ok_mono b); try done.
  1, 2: unfold bus_send; destruct (actors (with_actor b a st') !! t) as [x |]; [by destruct (a_inbox_open x) | done].
  intros x stx Hx. rewrite bus_send_lookup in Hx. cbn in Hx. destruct (decide (x = a)) as [-> |].
  - rewrite lookup_insert_eq in Hx. cbn in Hx. injection Hx as <-. exists st. split; [done |].
    split; [etrans; [exact Hs |]; by case_decide |]. intros Hp. destruct (Hadv Hp) as [Hph Hl]. by case_decide.
  - rewrite lookup_insert_ne in Hx by done. destruct (actors b !! x) as [st0 |]; [| done]. cbn in Hx. injection Hx as <-.
    exists st0. split; [done |]. split; [by case_decide |]. intros Hp.
    apply (advances_same b); try done; by case_decide.
Qed.

Lemma monitor_stop_ok a b b' : bus_ok b -> monitor_stop a b = Some b' -> bus_ok b'.
Proof.
  intros Hok He. unfold monitor_stop in He. destruct (actors b !! a) as [st |] eqn:Ha; [| done].
  cbn in He. destruct (a_phase st) eqn:Hp; try done. destruct (a_links st) as [| l rest] eqn:Hl; [done |]. injection He as <-.
  set (st' := with_links st rest false (Draining r)). apply (with_actor_send_ok b a st); try done.
  intros [Hex _]. assert (Hg : grows b (bus_send l Stop (with_actor b a st'))).
  { etrans; [by apply (with_actor_grows b a st st') | apply bus_send_grows]. }
  split.
  - split; [| done]. cbn. intros o Ho. eapply is_Some_grows; [exact Hg |]. apply Hex. rewrite Hl. set_solver.
  - rewrite Hp, Hl. intros o [? | Ho]; [done |]. apply elem_of_cons in Ho as [-> | Ho]; [| by right; left].
    right. right. apply bus_send_sent. apply (is_Some_grows b); [by apply (with_actor_grows b a st) |].
    apply Hex. rewrite Hl. set_solver.
Qed.

Lemma monitor_report_ok a b b' : bus_ok b -> monitor_report a b = Some b' -> bus_ok b'.
Proof.
  intros Hok He. unfold monitor_report in He. destruct (actors b !! a) as [st |] eqn:Ha; [| done].
  cbn in He. destruct (a_phase st) eqn:Hp; try done. destruct (a_links st) as [| l rest] eqn:Hl; [| done]. injection He as <-.
  set (st' := with_links st [] false (Reported r)). apply (with_actor_send_ok b a st); try done.
  intros _. split; [| rewrite Hp, Hl; set_solver]. split; [cbn; set_solver |]. cbn. split_and!; try done.
  unfold notified. change (exit_event st' r) with (exit_event st r). change (a_owner st') with (a_owner st).
  apply bus_send_sent. apply (is_Some_grows b); [by apply (with_actor_grows b a st) |].
  destruct Hok as (_ & H2 & _). apply (proj1 (H2 a st Ha)).
Qed.

Lemma link_half_ok a other b b' : bus_ok b -> link_half a other b = Some b' -> bus_ok b'.
Proof.
  intros Hok Hl. unfold link_half in Hl. destruct (actors b !! a) as [st |] eqn:Ha; [| done].
  destruct (actors b !! other) as [sto |] eqn:Ho; [| done]. cbn in Hl. injection Hl as <-.
  set (b1 := if a_links_open st then _ else _).
  assert (Hb1 : bus_ok b1 /\ is_Some (actors b1 !! other) /\
    exists st1, actors b1 !! a = Some st1 /\ (other ∈ a_links st1 \/ stopped b1 other)).
  { destruct (a_links_open st) eqn:Hopen; subst b1.
    - set (st' := with_links st (a_links st ++ [other]) true (a_phase st)).
      assert (Hg : grows b (with_actor b a st')) by by apply (with_actor_grows b a st).
      split_and!.
      + apply (with_actor_ok b a st); try done. intros [Hex Hp]. split.
        * split; [intros o Ho'; apply (is_Some_grows b _ _ Hg); cbn in Ho'; set_solver |]. cbn.
          destruct (a_phase st); try done; [congruence | destruct Hp as (_ & Hp & _); congruence].
        * cbn. intros o [? | ?]; [by left | right; left; set_solver].
      + apply (is_Some_grows b _ _ Hg). by exists sto.
      + exists st'. cbn. rewrite lookup_insert_eq. split; [done |]. left. set_solver.
    - pose proof (bus_send_grows other Stop b) as Hg. split_and!.
      + by apply bus_send_ok.
      + apply (is_Some_grows b _ _ Hg). by exists sto.
      + destruct (proj2 Hg _ _ Ha) as (st1 & H1 & _). exists st1. split; [done |]. right.
        apply bus_send_sent. by exists sto. }
  destruct Hb1 as ((H1 & H2 & H3) & Hs & st1 & Hst1 & Hlink). split_and!; [exact H1 | exact H2 |].
  intros ao [Hin | ->%list_elem_of_singleton]%elem_of_app; [by apply H3 |].
  split; [done |]. exists st1. split; [done |]. by right.
Qed.

Lemma drop_bus_ok b : bus_ok b -> bus_ok (drop_bus b).
Proof.
  intros (H1 & H2 & H3).
  assert (Hl : forall a, actors (drop_bus b) !! a = (fun st => if decide (a = 0%nat) then st else abort st) <$> actors b !! a).
  { intros a. cbn. rewrite map_lookup_imap. by destruct (actors b !! a). }
  assert (Hsame : forall st, same_actor st (abort st)) by (intros st; unfold abort; by destruct (a_phase st)).
  assert (Hg : grows b (drop_bus b)).
  { split; [done |]. intros a st Ha. rewrite Hl, Ha. eexists. split; [done |]. by case_decide. }
  apply (bus_ok_mono b); try done.
  intros a st' Ha. rewrite Hl in Ha. destruct (actors b !! a) as [st |]; [| done]. cbn in Ha. injection Ha as <-.
  exists st. split; [done |]. split; [by case_decide |]. intros Hp. case_decide; [by apply (advances_same b) |].
  unfold abort. destruct (a_phase st) eqn:Hph; try (by apply (advances_same b));
    (split; [split; [set_solver | done] | intros o _; by left]).
Qed.

Lemma bus_step_ok op b b' : bus_ok b -> bus_step op b = Some b' -> bus_ok b'.
Proof.
  intros Hok Hs. destruct op as [p n pol | a o | | a r | t ev | a | a | a | a |]; cbn in Hs.
  - by apply (spawn_ok p n pol b).
  - by apply (link_half_ok a o b).
  - by apply (drive_ok b).
  - case_decide; [done | by apply (task_exit_ok a r b)].
  - injection Hs as <-. by apply bus_send_ok.
  - destruct (recv a b) as [[ev b1] |] eqn:Hr; [| done]. cbn in Hs. injection Hs as <-. by apply (recv_ok a b ev).
  - by apply (monitor_close_ok a b).
  - by apply (monitor_stop_ok a b).
  - by apply (monitor_report_ok a b).
  - injection Hs as <-. by apply drop_bus_ok.
Qed.

Lemma bus_reach_ok root b : bus_reach root b -> bus_ok b.
Proof.
  induction 1 as [| b op b' _ IH Hs]; [| by apply (bus_step_ok op b)]. split_and!.
  - cbn. intros a [st Ha]. apply lookup_singleton_Some in Ha as [<- _]. lia.
  - cbn. intros a st Ha. apply lookup_singleton_Some in Ha as [<- <-]. split; [by eexists |].
    split; [set_solver | done].
  - set_solver.
Qed.

Lemma bus_run_cons op ops b : bus_run (op :: ops) b = (b' ← bus_step op b; bus_run ops b').
Proof.
  unfold bus_run. cbn [foldl]. cbn [mbind option_bind]. destruct (bus_step op b) as [b' |]; [done |].
  cbn. induction ops; [done |]. done.
Qed.

(** What a send leaves of an actor. *)
Lemma bus_send_keeps t ev b a st :
  actors b !! a = Some st -> exists st', actors (bus_send t ev b) !! a = Some st' /\
    a_phase st' = a_phase st /\ a_links st' = a_links st.
Proof. intros Ha. rewrite bus_send_lookup, Ha. eexists. split; [done |]. by case_decide. Qed.

Lemma monitor_drains a b st r :
  actors b !! a = Some st -> a_phase st = Draining r ->
  exists b' st', bus_run (repeat (OpStop a) (length (a_links st)) ++ [OpReport a]) b = Some b' /\
    actors b' !! a = Some st' /\ a_phase st' = Reported r.
Proof.
  remember (a_links st) as links eqn:Hl. revert b st Hl. induction links as [| l links IH]; intros b st Hl Ha Hp.
  - cbn [length repeat app]. rewrite bus_run_cons. cbn -[bus_send with_actor]. unfold monitor_report.
    rewrite Ha. cbn -[bus_send with_actor]. rewrite Hp, <- Hl. cbn -[bus_send with_actor].
    destruct (bus_send_keeps (a_owner st) (exit_event st r) (with_actor b a (with_links st [] false (Reported r))) a
      (with_links st [] false (Reported r))) as (st' & H1 & H2 & _); [by cbn; rewrite lookup_insert_eq |].
    eexists _, st'. split; [done |]. split; [exact H1 | by rewrite H2].
  - cbn [length repeat app]. rewrite bus_run_cons. cbn [bus_step]. unfold monitor_stop.
    rewrite Ha. cbn -[bus_send with_actor bus_run]. rewrite Hp, <- Hl. cbn -[bus_send with_actor bus_run].
    destruct (bus_send_keeps l Stop (with_actor b a (with_links st links false (Draining r))) a
      (with_links st links false (Draining r))) as (st' & H1 & H2 & H3); [by cbn; rewrite lookup_insert_eq |].
    apply (IH _ st'); [by rewrite H3 | exact H1 | by rewrite H2].
Qed.

Lemma bus_run_reach root ops b b' : bus_reach root b -> bus_run ops b = Some b' -> bus_reach root b'.
Proof.
  revert b. induction ops as [| op ops IH]; intros b Hr Hb; [by injection Hb as <- |].
  rewrite bus_run_cons in Hb. destruct (bus_step op b) as [b1 |] eqn:Hs; [| done]. cbn in Hb.
  apply (IH b1); [by apply (bus_next root b op) | done].
Qed.

Lemma bus_run_default root ops b : bus_reach root b -> bus_reach root (default b (bus_run ops b)).
Proof. intros Hr. destruct (bus_run ops b) as [b' |] eqn:Hb; [by apply (bus_run_reach root ops b) | done]. Qed.

(** A reported exit has stopped the linked actor. *)
Lemma reported_stops b a other st r :
  bus_ok b -> (a, other) ∈ linked b -> actors b !! a = Some st -> a_phase st = Reported r -> stopped b other.
Proof.
  intros (_ & H2 & H3) Hin Ha Hp. destruct (H2 _ _ Ha) as [_ [_ Hph]]. rewrite Hp in Hph. destruct Hph as (Hl & _).
  destruct (H3 _ Hin) as (_ & st' & Ha' & Hcase). cbn in *. simplify_eq. rewrite Hl, Hp in Hcase.
  destruct Hcase as [? | [? | ?]]; [done | set_solver | done].
Qed.

(** ** Properties *)

(** Links are reliable under every interleaving: once an actor's exit was reported,
    every actor it was linked with has been sent [Stop] or has itself ended, and the
    owner was told of the exit with the actor's name, policy and result (or has
    ended). *)
Theorem linked_exit_stops root b a other st r :
  bus_reach root b -> (a, other) ∈ linked b -> actors b !! a = Some st -> a_phase st = Reported r ->
  stopped b other /\ notified b st r.
Proof.
  intros Hok%bus_reach_ok Hin Ha Hp. split; [by eapply reported_stops |].
  destruct Hok as (_ & H2 & _). destruct (H2 _ _ Ha) as [_ [_ Hph]]. rewrite Hp in Hph. apply Hph.
Qed.

(** The monitor of a finished actor never blocks: closing the link queue, stopping
    the actors it holds one by one and notifying the owner always ends with the
    exit reported. *)
Theorem monitor_completes b a st r :
  actors b !! a = Some st -> a_phase st = Finished r -> a_monitored st = true ->
  exists b' st', bus_run (OpClose a :: repeat (OpStop a) (length (a_links st)) ++ [OpReport a]) b = Some b' /\
    actors b' !! a = Some st' /\ a_phase st' = Reported r.
Proof.
  intros Ha Hp Hm. rewrite bus_run_cons. cbn [bus_step]. unfold monitor_close. rewrite Ha.
  cbn -[with_actor bus_run]. rewrite Hp, Hm. cbn -[with_actor bus_run].
  apply (monitor_drains a _ (with_links st (a_links st) false (Draining r))); [| done].
  cbn. by rewrite lookup_insert_eq.
Qed.

End actor_lemmas.

(** ** Witnesses *)

(** Two linked actors; the first ends with an error. *)
Definition sample_run : list (@BusOp CidrNet.lib MapTrie.lib) :=
  [OpSpawn 0%nat (lit "a") Restartable; OpSpawn 0%nat (lit "b") Restartable; OpLink 1%nat 2%nat; OpLink 2%nat 1%nat;
   OpDrive; OpExit 1%nat (Ok (Err [lit "down"]))].

Definition sample_bus : @Bus CidrNet.lib MapTrie.lib := default (bus_new []) (bus_run sample_run (bus_new [])).

Definition sample_reported : @Bus CidrNet.lib MapTrie.lib :=
  default sample_bus (bus_run [OpClose 1%nat; OpStop 1%nat; OpReport 1%nat] sample_bus).

Lemma sample_bus_finished :
  (fun st : @Actor CidrNet.lib MapTrie.lib => (a_phase st, a_monitored st, length (a_links st))) <$> actors sample_bus !! 1%nat =
  Some (Finished (Ok (Err [lit "down"])), true, 1%nat).
Proof. reflexivity. Qed.

Lemma sample_bus_reported :
  @a_phase CidrNet.lib MapTrie.lib <$> actors sample_reported !! 1%nat = Some (Reported (Ok (Err [lit "down"]))).
Proof. reflexivity. Qed.

Lemma linked_exit_stops_witness :
  bus_reach [] sample_reported /\ (1%nat, 2%nat) ∈ linked sample_reported /\ stopped sample_reported 2%nat.
Proof.
  assert (Hr : bus_reach [] sample_reported) by (do 2 apply bus_run_default; constructor).
  assert (Hl : (1%nat, 2%nat) ∈ linked sample_reported) by (apply list_elem_of_lookup; by exists 0%nat).
  split; [exact Hr |]. split; [exact Hl |]. pose proof sample_bus_reported as Hp.
  destruct (actors sample_reported !! 1%nat) as [st |] eqn:Ha; [| discriminate Hp]. injection Hp as Hp.
  apply (linked_exit_stops [] sample_reported 1%nat 2%nat st _ Hr Hl Ha Hp).
Defined.

Lemma monitor_completes_witness :
  exists b' st', bus_run [OpClose 1%nat; OpStop 1%nat; OpReport 1%nat] sample_bus = Some b' /\
    actors b' !! 1%nat = Some st' /\ a_phase st' = Reported (Ok (Err [lit "down"])).
Proof.
  pose proof sample_bus_finished as Hf. destruct (actors sample_bus !! 1%nat) as [st |] eqn:Ha; [| discriminate Hf].
  cbn [fmap option_fmap option_map] in Hf. injection Hf as H1 H2 H3.
  pose proof (monitor_completes sample_bus 1%nat st _ Ha H1 H2) as H. rewrite H3 in H. exact H.
Defined.
