(* ===== verification/Engine.v ===== *)
(** * HTTP/3 engine

    Models [src/src/h3engine.rs]: the datagram paths between the router's channels
    and a QUIC connection, and the established loop [H3Engine::run] as a step
    function on the branch taken.  The connection is quiche's (class [QuicLib]);
    [QuicLaws] states what its documentation says of the DATAGRAM receive queue and
    of [send], and [FifoQuic] is a concrete instance.  Loops that quiche ends are
    given a fuel that the laws make sufficient. *)

From S2P Require Import Prelude Net Config Channel Metrics Codec Auth Session.
#[local] Open Scope Z_scope.

Inductive QuicErr : Type := Done | BufferTooShort | OtherErr (code : Z).

#[export] Instance QuicErr_eq_dec : EqDecision QuicErr.
Proof. solve_decision. Defined.

(** [quiche::RecvInfo]. *)
Record RecvInfo : Type := { from : SocketAddr; to : SocketAddr }.

(** The operations of a connection.  [q_dgram_recv] and [q_send] get the length of
    the buffer and return the bytes written to it.  [q_poll] is what the HTTP/3 layer
    has for one call of [poll_h3_events]; [q_apply] are the calls it makes.  [dgrams]
    are the DATAGRAMs received and not read, [dgrams_sent] those accepted for sending so
    far, [send_quota] bounds the packets [send] still has, and [active_path] is the address
    it directs them to. *)
Class QuicLib : Type := {
  conn : Type;
  is_dgram_recv_queue_full : conn -> bool;
  q_recv : conn -> list Z -> RecvInfo -> result unit QuicErr * conn;
  q_dgram_recv : conn -> nat -> result (list Z) QuicErr * conn;
  q_dgram_send : conn -> list Z -> result unit QuicErr * conn;
  q_send : conn -> nat -> result (list Z * SocketAddr) QuicErr * conn;
  q_poll : conn -> list H3Event * PollEnd * conn;
  q_apply : conn -> list H3Out -> conn;
  q_is_closed : conn -> bool;
  q_on_timeout : conn -> conn;
  q_send_ack_eliciting : conn -> conn;
  q_close : conn -> conn;
  dgrams : conn -> list (list Z);
  dgrams_sent : conn -> list (list Z);
  send_quota : conn -> nat;
  active_path : conn -> SocketAddr;
}.

(** [send] builds packets for the active path, which it does not change: a path is migrated
    in [recv] only. *)
Class QuicLaws (Q : QuicLib) : Prop := {
  q_dgram_recv_law c n :
    match dgrams c with
    | [] => exists c', q_dgram_recv c n = (Err Done, c')
    | d :: rest =>
        if decide (length d <= n)%nat
        then exists c', q_dgram_recv c n = (Ok d, c') /\ dgrams c' = rest
        else exists c', q_dgram_recv c n = (Err BufferTooShort, c')
    end;
  q_dgram_send_law c d :
    match q_dgram_send c d with
    | (Ok _, c') => dgrams_sent c' = dgrams_sent c ++ [d]
    | (Err _, c') => dgrams_sent c' = dgrams_sent c
    end;
  q_send_law c n :
    match q_send c n with
    | (Ok (bs, dst), c') => (length bs <= n)%nat /\ (send_quota c' < send_quota c)%nat /\
        dst = active_path c /\ active_path c' = active_path c
    | (Err _, _) => True
    end;
}.

Section engine.
Context {Q : QuicLib} {L : VarintLib} {B : BufLib} (MAX_DATAGRAM_SIZE : nat).
Context {MI : Mpsc (list PooledBuf)} {MO : Mpsc (SocketAddr * list PooledBuf)}.

(** [handle_udp_recv]. *)
Definition udp_recv_one (info : RecvInfo) (st : conn * option Counters) (pkt : PooledBuf) : conn * option Counters :=
  let '(c, counters) := st in
  let counters := if is_dgram_recv_queue_full c then (fun k => record_drop k QueueFull 1 0) <$> counters else counters in
  match q_recv c (buf_bytes pkt) info with
  | (Ok _, c) | (Err Done, c) => (c, counters)
  | (Err _, c) => (c, (fun k => record_drop k QuicError 1 (zlen (buf_bytes pkt))) <$> counters)
  end.

Definition handle_udp_recv (c : conn) (batch : list PooledBuf) (info : RecvInfo) (rx_counters : option Counters) :
    conn * option Counters :=
  foldl (udp_recv_one info) (c, rx_counters) batch.

(** A buffer the library filled with [bs] from its start and that was truncated to
    them. *)
Definition filled (buf : PooledBuf) (bs : list Z) : PooledBuf := buf_write (truncate buf (length bs)) bs.

(** [collect_router_ingress]: the loop, and the whole. *)
Fixpoint ingress_loop (fuel max_udp_payload : nat) (codec : ConnectIpDatagramCodec) (c : conn) (counters : Counters)
    (batch : list PooledBuf) (ok_pkts ok_bytes : Z) : outcome (conn * Counters * list PooledBuf * Z * Z) :=
  match fuel with
  | O => Panic
  | S fuel =>
    let buf := alloc_uninit_packet_buf MAX_DATAGRAM_SIZE max_udp_payload in
    match q_dgram_recv c (length (buf_bytes buf)) with
    | (Ok bs, c) =>
      r ← strip codec (filled buf bs);
      match r with
      | (false, _) => ingress_loop fuel max_udp_payload codec c (record_drop counters InvalidFraming 1 (zlen bs))
                        batch ok_pkts ok_bytes
      | (true, buf) => ingress_loop fuel max_udp_payload codec c counters (batch ++ [buf]) (ok_pkts + 1)
                         (ok_bytes + zlen (buf_bytes buf))
      end
    | (Err _, c) => Ret (c, counters, batch, ok_pkts, ok_bytes)
    end
  end.

Definition collect_router_ingress (c : conn) (max_udp_payload : nat) (counters : Counters)
    (codec : ConnectIpDatagramCodec) : outcome (conn * Counters * list PooledBuf) :=
  '(c, counters, batch, ok_pkts, ok_bytes) ←
    ingress_loop (S (length (dgrams c))) max_udp_payload codec c counters [] 0 0;
  Ret (c, if decide (0 < ok_pkts) then record_success counters ok_pkts ok_bytes else counters, batch).

(** [collect_udp_send], with its [debug_assert] that the destination stays the same. *)
Fixpoint send_loop (fuel max_udp_payload : nat) (c : conn) (batch : list PooledBuf) (dest : option SocketAddr) :
    outcome (conn * list PooledBuf * option SocketAddr) :=
  match fuel with
  | O => Panic
  | S fuel =>
    let buf := alloc_uninit_packet_buf MAX_DATAGRAM_SIZE max_udp_payload in
    match q_send c (length (buf_bytes buf)) with
    | (Ok (bs, dst), c) =>
        if decide (dest = None \/ dest = Some dst) then
          send_loop fuel max_udp_payload c (batch ++ [filled buf bs]) (Some dst)
        else Panic
    | (Err _, c) => Ret (c, batch, dest)
    end
  end.

Definition collect_udp_send (c : conn) (max_udp_payload : nat) : outcome (conn * option (SocketAddr * list PooledBuf)) :=
  '(c, batch, dest) ← send_loop (S (send_quota c)) max_udp_payload c [] None;
  Ret (c, option_map (fun d => (d, batch)) dest).

(** [handle_router_egress]. *)
Fixpoint egress_loop (packets : list PooledBuf) (codec : ConnectIpDatagramCodec) (c : conn) (counters : Counters)
    (ok_pkts ok_bytes : Z) : outcome (conn * Counters * Z * Z) :=
  match packets with
  | [] => Ret (c, counters, ok_pkts, ok_bytes)
  | pkt :: packets =>
    let pkt_len := zlen (buf_bytes pkt) in
    r ← prepend codec pkt;
    match r with
    | (false, _) => egress_loop packets codec c (record_drop counters NoHeadroom 1 pkt_len) ok_pkts ok_bytes
    | (true, pkt) =>
      match q_dgram_send c (buf_bytes pkt) with
      | (Ok _, c) => egress_loop packets codec c counters (ok_pkts + 1) (ok_bytes + pkt_len)
      | (Err Done, c) => egress_loop packets codec c (record_drop counters QueueFull 1 pkt_len) ok_pkts ok_bytes
      | (Err _, c) => egress_loop packets codec c (record_drop counters QuicError 1 pkt_len) ok_pkts ok_bytes
      end
    end
  end.

Definition handle_router_egress (c : conn) (packets : list PooledBuf) (codec : ConnectIpDatagramCodec)
    (counters : Counters) : outcome (conn * Counters) :=
  '(c, counters, ok_pkts, ok_bytes) ← egress_loop packets codec c counters 0 0;
  Ret (c, if decide (0 < ok_pkts) then record_success counters ok_pkts ok_bytes else counters).

(** ** The engine *)

Record PendingBatch : Type := { pb_batch : list PooledBuf; since : Z }.

Record EngineMeta : Type := {
  local_addr : SocketAddr;
  remote_addr : SocketAddr;
  meta_peer_id : rstr;
  max_udp_payload : nat;
}.

(** [EngineMeta::recv_info]. *)
Definition recv_info (m : EngineMeta) (remote : SocketAddr) : RecvInfo := {| from := remote; to := local_addr m |}.

Record RunState : Type := {
  rx_counters : Counters;
  tx_counters : Counters;
  pending_ingress : option PendingBatch;
  pending_send : option (SocketAddr * PendingBatch);
}.

(** [RunState::new]. *)
Definition run_state_new : RunState :=
  {| rx_counters := counters_new Http3 Rx; tx_counters := counters_new Http3 Tx;
     pending_ingress := None; pending_send := None |}.

(** The engine in its loop: [e_in] and [e_out] are the worlds of the ingress and the
    UDP channel, [e_emitted] the metrics sent to the owner. *)
Record Engine : Type := {
  e_conn : conn;
  e_session : H3Session;
  e_run : RunState;
  e_in : @world _ MI;
  e_out : @world _ MO;
  e_emitted : list Metrics;
}.

Definition with_conn (e : Engine) (c : conn) : Engine :=
  {| e_conn := c; e_session := e_session e; e_run := e_run e; e_in := e_in e; e_out := e_out e;
     e_emitted := e_emitted e |}.

Definition with_ingress (e : Engine) (c : conn) (s : H3Session) (rx : Counters) (p : option PendingBatch)
    (w : @world _ MI) : Engine :=
  {| e_conn := c; e_session := s;
     e_run := {| rx_counters := rx; tx_counters := tx_counters (e_run e); pending_ingress := p;
                 pending_send := pending_send (e_run e) |};
     e_in := w; e_out := e_out e; e_emitted := e_emitted e |}.

Definition with_send (e : Engine) (c : conn) (tx : Counters) (p : option (SocketAddr * PendingBatch))
    (w : @world _ MO) : Engine :=
  {| e_conn := c; e_session := e_session e;
     e_run := {| rx_counters := rx_counters (e_run e); tx_counters := tx;
                 pending_ingress := pending_ingress (e_run e); pending_send := p |};
     e_in := e_in e; e_out := w; e_emitted := e_emitted e |}.

(** [RunState::emit_metrics]. *)
Definition emit_metrics (meta : EngineMeta) (e : Engine) : Engine :=
  {| e_conn := e_conn e; e_session := e_session e; e_run := e_run e; e_in := e_in e; e_out := e_out e;
     e_emitted := e_emitted e ++
       [snapshot (rx_counters (e_run e)) (Some (meta_peer_id meta)) (Some (remote_addr meta));
        snapshot (tx_counters (e_run e)) (Some (meta_peer_id meta)) (Some (remote_addr meta))] |}.

Context (meta : EngineMeta) (ingress_tx udp_send_tx : Sender).

(** [H3Engine::flush_send]. *)
Definition flush_send (c : conn) (w : @world _ MO) : outcome (result unit rstr * conn * @world _ MO) :=
  '(c, send) ← collect_udp_send c (max_udp_payload meta);
  Ret (match send with
        | None => (Ok tt, c, w)
        | Some s =>
            match try_send w udp_send_tx s with
            | (Ok _, w) | (Err (Full _), w) => (Ok tt, c, w)
            | (Err (Closed _), w) => (Err (lit "UDP TX actor channel closed"), c, w)
            end
        end).

Inductive EngineInput : Type :=
| InUdp (batch : option (SocketAddr * list PooledBuf))
| InIngressPermit
| InEgress (packets : option (list PooledBuf))
| InStop
| InSendPermit
| InTimer
| InKeepalive
| InMetricsTick.

Inductive EngineNext : Type :=
| Go (e : Engine)
| Break (exit : result unit rstr) (e : Engine)
| Disabled.

(** The UDP branch. *)
Definition on_udp (remote : SocketAddr) (packets : list PooledBuf) (e : Engine) : outcome EngineNext :=
  let '(c, rx) := handle_udp_recv (e_conn e) packets (recv_info meta remote) (Some (rx_counters (e_run e))) in
  let rx := default (rx_counters (e_run e)) rx in
  let '(evs, fin, c) := q_poll c in
  '(res, s, calls) ← poll_h3_events ignore_handler evs fin (e_session e) [];
  let c := q_apply c calls in
  match res with
  | Err err => Ret (Break (Err (into_actor_reason err)) (with_ingress e c s rx None (e_in e)))
  | Ok _ =>
    '(c, rx, batch) ← collect_router_ingress c (max_udp_payload meta) rx (datagram_codec s);
    Ret (match batch with
          | [] => Go (with_ingress e c s rx None (e_in e))
          | _ =>
              match try_send (e_in e) ingress_tx batch with
              | (Ok _, w) => Go (with_ingress e c s rx None w)
              | (Err (Full b), w) => Go (with_ingress e c s rx (Some {| pb_batch := b; since := now w |}) w)
              | (Err (Closed _), w) => Break (Ok tt) (with_ingress e c s rx None w)
              end
          end)
  end.

(** The [select!] of one iteration. *)
Definition on_input (i : EngineInput) (e : Engine) : outcome EngineNext :=
  match i with
  | InUdp batch =>
      match pending_ingress (e_run e), batch with
      | Some _, _ => Ret Disabled
      | None, None => Ret (Break (Ok tt) e)
      | None, Some (remote, packets) => on_udp remote packets e
      end
  | InIngressPermit =>
      match pending_ingress (e_run e) with
      | None => Ret Disabled
      | Some pending =>
          Ret (match send (e_in e) ingress_tx (pb_batch pending) with
                | (Ok _, w) => Go (with_ingress e (e_conn e) (e_session e)
                    (record_queue_full (rx_counters (e_run e)) (elapsed (since pending) (now w))) None w)
                | (Err _, w) => Break (Ok tt) (with_ingress e (e_conn e) (e_session e) (rx_counters (e_run e)) (Some pending) w)
                end)
      end
  | InEgress None => Ret (Break (Ok tt) e)
  | InEgress (Some packets) =>
      '(c, tx) ← handle_router_egress (e_conn e) packets (datagram_codec (e_session e)) (tx_counters (e_run e));
      Ret (Go (with_send e c tx (pending_send (e_run e)) (e_out e)))
  | InStop => Ret (Break (Ok tt) e)
  | InSendPermit =>
      match pending_send (e_run e) with
      | None => Ret Disabled
      | Some (dest, pending) =>
          Ret (match send (e_out e) udp_send_tx (dest, pb_batch pending) with
                | (Ok _, w) => Go (with_send e (e_conn e)
                    (record_queue_full (tx_counters (e_run e)) (elapsed (since pending) (now w))) None w)
                | (Err _, w) => Break (Ok tt) (with_send e (e_conn e) (tx_counters (e_run e)) (Some (dest, pending)) w)
                end)
      end
  | InTimer => Ret (Go (with_conn e (q_on_timeout (e_conn e))))
  | InKeepalive => Ret (Go (with_conn e (q_send_ack_eliciting (e_conn e))))
  | InMetricsTick => Ret (Go (emit_metrics meta e))
  end.

(** After the [select!]: new output, unless a batch is pending; then the closed
    check. *)
Definition push_output (e : Engine) : outcome EngineNext :=
  match pending_send (e_run e) with
  | Some _ => Ret (Go e)
  | None =>
    '(c, out) ← collect_udp_send (e_conn e) (max_udp_payload meta);
    Ret (match out with
          | None => Go (with_conn e c)
          | Some (dest, batch) =>
              match try_send (e_out e) udp_send_tx (dest, batch) with
              | (Ok _, w) => Go (with_send e c (tx_counters (e_run e)) None w)
              | (Err (Full (_, b)), w) =>
                  Go (with_send e c (tx_counters (e_run e)) (Some (dest, {| pb_batch := b; since := now w |})) w)
              | (Err (Closed _), w) =>
                  Break (Err (lit "UDP TX actor channel closed")) (with_send e c (tx_counters (e_run e)) None w)
              end
          end)
  end.

Definition engine_step (i : EngineInput) (e : Engine) : outcome EngineNext :=
  n ← on_input i e;
  match n with
  | Go e =>
      n ← push_output e;
      Ret (match n with
            | Go e => if q_is_closed (e_conn e) then Break (Err (lit "QUIC connection closed")) e else Go e
            | n => n
            end)
  | n => Ret n
  end.

(** After the loop: close and flush. *)
Definition engine_cleanup (e : Engine) : outcome Engine :=
  '(c, out) ← collect_udp_send (q_close (e_conn e)) (max_udp_payload meta);
  Ret (match out with
        | None => with_conn e c
        | Some s => with_send e c (tx_counters (e_run e)) (pending_send (e_run e)) (@send _ MO (e_out e) udp_send_tx s).2
        end).

End engine.

(** ** A concrete connection: every packet received is a DATAGRAM, every DATAGRAM sent
    becomes a packet to [peer] *)
Module FifoQuic.
Section fifo.
Context (peer : SocketAddr).

Record state : Type := { inbox : list (list Z); sent : list (list Z); outbox : list (list Z); shut : bool }.

Definition empty : state := {| inbox := []; sent := []; outbox := []; shut := false |}.

#[export] Instance lib : QuicLib := {|
  conn := state;
  is_dgram_recv_queue_full s := bool_decide (1024 <= length (inbox s))%nat;
  q_recv s bs _ := (Ok tt, {| inbox := inbox s ++ [bs]; sent := sent s; outbox := outbox s; shut := shut s |});
  q_dgram_recv s n :=
    match inbox s with
    | [] => (Err Done, s)
    | d :: ds => if decide (length d <= n)%nat
                 then (Ok d, {| inbox := ds; sent := sent s; outbox := outbox s; shut := shut s |})
                 else (Err BufferTooShort, s)
    end;
  q_dgram_send s d :=
    (Ok tt, {| inbox := inbox s; sent := sent s ++ [d]; outbox := outbox s ++ [d]; shut := shut s |});
  q_send s n :=
    match outbox s with
    | [] => (Err Done, s)
    | p :: ps => if decide (length p <= n)%nat
                 then (Ok (p, peer), {| inbox := inbox s; sent := sent s; outbox := ps; shut := shut s |})
                 else (Err BufferTooShort, s)
    end;
  q_poll s := ([], PollDone true, s);
  q_apply s _ := s;
  q_is_closed := shut;
  q_on_timeout s := s;
  q_send_ack_eliciting s := s;
  q_close s := {| inbox := inbox s; sent := sent s; outbox := outbox s; shut := true |};
  dgrams := inbox;
  dgrams_sent := sent;
  send_quota s := length (outbox s);
  active_path _ := peer;
|}.
End fifo.
End FifoQuic.

#[export] Instance FifoQuic_laws peer : QuicLaws (FifoQuic.lib peer).
Proof.
  split; cbn.
  - intros c n. destruct (FifoQuic.inbox c) as [| d ds] eqn:Hi; [by eexists |]. case_decide; eexists; done.
  - done.
  - intros c n. destruct (FifoQuic.outbox c) as [| p ps]; [done |]. case_decide; cbn; [split_and!; (done || lia) | done].
Qed.

(** ** Reference: the payload of a DATAGRAM of the stream with prefix [qsi] *)

Definition payload_of (qsi d : list Z) : option (list Z) :=
  match strip_prefix (qsi ++ [CONTEXT_ID_IP]) d with
  | Some [] | None => None
  | Some p => Some p
  end.

(** The counters after the DATAGRAMs [ds]: one drop for each that is not of the
    stream, and one success record for the others together. *)
Definition ingress_counters (qsi : list Z) (ds : list (list Z)) (k : Counters) : Counters :=
  let k := foldl (fun k d => match payload_of qsi d with
                             | Some _ => k
                             | None => record_drop k InvalidFraming 1 (zlen d) end) k ds in
  let ps := omap (payload_of qsi) ds in
  if decide (ps = []) then k else record_success k (batch_stats ps).1 (batch_stats ps).2.

(** The bytes a receive buffer can hold. *)
Definition room {B : BufLib} (MAX_DATAGRAM_SIZE max_udp_payload : nat) : nat :=
  length (buf_bytes (alloc_uninit_packet_buf MAX_DATAGRAM_SIZE max_udp_payload)).

Lemma sublist_elem {A} (l1 l2 : list A) x : sublist l1 l2 -> x ∈ l1 -> x ∈ l2.
Proof. induction 1; set_solver. Qed.

Lemma sublist_full {A} (l1 l2 : list A) : sublist l1 l2 -> length l1 = length l2 -> l1 = l2.
Proof.
  induction 1 as [| x l1 l2 _ IH | x l1 l2 Hs _]; cbn [length]; intros Hl; [done | f_equal; auto |].
  apply sublist_length in Hs. lia.
Qed.

Section paths.
Context {Q : QuicLib} {HQ : QuicLaws Q} {L : VarintLib} {HL : VarintLaws L} {B : BufLib} {HB : BufLaws B}.
Context (MAX_DATAGRAM_SIZE : nat).
Context (sid : Z) (codec : ConnectIpDatagramCodec) (qsi : list Z).
Hypothesis Hsid : 0 <= sid <= u64_max.
Hypothesis Hcodec : codec_new sid = Ret codec.
Hypothesis Hqsi : qsi_bytes codec = Ret qsi.

Lemma payload_of_spec d p : payload_of qsi d = Some p <-> p <> [] /\ d = qsi ++ CONTEXT_ID_IP :: p.
Proof.
  unfold payload_of. split.
  - destruct (strip_prefix _ d) as [[| x l] |] eqn:Hs; intros [= <-]. split; [done |].
    apply strip_prefix_Some in Hs. by rewrite Hs, <- app_assoc.
  - intros [Hp ->]. assert (strip_prefix (qsi ++ [CONTEXT_ID_IP]) (qsi ++ CONTEXT_ID_IP :: p) = Some p) as ->.
    { apply strip_prefix_Some. by rewrite <- app_assoc. }
    by destruct p.
Qed.

Lemma filled_bytes max d :
  (length d <= room MAX_DATAGRAM_SIZE max)%nat ->
  buf_bytes (filled (alloc_uninit_packet_buf MAX_DATAGRAM_SIZE max) d) = d.
Proof.
  intros Hd. unfold filled. set (buf := alloc_uninit_packet_buf _ _) in *.
  destruct (truncate_law buf (length d)) as [Ht _]. apply buf_write_law. rewrite Ht, length_take.
  unfold room in Hd. fold buf in Hd. lia.
Qed.

Lemma strip_filled max d :
  (length d <= room MAX_DATAGRAM_SIZE max)%nat -> Forall is_byte d ->
  exists ok b, strip codec (filled (alloc_uninit_packet_buf MAX_DATAGRAM_SIZE max) d) = Ret (ok, b) /\
    payload_of qsi d = if (ok : bool) then Some (buf_bytes b) else None.
Proof.
  intros Hd Hb. set (buf := filled _ d). assert (Hbb : buf_bytes buf = d) by by apply filled_bytes.
  destruct (strip_spec sid codec qsi buf Hsid Hcodec Hqsi) as (ok & b & Hs & Hiff & Hyes & _); [by rewrite Hbb |].
  exists ok, b. split; [done |]. rewrite Hbb in *. destruct ok.
  - apply payload_of_spec. split; [| by apply Hyes]. intros Hnil. specialize (Hyes eq_refl). rewrite Hnil in Hyes.
    destruct (proj1 Hiff eq_refl) as (p & Hp & Hd'). rewrite Hyes in Hd'. apply app_inv_head in Hd'. congruence.
  - destruct (payload_of qsi d) as [p |] eqn:Hp; [| done]. apply payload_of_spec in Hp.
    assert (false = true); [apply Hiff; by exists p | done].
Qed.

Lemma ingress_loop_exact ds fuel max c k batch n by_ :
  dgrams c = ds -> (length ds < fuel)%nat ->
  Forall (fun d => Forall is_byte d /\ (length d <= room MAX_DATAGRAM_SIZE max)%nat) ds ->
  exists c' batch', buf_bytes <$> batch' = omap (payload_of qsi) ds /\
    ingress_loop MAX_DATAGRAM_SIZE fuel max codec c k batch n by_ =
    Ret (c', foldl (fun k d => match payload_of qsi d with
                               | Some _ => k | None => record_drop k InvalidFraming 1 (zlen d) end) k ds,
         batch ++ batch', n + (batch_stats (omap (payload_of qsi) ds)).1,
         by_ + (batch_stats (omap (payload_of qsi) ds)).2).
Proof.
  revert fuel c k batch n by_. induction ds as [| d ds IH]; intros fuel c k batch n by_ Hds Hf Hall;
    (destruct fuel as [| fuel]; [lia |]); cbn [ingress_loop]; cbv zeta; fold (room MAX_DATAGRAM_SIZE max);
    pose proof (q_dgram_recv_law c (room MAX_DATAGRAM_SIZE max)) as Hlaw; rewrite Hds in Hlaw.
  - destruct Hlaw as [c' ->]. exists c', []. split; [done |]. cbn. by rewrite app_nil_r, !Z.add_0_r.
  - apply Forall_cons in Hall as [[Hby Hlen] Hall]. rewrite decide_True in Hlaw by done.
    destruct Hlaw as (c' & -> & Hds'). destruct (strip_filled max d Hlen Hby) as (ok & b & Hs & Hp).
    rewrite Hs. cbn [mbind outcome_bind]. cbn [length] in Hf. cbn [foldl omap list_omap]. rewrite Hp. destruct ok.
    + destruct (IH fuel c' k (batch ++ [b]) (n + 1) (by_ + zlen (buf_bytes b)) Hds' ltac:(lia) Hall)
        as (c2 & batch' & Hb & ->). exists c2, (b :: batch'). split; [by cbn; rewrite Hb |].
      rewrite batch_stats_cons. cbn [fst snd]. by rewrite <- !app_assoc, !Z.add_assoc.
    + destruct (IH fuel c' (record_drop k InvalidFraming 1 (zlen d)) batch n by_ Hds' ltac:(lia) Hall)
        as (c2 & batch' & Hb & ->). by exists c2, batch'.
Qed.

(** [collect_router_ingress] reads every DATAGRAM, in order. *)
Lemma collect_router_ingress_exact max c k :
  Forall (fun d => Forall is_byte d /\ (length d <= room MAX_DATAGRAM_SIZE max)%nat) (dgrams c) ->
  exists c' batch, collect_router_ingress MAX_DATAGRAM_SIZE c max k codec =
    Ret (c', ingress_counters qsi (dgrams c) k, batch) /\
    buf_bytes <$> batch = omap (payload_of qsi) (dgrams c).
Proof.
  intros Hall. unfold collect_router_ingress.
  destruct (ingress_loop_exact (dgrams c) (S (length (dgrams c))) max c k [] 0 0 eq_refl ltac:(lia) Hall)
    as (c' & batch & Hb & ->). cbn [mbind outcome_bind]. exists c', batch. split; [| done].
  unfold ingress_counters. cbv zeta. rewrite !Z.add_0_l. do 3 f_equal.
  destruct (omap (payload_of qsi) (dgrams c)) as [| p ps]; [by vm_compute |].
  rewrite (decide_False (P := p :: ps = [])) by done. rewrite decide_True; [done |].
  rewrite batch_stats_cons. pose proof (batch_stats_nonneg ps). cbn [fst]. lia.
Qed.

(** [handle_router_egress] never panics; the packets [acc] accepted by the connection
    are sent framed, in order. *)
Lemma egress_loop_exact packets c k n by_ :
  Forall (fun p => (9 <= headroom p)%nat) packets ->
  exists c' k' acc, sublist acc (buf_bytes <$> packets) /\
    dgrams_sent c' = dgrams_sent c ++ ((fun p => qsi ++ CONTEXT_ID_IP :: p) <$> acc) /\
    egress_loop packets codec c k n by_ = Ret (c', k', n + (batch_stats acc).1, by_ + (batch_stats acc).2).
Proof.
  revert c k n by_. induction packets as [| pkt packets IH]; intros c k n by_ Hall; cbn [egress_loop].
  - exists c, k, []. split; [constructor |]. split; [by rewrite app_nil_r |]. by rewrite !Z.add_0_r.
  - apply Forall_cons in Hall as [Hh Hall].
    destruct (prepend_spec sid codec qsi pkt Hsid Hcodec Hqsi) as (ok & pkt' & -> & Hok).
    destruct (Hok Hh) as [-> Hb]. cbn [mbind outcome_bind]. rewrite Hb.
    pose proof (q_dgram_send_law c (qsi ++ CONTEXT_ID_IP :: buf_bytes pkt)) as Hlaw.
    destruct (q_dgram_send c _) as [[u | err] c1].
    + destruct (IH c1 k (n + 1) (by_ + zlen (buf_bytes pkt)) Hall) as (c' & k' & acc & Hsub & Hsent & ->).
      exists c', k', (buf_bytes pkt :: acc). split; [by apply sublist_skip |].
      split; [by rewrite Hsent, Hlaw, <- app_assoc |]. rewrite batch_stats_cons. cbn [fst snd]. by rewrite !Z.add_assoc.
    + assert (exists k1, match err with
          | Done => egress_loop packets codec c1 (record_drop k QueueFull 1 (zlen (buf_bytes pkt))) n by_
          | _ => egress_loop packets codec c1 (record_drop k QuicError 1 (zlen (buf_bytes pkt))) n by_
          end = egress_loop packets codec c1 k1 n by_) as [k1 ->] by (destruct err; by eexists).
      destruct (IH c1 k1 n by_ Hall) as (c' & k' & acc & Hsub & Hsent & ->).
      exists c', k', acc. split; [by apply sublist_cons |]. split; [by rewrite Hsent, Hlaw | done].
Qed.

(** The output loop ends within its fuel, and never sees a second destination. *)
Lemma send_loop_total fuel max c batch dst :
  (send_quota c < fuel)%nat -> dst = None \/ dst = Some (active_path c) ->
  exists c' batch' dst', send_loop MAX_DATAGRAM_SIZE fuel max c batch dst = Ret (c', batch', dst').
Proof.
  revert c batch dst. induction fuel as [| fuel IH]; intros c batch dst Hf Hd; [lia |]. cbn [send_loop]. cbv zeta.
  match goal with |- context [q_send c ?n] => pose proof (q_send_law c n) as Hlaw; destruct (q_send c n) as [[[bs d] | e] c'] end.
  - destruct Hlaw as (_ & Hq & -> & Ha). rewrite decide_True by done. apply IH; [lia | right; by rewrite Ha].
  - by eexists _, _, _.
Qed.

Lemma collect_udp_send_total c max : exists c' out, collect_udp_send MAX_DATAGRAM_SIZE c max = Ret (c', out).
Proof.
  unfold collect_udp_send. destruct (send_loop_total (S (send_quota c)) max c [] None) as (c' & b & d & ->); [lia | by left |].
  by eexists _, _.
Qed.

(** What a receiver makes of datagrams that are all packets of the stream. *)
Lemma collect_framed max cb kb acc :
  Forall (fun p => p <> [] /\ Forall is_byte (qsi ++ CONTEXT_ID_IP :: p) /\
    (length (qsi ++ CONTEXT_ID_IP :: p) <= room MAX_DATAGRAM_SIZE max)%nat) acc ->
  dgrams cb = (fun p => qsi ++ CONTEXT_ID_IP :: p) <$> acc ->
  exists cb' batch, collect_router_ingress MAX_DATAGRAM_SIZE cb max kb codec =
    Ret (cb', if decide (acc = []) then kb else record_success kb (batch_stats acc).1 (batch_stats acc).2, batch) /\
    buf_bytes <$> batch = acc.
Proof.
  intros Hacc Hcb.
  assert (Hone : forall p, p ∈ acc -> payload_of qsi (qsi ++ CONTEXT_ID_IP :: p) = Some p).
  { rewrite Forall_forall in Hacc. intros p Hp. apply payload_of_spec. split; [by apply Hacc | done]. }
  assert (Homap : omap (payload_of qsi) (dgrams cb) = acc).
  { rewrite Hcb. clear -Hone. induction acc as [| p acc IH]; [done |]. cbn. rewrite Hone by set_solver. f_equal. set_solver. }
  destruct (collect_router_ingress_exact max cb kb) as (cb' & batch & -> & Hb).
  { rewrite Hcb. apply Forall_fmap. eapply Forall_impl; [exact Hacc |]. intros p Hp. apply Hp. }
  exists cb', batch. rewrite Homap in Hb. split; [| done]. do 3 f_equal. unfold ingress_counters. cbv zeta. rewrite Homap.
  replace (foldl _ kb (dgrams cb)) with kb; [by destruct acc |].
  rewrite Hcb. clear -Hone. induction acc as [| p acc IH]; [done |]. cbn. rewrite Hone by set_solver. set_solver.
Qed.

(** ** Properties *)

(** C5: end to end through the tunnel: the IP packets the router hands to one engine
    (with the reserved headroom, not empty, and small enough for the receiver's buffers
    once framed) leave, as far as QUIC accepts them, as
    framed DATAGRAMs in order, and an engine at the other end that received these
    DATAGRAMs hands its router exactly the accepted packets, byte for byte, in
    order, and counts every one as a success. *)
Theorem tunnel_roundtrip max ca packets ka kb :
  Forall (fun p => (9 <= headroom p)%nat /\ buf_bytes p <> [] /\ Forall is_byte (qsi ++ CONTEXT_ID_IP :: buf_bytes p) /\
    (length (qsi ++ CONTEXT_ID_IP :: buf_bytes p) <= room MAX_DATAGRAM_SIZE max)%nat) packets ->
  exists ca' ka' ds, handle_router_egress ca packets codec ka = Ret (ca', ka') /\
    dgrams_sent ca' = dgrams_sent ca ++ ds /\
    forall cb, dgrams cb = ds ->
      exists cb' batch, collect_router_ingress MAX_DATAGRAM_SIZE cb max kb codec =
        Ret (cb', (if decide (ds = []) then kb else
                   record_success kb (batch_stats (buf_bytes <$> batch)).1 (batch_stats (buf_bytes <$> batch)).2), batch) /\
      sublist (buf_bytes <$> batch) (buf_bytes <$> packets) /\ length batch = length ds /\
      (length ds = length packets -> buf_bytes <$> batch = buf_bytes <$> packets).
Proof.
  intros Hall. unfold handle_router_egress.
  destruct (egress_loop_exact packets ca ka 0 0) as (ca' & k' & acc & Hsub & Hsent & ->).
  { eapply Forall_impl; [exact Hall |]. intros p Hp. apply Hp. }
  cbn [mbind outcome_bind]. eexists _, _, ((fun p => qsi ++ CONTEXT_ID_IP :: p) <$> acc).
  split; [reflexivity |]. split; [exact Hsent |]. intros cb Hcb.
  assert (Hacc : Forall (fun p => p <> [] /\ Forall is_byte (qsi ++ CONTEXT_ID_IP :: p) /\
    (length (qsi ++ CONTEXT_ID_IP :: p) <= room MAX_DATAGRAM_SIZE max)%nat) acc).
  { apply Forall_forall. intros p Hp. apply (sublist_elem _ _ _ Hsub) in Hp.
    apply list_elem_of_fmap in Hp as (pkt & -> & Hpkt). rewrite Forall_forall in Hall. destruct (Hall _ Hpkt) as (_ & ? & ? & ?). auto. }
  destruct (collect_framed max cb kb acc Hacc Hcb) as (cb' & batch & -> & Hb). exists cb', batch. rewrite Hb. split_and!.
  - by destruct acc.
  - done.
  - rewrite length_fmap. rewrite <- Hb. by rewrite length_fmap.
  - rewrite length_fmap. intros Hlen. apply (sublist_full _ _ Hsub). by rewrite length_fmap.
Qed.

End paths.

(** ** The loop *)

(** What the ingress and the UDP channel accepted, and the batch that waits. *)
Section logs.
Context {Q : QuicLib} {B : BufLib} {MI : Mpsc (list PooledBuf)} {MO : Mpsc (SocketAddr * list PooledBuf)}.
Context (ingress_tx udp_send_tx : Sender).

Definition in_log (e : Engine) : list (Sender * list PooledBuf) :=
  accepted (e_in e) ++
  match pending_ingress (e_run e) with Some p => [(ingress_tx, pb_batch p)] | None => [] end.

Definition out_log (e : Engine) : list (Sender * (SocketAddr * list PooledBuf)) :=
  accepted (e_out e) ++
  match pending_send (e_run e) with Some (d, p) => [(udp_send_tx, (d, pb_batch p))] | None => [] end.

Definition ingress_entry (batch : list PooledBuf) : list (Sender * list PooledBuf) :=
  match batch with [] => [] | _ => [(ingress_tx, batch)] end.

Definition send_entry (out : option (SocketAddr * list PooledBuf)) : list (Sender * (SocketAddr * list PooledBuf)) :=
  match out with None => [] | Some s => [(udp_send_tx, s)] end.
End logs.

Lemma poll_ignore {L : VarintLib} evs fin s out :
  exists res s' out', poll_h3_events ignore_handler evs fin s out = Ret (res, s', out') /\
    datagram_codec s' = datagram_codec s.
Proof.
  revert s out. induction evs as [| ev evs IH]; intros s out; cbn; [by eexists _, _, _ |].
  destruct ev; cbn; try (by apply IH); repeat case_match; try (by apply IH); by eexists _, _, _.
Qed.

Lemma strip_total {L : VarintLib} {B : BufLib} c pkt : exists ok pkt', strip c pkt = Ret (ok, pkt').
Proof.
  unfold strip. destruct (decode_qsi _) as [[q len] |]; [| by eexists _, _].
  case_decide; [by eexists _, _ |]. cbv zeta. case_decide; [by eexists _, _ |].
  destruct (index_in_range (buf_bytes pkt) len) as (ctx & _ & ->); [lia |]. cbn [mbind outcome_bind].
  repeat case_decide; by eexists _, _.
Qed.

Section loop.
Context {Q : QuicLib} {HQ : QuicLaws Q} {L : VarintLib} {HL : VarintLaws L} {B : BufLib} {HB : BufLaws B}.
Context (MAX_DATAGRAM_SIZE : nat).
Context {MI : Mpsc (list PooledBuf)} {HMI : MpscLaws MI} {MO : Mpsc (SocketAddr * list PooledBuf)} {HMO : MpscLaws MO}.
Context (meta : EngineMeta) (ingress_tx udp_send_tx : Sender).

Lemma ingress_loop_total fuel max codec c k batch n by_ :
  (length (dgrams c) < fuel)%nat ->
  exists r, ingress_loop MAX_DATAGRAM_SIZE fuel max codec c k batch n by_ = Ret r.
Proof.
  revert c k batch n by_. induction fuel as [| fuel IH]; intros c k batch n by_ Hf; [lia |]. cbn [ingress_loop]. cbv zeta.
  match goal with |- context [q_dgram_recv c ?m] => pose proof (q_dgram_recv_law c m) as Hlaw end.
  destruct (dgrams c) as [| d ds]; [destruct Hlaw as [c' ->]; by eexists |].
  case_decide; [| destruct Hlaw as [c' ->]; by eexists]. destruct Hlaw as (c' & -> & Hds).
  destruct (strip_total codec (filled (alloc_uninit_packet_buf MAX_DATAGRAM_SIZE max) d)) as (ok & p & ->).
  cbn [mbind outcome_bind]. cbn [length] in Hf. destruct ok; apply IH; rewrite Hds; lia.
Qed.

Lemma collect_router_ingress_total c max k codec :
  exists c' k' batch, collect_router_ingress MAX_DATAGRAM_SIZE c max k codec = Ret (c', k', batch).
Proof.
  unfold collect_router_ingress.
  destruct (ingress_loop_total (S (length (dgrams c))) max codec c k [] 0 0) as [[[[[c' k'] b] n] y] ->]; [lia |].
  by eexists _, _, _.
Qed.

Lemma egress_total sid codec packets c k :
  0 <= sid <= u64_max -> codec_new sid = Ret codec -> exists r, handle_router_egress c packets codec k = Ret r.
Proof.
  intros Hs Hc. destruct (codec_new_spec sid Hs) as (c0 & b & bs & Hc' & Hq & _). rewrite Hc in Hc'. injection Hc' as <-.
  unfold handle_router_egress. assert (exists r, egress_loop packets codec c k 0 0 = Ret r) as [[[[c' k'] n] y] ->]; [| by eexists].
  generalize 0 at 1 as n. generalize 0 as y. revert c k. induction packets as [| pkt packets IH]; intros c k y n; [by eexists |].
  cbn [egress_loop]. destruct (prepend_spec sid codec _ pkt Hs Hc Hq) as (ok & p & -> & _). cbn [mbind outcome_bind].
  destruct ok; [| apply IH]. destruct (q_dgram_send c (buf_bytes p)) as [[u | err] c1]; [apply IH |]. destruct err; apply IH.
Qed.

(** The connection and the receive counters once the packets were fed to the engine's
    connection and its HTTP/3 events were handled. *)
Definition after_poll (remote : SocketAddr) (packets : list PooledBuf) (e : Engine) : outcome (conn * Counters) :=
  let '(c, rx) := handle_udp_recv (e_conn e) packets (recv_info meta remote) (Some (rx_counters (e_run e))) in
  let '(evs, fin, c) := q_poll c in
  '(_, _, calls) ← poll_h3_events ignore_handler evs fin (e_session e) [];
  Ret (q_apply c calls, default (rx_counters (e_run e)) rx).

(** From [e] to [e'], whose receive counters are the new ones, the batch decoded from the
    DATAGRAMs of that connection was appended; [c1] is the connection after it. *)
Definition decoded (remote : SocketAddr) (packets : list PooledBuf) (e : Engine) (c1 : conn) (e' : Engine) : Prop :=
  exists c k batch, after_poll remote packets e = Ret (c, k) /\
    collect_router_ingress MAX_DATAGRAM_SIZE c (max_udp_payload meta) k (datagram_codec (e_session e)) =
      Ret (c1, rx_counters (e_run e'), batch) /\
    in_log ingress_tx e' = in_log ingress_tx e ++ ingress_entry ingress_tx batch.

(** What an input does to the engine's connection, up to [c1], and to the ingress log. *)
Definition processed (i : EngineInput) (e : Engine) (c1 : conn) (e' : Engine) : Prop :=
  match i with
  | InUdp (Some (remote, packets)) => decoded remote packets e c1 e'
  | InUdp None => False
  | InEgress (Some packets) =>
      (exists k, handle_router_egress (e_conn e) packets (datagram_codec (e_session e)) (tx_counters (e_run e)) = Ret (c1, k)) /\
      in_log ingress_tx e' = in_log ingress_tx e
  | InTimer => c1 = q_on_timeout (e_conn e) /\ in_log ingress_tx e' = in_log ingress_tx e
  | InKeepalive => c1 = q_send_ack_eliciting (e_conn e) /\ in_log ingress_tx e' = in_log ingress_tx e
  | _ => c1 = e_conn e /\ in_log ingress_tx e' = in_log ingress_tx e
  end.

Lemma processed_same i e c1 e' e'' :
  in_log ingress_tx e'' = in_log ingress_tx e' -> rx_counters (e_run e'') = rx_counters (e_run e') ->
  processed i e c1 e' -> processed i e c1 e''.
Proof.
  intros Hi Hk. unfold processed, decoded. rewrite Hi, Hk. done.
Qed.

(** The batch is the payloads of the DATAGRAMs held, as far as these fit the buffers. *)
Lemma decoded_payloads sid qsi remote packets e c1 e' :
  0 <= sid <= u64_max -> codec_new sid = Ret (datagram_codec (e_session e)) ->
  qsi_bytes (datagram_codec (e_session e)) = Ret qsi -> decoded remote packets e c1 e' ->
  exists c k batch, after_poll remote packets e = Ret (c, k) /\
    in_log ingress_tx e' = in_log ingress_tx e ++ ingress_entry ingress_tx batch /\
    (Forall (fun d => Forall is_byte d /\ (length d <= room MAX_DATAGRAM_SIZE (max_udp_payload meta))%nat) (dgrams c) ->
     buf_bytes <$> batch = omap (payload_of qsi) (dgrams c)).
Proof.
  intros Hs Hc Hq (c & k & batch & Ha & Hi & Hl). exists c, k, batch. split; [done |]. split; [done |]. intros Hd.
  destruct (collect_router_ingress_exact MAX_DATAGRAM_SIZE sid (datagram_codec (e_session e)) qsi Hs Hc Hq
    (max_udp_payload meta) c k Hd) as (c' & batch' & Hi' & Hb).
  rewrite Hi in Hi'. by injection Hi' as _ _ ->.
Qed.

(** The UDP branch appends the batch it decodes from what its own connection holds. *)
Lemma on_udp_log remote packets e :
  pending_ingress (e_run e) = None ->
  exists n, on_udp MAX_DATAGRAM_SIZE meta ingress_tx remote packets e = Ret n /\
    match n with
    | Go e' =>
        out_log udp_send_tx e' = out_log udp_send_tx e /\ datagram_codec (e_session e') = datagram_codec (e_session e) /\
        decoded remote packets e (e_conn e') e'
    | _ => True
    end.
Proof.
  intros Hp. unfold on_udp, decoded, after_poll. destruct (handle_udp_recv _ _ _ _) as [c rx]. cbv zeta.
  destruct (q_poll c) as [[evs fin] c1].
  destruct (poll_ignore evs fin (e_session e) []) as (res & s' & calls & -> & Hs). cbn [mbind outcome_bind].
  destruct res as [pr | err]; [| by eexists].
  destruct (collect_router_ingress_total (q_apply c1 calls) (max_udp_payload meta) (default (rx_counters (e_run e)) rx)
    (datagram_codec s')) as (c' & k' & batch & Hc). rewrite Hc. cbn [mbind outcome_bind]. rewrite Hs in Hc.
  destruct batch as [| b batch].
  - eexists. split; [done |]. split; [done |]. split; [done |]. eexists _, _, []. split; [done |]. split; [exact Hc |].
    unfold in_log. cbn. by rewrite Hp, !app_nil_r.
  - pose proof (try_send_law (e_in e) ingress_tx (b :: batch)) as Hl.
    destruct (try_send (e_in e) ingress_tx (b :: batch)) as [[u | [v | v]] w]; eexists; (split; [done |]).
    + split; [done |]. split; [done |]. eexists _, _, (b :: batch). split; [done |]. split; [exact Hc |].
      unfold in_log. cbn. by rewrite Hp, (sent_accepted _ _ _ Hl), !app_nil_r.
    + destruct Hl as [Hl [[= ->] | [? _]]]; [| done]. split; [done |]. split; [done |].
      eexists _, _, (b :: batch). split; [done |]. split; [exact Hc |].
      unfold in_log. cbn. by rewrite Hp, (sent_accepted _ _ _ Hl), !app_nil_r.
    + done.
Qed.

(** The [select!] keeps every batch. *)
Lemma on_input_log sid i e :
  0 <= sid <= u64_max -> codec_new sid = Ret (datagram_codec (e_session e)) ->
  exists n, on_input MAX_DATAGRAM_SIZE meta ingress_tx udp_send_tx i e = Ret n /\
    match n with
    | Go e' =>
        out_log udp_send_tx e' = out_log udp_send_tx e /\ datagram_codec (e_session e') = datagram_codec (e_session e) /\
        processed i e (e_conn e') e'
    | _ => True
    end.
Proof.
  intros Hs Hc. destruct i as [batch | | packets | | | | |]; cbn [on_input].
  - destruct (pending_ingress (e_run e)) eqn:Hp; [by eexists |].
    destruct batch as [[remote packets] |]; [by apply on_udp_log | by eexists].
  - destruct (pending_ingress (e_run e)) as [p |] eqn:Hp; [| by eexists].
    pose proof (send_law (e_in e) ingress_tx (pb_batch p)) as Hl.
    destruct (send (e_in e) ingress_tx (pb_batch p)) as [[u | v] w]; eexists; (split; [done |]); [| done].
    split; [done |]. split; [done |]. split; [done |]. unfold in_log. cbn. by rewrite Hp, (sent_accepted _ _ _ Hl), app_nil_r.
  - destruct packets as [packets |]; [| by eexists].
    destruct (egress_total sid (datagram_codec (e_session e)) packets (e_conn e) (tx_counters (e_run e)) Hs Hc) as [[c k] He].
    rewrite He. cbn [mbind outcome_bind]. eexists. split; [done |]. split; [done |]. split; [done |].
    split; [| done]. by exists k.
  - by eexists.
  - destruct (pending_send (e_run e)) as [[dst p] |] eqn:Hp; [| by eexists].
    pose proof (send_law (e_out e) udp_send_tx (dst, pb_batch p)) as Hl.
    destruct (send (e_out e) udp_send_tx (dst, pb_batch p)) as [[u | v] w]; eexists; (split; [done |]); [| done].
    split; [| done]. unfold out_log. cbn. by rewrite Hp, (sent_accepted _ _ _ Hl), app_nil_r.
  - by eexists.
  - by eexists.
  - by eexists.
Qed.

(** The output part appends what it collected, and collects only when nothing waits. *)
Lemma push_output_log e :
  exists n, push_output MAX_DATAGRAM_SIZE meta udp_send_tx e = Ret n /\
    match n with
    | Go e' =>
        in_log ingress_tx e' = in_log ingress_tx e /\ rx_counters (e_run e') = rx_counters (e_run e) /\
        e_session e' = e_session e /\
        (e' = e /\ is_Some (pending_send (e_run e)) \/
         pending_send (e_run e) = None /\
         exists out, collect_udp_send MAX_DATAGRAM_SIZE (e_conn e) (max_udp_payload meta) = Ret (e_conn e', out) /\
           out_log udp_send_tx e' = out_log udp_send_tx e ++ send_entry udp_send_tx out)
    | _ => True
    end.
Proof.
  unfold push_output. destruct (pending_send (e_run e)) as [p |] eqn:Hp; [eexists; split; [done |]; naive_solver |].
  destruct (collect_udp_send_total MAX_DATAGRAM_SIZE (e_conn e) (max_udp_payload meta)) as (c & out & Hc).
  rewrite Hc. cbn [mbind outcome_bind]. destruct out as [[dst batch] |].
  - pose proof (try_send_law (e_out e) udp_send_tx (dst, batch)) as Hl.
    destruct (try_send (e_out e) udp_send_tx (dst, batch)) as [[u | [[d b] | v]] w]; eexists; (split; [done |]).
    + split; [done |]. split; [done |]. split; [done |]. right. split; [done |]. eexists. split; [reflexivity |].
      unfold out_log. cbn. by rewrite Hp, (sent_accepted _ _ _ Hl), !app_nil_r.
    + destruct Hl as [Hl [[= -> ->] | [? _]]]; [| done]. split; [done |]. split; [done |]. split; [done |]. right. split; [done |].
      eexists. split; [reflexivity |]. unfold out_log. cbn. by rewrite Hp, (sent_accepted _ _ _ Hl), !app_nil_r.
    + done.
  - eexists. split; [done |]. split; [done |]. split; [done |]. split; [done |]. right. split; [done |]. eexists. split; [reflexivity |].
    unfold out_log. cbn. by rewrite app_nil_r.
Qed.

(** C10: the established loop never panics and loses nothing while it runs.  In every
    step that continues, the batches the router's channel accepted followed by the one that
    waits are the previous ones followed by the batch just decoded, in order: for a batch of
    UDP packets, what is decoded from the engine's own connection after it was fed those
    packets, namely the payloads of the DATAGRAMs it then holds, if they fit the buffers,
    and for every other input nothing.  The same holds of the UDP channel for the packets
    of that connection, which are collected only when none waits, so that a waiting batch
    is never overwritten. *)
Theorem engine_step_no_loss sid qsi i e :
  0 <= sid <= u64_max -> codec_new sid = Ret (datagram_codec (e_session e)) ->
  qsi_bytes (datagram_codec (e_session e)) = Ret qsi ->
  exists n, engine_step MAX_DATAGRAM_SIZE meta ingress_tx udp_send_tx i e = Ret n /\
    match n with
    | Go e' =>
        datagram_codec (e_session e') = datagram_codec (e_session e) /\
        (exists c1, processed i e c1 e' /\
          (out_log udp_send_tx e' = out_log udp_send_tx e /\ e_conn e' = c1 /\ is_Some (pending_send (e_run e')) \/
           exists out, collect_udp_send MAX_DATAGRAM_SIZE c1 (max_udp_payload meta) = Ret (e_conn e', out) /\
             out_log udp_send_tx e' = out_log udp_send_tx e ++ send_entry udp_send_tx out)) /\
        (forall remote packets, i = InUdp (Some (remote, packets)) ->
          exists c k batch, after_poll remote packets e = Ret (c, k) /\
            in_log ingress_tx e' = in_log ingress_tx e ++ ingress_entry ingress_tx batch /\
            (Forall (fun d => Forall is_byte d /\ (length d <= room MAX_DATAGRAM_SIZE (max_udp_payload meta))%nat) (dgrams c) ->
             buf_bytes <$> batch = omap (payload_of qsi) (dgrams c)))
    | _ => True
    end.
Proof.
  intros Hs Hc Hq. unfold engine_step. destruct (on_input_log sid i e Hs Hc) as (n & -> & Hn). cbn [mbind outcome_bind].
  destruct n as [e1 | r e1 |]; [| by eexists ..]. destruct Hn as (Ho & Hd & Hi).
  destruct (push_output_log e1) as (n & -> & Hn). cbn [mbind outcome_bind]. eexists. split; [done |].
  destruct n as [e2 | r e2 |]; [| done ..]. destruct (q_is_closed (e_conn e2)); [done |].
  destruct Hn as (Hin & Hrx & Hses & Hcase). apply (processed_same i e (e_conn e1) e1 e2 Hin Hrx) in Hi.
  split; [by rewrite Hses |]. split.
  - exists (e_conn e1). split; [done |].
    destruct Hcase as [[-> Hpend] | (_ & out & Hcol & Hout)]; [by left |]. right. exists out. by rewrite <- Ho.
  - intros remote packets ->. by apply (decoded_payloads sid qsi remote packets e (e_conn e1)).
Qed.

End loop.

(** ** Witnesses *)

Definition sample_remote : SocketAddr := {| sa_ip := V4 3221225985; sa_port := 443 |}.
Definition sample_pkt : @PooledBuf HeadBuf.lib := {| HeadBuf.free := 10; HeadBuf.data := [69; 0; 0; 20] |}.
Definition sample_datagram : @PooledBuf HeadBuf.lib := {| HeadBuf.free := 0; HeadBuf.data := [1; 0; 69; 0; 0; 20] |}.
Definition sample_meta : EngineMeta :=
  {| local_addr := sample_remote; remote_addr := sample_remote; meta_peer_id := lit "a"; max_udp_payload := 40 |}.

(** One packet crosses a tunnel on stream 4. *)
Lemma tunnel_roundtrip_witness :
  exists ca' ka' ds,
    handle_router_egress (Q := FifoQuic.lib sample_remote) (B := HeadBuf.lib)
      FifoQuic.empty [sample_pkt] sample_codec (counters_new Http3 Tx) = Ret (ca', ka') /\
    ds = [[1; 0; 69; 0; 0; 20]] /\
    exists cb' kb' batch,
      collect_router_ingress (Q := FifoQuic.lib sample_remote) (L := Rfc9000.lib) (B := HeadBuf.lib) 64
        {| FifoQuic.inbox := ds; FifoQuic.sent := []; FifoQuic.outbox := []; FifoQuic.shut := false |} 40
        (counters_new Http3 Rx) sample_codec = Ret (cb', kb', batch) /\
      buf_bytes <$> batch = [[69; 0; 0; 20]].
Proof.
  destruct (tunnel_roundtrip (Q := FifoQuic.lib sample_remote) (L := Rfc9000.lib) (B := HeadBuf.lib) 64 4 sample_codec [1]
    ltac:(unfold u64_max; lia) ltac:(reflexivity) ltac:(reflexivity)
    40 FifoQuic.empty [sample_pkt] (counters_new Http3 Tx) (counters_new Http3 Rx)) as (ca' & ka' & ds & He & Hd & Hb).
  { apply Forall_cons. split; [| constructor]. split_and!; [cbn; lia | done | | by apply Nat.leb_le].
    cbn. repeat (constructor; [unfold is_byte, CONTEXT_ID_IP; lia |]). constructor. }
  assert (Hds : ds = [[1; 0; 69; 0; 0; 20]]).
  { injection He as <- _. cbn in Hd. by symmetry. }
  exists ca', ka', ds. split; [exact He |]. split; [exact Hds |].
  destruct (Hb {| FifoQuic.inbox := ds; FifoQuic.sent := []; FifoQuic.outbox := []; FifoQuic.shut := false |} eq_refl)
    as (cb' & batch & Hc & _ & _ & Heq). eexists _, _, batch. split; [exact Hc |]. apply Heq. by rewrite Hds.
Defined.

Definition sample_engine :
    @Engine (FifoQuic.lib sample_remote) HeadBuf.lib ListChannels.lib ListChannels.lib :=
  {| e_conn := FifoQuic.empty : @conn (FifoQuic.lib sample_remote);
     e_session := {| connect_stream_id := Some 4; datagram_codec := sample_codec; connect_accepted := true;
                     accepted_peer_id := None |};
     e_run := run_state_new;
     e_in := @ListChannels.empty (list (@PooledBuf HeadBuf.lib)) : @world _ ListChannels.lib;
     e_out := @ListChannels.empty (SocketAddr * list (@PooledBuf HeadBuf.lib)) : @world _ ListChannels.lib;
     e_emitted := [] |}.

(** A DATAGRAM arrives and its packet is in the ingress channel. *)
Lemma engine_step_no_loss_witness :
  exists e', engine_step (L := Rfc9000.lib) (B := HeadBuf.lib) 64 sample_meta 0%nat 1%nat
    (InUdp (Some (sample_remote, [sample_datagram]))) sample_engine = Ret (Go e') /\
  exists batch, in_log 0%nat e' = ingress_entry 0%nat batch /\ buf_bytes <$> batch = [[69; 0; 0; 20]].
Proof.
  destruct (engine_step_no_loss (L := Rfc9000.lib) 64 sample_meta 0%nat 1%nat 4 [1]
    (InUdp (Some (sample_remote, [sample_datagram]))) sample_engine)
    as (n & Hn & Hgo); [unfold u64_max; lia | reflexivity | reflexivity |].
  assert (exists e', n = Go e') as [e' ->].
  { apply (f_equal (fun x => match x with Ret (Go _) => true | _ => false end)) in Hn. vm_compute in Hn.
    destruct n; [by eexists | done | done]. }
  exists e'. split; [exact Hn |]. destruct Hgo as (_ & _ & Hu).
  destruct (Hu sample_remote [sample_datagram] eq_refl) as (c & k & batch & Ha & Hl & Hb).
  exists batch. split; [exact Hl |]. injection Ha as <- _. rewrite Hb; [by vm_compute |].
  match goal with |- Forall _ ?l => change l with [[1; 0; 69; 0; 0; 20]] end.
  apply Forall_cons. split; [split |]; [| by apply Nat.leb_le | constructor].
  repeat (apply Forall_cons; split; [unfold is_byte; lia |]). constructor.
Defined.
