(* ===== verification/Dispatcher.v ===== *)
(** * HTTP/3 dispatcher

    Models the CID-routing dispatcher of [src/src/h3listener.rs]: the table of
    connection ids, [handle_udp_batch], [accept_and_spawn], and the loop of
    [H3Dispatcher::run] with the peer token updates, the cleanup of closed
    connections and the debounced reload of the TLS credentials.  Header parsing,
    version negotiation and [quiche::accept] are quiche's (class [QuicServer]).  New
    channels get fresh identities; random bytes and the result of loading the
    credentials are part of the input.  Times are nanoseconds. *)

From stdpp Require Import countable.
From S2P Require Import Prelude Net Config Channel Metrics Codec Auth Session Routing Events Engine.
#[local] Open Scope Z_scope.

Definition RELOAD_DEBOUNCE : Z := from_millis 500.

(** [quiche::Type]. *)
Inductive PacketType : Type := Initial | Retry | Handshake | ZeroRTT | VersionNegotiation | Short.

#[export] Instance PacketType_eq_dec : EqDecision PacketType.
Proof. solve_decision. Defined.

(** [ServerPacketHeader]. *)
Record ServerPacketHeader : Type := {
  dcid : list Z;
  hdr_ty : PacketType;
  hdr_version : Z;
  client_scid : list Z;
}.

(** [qconfig] is [quiche::Config]. *)
Class QuicServer (Q : QuicLib) : Type := {
  qconfig : Type;
  parse_header : list Z -> option ServerPacketHeader;
  version_is_supported : Z -> bool;
  negotiate_version : list Z -> list Z -> nat -> option (list Z);
  quiche_accept : qconfig -> list Z -> SocketAddr -> SocketAddr -> result conn QuicErr;
}.

Section dispatcher.
Context {Q : QuicLib} {S : QuicServer Q} {B : BufLib} (MAX_DATAGRAM_SIZE : nat).
Context {MO : Mpsc (SocketAddr * list PooledBuf)}.

(** [H3Dispatcher] with the locals of [run]: [reload_at] is the deadline of the
    debounce timer while a reload is pending, [next_channel] the next fresh channel,
    [d_world] the world of the UDP channel. *)
Record H3Dispatcher : Type := {
  bound_addr : SocketAddr;
  d_config : qconfig;
  d_max_udp_payload : nat;
  cid_table : gmap (list Z) Sender;
  peer_tokens : gmap rstr rstr;
  reload_at : option Z;
  next_channel : Sender;
  d_world : world;
}.

Definition with_table (d : H3Dispatcher) (t : gmap (list Z) Sender) (next : Sender) (w : world) : H3Dispatcher :=
  {| bound_addr := bound_addr d; d_config := d_config d; d_max_udp_payload := d_max_udp_payload d; cid_table := t;
     peer_tokens := peer_tokens d; reload_at := reload_at d; next_channel := next; d_world := w |}.

Definition with_tokens (d : H3Dispatcher) (tokens : gmap rstr rstr) : H3Dispatcher :=
  {| bound_addr := bound_addr d; d_config := d_config d; d_max_udp_payload := d_max_udp_payload d;
     cid_table := cid_table d; peer_tokens := tokens; reload_at := reload_at d; next_channel := next_channel d;
     d_world := d_world d |}.

Definition with_reload (d : H3Dispatcher) (c : qconfig) (at_ : option Z) : H3Dispatcher :=
  {| bound_addr := bound_addr d; d_config := c; d_max_udp_payload := d_max_udp_payload d;
     cid_table := cid_table d; peer_tokens := peer_tokens d; reload_at := at_; next_channel := next_channel d;
     d_world := d_world d |}.

(** A connection task: its connection after the first packets, its channels, the
    peer's address and the tokens it authenticates with. *)
Record Spawned : Type := {
  sp_conn : conn;
  sp_packets : Sender;
  sp_egress : Sender;
  sp_remote : SocketAddr;
  sp_tokens : gmap rstr rstr;
}.

Inductive DispatchOut : Type :=
| ToConnection (tx : Sender) (remote : SocketAddr) (batch : list PooledBuf)
| SpawnConnection (s : Spawned).

(** [ServerPacketHeader::parse]. *)
Definition header_parse (batch : list PooledBuf) : option ServerPacketHeader :=
  first ← head batch; parse_header (buf_bytes first).

(** [accept_and_spawn]; [scid_bytes] are the random bytes.  A connection whose first
    output finds the UDP channel closed is dropped with its receiver. *)
Definition accept_and_spawn (udp_send_tx : Sender) (scid_bytes : list Z) (remote : SocketAddr)
    (batch : list PooledBuf) (header : ServerPacketHeader) (d : H3Dispatcher) :
    outcome (H3Dispatcher * list DispatchOut) :=
  if decide (hdr_ty header <> Initial) then Ret (d, [])
  else if negb (version_is_supported (hdr_version header)) then
    let pkt := alloc_uninit_packet_buf MAX_DATAGRAM_SIZE (d_max_udp_payload d) in
    match negotiate_version (client_scid header) (dcid header) (length (buf_bytes pkt)) with
    | Some bs =>
        Ret (with_table d (cid_table d) (next_channel d) (try_send (d_world d) udp_send_tx (remote, [filled pkt bs])).2, [])
    | None => Ret (d, [])
    end
  else
    match quiche_accept (d_config d) scid_bytes (bound_addr d) remote with
    | Err _ => Ret (d, [])
    | Ok c =>
        let '(c, _) := handle_udp_recv c batch {| from := remote; to := bound_addr d |} None in
        let packet_tx := next_channel d in
        let egress_tx := Datatypes.S packet_tx in
        let table := <[scid_bytes := packet_tx]> (<[dcid header := packet_tx]> (cid_table d)) in
        let meta := {| local_addr := bound_addr d; remote_addr := remote; meta_peer_id := [];
                       max_udp_payload := d_max_udp_payload d |} in
        r ← flush_send MAX_DATAGRAM_SIZE meta udp_send_tx c (d_world d);
        let '(flushed, c, w) := r in
        let d := with_table d table (Datatypes.S egress_tx) w in
        Ret (d, match flushed with
                | Err _ => []
                | Ok _ => [SpawnConnection {| sp_conn := c; sp_packets := packet_tx; sp_egress := egress_tx;
                                              sp_remote := remote; sp_tokens := peer_tokens d |}]
                end)
    end.

(** [handle_udp_batch]. *)
Definition handle_udp_batch (udp_send_tx : Sender) (scid_bytes : list Z) (remote : SocketAddr)
    (batch : list PooledBuf) (d : H3Dispatcher) : outcome (H3Dispatcher * list DispatchOut) :=
  match header_parse batch with
  | None => Ret (d, [])
  | Some header =>
      match cid_table d !! dcid header with
      | Some tx => Ret (d, [ToConnection tx remote batch])
      | None => accept_and_spawn udp_send_tx scid_bytes remote batch header d
      end
  end.

(** [should_reload] on a [notify] event. *)
Record NotifyEvent : Type := { need_rescan : bool; is_access : bool }.
Definition should_reload (ev : NotifyEvent) : bool := need_rescan ev || negb (is_access ev).

(** One branch of the loop.  [InBatch]: a UDP batch and the random bytes used if a
    connection is accepted.  [InCleanup]: which connection channels are closed.
    [InDebounce]: the credentials as loaded at that time ([JoinError] and load errors
    are both an [Err]). *)
Inductive DispatchInput : Type :=
| InBatch (batch : option (SocketAddr * list PooledBuf)) (scid_bytes : list Z)
| InCleanup (closed : Sender -> bool)
| InTokens (tokens : gmap rstr rstr)
| InOther
| InStop
| InWatch (event : option (result NotifyEvent rstr))
| InDebounce (loaded : result qconfig rstr).

Inductive DispatchNext : Type :=
| DGo (d : H3Dispatcher) (outs : list DispatchOut)
| DExit (r : result unit rstr)
| DDisabled.

Definition dispatcher_step (udp_send_tx : Sender) (now : Z) (i : DispatchInput) (d : H3Dispatcher) :
    outcome DispatchNext :=
  match i with
  | InBatch None _ => Ret (DExit (Err (lit "UDP RX actor channel closed")))
  | InBatch (Some (remote, batch)) scid_bytes =>
      r ← handle_udp_batch udp_send_tx scid_bytes remote batch d;
      let '(d, outs) := r in Ret (DGo d outs)
  | InCleanup closed =>
      Ret (DGo (with_table d (filter (fun ct => closed ct.2 = false) (cid_table d)) (next_channel d) (d_world d)) [])
  | InTokens tokens => Ret (DGo (with_tokens d tokens) [])
  | InOther => Ret (DGo d [])
  | InStop => Ret (DExit (Ok tt))
  | InWatch None => Ret (DExit (Err (lit "TLS certificate watcher event channel closed")))
  | InWatch (Some (Ok event)) =>
      Ret (DGo (if should_reload event then with_reload d (d_config d) (Some (now + RELOAD_DEBOUNCE)) else d) [])
  | InWatch (Some (Err _)) => Ret (DGo (with_reload d (d_config d) (Some (now + RELOAD_DEBOUNCE))) [])
  | InDebounce loaded =>
      match reload_at d with
      | None => Ret DDisabled
      | Some deadline =>
          if decide (now < deadline) then Ret DDisabled
          else Ret (DGo (match loaded with
                         | Ok config => with_reload d config None
                         | Err _ => with_reload d (d_config d) None
                         end) [])
      end
  end.

(** A run of the loop: the inputs with their times. *)
Inductive dispatcher_runs (udp_send_tx : Sender) : H3Dispatcher -> list (Z * DispatchInput) -> H3Dispatcher -> Prop :=
| runs_nil d : dispatcher_runs udp_send_tx d [] d
| runs_snoc d is_ d1 now i d2 outs :
    dispatcher_runs udp_send_tx d is_ d1 -> dispatcher_step udp_send_tx now i d1 = Ret (DGo d2 outs) ->
    dispatcher_runs udp_send_tx d (is_ ++ [(now, i)]) d2.

(** Channels in the table were allocated, and no two connections share one. *)
Definition table_ok (d : H3Dispatcher) : Prop :=
  forall cid tx, cid_table d !! cid = Some tx -> (tx < next_channel d)%nat.

End dispatcher.

Section dispatcher_facts.
Context {Q : QuicLib} {HQ : QuicLaws Q} {S : QuicServer Q} {B : BufLib} (MAX_DATAGRAM_SIZE : nat).
Context {MO : Mpsc (SocketAddr * list PooledBuf)} (udp_send_tx : Sender).

Lemma flush_send_total meta c w : exists r, flush_send MAX_DATAGRAM_SIZE meta udp_send_tx c w = Ret r.
Proof.
  unfold flush_send. destruct (collect_udp_send_total MAX_DATAGRAM_SIZE c (max_udp_payload meta)) as (c' & out & ->).
  by eexists.
Qed.

(** What accepting a connection does. *)
Definition accepted_as (scid_bytes : list Z) (remote : SocketAddr) (header : ServerPacketHeader) (d d' : H3Dispatcher)
    (outs : list DispatchOut) : Prop :=
  hdr_ty header = Initial /\ version_is_supported (hdr_version header) = true /\
  cid_table d' = <[scid_bytes := next_channel d]> (<[dcid header := next_channel d]> (cid_table d)) /\
  (next_channel d < next_channel d')%nat /\
  forall out, out ∈ outs -> exists s, out = SpawnConnection s /\ sp_packets s = next_channel d /\
    sp_remote s = remote /\ sp_tokens s = peer_tokens d.

Lemma accept_and_spawn_spec scid_bytes remote batch header d :
  exists d' outs, accept_and_spawn MAX_DATAGRAM_SIZE udp_send_tx scid_bytes remote batch header d = Ret (d', outs) /\
    (length outs <= 1)%nat /\ peer_tokens d' = peer_tokens d /\
    (cid_table d' = cid_table d /\ next_channel d' = next_channel d /\ outs = [] \/
     accepted_as scid_bytes remote header d d' outs).
Proof.
  unfold accept_and_spawn. destruct (decide (hdr_ty header <> Initial)) as [| Ht].
  { eexists _, _. split; [done |]. cbn [length]. split_and!; [lia | done | by left]. }
  apply dec_stable in Ht. destruct (version_is_supported (hdr_version header)) eqn:Hv; cbn [negb].
  2: { destruct (negotiate_version _ _ _); eexists _, _; (split; [done |]); cbn [length]; (split_and!; [lia | done | by left]). }
  destruct (quiche_accept _ _ _ _) as [c | e].
  2: { eexists _, _. split; [done |]. cbn [length]. split_and!; [lia | done | by left]. }
  destruct (handle_udp_recv _ _ _ _) as [c1 k]. cbv zeta.
  match goal with |- context [flush_send _ ?m _ ?c ?w] => destruct (flush_send_total m c w) as [[[fl c2] w'] ->] end.
  cbn [mbind outcome_bind]. eexists _, _. split; [done |]. split_and!; [destruct fl; cbn; lia | done |]. right.
  unfold accepted_as. cbn. split_and!; [done | done | done | lia |].
  intros out Hin. destruct fl; [| set_solver]. apply list_elem_of_singleton in Hin. subst out. by eexists.
Qed.

(** C25: the dispatcher routes by connection id.  A batch for a registered id goes to
    its connection and nowhere else; a batch that does not parse, or is not an
    Initial packet of a supported version, changes no registration and reaches no
    connection; otherwise at most one connection is started, on a channel no other
    connection uses and with the current peer tokens, and from then on the batches
    for either of its two ids go to it, while every other registration is kept. *)
Theorem dispatcher_routes scid_bytes remote batch d :
  table_ok d ->
  exists d' outs, handle_udp_batch MAX_DATAGRAM_SIZE udp_send_tx scid_bytes remote batch d = Ret (d', outs) /\
    table_ok d' /\
    match header_parse batch with
    | None => d' = d /\ outs = []
    | Some header =>
        match cid_table d !! dcid header with
        | Some tx => d' = d /\ outs = [ToConnection tx remote batch]
        | None =>
            cid_table d' = cid_table d /\ outs = [] \/
            hdr_ty header = Initial /\ version_is_supported (hdr_version header) = true /\ (length outs <= 1)%nat /\
            exists tx, (forall cid, cid_table d !! cid <> Some tx) /\
              (forall out, out ∈ outs -> exists s, out = SpawnConnection s /\ sp_packets s = tx /\ sp_remote s = remote /\
                 sp_tokens s = peer_tokens d) /\
              (forall cid, cid_table d' !! cid =
                 if decide (cid = scid_bytes \/ cid = dcid header) then Some tx else cid_table d !! cid) /\
              (forall scid' remote' batch' header', header_parse batch' = Some header' ->
                 dcid header' = scid_bytes \/ dcid header' = dcid header ->
                 handle_udp_batch MAX_DATAGRAM_SIZE udp_send_tx scid' remote' batch' d' =
                 Ret (d', [ToConnection tx remote' batch']))
        end
    end.
Proof.
  intros Hok. unfold handle_udp_batch at 1. destruct (header_parse batch) as [header |]; [| by eexists _, _].
  destruct (cid_table d !! dcid header) as [tx |] eqn:Hcid; [by eexists _, _ |].
  destruct (accept_and_spawn_spec scid_bytes remote batch header d) as (d' & outs & Ha & Hlen & _ & Hcase).
  exists d', outs. split; [done |]. destruct Hcase as [(Ht & Hn & ->) | (Hi & Hv & Ht & Hn & Hout)].
  { split; [| by left]. intros cid tx. rewrite Ht, Hn. apply Hok. }
  assert (Hlook : forall cid, cid_table d' !! cid =
    if decide (cid = scid_bytes \/ cid = dcid header) then Some (next_channel d) else cid_table d !! cid).
  { intros cid. rewrite Ht. case_decide as Hc.
    - destruct (decide (scid_bytes = cid)) as [-> |]; [by rewrite lookup_insert_eq |].
      rewrite lookup_insert_ne by done. destruct Hc as [-> | ->]; [done | by rewrite lookup_insert_eq].
    - rewrite !lookup_insert_ne; naive_solver. }
  split.
  { intros cid tx. rewrite Hlook. case_decide; [intros [= <-]; lia |]. intros Hx%Hok. lia. }
  right. split_and!; [done .. |]. exists (next_channel d). split_and!; [| done | done |].
  - intros cid Hx%Hok. lia.
  - intros scid' remote' batch' header' Hp Hd. unfold handle_udp_batch. rewrite Hp, Hlook, decide_True by done. done.
Qed.
End dispatcher_facts.

(** ** A concrete server: the first byte of a packet is its kind, the next two its
    destination and source ids *)
Module FifoServer.
Definition parse (bs : list Z) : option ServerPacketHeader :=
  match bs with
  | ty :: d :: s :: _ =>
      Some {| dcid := [d]; hdr_ty := if decide (ty = 0) then Initial else Short; hdr_version := 1; client_scid := [s] |}
  | _ => None
  end.

#[export] Instance lib peer : QuicServer (FifoQuic.lib peer) := {|
  qconfig := unit;
  parse_header := parse;
  version_is_supported v := bool_decide (v = 1);
  negotiate_version s d n := Some [];
  quiche_accept _ _ _ _ := @Ok (@conn (FifoQuic.lib peer)) QuicErr FifoQuic.empty;
|}.
End FifoServer.

Definition sample_dispatcher :
    @H3Dispatcher (FifoQuic.lib sample_remote) (FifoServer.lib sample_remote) HeadBuf.lib ListChannels.lib :=
  {| bound_addr := sample_remote; d_config := tt : @qconfig _ (FifoServer.lib sample_remote); d_max_udp_payload := 40%nat;
     cid_table := ∅; peer_tokens := {[ lit "a" := lit "secret-token" ]}; reload_at := None; next_channel := 2%nat;
     d_world := @ListChannels.empty (SocketAddr * list (@PooledBuf HeadBuf.lib)) : @world _ ListChannels.lib |}.

Definition sample_initial : @PooledBuf HeadBuf.lib := {| HeadBuf.free := 0; HeadBuf.data := [0; 7; 9; 1] |}.

Lemma dispatcher_routes_witness :
  table_ok sample_dispatcher /\
  exists d' outs, handle_udp_batch 64 1%nat [42] sample_remote [sample_initial] sample_dispatcher = Ret (d', outs) /\
    table_ok d'.
Proof.
  assert (H : table_ok sample_dispatcher) by done. split; [exact H |].
  destruct (dispatcher_routes 64 1%nat [42] sample_remote [sample_initial] sample_dispatcher H)
    as (d' & outs & He & Hok & _).
  exists d', outs. split; [exact He | exact Hok].
Defined.
