(* ===== verification/Handshake.v ===== *)
(** * HTTP/3 handshakes

    Models the two startup loops of the engine as step functions on the branch taken:
    [H3Engine::accept] of [src/src/h3listener.rs] (server) and [H3Engine::establish]
    with [send_connect_request] of [src/src/h3dialer.rs] (client).  Beyond [QuicLib]
    they use quiche's connection state and the HTTP/3 calls of class [H3Setup].  The
    events polled so far are kept in [hs_seen]. *)

From stdpp Require Import countable.
From S2P Require Import Prelude Net Config Channel Metrics Codec Utf8 Auth Session Engine.
#[local] Open Scope Z_scope.

(** [h3_transport] is [quiche::h3::Connection::with_transport], [send_200] the result
    of sending the positive response, [send_request] of sending a request. *)
Class H3Setup (Q : QuicLib) : Type := {
  is_established : conn -> bool;
  h3_transport : conn -> result conn rstr;
  send_200 : conn -> Z -> result unit rstr;
  send_request : conn -> list Header -> result (Z * conn) rstr;
}.

(** Stream ids are 64-bit. *)
Class H3SetupLaws {Q : QuicLib} (H : H3Setup Q) : Prop := {
  q_poll_law c : Forall event_wf (q_poll c).1.1;
  send_request_law c hs sid c' : send_request c hs = Ok (sid, c') -> 0 <= sid <= u64_max;
}.

(** [DialError]; [DialSocket] is the error of the socket setup before the loop. *)
Inductive DialError : Type :=
| DialSocket (reason : rstr)
| DialHandshake (reason : rstr)
| DialRejected (status : rstr)
| DialTimeout (timeout : Z).

(** The text of its [Display]. *)
Definition display_dial_error (e : DialError) : rstr :=
  match e with
  | DialSocket m => lit "socket: " ++ m
  | DialHandshake m => lit "handshake: " ++ m
  | DialRejected status => lit "rejected: status " ++ status
  | DialTimeout d => lit "timeout after " ++ debug_duration d
  end.

(** [impl From<ConnectFailure> for DialError]. *)
Definition dial_error_from (f : ConnectFailure) : DialError :=
  match f with
  | Rejected status => DialRejected status
  | ClosedStream reason | Poll reason => DialHandshake reason
  end.

Section handshake.
Context {Q : QuicLib} {H3 : H3Setup Q} {L : VarintLib} {B : BufLib} (MAX_DATAGRAM_SIZE : nat).
Context {MO : Mpsc (SocketAddr * list PooledBuf)} (meta : EngineMeta) (udp_send_tx : Sender).

Record HsState : Type := {
  hs_conn : conn;
  hs_session : option H3Session;
  hs_out : world;
  hs_seen : list H3Event;
}.

Definition hs (c : conn) (s : option H3Session) (w : world) (seen : list H3Event) : HsState :=
  {| hs_conn := c; hs_session := s; hs_out := w; hs_seen := seen |}.

Inductive HsInput : Type :=
| HsUdp (batch : option (SocketAddr * list PooledBuf))
| HsTimer
| HsDeadline.

(** [E] is the error type, [A] what a finished handshake returns. *)
Inductive HsNext (A E : Type) : Type :=
| Wait (st : HsState)
| Finish (a : A) (st : HsState)
| Fail (e : E).
Arguments Wait {A E}.
Arguments Finish {A E}.
Arguments Fail {A E}.

(** [flush_send], its error wrapped by [wrap]. *)
Definition flush_then {A E} (wrap : rstr -> E) (st : HsState) (k : HsState -> outcome (HsNext A E)) :
    outcome (HsNext A E) :=
  r ← flush_send MAX_DATAGRAM_SIZE meta udp_send_tx (hs_conn st) (hs_out st);
  let '(res, c, w) := r in
  match res with
  | Err e => Ret (Fail (wrap e))
  | Ok _ => k (hs c (hs_session st) w (hs_seen st))
  end.

(** The end of an iteration. *)
Definition end_of_turn {A E} (wrap : rstr -> E) (closed : rstr) (st : HsState) : outcome (HsNext A E) :=
  flush_then wrap st (fun st => Ret (if q_is_closed (hs_conn st) then Fail (wrap closed) else Wait st)).

(** The session is created once QUIC is established. *)
Definition create_session (st : HsState) : outcome (result HsState rstr) :=
  match hs_session st with
  | None =>
      if is_established (hs_conn st) then
        match h3_transport (hs_conn st) with
        | Err e => Ret (Err e)
        | Ok c => s ← with_transport; Ret (Ok (hs c (Some s) (hs_out st) (hs_seen st)))
        end
      else Ret (Ok st)
  | Some _ => Ret (Ok st)
  end.

(** ** Server: [H3Engine::accept] *)

Section server.
Context {HM : HmacLib} (k : hmac_key) (tokens : gmap rstr rstr).

Definition accept_wrap (e : rstr) : rstr := e.

Definition accept_poll (s : H3Session) (st : HsState) : outcome (HsNext rstr rstr) :=
  let '(evs, fin, c) := q_poll (hs_conn st) in
  r ← poll_h3_events (server_handler k tokens (send_200 c)) evs fin s [];
  let '(res, s, calls) := r in
  let st := hs (q_apply c calls) (Some s) (hs_out st) (hs_seen st ++ evs) in
  match res with
  | Ok Ready =>
      match accepted_peer_id s with
      | None => Panic
      | Some pid =>
          let s := {| connect_stream_id := connect_stream_id s; datagram_codec := datagram_codec s;
                      connect_accepted := connect_accepted s; accepted_peer_id := None |} in
          flush_then accept_wrap (hs (hs_conn st) (Some s) (hs_out st) (hs_seen st)) (fun st => Ret (Finish pid st))
      end
  | Ok Pending => end_of_turn accept_wrap (lit "QUIC connection closed during handshake") st
  | Err e => flush_then accept_wrap st (fun _ => Ret (Fail (into_actor_reason e)))
  end.

Definition accept_step (i : HsInput) (st : HsState) : outcome (HsNext rstr rstr) :=
  match i with
  | HsUdp None => Ret (Fail (lit "udp rx closed during handshake"))
  | HsUdp (Some (remote, batch)) =>
      let '(c, _) := handle_udp_recv (hs_conn st) batch (recv_info meta remote) None in
      created ← create_session (hs c (hs_session st) (hs_out st) (hs_seen st));
      match created with
      | Err e => Ret (Fail e)
      | Ok st =>
          match hs_session st with
          | None => end_of_turn accept_wrap (lit "QUIC connection closed during handshake") st
          | Some s => accept_poll s st
          end
      end
  | HsTimer => end_of_turn accept_wrap (lit "QUIC connection closed during handshake")
                 (hs (q_on_timeout (hs_conn st)) (hs_session st) (hs_out st) (hs_seen st))
  | HsDeadline =>
      flush_then accept_wrap (hs (q_close (hs_conn st)) (hs_session st) (hs_out st) (hs_seen st))
        (fun _ => Ret (Fail (lit "handshake timeout")))
  end.

Inductive accept_reach (c : conn) (w : world) : HsState -> Prop :=
| accept_start : accept_reach c w (hs c None w [])
| accept_next st i st' : accept_reach c w st -> accept_step i st = Ret (Wait st') -> accept_reach c w st'.
End server.

(** ** Client: [H3Engine::establish] *)

Section client.
Context (authority connect_path auth_header : rstr) (timeout : Z).

(** [send_connect_request]. *)
Definition send_connect_request (s : H3Session) (c : conn) : outcome (result (H3Session * conn) DialError) :=
  match send_request c (connect_headers authority connect_path auth_header) with
  | Err e => Ret (Err (DialHandshake (lit "send CONNECT: " ++ e)))
  | Ok (sid, c) => s ← bind_connect_stream s sid; Ret (Ok (s, c))
  end.

Definition establish_poll (s : H3Session) (st : HsState) : outcome (HsNext unit DialError) :=
  let '(evs, fin, c) := q_poll (hs_conn st) in
  r ← poll_h3_events (client_handler (connect_stream_id s)) evs fin s [];
  let '(res, s, calls) := r in
  let st := hs (q_apply c calls) (Some s) (hs_out st) (hs_seen st ++ evs) in
  match res with
  | Ok Pending => end_of_turn DialHandshake (lit "QUIC connection closed during startup") st
  | Ok Ready => Ret (Finish tt st)
  | Err e => Ret (Fail (dial_error_from e))
  end.

(** The creation of the session, followed by a flush and the request. *)
Definition establish_session (st : HsState) (k : HsState -> outcome (HsNext unit DialError)) :
    outcome (HsNext unit DialError) :=
  match hs_session st with
  | Some _ => k st
  | None =>
      created ← create_session st;
      match created with
      | Err e => Ret (Fail (DialHandshake e))
      | Ok st =>
          match hs_session st with
          | None => k st
          | Some s =>
              flush_then DialHandshake st (fun st =>
                r ← send_connect_request s (hs_conn st);
                match r with
                | Err e => Ret (Fail e)
                | Ok (s, c) => k (hs c (Some s) (hs_out st) (hs_seen st))
                end)
          end
      end
  end.

Definition establish_step (i : HsInput) (st : HsState) : outcome (HsNext unit DialError) :=
  match i with
  | HsUdp None => Ret (Fail (DialHandshake (lit "UDP Rx closed during startup")))
  | HsUdp (Some (remote, packets)) =>
      let '(c, _) := handle_udp_recv (hs_conn st) packets (recv_info meta remote) None in
      establish_session (hs c (hs_session st) (hs_out st) (hs_seen st)) (fun st =>
        match hs_session st with
        | None => end_of_turn DialHandshake (lit "QUIC connection closed during startup") st
        | Some s => establish_poll s st
        end)
  | HsTimer => end_of_turn DialHandshake (lit "QUIC connection closed during startup")
                 (hs (q_on_timeout (hs_conn st)) (hs_session st) (hs_out st) (hs_seen st))
  | HsDeadline =>
      flush_then DialHandshake (hs (q_close (hs_conn st)) (hs_session st) (hs_out st) (hs_seen st))
        (fun _ => Ret (Fail (DialTimeout timeout)))
  end.

(** The states of [establish]: the first flush, then the loop. *)
Inductive establish_reach (c : conn) (w : world) : HsState -> Prop :=
| establish_start st :
    flush_then (A := unit) DialHandshake (hs c None w []) (fun st => Ret (Wait st)) = Ret (Wait st) ->
    establish_reach c w st
| establish_next st i st' : establish_reach c w st -> establish_step i st = Ret (Wait st') -> establish_reach c w st'.
End client.

End handshake.
Arguments Wait {Q B MO A E}.
Arguments Finish {Q B MO A E}.
Arguments Fail {Q B MO A E}.

Lemma server_handler_accepts {HM : HmacLib} k tokens f sid headers sid' pid :
  fst (server_handler k tokens f sid headers) = Ok (Accept sid' pid) ->
  exists p, pid = Some p /\ validate_server_connect_headers headers = Ok tt /\
    validate_server_auth k headers tokens = Ok p.
Proof.
  unfold server_handler. destruct (validate_server_connect_headers headers) as [[] |]; [| done].
  destruct (validate_server_auth k headers tokens) as [p |]; [| done].
  destruct (f sid); cbn; [| done]. intros [= _ <-]. by exists p.
Qed.

Section handshake_facts.
Context {Q : QuicLib} {HQ : QuicLaws Q} {H3 : H3Setup Q} {HH3 : H3SetupLaws H3}.
Context {L : VarintLib} {HL : VarintLaws L} {B : BufLib} (MAX_DATAGRAM_SIZE : nat).
Context {MO : Mpsc (SocketAddr * list PooledBuf)} (meta : EngineMeta) (udp_send_tx : Sender).

Lemma flush_then_cases {A E} (wrap : rstr -> E) st (k : HsState -> outcome (HsNext A E)) :
  (exists e, flush_then MAX_DATAGRAM_SIZE meta udp_send_tx wrap st k = Ret (Fail (wrap e))) \/
  exists c w, flush_then MAX_DATAGRAM_SIZE meta udp_send_tx wrap st k = k (hs c (hs_session st) w (hs_seen st)).
Proof.
  unfold flush_then, flush_send.
  destruct (collect_udp_send_total MAX_DATAGRAM_SIZE (hs_conn st) (max_udp_payload meta)) as (c & out & ->).
  cbn [mbind outcome_bind]. destruct out as [s |]; [| right; by eexists _, _].
  destruct (try_send (hs_out st) udp_send_tx s) as [[u | [v | v]] w]; [right; by eexists _, _ .. | left; by eexists].
Qed.

Lemma end_of_turn_cases {A E} (wrap : rstr -> E) closed st :
  exists n, end_of_turn MAX_DATAGRAM_SIZE meta udp_send_tx (A := A) wrap closed st = Ret n /\
    match n with
    | Wait st' => hs_session st' = hs_session st /\ hs_seen st' = hs_seen st
    | Finish _ _ => False
    | Fail _ => True
    end.
Proof.
  unfold end_of_turn. destruct (flush_then_cases (A := A) wrap st (fun st => Ret (if q_is_closed (hs_conn st) then Fail (wrap closed) else Wait st)))
    as [[e ->] | (c & w & ->)]; eexists; (split; [done |]); [done |]. cbn. by destruct (q_is_closed c).
Qed.

(** The session of a handshake in progress: [acc headers pid] is what the request (or
    response) that was accepted satisfies. *)
Definition hs_inv (acc : Z -> list Header -> option rstr -> Prop) (st : HsState) : Prop :=
  match hs_session st with
  | None => True
  | Some s => session_wf s /\
      (connect_accepted s = true -> exists sid headers,
         Headers sid headers ∈ hs_seen st /\ acc sid headers (accepted_peer_id s) /\ connect_stream_id s = Some sid)
  end.

Lemma hs_inv_session acc st st' :
  hs_session st' = hs_session st -> hs_seen st' = hs_seen st -> hs_inv acc st -> hs_inv acc st'.
Proof. unfold hs_inv. by intros -> ->. Qed.

(** One poll keeps the invariant. *)
Lemma poll_hs_inv acc h st s evs fin :
  handler_wf h -> Forall event_wf evs ->
  (forall sid headers pid, fst (h sid headers) = Ok (Accept sid pid) -> acc sid headers pid) ->
  hs_session st = Some s -> hs_inv acc st ->
  exists res s' calls, poll_h3_events h evs fin s [] = Ret (res, s', calls) /\
    (res = Ok Ready -> connect_accepted s' = true) /\
    forall c w, hs_inv acc (hs c (Some s') w (hs_seen st ++ evs)).
Proof.
  intros Hh Hev Hacc Hs Hinv. unfold hs_inv in Hinv. rewrite Hs in Hinv. destruct Hinv as [Hw Ha].
  destruct (poll_h3_events_inv h evs fin s [] Hh Hev Hw) as (res & s' & calls & -> & Hw' & H1 & H2 & _ & H4).
  exists res, s', calls. split; [done |]. split; [done |]. intros c w. unfold hs_inv. cbn. split; [done |]. intros Ha'.
  destruct (connect_accepted s) eqn:Hold.
  - rewrite (H1 eq_refl) in *. destruct (Ha eq_refl) as (sid & headers & Hin & Hrest). exists sid, headers.
    split; [set_solver | done].
  - destruct (H2 eq_refl Ha') as (sid & headers & pid & Hin & Hhd & Hsid & Hpid). exists sid, headers.
    split; [set_solver |]. split; [| done]. rewrite Hpid. by apply Hacc.
Qed.

Lemma create_session_inv acc st :
  hs_inv acc st ->
  exists r, create_session st = Ret r /\ match r with Ok st' => hs_inv acc st' | Err _ => True end.
Proof.
  intros Hinv. unfold create_session. destruct (hs_session st) eqn:Hs; [by eexists |].
  destruct (is_established (hs_conn st)); [| by eexists]. destruct (h3_transport (hs_conn st)); [| by eexists].
  destruct with_transport_wf as (s0 & -> & Hw & Ha & _). cbn [mbind outcome_bind]. eexists. split; [done |].
  unfold hs_inv. cbn. split; [done |]. congruence.
Qed.

Section server.
Context {HM : HmacLib} (k : hmac_key) (tokens : gmap rstr rstr).

(** The request passed the header and the token check. *)
Definition authenticated (sid : Z) (headers : list Header) (pid : option rstr) : Prop :=
  exists p, pid = Some p /\ validate_server_connect_headers headers = Ok tt /\
    validate_server_auth k headers tokens = Ok p.

Lemma accept_poll_inv s st :
  hs_session st = Some s -> hs_inv authenticated st ->
  exists n, accept_poll MAX_DATAGRAM_SIZE meta udp_send_tx k tokens s st = Ret n /\
    match n with
    | Wait st' => hs_inv authenticated st'
    | Finish pid st' => exists sid headers s', Headers sid headers ∈ hs_seen st' /\ authenticated sid headers (Some pid) /\
        hs_session st' = Some s' /\ connect_stream_id s' = Some sid /\ codec_new sid = Ret (datagram_codec s')
    | Fail _ => True
    end.
Proof.
  intros Hs Hinv. unfold accept_poll. pose proof (q_poll_law (hs_conn st)) as Hev.
  destruct (q_poll (hs_conn st)) as [[evs fin] c]. cbn in Hev.
  destruct (poll_hs_inv authenticated (server_handler k tokens (send_200 c)) st s evs fin
    (server_handler_wf _ _ _) Hev) as (res & s' & calls & -> & Hready & Hinv'); [| done | done |].
  { intros sid headers pid Hh. apply server_handler_accepts in Hh as (p & -> & ? & ?). by exists p. }
  cbn [mbind outcome_bind]. cbv zeta. set (st1 := hs (q_apply c calls) (Some s') (hs_out st) (hs_seen st ++ evs)).
  destruct res as [[] | e].
  - destruct (end_of_turn_cases (A := rstr) accept_wrap (lit "QUIC connection closed during handshake") st1) as (n & -> & Hn).
    eexists. split; [done |]. destruct n; [| done | done]. destruct Hn as [H1 H2].
    by apply (hs_inv_session _ st1); [| | apply Hinv'].
  - destruct (Hinv' (q_apply c calls) (hs_out st)) as [Hw Ha]. destruct (Ha (Hready eq_refl)) as (sid & headers & Hin & Hauth & Hsid).
    destruct Hauth as (p & Hp & Hv & Hau). rewrite Hp.
    match goal with |- context [flush_then _ _ _ _ ?st2 ?k2] =>
      destruct (flush_then_cases accept_wrap st2 k2) as [[e ->] | (c2 & w2 & ->)] end; eexists; (split; [done |]); [done |].
    eexists sid, headers, _. split; [done |]. split; [by exists p |]. split; [done |]. split; [done |].
    cbn. unfold session_wf in Hw. by rewrite Hsid in Hw.
  - match goal with |- context [flush_then _ _ _ _ ?st2 ?k2] =>
      destruct (flush_then_cases accept_wrap st2 k2) as [[e' ->] | (c2 & w2 & ->)] end; by eexists.
Qed.

(** One iteration of [accept]. *)
Lemma accept_step_inv i st :
  hs_inv authenticated st ->
  exists n, accept_step MAX_DATAGRAM_SIZE meta udp_send_tx k tokens i st = Ret n /\
    match n with
    | Wait st' => hs_inv authenticated st'
    | Finish pid st' => exists sid headers s', Headers sid headers ∈ hs_seen st' /\ authenticated sid headers (Some pid) /\
        hs_session st' = Some s' /\ connect_stream_id s' = Some sid /\ codec_new sid = Ret (datagram_codec s')
    | Fail _ => True
    end.
Proof.
  intros Hinv.
  assert (Hturn : forall st1, hs_inv authenticated st1 -> exists n,
    end_of_turn MAX_DATAGRAM_SIZE meta udp_send_tx accept_wrap (lit "QUIC connection closed during handshake") st1 = Ret n /\
    match n with
    | Wait st' => hs_inv authenticated st'
    | Finish pid st' => exists sid headers s', Headers sid headers ∈ hs_seen st' /\ authenticated sid headers (Some pid) /\
        hs_session st' = Some s' /\ connect_stream_id s' = Some sid /\ codec_new sid = Ret (datagram_codec s')
    | Fail _ => True
    end).
  { intros st1 H1. destruct (end_of_turn_cases (A := rstr) accept_wrap (lit "QUIC connection closed during handshake") st1)
      as (n & -> & Hn). eexists. split; [done |]. destruct n; [| done | done]. destruct Hn. by apply (hs_inv_session _ st1). }
  destruct i as [[[remote batch] |] | |]; cbn [accept_step].
  - destruct (handle_udp_recv _ _ _ _) as [c k'].
    destruct (create_session_inv authenticated (hs c (hs_session st) (hs_out st) (hs_seen st))) as (r & -> & Hr); [done |].
    cbn [mbind outcome_bind]. destruct r as [st1 | e]; [| by eexists].
    destruct (hs_session st1) as [s |] eqn:Hs; [by apply accept_poll_inv | by apply Hturn].
  - by eexists.
  - by apply Hturn.
  - match goal with |- context [flush_then _ _ _ _ ?st2 ?k2] =>
      destruct (flush_then_cases accept_wrap st2 k2) as [[e' ->] | (c2 & w2 & ->)] end; by eexists.
Qed.

Lemma accept_reach_inv c w st :
  accept_reach MAX_DATAGRAM_SIZE meta udp_send_tx k tokens c w st -> hs_inv authenticated st.
Proof.
  induction 1 as [| st i st' _ IH Hs]; [done |].
  destruct (accept_step_inv i st IH) as (n & Hn & Hinv). rewrite Hs in Hn. by injection Hn as <-.
Qed.
End server.

Section client.
Context (authority connect_path auth_header : rstr) (timeout : Z).

(** The response was a 200. *)
Definition accepted_200 (sid : Z) (headers : list Header) (pid : option rstr) : Prop :=
  exists value, find_header (named ":status") headers = Some value /\ from_utf8_lossy value = lit "200".

Lemma client_handler_accepts own sid headers sid' pid :
  fst (client_handler own sid headers) = Ok (Accept sid' pid) -> accepted_200 sid headers pid.
Proof.
  unfold client_handler. case_decide; [done |]. unfold accepted_200.
  destruct (find_header (named ":status") headers) as [value |]; [| done]. cbn. case_decide; [| done].
  intros _. by exists value.
Qed.

(** What an iteration of [establish] leads to. *)
Definition establish_post (n : HsNext unit DialError) : Prop :=
  match n with
  | Wait st' => hs_inv accepted_200 st'
  | Finish _ st' => exists sid headers s', Headers sid headers ∈ hs_seen st' /\ accepted_200 sid headers None /\
      hs_session st' = Some s' /\ connect_stream_id s' = Some sid /\ codec_new sid = Ret (datagram_codec s')
  | Fail _ => True
  end.

Lemma establish_turn st :
  hs_inv accepted_200 st -> exists n,
    end_of_turn MAX_DATAGRAM_SIZE meta udp_send_tx DialHandshake (lit "QUIC connection closed during startup") st = Ret n /\
    establish_post n.
Proof.
  intros H1. destruct (end_of_turn_cases (A := unit) DialHandshake (lit "QUIC connection closed during startup") st)
    as (n & -> & Hn). eexists. split; [done |]. destruct n; [| done | done]. destruct Hn. by apply (hs_inv_session _ st).
Qed.

Lemma establish_poll_inv s st :
  hs_session st = Some s -> hs_inv accepted_200 st ->
  exists n, establish_poll MAX_DATAGRAM_SIZE meta udp_send_tx s st = Ret n /\ establish_post n.
Proof.
  intros Hs Hinv. unfold establish_poll. pose proof (q_poll_law (hs_conn st)) as Hev.
  destruct (q_poll (hs_conn st)) as [[evs fin] c]. cbn in Hev.
  destruct (poll_hs_inv accepted_200 (client_handler (connect_stream_id s)) st s evs fin
    (client_handler_wf _) Hev) as (res & s' & calls & -> & Hready & Hinv'); [| done | done |].
  { intros sid headers pid Hh. by apply client_handler_accepts in Hh. }
  cbn [mbind outcome_bind]. cbv zeta. destruct res as [[] | e].
  - apply establish_turn, Hinv'.
  - eexists. split; [done |]. destruct (Hinv' (q_apply c calls) (hs_out st)) as [Hw Ha].
    destruct (Ha (Hready eq_refl)) as (sid & headers & Hin & Hauth & Hsid).
    exists sid, headers, s'. split_and!; try done. unfold session_wf in Hw. by rewrite Hsid in Hw.
  - by eexists.
Qed.

Lemma establish_session_inv st k :
  hs_inv accepted_200 st ->
  (forall st', hs_inv accepted_200 st' -> exists n, k st' = Ret n /\ establish_post n) ->
  exists n, establish_session MAX_DATAGRAM_SIZE meta udp_send_tx authority connect_path auth_header st k = Ret n /\
    establish_post n.
Proof.
  intros Hinv Hk. unfold establish_session. destruct (hs_session st) as [s0 |] eqn:Hs; [by apply Hk |].
  unfold create_session. rewrite Hs. destruct (is_established (hs_conn st)).
  2: { cbn [mbind outcome_bind]. rewrite Hs. by apply Hk. }
  destruct (h3_transport (hs_conn st)) as [c | e]; [| by eexists].
  destruct with_transport_wf as (s & -> & Hw & Ha & _). cbn [mbind outcome_bind hs hs_session].
  match goal with |- context [flush_then _ _ _ _ ?st2 ?k2] =>
    destruct (flush_then_cases DialHandshake st2 k2) as [[e ->] | (c2 & w2 & ->)] end; [by eexists |].
  cbn [hs_session hs_seen hs hs_conn hs_out]. unfold send_connect_request.
  destruct (send_request c2 _) as [[sid c3] | e] eqn:Hreq; [| by eexists].
  apply send_request_law in Hreq. destruct (bind_connect_stream_spec s sid Hreq) as (codec & Hc & ->).
  cbn [mbind outcome_bind]. apply Hk. unfold hs_inv. cbn. split; [done |]. congruence.
Qed.

(** One iteration of [establish]: it never panics, and ends only after a 200 response
    on the stream the session is bound to. *)
Lemma establish_step_inv i st :
  hs_inv accepted_200 st ->
  exists n, establish_step MAX_DATAGRAM_SIZE meta udp_send_tx authority connect_path auth_header timeout i st = Ret n /\
    establish_post n.
Proof.
  intros Hinv. destruct i as [[[remote batch] |] | |]; cbn [establish_step].
  - destruct (handle_udp_recv _ _ _ _) as [c k']. apply establish_session_inv; [done |]. intros st' Hst'.
    destruct (hs_session st') as [s |] eqn:Hs; [by apply establish_poll_inv | by apply establish_turn].
  - by eexists.
  - by apply establish_turn.
  - match goal with |- context [flush_then _ _ _ _ ?st2 ?k2] =>
      destruct (flush_then_cases DialHandshake st2 k2) as [[e' ->] | (c2 & w2 & ->)] end; by eexists.
Qed.
End client.

(** ** Properties *)

(** C6: the server side of the handshake never panics, and it returns an engine for a
    peer only after a CONNECT-IP request with that peer's token was received: however
    packets, timeouts and the deadline interleave, the returned peer id is the one
    [validate_server_auth] gives for a request that was polled on this connection
    and passed the header checks, and the engine's codec frames for the stream of
    that request. *)
Theorem accept_authenticated {HM : HmacLib} (k : hmac_key) (tokens : gmap rstr rstr) c w st i :
  accept_reach MAX_DATAGRAM_SIZE meta udp_send_tx k tokens c w st ->
  exists n, accept_step MAX_DATAGRAM_SIZE meta udp_send_tx k tokens i st = Ret n /\
    forall pid st', n = Finish pid st' ->
      exists sid headers s', Headers sid headers ∈ hs_seen st' /\
        validate_server_connect_headers headers = Ok tt /\ validate_server_auth k headers tokens = Ok pid /\
        hs_session st' = Some s' /\ connect_stream_id s' = Some sid /\ codec_new sid = Ret (datagram_codec s').
Proof.
  intros Hr. destruct (accept_step_inv k tokens i st) as (n & -> & Hn); [by eapply accept_reach_inv |].
  exists n. split; [done |]. intros pid st' ->. destruct Hn as (sid & headers & s' & Hin & (p & [= <-] & Hv & Ha) & Hrest).
  by exists sid, headers, s'.
Qed.
End handshake_facts.

(** ** Witness: a connection on which the request has arrived *)

Module ReadyQuic.
Definition peer : SocketAddr := {| sa_ip := V4 3221225985; sa_port := 443 |}.

#[export] Instance lib : QuicLib := {|
  conn := bool;
  is_dgram_recv_queue_full _ := false;
  q_recv _ _ _ := (Ok tt, true);
  q_dgram_recv c _ := (Err Done, c);
  q_dgram_send c _ := (Err Done, c);
  q_send c _ := (Err Done, c);
  q_poll c := ([Headers 4 sample_request], PollDone true, c);
  q_apply c _ := c;
  q_is_closed _ := false;
  q_on_timeout c := c;
  q_send_ack_eliciting c := c;
  q_close c := c;
  dgrams _ := [];
  dgrams_sent _ := [];
  send_quota _ := 0%nat;
  active_path _ := {| sa_ip := V4 0; sa_port := 0 |};
|}.

#[export] Instance setup : H3Setup lib := {|
  is_established c := c : @conn lib;
  h3_transport c := Ok c;
  send_200 _ _ := Ok tt;
  send_request c _ := Ok (0, c);
|}.
End ReadyQuic.

#[export] Instance ReadyQuic_laws : QuicLaws ReadyQuic.lib.
Proof. split; cbn; [intros c _; by exists c | done | done]. Qed.

#[export] Instance ReadyQuic_setup_laws : H3SetupLaws ReadyQuic.setup.
Proof.
  split; cbn; [intros _; by repeat constructor |]. intros _ _ sid c' [= <- _]. unfold u64_max. lia.
Qed.

Lemma accept_authenticated_witness :
  exists n, accept_step (Q := ReadyQuic.lib) (H3 := ReadyQuic.setup) (L := Rfc9000.lib) (B := HeadBuf.lib)
      (MO := ListChannels.lib) (HM := PlainMac.lib) 64 sample_meta 0%nat tt sample_tokens
      (HsUdp (Some (sample_remote, [sample_datagram])))
      (hs (false : @conn ReadyQuic.lib) None (ListChannels.empty : @world _ ListChannels.lib) []) = Ret n /\
    exists pid st', n = Finish pid st' /\ exists headers, validate_server_auth (H := PlainMac.lib) tt headers sample_tokens = Ok pid.
Proof.
  destruct (accept_authenticated (Q := ReadyQuic.lib) (H3 := ReadyQuic.setup) (L := Rfc9000.lib) (B := HeadBuf.lib)
    64 (MO := ListChannels.lib) sample_meta 0%nat (HM := PlainMac.lib) tt sample_tokens
    (false : @conn ReadyQuic.lib) (ListChannels.empty : @world _ ListChannels.lib)
    (hs (false : @conn ReadyQuic.lib) None (ListChannels.empty : @world _ ListChannels.lib) [])
    (HsUdp (Some (sample_remote, [sample_datagram])))) as (n & Hn & Hf); [constructor |].
  exists n. split; [exact Hn |]. vm_compute in Hn. injection Hn as <-.
  eexists _, _. split; [reflexivity |]. destruct (Hf _ _ eq_refl) as (sid & headers & _ & _ & _ & Ha & _).
  exists headers. exact Ha.
Defined.
