(* ===== verification/Bind.v ===== *)
(** * Socket binding and interface selection

    Models [src/src/bind.rs] on Linux: the order in which the host's routes are
    preferred, the choice of an outbound interface, and the creation of UDP sockets.
    The routes are those of [RouteLib] with their table and metric ([RouteInfo]);
    interface names are libc's (class [IfNames]); [sys] answers the socket calls of
    [socket2], given the calls made before. *)

From Stdlib Require Import Sorted.
From S2P Require Import Prelude Net Route Udp AddrText.
#[local] Open Scope Z_scope.

(** [route_manager::Route]: the accessors only this module uses. *)
Class RouteInfo (R : RouteLib) : Type := {
  r_table : Route -> Z;
  r_metric : Route -> option Z;
}.

(** [if_nametoindex] (0: not found) and [if_indextoname]. *)
Class IfNames : Type := {
  if_nametoindex : rstr -> Z;
  if_indextoname : Z -> result rstr IoError;
}.

(** A name is a non-empty C string without white space around it, and the index it was
    found for is its index. *)
Class IfNamesLaws (I : IfNames) : Prop := {
  if_indextoname_law i name : if_indextoname i = Ok name ->
    name <> [] /\ trim name = name /\ 0 ∉ name /\ if_nametoindex name = i /\ i <> 0;
}.

Definition RT_TABLE_MAIN : Z := 254.

(** [UdpError]. *)
Inductive UdpError : Type := UdpSocketError (message : rstr).

(** Its [Display]. *)
Definition display_udp_error (e : UdpError) : rstr :=
  match e with UdpSocketError message => lit "udp socket setup failed: " ++ message end.

Inductive RouteProbeError : Type :=
| Probe (error : rstr)
| ProbeInterfaceLookup (ifindex : Z) (error : IoError).

(** [(prefix_len, is_main_table, metric, ifindex)]. *)
Definition RouteCandidate : Type := (Z * bool * option Z * Z)%type.

Definition cand_prefix (c : RouteCandidate) : Z := c.1.1.1.
Definition cand_main (c : RouteCandidate) : bool := c.1.1.2.
Definition cand_metric (c : RouteCandidate) : Z := default 0 c.1.2.
Definition cand_ifindex (c : RouteCandidate) : Z := c.2.

(** [bool::cmp] and [Ordering::then]. *)
Definition bool_cmp (a b : bool) : comparison :=
  match a, b with false, true => Lt | true, false => Gt | _, _ => Eq end.
Definition ordering_then (a b : comparison) : comparison := match a with Eq => b | _ => a end.

(** The comparison [matching_route_indexes] sorts by. *)
Definition cand_cmp (a b : RouteCandidate) : comparison :=
  ordering_then (ordering_then (cand_prefix b ?= cand_prefix a) (bool_cmp (cand_main b) (cand_main a)))
    (cand_metric a ?= cand_metric b).

(** [slice::sort_by]: a stable sort. *)
Section sort.
Context {A : Type} (cmp : A -> A -> comparison).

Fixpoint sort_insert (x : A) (l : list A) : list A :=
  match l with
  | [] => [x]
  | y :: l' => match cmp x y with Gt => y :: sort_insert x l' | _ => x :: l end
  end.

Definition sort_by (l : list A) : list A := foldr sort_insert [] l.
End sort.

(** [.filter(..)] with [seen.insert]: the first occurrences. *)
Fixpoint dedup (seen : gset Z) (l : list Z) : list Z :=
  match l with
  | [] => []
  | i :: l' => if decide (i ∈ seen) then dedup seen l' else i :: dedup ({[i]} ∪ seen) l'
  end.

Section probe.
Context {L : IpNetLib} {R : RouteLib} {RI : RouteInfo R} {I : IfNames}.

Definition route_match (route : Route) (target : IpAddr) : option RouteCandidate :=
  ifindex ← r_if_index route;
  net ← ipnet_new (r_destination route) (r_prefix route);
  if contains_addr net target
  then Some (r_prefix route, bool_decide (r_table route = RT_TABLE_MAIN), r_metric route, ifindex)
  else None.

Definition matching_route_indexes (routes : list Route) (target : IpAddr) (tun_index : option Z) : list Z :=
  let matches := omap (fun route => route_match route target) routes in
  dedup ∅ (filter (fun idx => tun_index <> Some idx) (cand_ifindex <$> sort_by cand_cmp matches)).

(** [interface_index]: [CString::new] fails on an interior null. *)
Definition interface_index (interface : rstr) : result Z IoError :=
  if decide (0 ∈ interface) then Err {| err_kind := InvalidInput; raw_os_error := None |} else
  let index := if_nametoindex interface in
  if decide (index = 0) then Err {| err_kind := OtherKind; raw_os_error := None |} else Ok index.

Definition lookup_ifindex (name : rstr) : option Z :=
  match interface_index name with Ok i => Some i | Err _ => None end.

(** The loop that names the interfaces; the first failure is returned. *)
Fixpoint name_interfaces (indexes : list Z) : result (list rstr) RouteProbeError :=
  match indexes with
  | [] => Ok []
  | ifindex :: indexes' =>
      match if_indextoname ifindex with
      | Err e => Err (ProbeInterfaceLookup ifindex e)
      | Ok name =>
          match name_interfaces indexes' with
          | Ok names => Ok (name :: names)
          | Err e => Err e
          end
      end
  end.

(** [probe_interfaces_impl]; [listed] is what the route manager returned. *)
Definition probe_interfaces (listed : result (list Route) rstr) (target : IpAddr) (tun_if : option rstr) :
    result (list rstr) RouteProbeError :=
  let tun_index := tun_if ≫= lookup_ifindex in
  match listed with
  | Err e => Err (Probe e)
  | Ok routes => name_interfaces (matching_route_indexes routes target tun_index)
  end.

Definition filter_preferred_interfaces (names : list rstr) (preferred_ifs : option (list rstr)) : list rstr :=
  match preferred_ifs with
  | None => names
  | Some preferred =>
      let allowed := filter (fun iface => iface <> []) (trim <$> preferred) in
      if decide (allowed = []) then [] else filter (fun name => name ∈ allowed) names
  end.

(** [select_bind_interface]; [probed] is the probe's answer. *)
Definition select_bind_interface (probed : result (list rstr) RouteProbeError) (preferred_if : option rstr) :
    option rstr :=
  match probed with
  | Err _ => None
  | Ok interfaces =>
      if decide (interfaces = []) then None else
      let candidates :=
        match preferred_if with
        | Some preferred =>
            let filtered := filter_preferred_interfaces interfaces (Some [preferred]) in
            if decide (filtered = []) then interfaces else filtered
        | None => interfaces
        end in
      head candidates
  end.

(** What [select_bind_interface] logs. *)
Inductive BindWarning : Type :=
| ProbeFailed (error : RouteProbeError)
| NoInterface (target : IpAddr)
| PreferredNotFound (interface : rstr)
| MultipleInterfaces (chosen : rstr) (alternatives : list rstr).

Definition select_warnings (target : IpAddr) (probed : result (list rstr) RouteProbeError) (preferred_if : option rstr) :
    list BindWarning :=
  match probed with
  | Err err => [ProbeFailed err]
  | Ok interfaces =>
      if decide (interfaces = []) then [NoInterface target] else
      let '(warnings, candidates) :=
        match preferred_if with
        | Some preferred =>
            let filtered := filter_preferred_interfaces interfaces (Some [preferred]) in
            if decide (filtered = []) then ([PreferredNotFound preferred], interfaces) else ([], filtered)
        | None => ([], interfaces)
        end in
      warnings ++ match candidates with
                  | chosen :: (_ :: _) => [MultipleInterfaces chosen (tail candidates)]
                  | _ => []
                  end
  end.

(** ** Sockets *)

Inductive SockOp : Type :=
| NewSocket (v4 : bool)
| SetNonblocking
| SetRecvBufferSize (n : Z)
| SetSendBufferSize (n : Z)
| BindDeviceByIndex (v4 : bool) (index : Z)
| SetReuseAddress
| BindAddr (addr : SocketAddr)
| ConnectTo (addr : SocketAddr).

(** The answer to a call after the calls [trace] on the same socket, and the text of an
    error. *)
Context (sys : list SockOp -> SockOp -> result unit IoError) (io_to_string : IoError -> rstr).

(** [op?] in the sequence of calls. *)
Definition call (op : SockOp) (trace : list SockOp) : result unit IoError * list SockOp :=
  (sys trace op, trace ++ [op]).

(** [bind_to_device]. *)
Definition bind_to_device (v4 : bool) (interface : rstr) (trace : list SockOp) : result unit IoError * list SockOp :=
  let iface := trim interface in
  if decide (iface = []) then (Err {| err_kind := InvalidInput; raw_os_error := None |}, trace) else
  match interface_index iface with
  | Err e => (Err e, trace)
  | Ok index => call (BindDeviceByIndex v4 index) trace
  end.

(** [make_udp_socket_raw]: the calls made and whether the socket was returned. *)
Definition make_udp_socket_raw (v4 : bool) (bind_addr : option SocketAddr) (bind_interface : option rstr)
    (socket_buffer_bytes : Z) : result unit IoError * list SockOp :=
  match call (NewSocket v4) [] with
  | (Err e, t) => (Err e, t)
  | (Ok _, t) =>
  match call SetNonblocking t with
  | (Err e, t) => (Err e, t)
  | (Ok _, t) =>
  let t := if decide (0 < socket_buffer_bytes)
           then (call (SetSendBufferSize socket_buffer_bytes) (call (SetRecvBufferSize socket_buffer_bytes) t).2).2
           else t in
  let t := match bind_interface with Some interface => (bind_to_device v4 interface t).2 | None => t end in
  match bind_addr with
  | None => (Ok tt, t)
  | Some addr =>
      match call SetReuseAddress t with
      | (Err e, t) => (Err e, t)
      | (Ok _, t) => call (BindAddr addr) t
      end
  end end end.

(** [.map_err(|e| UdpError::Socket(e.to_string()))]. *)
Definition socket_result (r : result unit IoError * list SockOp) : result unit UdpError * list SockOp :=
  (match r.1 with Ok u => Ok u | Err e => Err (UdpSocketError (io_to_string e)) end, r.2).

Definition make_server_udp_socket (listen : SocketAddr) (socket_buffer_bytes : Z) : result unit UdpError * list SockOp :=
  socket_result (make_udp_socket_raw (is_ipv4 (sa_ip listen)) (Some listen) None socket_buffer_bytes).

(** [make_unbound_udp_socket]; [probe] answers for the target and the TUN interface. *)
Definition make_unbound_udp_socket (target : SocketAddr) (tun_if bind_interface : option rstr)
    (probe : IpAddr -> option rstr -> result (list rstr) RouteProbeError) (socket_buffer_bytes : Z) :
    result unit UdpError * list SockOp :=
  let selected_interface :=
    if is_loopback (sa_ip target) then None
    else select_bind_interface (probe (sa_ip target) tun_if) bind_interface in
  socket_result (make_udp_socket_raw (is_ipv4 (sa_ip target)) None selected_interface socket_buffer_bytes).

Definition make_client_udp_socket (target : SocketAddr) (tun_if bind_interface : option rstr)
    (probe : IpAddr -> option rstr -> result (list rstr) RouteProbeError) (socket_buffer_bytes : Z) :
    result unit UdpError * list SockOp :=
  match make_unbound_udp_socket target tun_if bind_interface probe socket_buffer_bytes with
  | (Err e, t) => (Err e, t)
  | (Ok _, t) =>
      match call (ConnectTo target) t with
      | (Ok _, t) => (Ok tt, t)
      | (Err e, t) => (Err (UdpSocketError (lit "connect to " ++ display_socket_addr target ++ lit ": " ++ io_to_string e)), t)
      end
  end.
End probe.

(** ** Lemmas: sorting *)

Section sort_facts.
Context {A : Type} (cmp : A -> A -> comparison).

Lemma sort_insert_perm x l : sort_insert cmp x l ≡ₚ x :: l.
Proof.
  induction l as [| y l IH]; cbn; [done |]. destruct (cmp x y); [done | done |].
  rewrite IH. apply Permutation_swap.
Qed.

Lemma sort_by_perm l : sort_by cmp l ≡ₚ l.
Proof. induction l as [| x l IH]; cbn; [done |]. by rewrite sort_insert_perm, IH. Qed.

End sort_facts.

(** Sorting commutes with dropping tags the comparison does not look at. *)
Lemma sort_by_tagged {A B} (cmp : A -> A -> comparison) (l : list (B * A)) :
  snd <$> sort_by (fun x y => cmp x.2 y.2) l = sort_by cmp (snd <$> l).
Proof.
  induction l as [| x l IH]; [done |]. rewrite fmap_cons. unfold sort_by in *. cbn [foldr]. rewrite <- IH. clear IH.
  generalize (foldr (sort_insert (fun x y : B * A => cmp x.2 y.2)) [] l) as m. intros m.
  induction m as [| y m IH]; [done |]. cbn [sort_insert fmap list_fmap].
  destruct (cmp x.2 y.2); [done | done |]. cbn [fmap list_fmap]. f_equal. apply IH.
Qed.

Section stable.
Context {A : Type} (cmp : A -> A -> comparison).
Hypothesis cmp_antisym : forall x y, cmp y x = CompOpp (cmp x y).
Hypothesis cmp_trans : forall x y z, cmp x y <> Gt -> cmp y z <> Gt ->
  cmp x z <> Gt /\ (cmp x z = Eq -> cmp x y = Eq /\ cmp y z = Eq).

(** [a] comes before [b] in a stable sort: it is smaller, or equal and was earlier. *)
Definition outranks (a b : nat * A) : Prop :=
  cmp a.2 b.2 = Lt \/ cmp a.2 b.2 = Eq /\ (a.1 < b.1)%nat.

Lemma outranks_trans a b c : outranks a b -> outranks b c -> outranks a c.
Proof.
  unfold outranks. intros Hab Hbc. destruct (cmp_trans a.2 b.2 c.2) as [Hng Heq].
  - by destruct Hab as [-> | [-> _]].
  - by destruct Hbc as [-> | [-> _]].
  - destruct (cmp a.2 c.2) eqn:E; [| by left | done]. destruct (Heq eq_refl) as [E1 E2].
    right. split; [done |]. destruct Hab as [? | [_ ?]]; [congruence |].
    destruct Hbc as [? | [_ ?]]; [congruence |]. lia.
Qed.

Lemma sort_insert_ranked x l :
  (forall y, y ∈ l -> (x.1 < y.1)%nat) -> StronglySorted outranks l ->
  StronglySorted outranks (sort_insert (fun x y => cmp x.2 y.2) x l).
Proof.
  intros Hx Hl. induction Hl as [| y l Hl IH Hy]; cbn; [by repeat constructor |].
  assert (forall z, cmp x.2 y.2 <> Gt -> z ∈ y :: l -> outranks x z) as Hfirst.
  { intros z Hc Hz. assert (outranks x y) as Hxy.
    { unfold outranks. destruct (cmp x.2 y.2) eqn:E; [right | by left | done].
      split; [done |]. apply Hx. set_solver. }
    apply elem_of_cons in Hz as [-> | Hz]; [done |]. eapply outranks_trans; [exact Hxy |].
    rewrite Forall_forall in Hy. by apply Hy. }
  destruct (cmp x.2 y.2) eqn:E.
  - constructor; [by constructor |]. apply Forall_forall. intros z Hz. by apply Hfirst.
  - constructor; [by constructor |]. apply Forall_forall. intros z Hz. by apply Hfirst.
  - constructor; [apply IH; set_solver |]. apply Forall_forall. intros z Hz.
    rewrite sort_insert_perm in Hz. apply elem_of_cons in Hz as [-> | Hz].
    + left. by rewrite cmp_antisym, E.
    + rewrite Forall_forall in Hy. by apply Hy.
Qed.

(** Tags in increasing order. *)
Lemma sort_by_ranked (l : list (nat * A)) :
  StronglySorted (fun a b => (a.1 < b.1)%nat) l ->
  StronglySorted outranks (sort_by (fun x y => cmp x.2 y.2) l).
Proof.
  induction 1 as [| x l Hl IH Hx]; [constructor |]. unfold sort_by. cbn [foldr].
  fold (sort_by (fun x y : nat * A => cmp x.2 y.2) l). apply sort_insert_ranked; [| done].
  intros y Hy. rewrite Forall_forall in Hx. apply Hx. by rewrite sort_by_perm in Hy.
Qed.
End stable.

Lemma cand_cmp_antisym x y : cand_cmp y x = CompOpp (cand_cmp x y).
Proof.
  unfold cand_cmp. rewrite (Z.compare_antisym (cand_prefix x) (cand_prefix y)),
    (Z.compare_antisym (cand_metric x) (cand_metric y)).
  by destruct (cand_prefix x ?= cand_prefix y), (cand_main x), (cand_main y), (cand_metric x ?= cand_metric y).
Qed.

(** The comparison spelled out: more specific first, then the main table, then the
    lower metric. *)
Lemma cand_cmp_spec x y :
  (cand_cmp x y = Lt <->
     cand_prefix y < cand_prefix x \/ cand_prefix x = cand_prefix y /\
       (cand_main x = true /\ cand_main y = false \/
        cand_main x = cand_main y /\ cand_metric x < cand_metric y)) /\
  (cand_cmp x y = Eq <->
     cand_prefix x = cand_prefix y /\ cand_main x = cand_main y /\ cand_metric x = cand_metric y).
Proof.
  unfold cand_cmp. destruct (Z.compare_spec (cand_prefix y) (cand_prefix x)),
    (cand_main x), (cand_main y), (Z.compare_spec (cand_metric x) (cand_metric y)); cbn;
    intuition (try congruence; try lia).
Qed.

Lemma cand_cmp_not_gt x y : cand_cmp x y <> Gt <-> cand_cmp x y = Lt \/ cand_cmp x y = Eq.
Proof. destruct (cand_cmp x y); intuition congruence. Qed.

Lemma cand_cmp_trans x y z :
  cand_cmp x y <> Gt -> cand_cmp y z <> Gt ->
  cand_cmp x z <> Gt /\ (cand_cmp x z = Eq -> cand_cmp x y = Eq /\ cand_cmp y z = Eq).
Proof.
  rewrite !cand_cmp_not_gt. destruct (cand_cmp_spec x y) as [-> ->], (cand_cmp_spec y z) as [-> ->],
    (cand_cmp_spec x z) as [-> ->].
  destruct (cand_main x), (cand_main y), (cand_main z); intuition (try congruence; try lia).
Qed.

(** ** Lemmas: first occurrences *)

Lemma elem_of_dedup l seen i : i ∈ dedup seen l <-> i ∈ l /\ i ∉ seen.
Proof.
  revert seen. induction l as [| j l IH]; intros seen; cbn [dedup]; [by rewrite elem_of_nil; intuition |].
  rewrite elem_of_cons. destruct (decide (j ∈ seen)) as [Hj | Hj].
  - rewrite IH. split; [tauto |]. intros [[-> | ?] ?]; tauto.
  - rewrite elem_of_cons, IH, elem_of_union, elem_of_singleton.
    destruct (decide (i = j)) as [-> |]; tauto.
Qed.

Lemma dedup_NoDup l seen : NoDup (dedup seen l).
Proof.
  revert seen. induction l as [| j l IH]; intros seen; cbn [dedup]; [constructor |].
  case_decide; [apply IH |]. constructor; [| apply IH]. rewrite elem_of_dedup. set_solver.
Qed.

(** The first occurrence of an element comes before every occurrence of it and of the
    elements after it in the result. *)
Lemma dedup_first l seen p i :
  dedup seen l !! p = Some i ->
  exists u, l !! u = Some i /\
    forall q j v, (p <= q)%nat -> dedup seen l !! q = Some j -> l !! v = Some j -> (u <= v)%nat.
Proof.
  revert seen p. induction l as [| k l IH]; intros seen p Hp; cbn [dedup] in *; [done |].
  destruct (decide (k ∈ seen)) as [Hk | Hk].
  - destruct (IH _ _ Hp) as (u & Hu & Hle). exists (S u). split; [done |].
    intros q j [| v] Hpq Hq Hv; [| apply le_n_S, (Hle q j); [lia | done | done]]. cbn in Hv. injection Hv as ->.
    apply list_elem_of_lookup_2, elem_of_dedup in Hq. tauto.
  - destruct p as [| p]; cbn in Hp; [injection Hp as ->; exists 0%nat; split; [done | lia] |].
    destruct (IH _ p Hp) as (u & Hu & Hle). exists (S u). split; [done |].
    intros [| q] j v Hpq Hq Hv; [lia |]. cbn in Hq.
    destruct v as [| v]; [| apply le_n_S, (Hle q j); [lia | done | done]]. cbn in Hv. injection Hv as ->.
    apply list_elem_of_lookup_2, elem_of_dedup in Hq. set_solver.
Qed.

Lemma StronglySorted_filter_sub {A} (Q : A -> A -> Prop) (P : A -> Prop) `{!forall x, Decision (P x)} l :
  StronglySorted Q l -> StronglySorted Q (filter P l).
Proof.
  induction 1 as [| x l Hl IH Hx]; [constructor |]. rewrite filter_cons. case_decide; [| done].
  constructor; [done |]. rewrite Forall_forall in *. intros y [_ Hy]%list_elem_of_filter. by apply Hx.
Qed.

Lemma StronglySorted_lookup_lt {A} (Q : A -> A -> Prop) l u v x y :
  StronglySorted Q l -> l !! u = Some x -> l !! v = Some y -> (u < v)%nat -> Q x y.
Proof.
  intros Hl. revert u v. induction Hl as [| z l Hl IH Hz]; intros u v Hu Hv Hlt; [done |].
  destruct v as [| v]; [lia |]. cbn in Hv. destruct u as [| u]; cbn in Hu.
  - injection Hu as ->. rewrite Forall_forall in Hz. by eapply Hz, list_elem_of_lookup_2.
  - apply (IH u v); [done | done | lia].
Qed.

(** A list with the position of each element. *)
Definition tag {A} (k : nat) (l : list A) : list (nat * A) := zip (seq k (length l)) l.

Lemma tag_snd {A} k (l : list A) : (tag k l).*2 = l.
Proof. unfold tag. apply snd_zip. rewrite length_seq. lia. Qed.

Lemma elem_of_tag {A} (l : list A) k n x : (n, x) ∈ tag k l <-> (k <= n)%nat /\ l !! (n - k)%nat = Some x.
Proof.
  revert k. induction l as [| y l IH]; intros k; cbn; [by rewrite elem_of_nil, lookup_nil; intuition |].
  fold (tag (S k) l). rewrite elem_of_cons, IH. split.
  - intros [[= -> ->] | [Hle Hl]]; [rewrite Nat.sub_diag; split; [lia | done] |].
    split; [lia |]. replace (n - k)%nat with (S (n - S k)) by lia. done.
  - intros [Hle Hl]. destruct (decide (n = k)) as [-> | Hne].
    + rewrite Nat.sub_diag in Hl. injection Hl as ->. by left.
    + right. split; [lia |]. by replace (n - k)%nat with (S (n - S k)) in Hl by lia.
Qed.

Lemma tag_increasing {A} (l : list A) k : StronglySorted (fun a b => (a.1 < b.1)%nat) (tag k l).
Proof.
  revert k. induction l as [| x l IH]; intros k; cbn; [constructor |]. fold (tag (S k) l).
  constructor; [apply IH |]. apply Forall_forall. intros [n y] [Hn _]%elem_of_tag. cbn. lia.
Qed.

(** ** Specification *)

(** [a], the candidate of route number [a.1], is preferred to [b]: it is more specific;
    or as specific and only it is in the main table; or these agree and its metric
    is lower; or it is equal in all and listed earlier. *)
Definition preferred (a b : nat * RouteCandidate) : Prop :=
  cand_prefix b.2 < cand_prefix a.2 \/
  cand_prefix a.2 = cand_prefix b.2 /\
  (cand_main a.2 = true /\ cand_main b.2 = false \/
   cand_main a.2 = cand_main b.2 /\
   (cand_metric a.2 < cand_metric b.2 \/ cand_metric a.2 = cand_metric b.2 /\ (a.1 < b.1)%nat)).

Lemma preferred_outranks a b : outranks cand_cmp a b <-> preferred a b.
Proof. unfold outranks, preferred. destruct (cand_cmp_spec a.2 b.2) as [-> ->]. tauto. Qed.

Section probe_facts.
Context {L : IpNetLib} {R : RouteLib} {RI : RouteInfo R} {I : IfNames}.

(** The candidates in the order of the host's table. *)
Definition candidates (routes : list Route) (target : IpAddr) : list RouteCandidate :=
  omap (fun route => route_match route target) routes.

(** The sorted candidates that are not for the TUN interface, with their positions. *)
Definition ranked (routes : list Route) (target : IpAddr) (tun_index : option Z) : list (nat * RouteCandidate) :=
  filter (fun c => tun_index <> Some (cand_ifindex c.2))
    (sort_by (fun x y => cand_cmp x.2 y.2) (tag 0 (candidates routes target))).

Lemma matching_route_indexes_ranked routes target tun_index :
  matching_route_indexes routes target tun_index =
  dedup ∅ ((fun c => cand_ifindex c.2) <$> ranked routes target tun_index).
Proof.
  unfold matching_route_indexes, ranked. fold (candidates routes target). f_equal.
  rewrite <- (tag_snd 0 (candidates routes target)) at 1. rewrite <- sort_by_tagged.
  generalize (sort_by (fun x y => cand_cmp x.2 y.2) (tag 0 (candidates routes target))) as l. intros l.
  induction l as [| x l IH]; [done |]. rewrite !fmap_cons, !filter_cons.
  destruct (decide (tun_index <> Some (cand_ifindex x.2))); [by rewrite IH, fmap_cons | done].
Qed.

Lemma elem_of_ranked routes target tun_index n c :
  (n, c) ∈ ranked routes target tun_index <->
  tun_index <> Some (cand_ifindex c) /\ candidates routes target !! n = Some c.
Proof.
  unfold ranked. rewrite list_elem_of_filter, sort_by_perm, elem_of_tag, Nat.sub_0_r.
  split; [tauto |]. intros [??]. split_and!; [done | lia | done].
Qed.

Lemma ranked_sorted routes target tun_index : StronglySorted (outranks cand_cmp) (ranked routes target tun_index).
Proof.
  apply StronglySorted_filter_sub, sort_by_ranked;
    [apply cand_cmp_antisym | apply cand_cmp_trans | apply tag_increasing].
Qed.

Lemma elem_of_matching routes target tun_index i :
  i ∈ matching_route_indexes routes target tun_index <->
  tun_index <> Some i /\ exists c, c ∈ candidates routes target /\ cand_ifindex c = i.
Proof.
  rewrite matching_route_indexes_ranked, elem_of_dedup, list_elem_of_fmap. split.
  - intros [([n c] & -> & [Ht Hc]%elem_of_ranked) _]. split; [done |]. exists c.
    split; [by eapply list_elem_of_lookup_2 | done].
  - intros (Ht & c & [n Hc]%list_elem_of_lookup_1 & <-). split; [| set_solver]. exists (n, c).
    by rewrite elem_of_ranked.
Qed.

Lemma matching_best routes target tun_index p i :
  matching_route_indexes routes target tun_index !! p = Some i ->
  exists n c, candidates routes target !! n = Some c /\ cand_ifindex c = i /\
    forall m d q, candidates routes target !! m = Some d -> m <> n -> (p <= q)%nat ->
      matching_route_indexes routes target tun_index !! q = Some (cand_ifindex d) -> preferred (n, c) (m, d).
Proof.
  rewrite matching_route_indexes_ranked. intros Hp. destruct (dedup_first _ _ _ _ Hp) as (u & Hu & Hle).
  rewrite list_lookup_fmap in Hu. destruct (ranked routes target tun_index !! u) as [[n c] |] eqn:Hr; [| done].
  cbn in Hu. injection Hu as <-. pose proof (list_elem_of_lookup_2 _ _ _ Hr) as [_ Hc]%elem_of_ranked.
  exists n, c. split_and!; [done | done |]. intros m d q Hd Hmn Hpq Hq.
  pose proof (list_elem_of_lookup_2 _ _ _ Hq) as [([m' d'] & Hi & [Ht _]%elem_of_ranked)%list_elem_of_fmap _]%elem_of_dedup.
  cbn in Hi. assert ((m, d) ∈ ranked routes target tun_index) as [v Hv]%list_elem_of_lookup_1
    by (apply elem_of_ranked; by rewrite Hi).
  specialize (Hle q (cand_ifindex d) v Hpq Hq). rewrite list_lookup_fmap, Hv in Hle. specialize (Hle eq_refl).
  apply preferred_outranks. apply (StronglySorted_lookup_lt _ _ u v _ _ (ranked_sorted _ _ _) Hr Hv).
  assert (u <> v) by (intros ->; rewrite Hr in Hv; injection Hv as <- <-; done). lia.
Qed.

(** ** Properties *)

(** The interfaces are listed in the kernel's order of preference.  Each interface
    that a matching route leads to, the TUN interface excepted, is listed once; and an
    interface owes its place to a route that is preferred (longer prefix, then the main
    table, then the lower metric, then the earlier entry) to every other matching
    route of its own interface and of all the interfaces listed after it. *)
Theorem matching_route_indexes_priority routes target tun_index :
  let out := matching_route_indexes routes target tun_index in
  NoDup out /\
  (forall i, i ∈ out <-> tun_index <> Some i /\ exists c, c ∈ candidates routes target /\ cand_ifindex c = i) /\
  (forall p i, out !! p = Some i ->
     exists n c, candidates routes target !! n = Some c /\ cand_ifindex c = i /\
       forall m d q, candidates routes target !! m = Some d -> m <> n -> (p <= q)%nat ->
         out !! q = Some (cand_ifindex d) -> preferred (n, c) (m, d)).
Proof.
  split_and!.
  - apply dedup_NoDup.
  - apply elem_of_matching.
  - apply matching_best.
Qed.

Lemma name_interfaces_spec is_ names :
  name_interfaces is_ = Ok names <-> Forall2 (fun i name => if_indextoname i = Ok name) is_ names.
Proof.
  revert names. induction is_ as [| i is_ IH]; intros names; cbn.
  - split; [intros [= <-]; constructor | by inversion 1].
  - destruct (if_indextoname i) as [name | e] eqn:Hi.
    + destruct (name_interfaces is_) as [ns | e] eqn:Hn.
      * split.
        -- intros [= <-]. constructor; [done | by apply IH].
        -- inversion 1 as [| ? x ? ns' Hx Hns]; subst. apply IH in Hns. congruence.
      * split; [done |]. inversion 1 as [| ? x ? ns' Hx Hns]; subst. apply IH in Hns. congruence.
    + split; [done |]. inversion 1 as [| ? x ? ns' Hx Hns]; subst. congruence.
Qed.

Lemma name_interfaces_elem is_ names name :
  name_interfaces is_ = Ok names -> name ∈ names <-> exists i, i ∈ is_ /\ if_indextoname i = Ok name.
Proof.
  rewrite name_interfaces_spec. induction 1 as [| i x is_ names Hx _ IH].
  - setoid_rewrite elem_of_nil. naive_solver.
  - rewrite elem_of_cons, IH. setoid_rewrite elem_of_cons. split.
    + intros [-> | (j & ? & ?)]; [exists i | exists j]; auto.
    + intros (j & [-> | ?] & Hj); [left; congruence | right; by exists j].
Qed.

Lemma filter_preferred_elem names p name :
  name ∈ filter_preferred_interfaces names (Some [p]) <-> name = trim p /\ trim p <> [] /\ name ∈ names.
Proof.
  unfold filter_preferred_interfaces. cbn [fmap list_fmap]. rewrite filter_cons, filter_nil.
  destruct (decide (trim p <> [])) as [Hp | Hp].
  - rewrite decide_False by done. rewrite list_elem_of_filter, list_elem_of_singleton. tauto.
  - rewrite decide_True by done. rewrite elem_of_nil. tauto.
Qed.

(** The chosen interface: the preferred one when it was probed, else the first. *)
Lemma select_bind_interface_cases names pref name :
  select_bind_interface (Ok names) pref = Some name ->
  (exists p, pref = Some p /\ name = trim p /\ name ∈ names) \/
  head names = Some name /\ forall p, pref = Some p -> trim p <> [] -> trim p ∉ names.
Proof.
  unfold select_bind_interface. case_decide as Hn; [done |]. destruct pref as [p |]; [| right; done].
  case_decide as Hf.
  - intros Hh. right. split; [done |]. intros ? [= <-] Hp Hin.
    assert (trim p ∈ filter_preferred_interfaces names (Some [p])) as H by by apply filter_preferred_elem.
    rewrite Hf in H. by apply elem_of_nil in H.
  - intros Hh%head_Some_elem_of%filter_preferred_elem. left. exists p. naive_solver.
Qed.

Context {IL : IfNamesLaws I}.

(** A selection without a warning was forced: the probe found interfaces, and either one
    alone is left of them by the preference, or there is one and no preference. *)
Lemma select_warnings_quiet target probed pref :
  select_warnings target probed pref = [] ->
  exists names name, probed = Ok names /\ name ∈ names /\ select_bind_interface probed pref = Some name /\
    match pref with
    | Some p => filter_preferred_interfaces names (Some [p]) = [name]
    | None => names = [name]
    end.
Proof.
  destruct probed as [names | e]; [| done]. cbn -[filter_preferred_interfaces].
  case_decide as Hn; [done |]. destruct pref as [p |].
  - case_decide as Hf; [done |]. cbn -[filter_preferred_interfaces].
    destruct (filter_preferred_interfaces names (Some [p])) as [| name [| ? ?]] eqn:E; [done | | done].
    intros _. exists names, name. repeat split; [| done].
    assert (name ∈ filter_preferred_interfaces names (Some [p])) as (_ & _ & Hin)%filter_preferred_elem; [rewrite E; set_solver | done].
  - destruct names as [| name [| ? ?]]; [done | | done]. intros _. exists [name], name. repeat split; set_solver.
Qed.

Lemma lookup_ifindex_name i name : if_indextoname i = Ok name -> lookup_ifindex name = Some i.
Proof.
  intros (_ & _ & H0 & Hi & Hne)%if_indextoname_law. unfold lookup_ifindex, interface_index.
  by rewrite decide_False, Hi, decide_False by done.
Qed.

Lemma select_bind_interface_None names pref : select_bind_interface (Ok names) pref = None -> names = [].
Proof.
  unfold select_bind_interface. case_decide as Hn; [done |]. destruct pref as [p |].
  - case_decide as Hf; intros Hh; [by destruct names |]. by destruct (filter_preferred_interfaces names _).
  - by destruct names.
Qed.

(** The first interface is that of the best route outside the TUN interface. *)
Lemma head_interface_best routes target tun_index names name :
  name_interfaces (matching_route_indexes routes target tun_index) = Ok names -> head names = Some name ->
  exists n c, candidates routes target !! n = Some c /\ if_indextoname (cand_ifindex c) = Ok name /\
    forall m d, candidates routes target !! m = Some d -> m <> n -> tun_index <> Some (cand_ifindex d) ->
      preferred (n, c) (m, d).
Proof.
  intros HF%name_interfaces_spec Hh. rewrite head_lookup in Hh.
  destruct (Forall2_lookup_r _ _ _ _ _ HF Hh) as (i & Hi & Hname).
  destruct (matching_best _ _ _ _ _ Hi) as (n & c & Hc & <- & Hbest). exists n, c. split_and!; [done | done |].
  intros m d Hd Hmn Ht.
  assert (cand_ifindex d ∈ matching_route_indexes routes target tun_index) as [q Hq]%list_elem_of_lookup_1.
  { apply elem_of_matching. split; [done |]. exists d. split; [by eapply list_elem_of_lookup_2 | done]. }
  apply (Hbest m d q); [done | done | lia | done].
Qed.

(** C22: the interface chosen for a socket is never the TUN interface.  It is one a
    matching route leads to: the configured one when it is among them, and otherwise
    that of the most preferred matching route outside the TUN interface.  Nothing is
    chosen, and the socket stays unbound, only if probing failed or every matching route
    leads to the TUN interface; an unbound socket then follows the system's routes. *)
Theorem select_bind_interface_spec listed target tun_if preferred_if :
  let tun_index := tun_if ≫= lookup_ifindex in
  match select_bind_interface (probe_interfaces listed target tun_if) preferred_if with
  | Some name => tun_if <> Some name /\
      exists routes n c, listed = Ok routes /\ candidates routes target !! n = Some c /\
        if_indextoname (cand_ifindex c) = Ok name /\
        ((exists p, preferred_if = Some p /\ name = trim p) \/
         (forall m d, candidates routes target !! m = Some d -> m <> n -> tun_index <> Some (cand_ifindex d) ->
            preferred (n, c) (m, d)) /\
         (forall p d, preferred_if = Some p -> d ∈ candidates routes target ->
            if_indextoname (cand_ifindex d) = Ok (trim p) -> tun_index = Some (cand_ifindex d)))
  | None => (exists e, probe_interfaces listed target tun_if = Err e) \/
      exists routes, listed = Ok routes /\ forall c, c ∈ candidates routes target -> tun_index = Some (cand_ifindex c)
  end.
Proof.
  intros tun_index. unfold probe_interfaces. fold tun_index. destruct listed as [routes | e]; [| left; by eexists].
  destruct (name_interfaces (matching_route_indexes routes target tun_index)) as [names | e] eqn:Hn; [| left; by eexists].
  pose proof (fun name => name_interfaces_elem _ _ name Hn) as Hel.
  destruct (select_bind_interface (Ok names) preferred_if) as [name |] eqn:Hs.
  - assert (name ∈ names -> tun_if <> Some name) as Htun.
    { intros (i & [Ht _]%elem_of_matching & Hi)%Hel ->. apply Ht. by apply lookup_ifindex_name. }
    apply select_bind_interface_cases in Hs as [(p & -> & Hp & Hin) | [Hh Hnp]].
    + split; [by apply Htun |].
      pose proof Hin as (i & [_ (c & [n Hc]%list_elem_of_lookup_1 & <-)]%elem_of_matching & Hi)%Hel.
      exists routes, n, c. split_and!; [done | done | done | left; by exists p].
    + split; [by apply Htun, head_Some_elem_of |].
      destruct (head_interface_best _ _ _ _ _ Hn Hh) as (n & c & Hc & Hname & Hbest).
      exists routes, n, c. split_and!; [done | done | done |]. right. split; [done |].
      intros p d -> Hd Hi. destruct (decide (tun_index = Some (cand_ifindex d))) as [| Ht]; [done |].
      destruct (Hnp p eq_refl); [by eapply if_indextoname_law |]. apply Hel. exists (cand_ifindex d).
      split; [| done]. apply elem_of_matching. split; [done | by exists d].
  - right. exists routes. split; [done |]. apply select_bind_interface_None in Hs as ->. intros c Hc.
    destruct (decide (tun_index = Some (cand_ifindex c))) as [| Ht]; [done |]. exfalso.
    apply name_interfaces_spec, Forall2_nil_inv_r in Hn.
    assert (cand_ifindex c ∈ matching_route_indexes routes target tun_index) as H
      by (apply elem_of_matching; split; [done | by exists c]).
    rewrite Hn in H. by apply elem_of_nil in H.
Qed.

(** ** Sockets *)

Context (sys : list SockOp -> SockOp -> result unit IoError) (io_to_string : IoError -> rstr).

(** Ephemeral sockets are never shared ([SO_REUSEADDR]) nor bound to an address; they
    are returned whenever they can be created, whatever becomes of the buffer sizes and
    of the interface; and they are tied at most to the interface asked for. *)
Lemma make_udp_socket_raw_ephemeral v4 ifname n :
  let '(r, t) := make_udp_socket_raw sys v4 None ifname n in
  (is_ok r = is_ok (sys [] (NewSocket v4)) && is_ok (sys [NewSocket v4] SetNonblocking)) /\
  SetReuseAddress ∉ t /\ (forall a, BindAddr a ∉ t) /\
  (forall v i, BindDeviceByIndex v i ∈ t ->
     v = v4 /\ exists name, ifname = Some name /\ interface_index (trim name) = Ok i).
Proof.
  unfold make_udp_socket_raw, call. destruct (sys [] (NewSocket v4)) as [u | e]; cbn [fst snd];
    [| split; [done |]; set_solver]. destruct (sys ([] ++ [NewSocket v4]) SetNonblocking) as [u' | e] eqn:E;
    cbn [app] in E; rewrite E; cbn [fst snd]; [| split; [done |]; set_solver].
  split; [done |]. destruct ifname as [name |]; [| case_decide; set_solver].
  unfold bind_to_device, call. case_decide; [case_decide; set_solver |].
  destruct (interface_index (trim name)) as [i | e] eqn:Hi; [| case_decide; set_solver]. cbn [snd].
  split_and!; [case_decide; set_solver.. |]. intros v j Hj.
  assert (BindDeviceByIndex v j = BindDeviceByIndex v4 i) as [= -> ->] by (case_decide; set_solver).
  split; [done |]. by exists name.
Qed.

(** A socket toward a peer is never tied to the TUN interface. *)
Lemma make_unbound_udp_socket_avoids_tun listed target tun_if pref n :
  let '(r, t) := make_unbound_udp_socket sys io_to_string target (Some tun_if) pref (probe_interfaces listed) n in
  forall v i, BindDeviceByIndex v i ∈ t -> lookup_ifindex tun_if <> Some i.
Proof.
  unfold make_unbound_udp_socket.
  pose proof (make_udp_socket_raw_ephemeral (is_ipv4 (sa_ip target))
    (if is_loopback (sa_ip target) then None else select_bind_interface (probe_interfaces listed (sa_ip target) (Some tun_if)) pref) n) as H.
  destruct (make_udp_socket_raw _ _ _ _ _) as [r t]. cbn [socket_result snd]. destruct H as (_ & _ & _ & H). intros v i (_ & name & Hn & Hi)%H Ht.
  destruct (is_loopback (sa_ip target)); [done |].
  unfold probe_interfaces in Hn. destruct listed as [routes | e]; [| done].
  destruct (name_interfaces _) as [names | e] eqn:Hnames; [| done].
  assert (name ∈ names) as Hin.
  { apply select_bind_interface_cases in Hn as [(? & _ & _ & ?) | [? _]]; [done | by apply head_Some_elem_of]. }
  apply (name_interfaces_elem _ _ _ Hnames) in Hin as (j & [Hj _]%elem_of_matching & Hname).
  pose proof (if_indextoname_law _ _ Hname) as (_ & Htr & _). rewrite Htr in Hi.
  apply lookup_ifindex_name in Hname. unfold lookup_ifindex in Hname. rewrite Hi in Hname. injection Hname as ->.
  by apply Hj.
Qed.

(** A connected socket: the last call of a success connects to the target, and it is
    neither shared nor tied to the TUN interface. *)
Lemma make_client_udp_socket_spec listed target tun_if pref n :
  let '(r, t) := make_client_udp_socket sys io_to_string target (Some tun_if) pref (probe_interfaces listed) n in
  (forall v i, BindDeviceByIndex v i ∈ t -> lookup_ifindex tun_if <> Some i) /\ SetReuseAddress ∉ t /\
  (r = Ok tt -> last t = Some (ConnectTo target)).
Proof.
  unfold make_client_udp_socket. pose proof (make_unbound_udp_socket_avoids_tun listed target tun_if pref n) as Htun.
  assert (SetReuseAddress ∉ (make_unbound_udp_socket sys io_to_string target (Some tun_if) pref (probe_interfaces listed) n).2) as Hre.
  { unfold make_unbound_udp_socket. cbn [socket_result snd].
    match goal with |- context [make_udp_socket_raw _ ?v None ?i n] =>
      pose proof (make_udp_socket_raw_ephemeral v i n) as He end.
    destruct (make_udp_socket_raw _ _ _ _ _) as [r t]. by destruct He as (_ & He & _). }
  destruct (make_unbound_udp_socket _ _ _ _ _ _ _) as [[[] | e] t]; cbn in Hre; [| done].
  unfold call. destruct (sys t (ConnectTo target)) as [[] | e]; (split_and!; [| set_solver | try done]).
  1, 3: intros v i Hin; apply (Htun v i); set_solver.
  intros _. apply last_snoc.
Qed.
End probe_facts.

(** ** A concrete host: interface 2 has the default route and a longer one, 3 the
    default route with a lower metric, 7 is the TUN interface. *)
Module ListIfs.
#[export] Instance info : RouteInfo ListRoutes.lib := {|
  r_table _ := RT_TABLE_MAIN;
  r_metric r := if decide (r_if_index r = Some 2) then Some 100 else None;
|}.

#[export] Instance names : IfNames := {|
  if_nametoindex name :=
    if decide (name = lit "eth0") then 2 else if decide (name = lit "eth1") then 3
    else if decide (name = lit "h3llo0") then 7 else 0;
  if_indextoname i :=
    if decide (i = 2) then Ok (lit "eth0") else if decide (i = 3) then Ok (lit "eth1")
    else if decide (i = 7) then Ok (lit "h3llo0") else Err {| err_kind := OtherKind; raw_os_error := Some 6 |};
|}.
End ListIfs.

#[export] Instance ListIfs_laws : IfNamesLaws ListIfs.names.
Proof.
  split. intros i name. cbn [if_indextoname if_nametoindex ListIfs.names].
  repeat case_decide; intros [= <-]; subst; by vm_compute; repeat split; try done; set_solver.
Qed.

Definition sample_routes : list (IpAddr * Z * option Z) :=
  [(V4 0, 0, Some 2); (V4 0, 0, Some 3); (V4 0, 1, Some 7); (V4 167772160, 8, Some 2)].

Lemma select_bind_interface_spec_witness :
  select_bind_interface (probe_interfaces (L := CidrNet.lib) (RI := ListIfs.info) (I := ListIfs.names)
    (Ok sample_routes) (V4 134744072) (Some (lit "h3llo0"))) None = Some (lit "eth1") /\
  Some (lit "h3llo0") <> Some (lit "eth1").
Proof.
  pose proof (select_bind_interface_spec (L := CidrNet.lib) (RI := ListIfs.info) (I := ListIfs.names)
    (Ok sample_routes) (V4 134744072) (Some (lit "h3llo0")) None) as H. cbv zeta in H.
  destruct (select_bind_interface _ _) as [name |] eqn:Hs.
  - assert (name = lit "eth1") as -> by (vm_compute in Hs; vm_compute; congruence).
    split; [done |]. destruct H as [H _]. exact H.
  - vm_compute in Hs. discriminate.
Defined.
