(* ===== verification/Bare.v ===== *)
(** * BareUDP transport

    Models [src/src/bare.rs]: the source filter ([spawn_bare_filter]) and the transmit
    adapter ([spawn_bare_tx]) as step functions on the branch taken, and the outbound
    dial ([dial_bare_tx]) up to the event it returns.  Sockets are those of [Bind];
    the registration of a socket with the UDP runtime is an argument. *)

From stdpp Require Import countable.
From S2P Require Import Prelude Net Packet Config Channel Metrics Routing Events Udp Route Bind Orch.
#[local] Open Scope Z_scope.

(** ** Receiving *)

Section filter.
Context {L : IpNetLib} {T : TrieLib L} {M : Mpsc (list packet)}.

(** The state of the loop; [bare_emitted] are the metrics sent to the owner. *)
Record BareRx : Type := {
  accepted_sources : gset IpAddr;
  bare_counters : Counters;
  bare_world : world;
  bare_emitted : list Metrics;
}.

Definition bare_rx_start (sources : gset IpAddr) (w : world) : BareRx :=
  {| accepted_sources := sources; bare_counters := counters_new BareUdp Rx; bare_world := w; bare_emitted := [] |}.

(** [RxTick owner_open]: whether the owner's inbox accepts the metrics. *)
Inductive BareRxInput : Type :=
| RxUdp (batch : option (SocketAddr * list packet))
| RxMessage (message : option Event)
| RxTick (owner_open : bool).

Definition with_traffic (a : BareRx) (c : Counters) (w : world) : BareRx :=
  {| accepted_sources := accepted_sources a; bare_counters := c; bare_world := w; bare_emitted := bare_emitted a |}.

(** One iteration; [None]: the actor returned. *)
Definition bare_rx_step (ingress_tx : Sender) (i : BareRxInput) (a : BareRx) : option BareRx :=
  match i with
  | RxUdp None => None
  | RxUdp (Some (remote, batch)) =>
      let '(count, nbytes) := batch_stats batch in
      if decide (sa_ip remote ∉ accepted_sources a) then
        Some (with_traffic a (record_drop (bare_counters a) DisallowedSource count nbytes) (bare_world a))
      else
        match send_and_record (bare_counters a) (bare_world a) ingress_tx batch count nbytes with
        | (true, c, w) => Some (with_traffic a c w)
        | (false, _, _) => None
        end
  | RxMessage (Some (UpdateAcceptedSources sources)) =>
      Some {| accepted_sources := sources; bare_counters := bare_counters a; bare_world := bare_world a;
              bare_emitted := bare_emitted a |}
  | RxMessage (Some Stop) | RxMessage None => None
  | RxMessage (Some _) => Some a
  | RxTick owner_open =>
      if owner_open : bool then
        Some {| accepted_sources := accepted_sources a; bare_counters := bare_counters a; bare_world := bare_world a;
                bare_emitted := bare_emitted a ++ [snapshot (bare_counters a) None None] |}
      else None
  end.

Fixpoint bare_rx_run (ingress_tx : Sender) (ins : list BareRxInput) (a : BareRx) : option BareRx :=
  match ins with
  | [] => Some a
  | i :: ins => a ← bare_rx_step ingress_tx i a; bare_rx_run ingress_tx ins a
  end.

(** The batches that may pass, each judged by the set in force when it arrived. *)
Fixpoint passed (sources : gset IpAddr) (ins : list BareRxInput) : list (list packet) :=
  match ins with
  | [] => []
  | RxUdp (Some (remote, batch)) :: ins =>
      if decide (sa_ip remote ∈ sources) then batch :: passed sources ins else passed sources ins
  | RxMessage (Some (UpdateAcceptedSources sources')) :: ins => passed sources' ins
  | _ :: ins => passed sources ins
  end.

(** The packets received. *)
Definition received (ins : list BareRxInput) : list packet :=
  ins ≫= fun i => match i with RxUdp (Some (_, batch)) => batch | _ => [] end.
End filter.

(** ** Transmitting *)

Section transmit.
Context {M : Mpsc (SocketAddr * list packet)}.

Record BareTx : Type := {
  tx_counters : Counters;
  tx_world : world;
  tx_emitted : list Metrics;
}.

Definition bare_tx_start (w : world) : BareTx :=
  {| tx_counters := counters_new BareUdp Tx; tx_world := w; tx_emitted := [] |}.

Inductive BareTxInput : Type :=
| TxBatch (packets : option (list packet))
| TxStop
| TxTick (owner_open : bool).

Definition bare_tx_step (udp_tx : Sender) (destination : SocketAddr) (peer_id : rstr) (i : BareTxInput) (a : BareTx) :
    option BareTx :=
  match i with
  | TxBatch None | TxStop => None
  | TxBatch (Some packets) =>
      if decide (packets = []) then Some a else
      let '(count, nbytes) := batch_stats packets in
      match send (tx_world a) udp_tx (destination, packets) with
      | (Ok _, w) => Some {| tx_counters := record_success (tx_counters a) count nbytes; tx_world := w;
                             tx_emitted := tx_emitted a |}
      | (Err _, _) => None
      end
  | TxTick owner_open =>
      if owner_open : bool then
        Some {| tx_counters := tx_counters a; tx_world := tx_world a;
                tx_emitted := tx_emitted a ++ [snapshot (tx_counters a) (Some peer_id) (Some destination)] |}
      else None
  end.

Fixpoint bare_tx_run (udp_tx : Sender) (destination : SocketAddr) (peer_id : rstr) (ins : list BareTxInput)
    (a : BareTx) : option BareTx :=
  match ins with
  | [] => Some a
  | i :: ins => a ← bare_tx_step udp_tx destination peer_id i a; bare_tx_run udp_tx destination peer_id ins a
  end.

(** The batches handed to the adapter, empty ones aside. *)
Definition egress (ins : list BareTxInput) : list (list packet) :=
  omap (fun i => match i with TxBatch (Some (p :: ps)) => Some (p :: ps) | _ => None end) ins.
End transmit.

(** ** Dialling *)

Section dial.
Context {L : IpNetLib} {K : TokioLib} {I : IfNames} (sys : list SockOp -> SockOp -> result unit IoError)
  (io_to_string : IoError -> rstr).

(** [dial_bare_tx]: [registered] is the result of [make_udp] on the UDP runtime (the
    outer error is the task's), [egress_tx] the channel [spawn_bare_tx] creates.  Both
    spawn functions create a channel of the configured depth. *)
Definition dial_bare_tx (bare : PeerBare) (dial : DialContext)
    (probe : IpAddr -> option rstr -> result (list rstr) RouteProbeError)
    (registered : result (result unit UdpError) rstr) (egress_tx : Sender) : outcome (result ConnectedEvent UdpError) :=
  let destination := {| sa_ip := dial_ip dial; sa_port := udp_port (pbare_endpoint bare) |} in
  match make_unbound_udp_socket sys io_to_string destination (Some (dial_tun_if dial)) (pbare_bindif bare) probe
          (socket_buffer_bytes (t_io (dial_tuning dial))) with
  | (Err e, _) => Ret (Err e)
  | (Ok _, _) =>
      match registered with
      | Err error => Ret (Err (UdpSocketError (lit "UDP runtime task failed: " ++ error)))
      | Ok (Err e) => Ret (Err e)
      | Ok (Ok _) =>
          mpsc_channel (packet_queue_depth (t_io (dial_tuning dial))) ;;
          mpsc_channel (packet_queue_depth (t_io (dial_tuning dial))) ;;
          Ret (Ok {| conn_peer_id := dial_peer_id dial; conn_remote_addr := destination; conn_tx := egress_tx;
                     conn_endpoint := Some (Udp (pbare_endpoint bare)) |})
      end
  end.
End dial.

(** ** Properties *)

Section facts.
Context {L : IpNetLib} {T : TrieLib L} {M : Mpsc (list packet)} {HM : MpscLaws M}.

(** What one iteration that continues does. *)
Lemma bare_rx_step_spec ingress_tx i a a' :
  bare_rx_step ingress_tx i a = Some a' ->
  exists ops, sent (bare_world a) ((fun b => (ingress_tx, b)) <$> passed (accepted_sources a) [i]) (bare_world a') /\
    bare_counters a' = foldl run_op (bare_counters a) ops /\ op_packets ops = zlen (received [i]) /\
    op_reason DisallowedSource ops = zlen (received [i]) - zlen (concat (passed (accepted_sources a) [i])) /\
    op_reason ChannelClosed ops = 0 /\
    forall ins, passed (accepted_sources a) (i :: ins) =
      passed (accepted_sources a) [i] ++ passed (accepted_sources a') ins.
Proof.
  assert (forall a a' : BareRx, bare_world a' = bare_world a -> bare_counters a' = bare_counters a ->
    exists ops, sent (bare_world a) [] (bare_world a') /\ bare_counters a' = foldl run_op (bare_counters a) ops /\
      op_packets ops = 0 /\ op_reason DisallowedSource ops = 0 - 0 /\ op_reason ChannelClosed ops = 0) as Hidle.
  { intros a0 a1 -> ->. exists []. by split_and!; try apply sent_refl. }
  destruct i as [[[remote batch] |] | [[] |] | []]; cbn -[batch_stats]; intros H; try done;
    try (injection H as <-; edestruct Hidle as (ops & ? & ? & ? & ? & ?); [| | exists ops; by split_and!]; done).
  assert (received [RxUdp (Some (remote, batch))] = batch) as Hrec by (unfold received; cbn; apply app_nil_r).
  unfold received in Hrec. cbn in Hrec. rewrite Hrec. cbn [batch_stats] in H. unfold batch_stats in H.
  destruct (decide (sa_ip remote ∈ accepted_sources a)) as [Hin | Hout].
  - rewrite decide_False in H by tauto. destruct (send_and_record _ _ _ _ _ _) as [[[] c] w] eqn:Hs; [| done].
    injection H as <-. apply send_and_record_ops in Hs as (qs & Hq & -> & Hsent). cbn [bare_world with_traffic bare_counters accepted_sources].
    eexists. split_and!; [exact Hsent | done | | | | done].
    + rewrite op_packets_app, waits_packets by done. cbn. lia.
    + rewrite op_reason_app, waits_reason by done. cbn. rewrite app_nil_r. lia.
    + rewrite op_reason_app, waits_reason by done. done.
  - rewrite decide_True in H by done. injection H as <-. cbn.
    exists [OpDrop DisallowedSource (zlen batch) (foldr (fun p n => zlen p + n) 0 batch)].
    split_and!; [apply sent_refl | done | unfold op_packets; cbn; lia
      | unfold op_reason; cbn [foldr]; rewrite decide_True by done; cbn; unfold zlen; cbn; lia | done | done].
Qed.

(** C31: the filter lets exactly the accepted sources through.  As long as it runs, the
    router has received the batches whose source address was in the set most recently
    installed when they arrived, whole and in order, and nothing else; and every packet
    is counted once, those of other sources as disallowed. *)
Theorem bare_rx_filters ingress_tx ins a a' :
  bare_rx_run ingress_tx ins a = Some a' ->
  sent (bare_world a) ((fun b => (ingress_tx, b)) <$> passed (accepted_sources a) ins) (bare_world a') /\
  exists ops, bare_counters a' = foldl run_op (bare_counters a) ops /\
    op_packets ops = zlen (received ins) /\
    op_reason DisallowedSource ops = zlen (received ins) - zlen (concat (passed (accepted_sources a) ins)) /\
    op_reason ChannelClosed ops = 0.
Proof.
  revert a. induction ins as [| i ins IH]; intros a; cbn [bare_rx_run].
  { intros [= <-]. split; [apply sent_refl |]. by exists []. }
  destruct (bare_rx_step ingress_tx i a) as [a1 |] eqn:Hs; [| done]. cbn [mbind option_bind]. intros Hr.
  apply bare_rx_step_spec in Hs as (o1 & S1 & K1 & P1 & D1 & C1 & Ha).
  apply IH in Hr as [S2 (o2 & K2 & P2 & D2 & C2)]. rewrite Ha, fmap_app.
  assert (received (i :: ins) = received [i] ++ received ins) as Hrec
    by (unfold received; cbn; by rewrite app_nil_r).
  split; [by eapply sent_trans |]. exists (o1 ++ o2). rewrite K2, K1, foldl_app, op_packets_app, !op_reason_app, Hrec.
  rewrite concat_app, !zlen_app. split_and!; [done | lia | lia | lia].
Qed.
End facts.

Section tx_facts.
Context {M : Mpsc (SocketAddr * list packet)} {HM : MpscLaws M}.

(** The transmit adapter stamps every batch with its peer's address: as long as it
    runs, the UDP actor has received exactly the non-empty batches of the router, in
    order, each for the destination, and every packet of them is counted as sent. *)
Theorem bare_tx_stamps udp_tx destination peer_id ins a a' :
  bare_tx_run udp_tx destination peer_id ins a = Some a' ->
  sent (tx_world a) ((fun b => (udp_tx, (destination, b))) <$> egress ins) (tx_world a') /\
  exists ops, tx_counters a' = foldl run_op (tx_counters a) ops /\
    op_packets ops = zlen (concat (egress ins)) /\ forall r, op_reason r ops = 0.
Proof.
  revert a. induction ins as [| i ins IH]; intros a; cbn [bare_tx_run].
  { intros [= <-]. split; [apply sent_refl |]. by exists []. }
  destruct (bare_tx_step udp_tx destination peer_id i a) as [a1 |] eqn:Hs; [| done]. cbn [mbind option_bind].
  intros [S2 (o2 & Hc & P2 & R2)]%IH.
  destruct i as [[[| p ps] |] | | []]; cbn [bare_tx_step] in Hs; try done;
    [injection Hs as <-; by split; [| exists o2] | | injection Hs as <-; by split; [| exists o2]].
  rewrite decide_False in Hs by done. destruct (batch_stats (p :: ps)) as [n b] eqn:Hb.
  pose proof (send_law (tx_world a) udp_tx (destination, p :: ps)) as Hl.
  destruct (send (tx_world a) udp_tx (destination, p :: ps)) as [[u | e] w]; [| done]. injection Hs as <-.
  cbn [tx_world tx_counters] in *. change (egress (TxBatch (Some (p :: ps)) :: ins)) with ((p :: ps) :: egress ins).
  rewrite fmap_cons. split; [exact (sent_trans _ _ _ _ _ Hl S2) |]. exists (OpSuccess n b :: o2).
  split_and!; [done | | done]. unfold batch_stats in Hb. injection Hb as <- <-.
  rewrite op_packets_cons, P2. cbn [concat]. by rewrite zlen_app.
Qed.
End tx_facts.

Section dial_facts.
Context {L : IpNetLib} {T : TrieLib L} {K : TokioLib} {I : IfNames}
  (sys : list SockOp -> SockOp -> result unit IoError) (io_to_string : IoError -> rstr).

(** A dialled BareUDP connection is used.  When a dial for a peer succeeds, and the
    peer still has the endpoint and the address dialled and the new channel is open,
    handling the reported event leaves a connection to that address over that channel
    in the peer's list, gives the peer a preferred channel, clears the dial, and the
    address is not dialled again. *)
Theorem dial_bare_connected bare dial probe registered tx ev closed o e later :
  dial_bare_tx sys io_to_string bare dial probe registered tx = Ret (Ok ev) ->
  peers o !! dial_peer_id dial = Some e -> p_transport (config e) = TransportBare bare ->
  dial_ip dial ∈ resolved_ips e -> closed tx = false ->
  exists e', peers (handle_connected closed ev o).1 !! dial_peer_id dial = Some e' /\
    (exists b, b ∈ bounds e' /\ sa_ip (dest b) = dial_ip dial /\ ac_tx b = tx) /\
    is_Some (preferred_tx e') /\ dials e' !! dial_ip dial = None /\
    dial_ip dial ∉ (try_connect later e').2.
Proof.
  unfold dial_bare_tx. destruct (make_unbound_udp_socket _ _ _ _ _ _ _) as [[u | e0] t]; [| done].
  destruct registered as [[u' | e0] | e0]; [| done | done].
  destruct (mpsc_channel _); [| done]. intros [= <-] He Htr Hip Hcl.
  match goal with |- context [handle_connected closed ?ev o] =>
    destruct (handle_connected_covers closed ev o e (Udp (pbare_endpoint bare)) later)
      as (e' & Hl & (b & Hb & Hdest & Htx) & Hrest) end; try done.
  { unfold config_endpoint. by rewrite Htr. }
  exists e'. split; [done |]. split; [| done]. exists b. by rewrite Hdest.
Qed.
End dial_facts.

(** ** Concrete runs *)

Definition bare_source : SocketAddr := {| sa_ip := V4 3221225985; sa_port := 6635 |}.
Definition other_source : SocketAddr := {| sa_ip := V4 3221225986; sa_port := 6635 |}.

Lemma bare_rx_filters_witness :
  exists a', bare_rx_run (L := CidrNet.lib) (T := MapTrie.lib) (M := @ListChannels.lib (list packet)) 3
      [RxUdp (Some (bare_source, [[1]; [2]])); RxUdp (Some (other_source, [[3]]));
       RxMessage (Some (UpdateAcceptedSources {[sa_ip other_source]}));
       RxUdp (Some (bare_source, [[4]])); RxUdp (Some (other_source, [[5]]))]
      (bare_rx_start (M := @ListChannels.lib (list packet)) {[sa_ip bare_source]} ListChannels.empty) = Some a' /\
    accepted (bare_world a') = [(3%nat, [[1]; [2]]); (3%nat, [[5]])].
Proof.
  destruct (bare_rx_run _ _ _) as [a' |] eqn:Hr.
  - destruct (bare_rx_filters _ _ _ _ Hr) as [Hs _]. exists a'. split; [done |].
    apply sent_accepted in Hs. exact Hs.
  - apply (f_equal (fun o => match o with Some _ => true | None => false end)) in Hr. vm_compute in Hr. discriminate.
Defined.

Lemma bare_tx_stamps_witness :
  exists a', bare_tx_run (M := @ListChannels.lib (SocketAddr * list packet)) 4 bare_source (lit "peer") [TxBatch (Some [[1]; [2]]); TxBatch (Some []); TxBatch (Some [[3]])]
      (bare_tx_start (M := @ListChannels.lib (SocketAddr * list packet)) ListChannels.empty) = Some a' /\
    accepted (tx_world a') = [(4%nat, (bare_source, [[1]; [2]])); (4%nat, (bare_source, [[3]]))].
Proof.
  destruct (bare_tx_run _ _ _ _ _) as [a' |] eqn:Hr.
  - destruct (bare_tx_stamps _ _ _ _ _ _ Hr) as [Hs _]. exists a'. split; [done |].
    apply sent_accepted in Hs. exact Hs.
  - apply (f_equal (fun o => match o with Some _ => true | None => false end)) in Hr. vm_compute in Hr. discriminate.
Defined.

Definition bare_peer : PeerBare :=
  {| pbare_endpoint := {| udp_host := lit "peer.example"; udp_port := 6635 |}; pbare_bindif := None |}.
Definition bare_dial : DialContext :=
  {| dial_peer_id := lit "peer"; dial_ip := V4 3221225985; dial_tun_if := lit "h3llo0"; dial_tun_mtu := 1280;
     dial_tuning := Tuning_default |}.

Definition bare_entry : @PeerEntry CidrNet.lib :=
  {| config := {| p_id := lit "peer"; p_transport := TransportBare bare_peer; p_tun := {| allowed_ips := [] |} |};
     bounds := []; resolved_ips := {[V4 3221225985]};
     dials := {[ V4 3221225985 := {| attempt := 0; next_allowed_at := 0; in_flight := true |} ]} |}.
Definition bare_orch : @Orchestrator CidrNet.lib := with_peers sample_orch {[ lit "peer" := bare_entry ]}.

Lemma dial_bare_connected_witness :
  exists ev e', dial_bare_tx (K := PanickyTokio.lib) (I := ListIfs.names) (fun _ _ => Ok tt) (fun _ => []) bare_peer bare_dial
      (fun _ _ => Ok []) (Ok (Ok tt)) 9 = Ret (Ok ev) /\
    peers (handle_connected (T := MapTrie.lib) (fun _ => false) ev bare_orch).1 !! lit "peer" = Some e' /\
    V4 3221225985 ∉ (try_connect 0 e').2.
Proof.
  destruct (dial_bare_tx (K := PanickyTokio.lib) (I := ListIfs.names) (fun _ _ => Ok tt) (fun _ => []) bare_peer bare_dial
      (fun _ _ => Ok []) (Ok (Ok tt)) 9) as [[ev | e] |] eqn:Hd; [| by vm_compute in Hd ..].
  destruct (dial_bare_connected (K := PanickyTokio.lib) (T := MapTrie.lib) (I := ListIfs.names) (fun _ _ => Ok tt) (fun _ => []) bare_peer bare_dial
    (fun _ _ => Ok []) (Ok (Ok tt)) 9 ev (fun _ => false) bare_orch bare_entry 0 Hd) as (e' & He & _ & _ & _ & Hn);
    [done | done | apply elem_of_singleton; done | done |].
  exists ev, e'. split; [reflexivity |]. split; [exact He | exact Hn].
Defined.
