(* ===== verification/Dial.v ===== *)
(** * Dialling peers

    Models the outbound side of [src/src/h3dialer.rs] and the dial tasks of
    [src/src/orch.rs]: the QUIC configuration of a client ([make_client_quiche_config]
    with [apply_transport_config] of [src/src/h3engine.rs]), [make_udp] of
    [src/src/udp.rs], [dial_h3_client] from the socket to the end of the handshake,
    and the tasks [try_connect] spawns with [report_dial].  A quiche configuration is
    the sequence of calls made on it. *)

From stdpp Require Import countable.
From S2P Require Import Prelude Net Config Channel Metrics Routing Route Codec Utf8 Auth Session Udp Events Orch Engine Handshake Bind Bare.
#[local] Open Scope Z_scope.

(** ** QUIC configuration *)

(** The calls on a [quiche::Config] after [Config::new]. *)
Inductive QuicOp : Type :=
| SetApplicationProtos
| SetMaxRecvUdpPayloadSize (n : Z)
| SetMaxSendUdpPayloadSize (n : Z)
| SetInitialMaxData (n : Z)
| SetInitialMaxStreamDataBidiLocal (n : Z)
| SetInitialMaxStreamDataBidiRemote (n : Z)
| SetInitialMaxStreamDataUni (n : Z)
| SetInitialMaxStreamsBidi (n : Z)
| SetInitialMaxStreamsUni (n : Z)
| EnableDgram (enabled : bool) (recv_queue send_queue : Z)
| SetMaxIdleTimeout (ms : Z)
| SetCcAlgorithmName (name : rstr)
| EnablePacing (on : bool)
| VerifyPeer (verify : bool)
| LoadVerifyLocations (path : rstr)
| LoadCertChain (path : rstr)
| LoadPrivKey (path : rstr).

(** Configuring: the result and the calls made so far. *)
Definition conf (E A : Type) : Type := list QuicOp -> result A E * list QuicOp.

#[export] Instance conf_ret E : MRet (conf E) := fun A a t => (Ok a, t).
#[export] Instance conf_bind E : MBind (conf E) := fun A B k c t =>
  match c t with
  | (Ok a, t) => k a t
  | (Err e, t) => (Err e, t)
  end.

(** A setter that cannot fail. *)
Definition set_op {E} (op : QuicOp) : conf E unit := fun t => (Ok tt, t ++ [op]).

Definition conf_map_err {E E' A} (f : E -> E') (c : conf E A) : conf E' A := fun t =>
  match c t with
  | (Ok a, t) => (Ok a, t)
  | (Err e, t) => (Err (f e), t)
  end.

(** The value the last call of its kind set. *)
Definition setting {A} (f : QuicOp -> option A) (t : list QuicOp) : option A := last (omap f t).

Definition verify_peer (op : QuicOp) : option bool := match op with VerifyPeer b => Some b | _ => None end.
Definition dgram_enabled (op : QuicOp) : option bool := match op with EnableDgram b _ _ => Some b | _ => None end.
Definition recv_payload (op : QuicOp) : option Z := match op with SetMaxRecvUdpPayloadSize n => Some n | _ => None end.
Definition send_payload (op : QuicOp) : option Z := match op with SetMaxSendUdpPayloadSize n => Some n | _ => None end.
Definition idle_timeout (op : QuicOp) : option Z := match op with SetMaxIdleTimeout n => Some n | _ => None end.

Section config.
(** The answers of the calls that can fail, after the calls [t] on the same object
    (an error as quiche displays it). *)
Context (quic : list QuicOp -> QuicOp -> result unit rstr).

Definition try_op (op : QuicOp) : conf rstr unit := fun t => (quic t op, t ++ [op]).

(** [apply_transport_config]. *)
Definition apply_transport_config (h3_tuning : H3Tuning) (max_udp_payload : Z) : conf rstr unit :=
  try_op SetApplicationProtos ;;
  set_op (SetMaxRecvUdpPayloadSize max_udp_payload) ;;
  set_op (SetMaxSendUdpPayloadSize max_udp_payload) ;;
  set_op (SetInitialMaxData 10000000) ;;
  set_op (SetInitialMaxStreamDataBidiLocal 1000000) ;;
  set_op (SetInitialMaxStreamDataBidiRemote 1000000) ;;
  set_op (SetInitialMaxStreamDataUni 1000000) ;;
  set_op (SetInitialMaxStreamsBidi 100) ;;
  set_op (SetInitialMaxStreamsUni 100) ;;
  set_op (EnableDgram true 1024 1024) ;;
  let millis := h3_max_idle_timeout h3_tuning / 1000000 in
  let idle_ms := if decide (millis <= u64_max) then millis else u64_max in
  set_op (SetMaxIdleTimeout idle_ms) ;;
  try_op (SetCcAlgorithmName (h3_cc_algorithm h3_tuning)) ;;
  set_op (EnablePacing (h3_enable_pacing h3_tuning)).

(** [make_client_quiche_config]; [created] is the result of [Config::new]. *)
Definition make_client_quiche_config (created : result unit rstr) (tuning : Tuning) (max_udp_payload : Z) :
    conf DialError unit :=
  match created with
  | Err e => fun t => (Err (DialHandshake (lit "quiche config: " ++ e)), t)
  | Ok _ =>
      conf_map_err (fun e => DialHandshake (lit "transport config: " ++ e))
        (apply_transport_config (t_h3 tuning) max_udp_payload) ;;
      if h3_insecure_skip_verify (t_h3 tuning) then set_op (VerifyPeer false)
      else
        set_op (VerifyPeer true) ;;
        match h3_trusted_ca (t_h3 tuning) with
        | Some ca_path =>
            conf_map_err (fun e => DialHandshake (lit "trusted CA `" ++ ca_path ++ lit "`: " ++ e))
              (try_op (LoadVerifyLocations ca_path))
        | None => mret tt
        end
  end.
End config.

(** ** UDP registration *)

(** [make_udp]; the arguments are the results of [UdpSocket::from_std] and of the two
    [UdpSocketState::new]. *)
Definition make_udp (from_std state_rx state_tx : result unit rstr) : result unit UdpError :=
  match from_std with
  | Err e => Err (UdpSocketError (lit "tokio from_std: " ++ e))
  | Ok _ =>
      match state_rx with
      | Err e => Err (UdpSocketError (lit "quinn-udp rx state: " ++ e))
      | Ok _ =>
          match state_tx with
          | Err e => Err (UdpSocketError (lit "quinn-udp tx state: " ++ e))
          | Ok _ => Ok tt
          end
      end
  end.

(** ** [dial_h3_client] *)

Section client.
Context {Q : QuicLib} {HS : H3Setup Q} {VL : VarintLib} {B : BufLib} (MAX_DATAGRAM_SIZE : nat).
Context {MO : Mpsc (SocketAddr * list PooledBuf)} {K : TokioLib}.

(** [H3Engine::establish] on the branches its loop takes; [None]: it is still waiting
    after them. *)
Fixpoint establish_loop (meta : EngineMeta) (udp_send_tx : Sender) (authority connect_path auth_header : rstr)
    (timeout : Z) (inputs : list HsInput) (st : HsState) : outcome (option (result HsState DialError)) :=
  match inputs with
  | [] => Ret None
  | i :: inputs =>
      n ← establish_step MAX_DATAGRAM_SIZE meta udp_send_tx authority connect_path auth_header timeout i st;
      match n with
      | Wait st => establish_loop meta udp_send_tx authority connect_path auth_header timeout inputs st
      | Finish _ st => Ret (Some (Ok st))
      | Fail e => Ret (Some (Err e))
      end
  end.

Definition establish (meta : EngineMeta) (udp_send_tx : Sender) (authority connect_path auth_header : rstr)
    (timeout : Z) (inputs : list HsInput) (c : conn) (w : world) : outcome (option (result HsState DialError)) :=
  n ← flush_then (A := unit) MAX_DATAGRAM_SIZE meta udp_send_tx DialHandshake (hs c None w []) (fun st => Ret (Wait st));
  match n with
  | Wait st => establish_loop meta udp_send_tx authority connect_path auth_header timeout inputs st
  | Finish _ st => Ret (Some (Ok st))
  | Fail e => Ret (Some (Err e))
  end.

(** What the system and the libraries answer during one dial: the socket calls, the
    route probe, [local_addr], [make_udp] on the UDP runtime (the outer error is the
    task's), [Config::new] and its setters, [quiche::connect] for the server name and
    addresses under a configuration, the channels the actors read, and the branches
    the handshake takes. *)
Record DialEnv : Type := {
  env_sys : list SockOp -> SockOp -> result unit IoError;
  env_io_to_string : IoError -> rstr;
  env_probe : IpAddr -> option rstr -> result (list rstr) RouteProbeError;
  env_local_addr : result SocketAddr rstr;
  env_registered : result (result unit UdpError) rstr;
  env_config_new : result unit rstr;
  env_quic : list QuicOp -> QuicOp -> result unit rstr;
  env_connect : option rstr -> SocketAddr -> SocketAddr -> list QuicOp -> result conn rstr;
  env_udp_send_tx : Sender;
  env_egress_tx : Sender;
  env_out : world;
  env_inputs : list HsInput;
}.

Definition dial_authority (endpoint : H3Endpoint) : rstr :=
  if decide (h3_port endpoint = 443) then h3_host endpoint
  else h3_host endpoint ++ lit ":" ++ dec (h3_port endpoint).

(** [dial_h3_client]: the event and the handshake's final state.  The three channels are
    those of [spawn_udp_rx], of [spawn_udp_tx] and of the router's packets. *)
Definition dial_h3_client {I : IfNames} (peer_h3 : PeerH3) (dial : DialContext) (env : DialEnv) :
    outcome (option (result (ConnectedEvent * HsState) DialError)) :=
  match ph3_endpoint peer_h3 with
  | None => Ret (Some (Err (DialSocket (lit "endpoint is None"))))
  | Some endpoint =>
  let tuning := dial_tuning dial in
  let remote := {| sa_ip := dial_ip dial; sa_port := h3_port endpoint |} in
  let server_name := default (h3_host endpoint) (ph3_sni peer_h3) in
  let authority := dial_authority endpoint in
  let auth_header := bearer_auth_header (ph3_token peer_h3) in
  match make_unbound_udp_socket (env_sys env) (env_io_to_string env) remote (Some (dial_tun_if dial)) (ph3_bindif peer_h3) (env_probe env)
          (socket_buffer_bytes (t_io tuning)) with
  | (Err e, _) => Ret (Some (Err (DialSocket (display_udp_error e))))
  | (Ok _, _) =>
  match env_local_addr env with
  | Err e => Ret (Some (Err (DialSocket (lit "local_addr: " ++ e))))
  | Ok local =>
  let payload := dial_tun_mtu dial + CONNECT_IP_OVERHEAD in
  match env_registered env with
  | Err e => Ret (Some (Err (DialSocket (lit "UDP runtime task failed: " ++ e))))
  | Ok (Err e) => Ret (Some (Err (DialSocket (lit "make_udp: " ++ display_udp_error e))))
  | Ok (Ok _) =>
  match make_client_quiche_config (env_quic env) (env_config_new env) tuning payload [] with
  | (Err e, _) => Ret (Some (Err e))
  | (Ok _, cfg) =>
  match env_connect env (Some server_name) local remote cfg with
  | Err e => Ret (Some (Err (DialHandshake (lit "quiche connect: " ++ e))))
  | Ok c =>
      let depth := packet_queue_depth (t_io tuning) in
      mpsc_channel depth ;; mpsc_channel depth ;; mpsc_channel depth ;;
      let meta := {| local_addr := local; remote_addr := remote; meta_peer_id := dial_peer_id dial;
                     max_udp_payload := Z.to_nat payload |} in
      r ← establish meta (env_udp_send_tx env) authority (h3_path endpoint) auth_header
            (h3_handshake_timeout (t_h3 tuning)) (env_inputs env) c (env_out env);
      Ret (match r with
           | None => None
           | Some (Err e) => Some (Err e)
           | Some (Ok st) =>
               Some (Ok ({| conn_peer_id := dial_peer_id dial; conn_remote_addr := remote; conn_tx := env_egress_tx env;
                            conn_endpoint := H3 <$> ph3_endpoint peer_h3 |}, st))
           end)
  end end end end end end.

(** ** The dial tasks of [try_connect] *)

(** [report_dial]: the event sent to the owner. *)
Definition report_dial {L : IpNetLib} {T : TrieLib L} {E} (r : result ConnectedEvent E) (dial : DialContext) : Event :=
  match r with
  | Ok event => Connected event
  | Err _ => DialFailed {| failed_peer_id := dial_peer_id dial; failed_ip := dial_ip dial |}
  end.

Definition dialled (r : result (ConnectedEvent * HsState) DialError) : result ConnectedEvent DialError :=
  match r with Ok (ev, _) => Ok ev | Err e => Err e end.

(** The task spawned for one address. *)
Definition dial_task {L : IpNetLib} {T : TrieLib L} {I : IfNames} (transport : PeerTransport) (dial : DialContext) (env : DialEnv) :
    outcome (option Event) :=
  match transport with
  | TransportBare bare =>
      r ← dial_bare_tx (env_sys env) (env_io_to_string env) bare dial (env_probe env) (env_registered env) (env_egress_tx env);
      Ret (Some (report_dial r dial))
  | TransportH3 h3 =>
      r ← dial_h3_client h3 dial env;
      Ret (option_map (fun r => report_dial (dialled r) dial) r)
  end.
End client.

(** ** Lemmas *)

Section facts.
Context {Q : QuicLib} {HQ : QuicLaws Q} {HS : H3Setup Q} {HHS : H3SetupLaws HS}.
Context {VL : VarintLib} {HVL : VarintLaws VL} {B : BufLib} (MAX_DATAGRAM_SIZE : nat).
Context {MO : Mpsc (SocketAddr * list PooledBuf)} {K : TokioLib} {HK : TokioLaws K} {I : IfNames}.
Implicit Types (env : DialEnv) (st : HsState).

(** The calls of a client configuration. *)
Lemma make_client_quiche_config_ops quic created tuning payload cfg u :
  make_client_quiche_config quic created tuning payload [] = (Ok u, cfg) ->
  setting recv_payload cfg = Some payload /\ setting send_payload cfg = Some payload /\
  setting dgram_enabled cfg = Some true /\
  setting idle_timeout cfg = Some (Z.min u64_max (h3_max_idle_timeout (t_h3 tuning) / 1000000)) /\
  setting verify_peer cfg = Some (negb (h3_insecure_skip_verify (t_h3 tuning))) /\
  (h3_insecure_skip_verify (t_h3 tuning) = false -> forall ca, h3_trusted_ca (t_h3 tuning) = Some ca ->
     LoadVerifyLocations ca ∈ cfg).
Proof.
  assert (Hidle : forall m, (if decide (m <= u64_max) then m else u64_max) = Z.min u64_max m) by (intros m; case_decide; lia).
  unfold make_client_quiche_config. destruct created as [[] | e]; [| done].
  unfold mbind, conf_bind, conf_map_err, apply_transport_config, mbind, conf_bind, try_op, set_op, mret, conf_ret.
  destruct (quic [] SetApplicationProtos); [| done]. rewrite Hidle.
  destruct (quic _ (SetCcAlgorithmName _)); [| done].
  destruct (h3_insecure_skip_verify (t_h3 tuning)); [by intros [= <- <-] |].
  destruct (h3_trusted_ca (t_h3 tuning)) as [ca |]; [| by intros [= <- <-]].
  destruct (quic _ (LoadVerifyLocations ca)); [| done]. intros [= <- <-]. split_and!; try done.
  intros _ ca' [= <-]. set_solver.
Qed.

Lemma establish_loop_total meta tx authority path auth timeout inputs st :
  hs_inv accepted_200 st ->
  exists r, establish_loop MAX_DATAGRAM_SIZE meta tx authority path auth timeout inputs st = Ret r /\
    (HsDeadline ∈ inputs -> is_Some r) /\
    forall st', r = Some (Ok st') -> establish_post (Finish tt st').
Proof.
  revert st. induction inputs as [| i inputs IH]; intros st Hinv.
  - exists None. split; [done |]. split; [set_solver | done].
  - cbn [establish_loop].
    destruct (establish_step_inv MAX_DATAGRAM_SIZE meta tx authority path auth timeout i st Hinv) as (n & Hn & Hpost).
    rewrite Hn. cbn [mbind outcome_bind]. destruct n as [st' | [] st' | e].
    + destruct (IH st' Hpost) as (r & -> & Hd & Hr). exists r. split; [done |]. split; [| done].
      intros Hin. apply elem_of_cons in Hin as [<- | Hin]; [| by apply Hd]. exfalso. cbn [establish_step] in Hn.
      match type of Hn with flush_then _ _ _ _ ?s ?k = _ =>
        destruct (flush_then_cases MAX_DATAGRAM_SIZE meta tx DialHandshake s k) as [[e He] | (c & w & Hc)] end; congruence.
    + eexists. split; [done |]. split; [by eexists |]. by intros ? [= <-].
    + eexists. split; [done |]. split; [by eexists | done].
Qed.

Lemma establish_total meta tx authority path auth timeout inputs c w :
  exists r, establish MAX_DATAGRAM_SIZE meta tx authority path auth timeout inputs c w = Ret r /\
    (HsDeadline ∈ inputs -> is_Some r) /\
    forall st', r = Some (Ok st') -> establish_post (Finish tt st').
Proof.
  unfold establish. destruct (flush_then_cases (A := unit) MAX_DATAGRAM_SIZE meta tx DialHandshake (hs c None w []) (fun st => Ret (Wait st)))
    as [[e ->] | (c' & w' & ->)]; cbn [mbind outcome_bind].
  - eexists. split; [done |]. split; [by eexists | done].
  - by apply establish_loop_total.
Qed.

#[local] Ltac dial_stops := right; eexists; split; [done | split; [by eexists | done]].

(** tokio accepts the configured depth of a channel. *)
Definition depth_ok (dial : DialContext) : Prop :=
  0 < packet_queue_depth (t_io (dial_tuning dial)) <= max_permits.

(** What a successful [dial_h3_client] went through. *)
Definition dial_post (peer_h3 : PeerH3) (dial : DialContext) env (ev : ConnectedEvent) st : Prop :=
  exists endpoint local cfg c,
    ph3_endpoint peer_h3 = Some endpoint /\
    ev = {| conn_peer_id := dial_peer_id dial;
            conn_remote_addr := {| sa_ip := dial_ip dial; sa_port := h3_port endpoint |};
            conn_tx := env_egress_tx env; conn_endpoint := Some (H3 endpoint) |} /\
    make_client_quiche_config (env_quic env) (env_config_new env) (dial_tuning dial)
      (dial_tun_mtu dial + CONNECT_IP_OVERHEAD) [] = (Ok tt, cfg) /\
    env_connect env (Some (default (h3_host endpoint) (ph3_sni peer_h3))) local (conn_remote_addr ev) cfg = Ok c /\
    establish_post (Finish tt st).

(** Every branch of [dial_h3_client]: it panics on a bad depth only, it ends by the
    deadline, and what a success went through. *)
Lemma dial_h3_client_cases peer_h3 dial env :
  (dial_h3_client MAX_DATAGRAM_SIZE peer_h3 dial env = Panic /\ ~ depth_ok dial) \/
  exists r, dial_h3_client MAX_DATAGRAM_SIZE peer_h3 dial env = Ret r /\
    (HsDeadline ∈ env_inputs env -> is_Some r) /\
    forall ev st, r = Some (Ok (ev, st)) -> dial_post peer_h3 dial env ev st.
Proof.
  unfold dial_h3_client, dial_post. destruct (ph3_endpoint peer_h3) as [endpoint |]; [| dial_stops].
  cbv zeta.
  destruct (make_unbound_udp_socket _ _ _ _ _ _ _) as [[u | e] t]; [| dial_stops].
  destruct (env_local_addr env) as [local | e]; [| dial_stops].
  destruct (env_registered env) as [[u' | e] | e]; [| dial_stops ..].
  destruct (make_client_quiche_config _ _ _ _ _) as [[[] | e] cfg] eqn:Hcfg;
    [| dial_stops].
  destruct (env_connect env _ local _ cfg) as [c | e] eqn:Hc; [| dial_stops].
  destruct (mpsc_channel (packet_queue_depth (t_io (dial_tuning dial)))) as [[] |] eqn:Hk; cbn [mbind outcome_bind];
    [right | left; split; [done |]; intros [? ?]; rewrite mpsc_channel_law in Hk by lia; done].
  match goal with |- context [establish _ ?m ?tx ?a ?p ?h ?t ?i ?c ?w] =>
    destruct (establish_total m tx a p h t i c w) as (r & -> & Hd & Hr) end.
  cbn [mbind outcome_bind]. eexists. split; [done |]. split.
  - intros Hin. destruct (Hd Hin) as [[st | e] ->]; by eexists.
  - intros ev st. destruct r as [[st' | e] |]; [| done | done]. intros [= <- <-].
    exists endpoint, local, cfg, c. split_and!; try done. by apply Hr.
Qed.

Lemma dial_bare_tx_event sys io_to_string bare dial probe registered tx ev :
  dial_bare_tx sys io_to_string bare dial probe registered tx = Ret (Ok ev) ->
  conn_peer_id ev = dial_peer_id dial /\ sa_ip (conn_remote_addr ev) = dial_ip dial /\
  conn_endpoint ev = Some (Udp (pbare_endpoint bare)).
Proof.
  unfold dial_bare_tx. destruct (make_unbound_udp_socket _ _ _ _ _ _ _) as [[u | e0] t]; [| done].
  destruct registered as [[u' | e0] | e0]; [| done | done]. destruct (mpsc_channel _); [| done]. by intros [= <-].
Qed.

Lemma dial_bare_tx_total sys io_to_string bare dial probe registered tx :
  depth_ok dial -> exists r, dial_bare_tx sys io_to_string bare dial probe registered tx = Ret r.
Proof.
  intros [? ?]. unfold dial_bare_tx. destruct (make_unbound_udp_socket _ _ _ _ _ _ _) as [[u | e0] t]; [| by eexists].
  destruct registered as [[u' | e0] | e0]; [| by eexists ..]. rewrite mpsc_channel_law by lia. by eexists.
Qed.

Section settle.
Context {L : IpNetLib} {T : TrieLib L}.

(** The event a dial task reports: a failure of its address, or a connection to it. *)
Definition settles (dial : DialContext) (ev : Event) : Prop :=
  match ev with
  | Connected c => conn_peer_id c = dial_peer_id dial /\ sa_ip (conn_remote_addr c) = dial_ip dial /\
      is_Some (conn_endpoint c)
  | DialFailed f => failed_peer_id f = dial_peer_id dial /\ failed_ip f = dial_ip dial
  | _ => False
  end.

Lemma dial_task_event transport dial env :
  depth_ok dial -> HsDeadline ∈ env_inputs env ->
  exists ev, dial_task MAX_DATAGRAM_SIZE transport dial env = Ret (Some ev) /\ settles dial ev.
Proof.
  intros Hk Hin. destruct transport as [h3 | bare]; cbn [dial_task].
  - destruct (dial_h3_client_cases h3 dial env) as [[_ []] | (r & -> & Hd & Hr)]; [done |]. destruct (Hd Hin) as [r' ->].
    cbn [mbind outcome_bind option_map]. eexists. split; [done |]. destruct r' as [[ev st] | e]; [| done].
    destruct (Hr _ _ eq_refl) as (endpoint & local & cfg & c & _ & -> & _). cbn. by split_and!.
  - destruct (dial_bare_tx_total (env_sys env) (env_io_to_string env) bare dial (env_probe env) (env_registered env)
      (env_egress_tx env) Hk) as [r He]. rewrite He. cbn [mbind outcome_bind]. eexists. split; [done |]. destruct r as [ev | e]; [| done].
    apply dial_bare_tx_event in He as (H1 & H2 & H3). cbn. split_and!; [done | done | by eexists].
Qed.

Lemma settles_handled now closed dial ev o e :
  settles dial ev -> peers o !! dial_peer_id dial = Some e ->
  exists o' outs e', handle_event now closed ev o = Ret (Ok tt, o', outs) /\
    peers o' !! dial_peer_id dial = Some e' /\ forall s, dials e' !! dial_ip dial = Some s -> in_flight s = false.
Proof.
  intros Hs He. destruct ev; try done; cbn [settles] in Hs.
  - destruct Hs as (Hid & Hip & ep & Hep). rewrite <- Hid in He.
    destruct (handle_connected_clears closed event o e ep He Hep) as (e' & Hl & _ & Hd).
    cbn [handle_event]. destruct (handle_connected closed event o) as [o' outs]. eexists _, _, e'.
    split; [done |]. rewrite <- Hid, <- Hip. split; [exact Hl |]. intros s. by rewrite Hd.
  - destruct Hs as [Hid Hip]. cbn [handle_event]. unfold handle_dial_failed. rewrite Hid, Hip, He.
    destruct (dials e !! dial_ip dial) as [s |] eqn:Hd.
    + eexists _, _, _. split; [done |]. cbn [peers with_peers]. rewrite lookup_insert_eq. split; [done |].
      cbn [dials]. rewrite lookup_insert_eq. by intros s' [= <-].
    + exists o, [], e. split; [done |]. split; [done |]. by rewrite Hd.
Qed.
End settle.

(** ** Properties *)

(** C21: a successful HTTP/3 dial is a verified one: the reported connection is to the
    dialled address at the endpoint's port, it was opened for the configured SNI (or
    the endpoint's host) under a configuration that verifies the server's certificate
    exactly when [h3_insecure_skip_verify] is off, with the trusted CA loaded when one is
    configured, datagrams enabled and room for the MTU plus the framing overhead in both
    directions, and the peer answered 200 on the stream the session frames for. *)
Theorem dial_h3_verified peer_h3 dial env ev st :
  dial_h3_client MAX_DATAGRAM_SIZE peer_h3 dial env = Ret (Some (Ok (ev, st))) ->
  let tuning := t_h3 (dial_tuning dial) in
  exists endpoint local cfg c, ph3_endpoint peer_h3 = Some endpoint /\
    conn_endpoint ev = Some (H3 endpoint) /\
    conn_remote_addr ev = {| sa_ip := dial_ip dial; sa_port := h3_port endpoint |} /\
    env_connect env (Some (default (h3_host endpoint) (ph3_sni peer_h3))) local (conn_remote_addr ev) cfg = Ok c /\
    setting verify_peer cfg = Some (negb (h3_insecure_skip_verify tuning)) /\
    (h3_insecure_skip_verify tuning = false -> forall ca, h3_trusted_ca tuning = Some ca -> LoadVerifyLocations ca ∈ cfg) /\
    setting dgram_enabled cfg = Some true /\
    setting recv_payload cfg = Some (dial_tun_mtu dial + CONNECT_IP_OVERHEAD) /\
    setting send_payload cfg = Some (dial_tun_mtu dial + CONNECT_IP_OVERHEAD) /\
    exists sid headers s, Headers sid headers ∈ hs_seen st /\ accepted_200 sid headers None /\
      hs_session st = Some s /\ connect_stream_id s = Some sid /\ codec_new sid = Ret (datagram_codec s).
Proof.
  intros Hd tuning. destruct (dial_h3_client_cases peer_h3 dial env) as [[Hp _] | (r & Hr & _ & Hok)]; [congruence |].
  rewrite Hr in Hd.
  injection Hd as ->. destruct (Hok _ _ eq_refl) as (endpoint & local & cfg & c & He & -> & Hcfg & Hc & Hpost).
  apply make_client_quiche_config_ops in Hcfg as (H1 & H2 & H3 & _ & H5 & H6).
  exists endpoint, local, cfg, c. by split_and!.
Qed.

(** C14: a dial always settles: for a queue depth that tokio accepts, and whatever the
    system and the peer answer, the task spawned for an address does not panic and, once
    the calls before the handshake have been answered, ends no later than the handshake's
    deadline; it reports one event, and once the orchestrator has handled it the peer's
    entry has no dial in flight for that address. *)
Theorem dial_task_settles {L : IpNetLib} {T : TrieLib L} transport dial env now closed (o : Orchestrator) e :
  0 < packet_queue_depth (t_io (dial_tuning dial)) <= max_permits ->
  HsDeadline ∈ env_inputs env -> peers o !! dial_peer_id dial = Some e ->
  exists ev o' outs e', dial_task MAX_DATAGRAM_SIZE transport dial env = Ret (Some ev) /\
    handle_event now closed ev o = Ret (Ok tt, o', outs) /\
    peers o' !! dial_peer_id dial = Some e' /\
    forall s, dials e' !! dial_ip dial = Some s -> in_flight s = false.
Proof.
  intros Hk Hin He. destruct (dial_task_event transport dial env Hk Hin) as (ev & Hev & Hs).
  destruct (settles_handled now closed dial ev o e Hs He) as (o' & outs & e' & Hrest).
  by exists ev, o', outs, e'.
Qed.
End facts.

(** ** Witnesses: a server that answers the request *)

Module AnsweringQuic.
#[export] Instance lib : QuicLib := {|
  conn := bool;
  is_dgram_recv_queue_full _ := false;
  q_recv _ _ _ := (Ok tt, true);
  q_dgram_recv c _ := (Err Done, c);
  q_dgram_send c _ := (Err Done, c);
  q_send c _ := (Err Done, c);
  q_poll c := ([Headers 0 [status_header "200"]], PollDone true, c);
  q_apply c _ := c;
  q_is_closed _ := false;
  q_on_timeout c := c;
  q_send_ack_eliciting c := c;
  q_close c := c;
  dgrams _ := [];
  dgrams_sent _ := [];
  send_quota _ := 0%nat;
  active_path _ := {| sa_ip := V4 0; sa_port := 0 |};
|}.

#[export] Instance setup : H3Setup lib := {|
  is_established c := c : @conn lib;
  h3_transport c := Ok c;
  send_200 _ _ := Ok tt;
  send_request c _ := Ok (0, c);
|}.
End AnsweringQuic.

#[export] Instance AnsweringQuic_laws : QuicLaws AnsweringQuic.lib.
Proof. split; cbn; [intros c _; by exists c | done | done]. Qed.

#[export] Instance AnsweringQuic_setup_laws : H3SetupLaws AnsweringQuic.setup.
Proof.
  split; cbn; [intros _; repeat constructor; unfold u64_max; lia |]. intros _ _ sid c' [= <- _]. unfold u64_max. lia.
Qed.

Definition h3_peer : PeerH3 :=
  {| ph3_endpoint := Some {| h3_host := lit "peer.example"; h3_port := 8443; h3_path := lit "/ip" |};
     ph3_token := lit "0123456789ab"; ph3_bindif := None; ph3_sni := None |}.

(** Every call succeeds; the server's packet arrives after one timer tick. *)
Definition h3_env : DialEnv (Q := AnsweringQuic.lib) (B := HeadBuf.lib) (MO := ListChannels.lib) :=
  {| env_sys := fun _ _ => Ok tt; env_io_to_string := fun _ => []; env_probe := fun _ _ => Ok [lit "eth0"];
     env_local_addr := Ok sample_remote; env_registered := Ok (make_udp (Ok tt) (Ok tt) (Ok tt));
     env_config_new := Ok tt; env_quic := fun _ _ => Ok tt; env_connect := fun _ _ _ _ => Ok (false : @conn AnsweringQuic.lib);
     env_udp_send_tx := 1%nat; env_egress_tx := 2%nat; env_out := (ListChannels.empty : @world _ ListChannels.lib);
     env_inputs := [HsTimer; HsUdp (Some (sample_remote, [sample_datagram])); HsDeadline] |}.

Lemma dial_h3_verified_witness :
  exists ev st, dial_h3_client (HS := AnsweringQuic.setup) (VL := Rfc9000.lib) (K := PanickyTokio.lib) (I := ListIfs.names) 64 h3_peer bare_dial h3_env
      = Ret (Some (Ok (ev, st))) /\
    sa_port (conn_remote_addr ev) = 8443 /\ exists headers, Headers 0 headers ∈ hs_seen st.
Proof.
  destruct (dial_h3_client (HS := AnsweringQuic.setup) (VL := Rfc9000.lib) (K := PanickyTokio.lib) (I := ListIfs.names) 64 h3_peer bare_dial h3_env)
    as [[[[ev st] | e] |] |] eqn:Hd; [| by vm_compute in Hd ..].
  destruct (dial_h3_verified (K := PanickyTokio.lib) 64 h3_peer bare_dial h3_env ev st Hd)
    as (endpoint & local & cfg & c & He & _ & Hr & _ & _ & _ & _ & _ & _ & sid & headers & s & Hin & _ & Hs & Hsid & _).
  exists ev, st. split; [reflexivity |]. rewrite Hr. injection He as <-. split; [reflexivity |].
  exists headers. replace 0 with sid; [exact Hin |].
  apply (f_equal (fun r => match r with
    | Ret (Some (Ok (_, st))) => match hs_session st with Some s => connect_stream_id s | None => None end
    | _ => None end)) in Hd. rewrite Hs, Hsid in Hd. vm_compute in Hd. by injection Hd.
Defined.

Lemma dial_task_settles_witness :
  exists ev o' outs e', dial_task (HS := AnsweringQuic.setup) (VL := Rfc9000.lib) (K := PanickyTokio.lib) (I := ListIfs.names) (T := MapTrie.lib)
      64 (TransportBare bare_peer) bare_dial h3_env = Ret (Some ev) /\
    handle_event 0 (fun _ => false) ev bare_orch = Ret (Ok tt, o', outs) /\
    peers o' !! lit "peer" = Some e' /\ forall s, dials e' !! V4 3221225985 = Some s -> in_flight s = false.
Proof.
  apply (dial_task_settles (K := PanickyTokio.lib) (I := ListIfs.names) 64 (TransportBare bare_peer) bare_dial h3_env 0 (fun _ => false) bare_orch bare_entry);
    [by vm_compute | | reflexivity]. apply list_elem_of_lookup. by exists 2%nat.
Defined.
