(* ===== verification/Scrape.v ===== *)
(** * Metrics as text

    Models the output side of [src/src/metrics.rs]: the lines [log_transport_metrics]
    writes, the Prometheus collector ([SnapshotCollector], its label sets and
    families) and [encode_metrics_snapshot].  The registry and the text format are
    prometheus-client's: the collector is the sequence of calls it makes on the
    encoder, each of which may fail, and [render] turns the calls into text.  Floating
    point values are IEEE 754 doubles as the standard library specifies them. *)

From Stdlib Require Import Floats.SpecFloat.
From stdpp Require Import countable.
From S2P Require Import Prelude Net Config Channel Metrics Routing AddrText Events Orch.
#[local] Open Scope Z_scope.

(** ** Log lines *)

(** The derived [Debug] of the three enumerations. *)
Definition debug_source (s : Source) : rstr :=
  match s with Tun => lit "Tun" | BareUdp => lit "BareUdp" | Http3 => lit "Http3" | Router => lit "Router" end.

Definition debug_direction (d : Direction) : rstr := match d with Rx => lit "Rx" | Tx => lit "Tx" end.

Definition debug_drop_reason (r : DropReason) : rstr :=
  match r with
  | Oversize => lit "Oversize" | DisallowedSource => lit "DisallowedSource" | SendErr => lit "SendError"
  | QuicError => lit "QuicError" | ChannelClosed => lit "ChannelClosed" | InvalidIpVersion => lit "InvalidIpVersion"
  | InvalidFraming => lit "InvalidFraming" | NoRoute => lit "NoRoute" | NoPeerChannel => lit "NoPeerChannel"
  | NoHeadroom => lit "NoHeadroom" | QueueFull => lit "QueueFull" | TtlExpired => lit "TtlExpired"
  end.

(** The lines of [log_transport_metrics]. *)
Definition log_totals (m : Metrics) : rstr :=
  let l := m_labels m in
  let st := m_stats m in
  debug_source (lab_source l) ++ lit " " ++ debug_direction (lab_direction l) ++ lit " " ++
  default (lit "local") (lab_peer_id l) ++ lit " " ++
  match lab_remote_addr l with None => lit "-" | Some a => display_socket_addr a end ++ lit ": " ++
  dec (batches (succeeded st)) ++ lit " batches/" ++ dec (packets (succeeded st)) ++ lit " pkts/" ++
  dec (bytes (succeeded st)) ++ lit " bytes ok, " ++
  dec (batches (dropped st)) ++ lit " batches/" ++ dec (packets (dropped st)) ++ lit " pkts/" ++
  dec (bytes (dropped st)) ++ lit " bytes dropped".

Definition log_drop (reason : DropReason) (c : PktCounters) : rstr :=
  lit "  drop reason " ++ debug_drop_reason reason ++ lit ": " ++ dec (packets c) ++ lit " pkts/" ++ dec (bytes c) ++ lit " bytes".

Definition log_congestion (cg : CongestionStats) : rstr :=
  lit "  congestion: queue_full " ++ dec (queue_full_count cg) ++ lit "x/" ++ debug_duration (queue_full_duration cg) ++
  lit " total, would_block " ++ dec (would_block_count cg) ++ lit "x/" ++ debug_duration (would_block_duration cg) ++ lit " total".

Definition log_transport_metrics (m : Metrics) : list rstr :=
  let st := m_stats m in
  let cg := congestion st in
  log_totals m ::
  (if decide (0 < packets (dropped st)) then
     omap (fun reason => let c := drop_reasons st reason in
       if decide (0 < packets c) then Some (log_drop reason c) else None) drop_reason_values
   else []) ++
  (if decide (0 < queue_full_count cg \/ 0 < would_block_count cg) then [log_congestion cg] else []).

(** ** QUIC metrics *)

(** [collect_quic_metrics]: the text, and the error that is logged as a warning. *)
Definition collect_quic_metrics (collected : result rstr rstr) : rstr * option rstr :=
  match collected with
  | Ok text => (text, None)
  | Err e => ([], Some e)
  end.

(** [log_quic_metrics]: the message, if there is one. *)
Definition log_quic_metrics (collected : result rstr rstr) : option rstr :=
  let text := (collect_quic_metrics collected).1 in
  if decide (text = []) then None else Some (lit "QUIC metrics:" ++ [10] ++ text).

(** The metrics branch of the orchestrator's loop; [ms] are the snapshot's values in the
    order the map yields them. *)
Definition metrics_log_tick (collected : result rstr rstr) (ms : list Metrics) : option rstr * list rstr :=
  (log_quic_metrics collected, ms ≫= log_transport_metrics).

(** ** The collector *)

Definition source_label (s : Source) : rstr :=
  match s with
  | Tun => lit "tun" | BareUdp => lit "bare_udp" | Http3 => lit "http3" | Router => lit "router"
  end.

Definition direction_label (d : Direction) : rstr :=
  match d with Rx => lit "rx" | Tx => lit "tx" end.

Definition drop_reason_label (r : DropReason) : rstr :=
  match r with
  | Oversize => lit "oversize" | DisallowedSource => lit "disallowed_source"
  | SendErr => lit "send_error" | QuicError => lit "quic_error"
  | ChannelClosed => lit "channel_closed" | InvalidIpVersion => lit "invalid_ip_version"
  | InvalidFraming => lit "invalid_framing" | NoRoute => lit "no_route"
  | NoPeerChannel => lit "no_peer_channel" | NoHeadroom => lit "no_headroom"
  | QueueFull => lit "queue_full" | TtlExpired => lit "ttl_expired"
  end.

Abbreviation LabelSet := (list (rstr * rstr)).

(** The label sets of [label_set!]: four common labels and the one named [field]. *)
Definition label_set (field : rstr) (m : Metrics) (value : rstr) : LabelSet :=
  [(lit "source", source_label (lab_source (m_labels m)));
   (lit "direction", direction_label (lab_direction (m_labels m)));
   (lit "peer_id", default [] (lab_peer_id (m_labels m)));
   (lit "remote_addr", default [] (display_socket_addr <$> lab_remote_addr (m_labels m)));
   (field, value)].

Definition PacketLabelSet : Metrics -> rstr -> LabelSet := label_set (lit "outcome").
Definition DropLabelSet (m : Metrics) (reason : DropReason) : LabelSet := label_set (lit "reason") m (drop_reason_label reason).
Definition CongestionLabelSet : Metrics -> rstr -> LabelSet := label_set (lit "event").

(** IEEE 754 doubles. *)
Definition f64_of (n : Z) : spec_float := binary_normalize 53 1024 n 0 false.

(** [Duration::as_secs_f64] times 1000. *)
Definition wait_millis (d : Z) : spec_float :=
  let secs := SFadd 53 1024 (f64_of (d / 1000000000)) (SFdiv 53 1024 (f64_of (d mod 1000000000)) (f64_of 1000000000)) in
  SFmul 53 1024 secs (f64_of 1000).

Inductive CounterValue : Type :=
| CountU64 (n : Z)
| CountF64 (x : spec_float).

(** The calls on the encoder: the head of a family, the labels of a sample, its value. *)
Inductive EncCall : Type :=
| EncDescriptor (name help : rstr)
| EncLabels (labels : LabelSet)
| EncValue (v : CounterValue).

Inductive FmtError : Type := MkFmtError.

(** Encoding: the result and the calls made so far. *)
Definition enc (A : Type) : Type := list EncCall -> result A FmtError * list EncCall.

#[export] Instance enc_ret : MRet enc := fun A a t => (Ok a, t).
#[export] Instance enc_bind : MBind enc := fun A B k c t =>
  match c t with
  | (Ok a, t) => k a t
  | (Err e, t) => (Err e, t)
  end.

Fixpoint enc_each {A} (f : A -> enc unit) (l : list A) : enc unit :=
  match l with
  | [] => mret tt
  | x :: l => f x ;; enc_each f l
  end.

Section collector.
(** What the encoder answers to a call after the calls [t]. *)
Context (prom : list EncCall -> EncCall -> result unit FmtError).

Definition enc_call (c : EncCall) : enc unit := fun t => (prom t c, t ++ [c]).

(** [SnapshotCollector::encode_family]; [ms] are the values of the snapshot. *)
Definition encode_family (ms : list Metrics) (name help : rstr) (entry_fn : Metrics -> list (LabelSet * CounterValue)) : enc unit :=
  enc_call (EncDescriptor name help) ;;
  enc_each (fun m => enc_each (fun lv : LabelSet * CounterValue =>
    enc_call (EncLabels lv.1) ;; enc_call (EncValue lv.2)) (entry_fn m)) ms.

(** The families of [SnapshotCollector::encode]. *)
Definition outcome_entries (extract : PktCounters -> Z) (m : Metrics) : list (LabelSet * CounterValue) :=
  [(PacketLabelSet m (lit "succeeded"), CountU64 (extract (succeeded (m_stats m))));
   (PacketLabelSet m (lit "dropped"), CountU64 (extract (dropped (m_stats m))))].

Definition drop_entries (field : PktCounters -> Z) (m : Metrics) : list (LabelSet * CounterValue) :=
  omap (fun reason =>
    let v := field (drop_reasons (m_stats m) reason) in
    if decide (0 < v) then Some (DropLabelSet m reason, CountU64 v) else None) drop_reason_values.

Definition congestion_entries (m : Metrics) : list (LabelSet * CounterValue) :=
  let cg := congestion (m_stats m) in
  [(CongestionLabelSet m (lit "queue_full"), CountU64 (queue_full_count cg));
   (CongestionLabelSet m (lit "would_block"), CountU64 (would_block_count cg))].

Definition wait_entries (m : Metrics) : list (LabelSet * CounterValue) :=
  let cg := congestion (m_stats m) in
  [(CongestionLabelSet m (lit "queue_full"), CountF64 (wait_millis (queue_full_duration cg)));
   (CongestionLabelSet m (lit "would_block"), CountF64 (wait_millis (would_block_duration cg)))].

(** The families in the order they are encoded: name, help, entries. *)
Definition families : list (rstr * rstr * (Metrics -> list (LabelSet * CounterValue))) :=
  [(lit "h3llo_transport_packets", lit "Cumulative packet count.", outcome_entries packets);
   (lit "h3llo_transport_bytes", lit "Cumulative byte count.", outcome_entries bytes);
   (lit "h3llo_transport_batches", lit "Cumulative batch count (record() invocations for GSO/GRO tracking).", outcome_entries batches);
   (lit "h3llo_transport_drops", lit "Cumulative drop count by reason.", drop_entries packets);
   (lit "h3llo_transport_drop_bytes", lit "Cumulative drop bytes by reason.", drop_entries bytes);
   (lit "h3llo_transport_congestion", lit "Cumulative congestion event count.", congestion_entries);
   (lit "h3llo_transport_congestion_wait_milliseconds", lit "Cumulative congestion wait time in milliseconds.", wait_entries)].

Definition collector_encode (ms : list Metrics) : enc unit :=
  enc_each (fun f : rstr * rstr * (Metrics -> list (LabelSet * CounterValue)) => encode_family ms f.1.1 f.1.2 f.2) families.

Definition OPENMETRICS_EOF : rstr := lit "# EOF" ++ [10].

(** The end-of-file handling: [text] is the encoded registry, [quic_text] the text of the
    QUIC metrics. *)
Definition join_metrics_text (text quic_text : rstr) : rstr :=
  if decide (quic_text = []) then text else
  let text := default text (strip_suffix OPENMETRICS_EOF text) in
  let quic_text := default quic_text (strip_suffix OPENMETRICS_EOF quic_text) in
  text ++ quic_text ++ OPENMETRICS_EOF.

(** [encode_metrics_snapshot]; [render] is the text prometheus-client writes for the
    calls, with its end-of-file marker. *)
Definition encode_metrics_snapshot (render : list EncCall -> rstr) (collected : result rstr rstr) (ms : list Metrics) : outcome rstr :=
  match collector_encode ms [] with
  | (Err _, _) => Panic
  | (Ok _, calls) => Ret (join_metrics_text (render calls) (collect_quic_metrics collected).1)
  end.
End collector.

(** ** Lemmas *)

(** The samples of a sequence of calls: the family, the labels and the value. *)
Fixpoint samples (name : rstr) (calls : list EncCall) : list (rstr * (LabelSet * CounterValue)) :=
  match calls with
  | [] => []
  | EncDescriptor name _ :: calls => samples name calls
  | EncLabels labels :: EncValue v :: calls => (name, (labels, v)) :: samples name calls
  | _ :: calls => samples name calls
  end.

(** Values the labels distinguish. *)
Definition labels_wf (l : Labels) : Prop :=
  lab_peer_id l <> Some [] /\ match lab_remote_addr l with Some a => addr_wf a | None => True end.

Lemma display_socket_addr_nonempty a : display_socket_addr a <> [].
Proof. unfold display_socket_addr. destruct (sa_ip a); cbn; [| done]. intros H. by apply app_eq_nil in H as [_ H]. Qed.

#[export] Instance source_label_inj : Inj (=) (=) source_label.
Proof. intros [] []; vm_compute; congruence. Qed.

#[export] Instance direction_label_inj : Inj (=) (=) direction_label.
Proof. intros [] []; vm_compute; congruence. Qed.

#[export] Instance drop_reason_label_inj : Inj (=) (=) drop_reason_label.
Proof. intros [] []; vm_compute; congruence. Qed.

Lemma label_set_inj field field' m m' v v' :
  labels_wf (m_labels m) -> labels_wf (m_labels m') ->
  label_set field m v = label_set field' m' v' -> m_labels m = m_labels m'.
Proof.
  intros [Hp Ha] [Hp' Ha'] Heq. unfold label_set in Heq. injection Heq as H1 H2 H3 H4 _ _.
  apply (inj source_label) in H1. apply (inj direction_label) in H2.
  destruct (m_labels m) as [s d p a], (m_labels m') as [s' d' p' a']; cbn [lab_source lab_direction lab_peer_id lab_remote_addr] in *.
  assert (p = p') as -> by (destruct p, p'; cbn in H3; congruence).
  assert (a = a') as ->; [| congruence]. destruct a as [a |], a' as [a' |]; cbn in H4; try done.
  - f_equal. by apply display_socket_addr_inj.
  - by apply display_socket_addr_nonempty in H4.
  - symmetry in H4. by apply display_socket_addr_nonempty in H4.
Qed.

Lemma list_bind_assoc {A B C} (l : list A) (f : A -> list B) (g : B -> list C) : (l ≫= f) ≫= g = l ≫= fun x => f x ≫= g.
Proof. induction l as [| x l IH]; [done |]. cbn [mbind list_bind]. change (foldr _ _ _) with (l ≫= f). by rewrite bind_app, IH. Qed.

Lemma list_fmap_of_bind {A B C} (l : list A) (f : A -> list B) (g : B -> C) : g <$> (l ≫= f) = l ≫= fun x => g <$> f x.
Proof. induction l as [| x l IH]; [done |]. cbn [mbind list_bind]. change (foldr _ _ _) with (l ≫= f). by rewrite fmap_app, IH. Qed.

Section facts.
Context (prom : list EncCall -> EncCall -> result unit FmtError).
Context (Hprom : forall t c, prom t c = Ok tt).

Lemma enc_each_ok {A} (f : A -> enc unit) (g : A -> list EncCall) l :
  (forall x t, f x t = (Ok tt, t ++ g x)) -> forall t, enc_each f l t = (Ok tt, t ++ (l ≫= g)).
Proof.
  intros Hf. induction l as [| x l IH]; intros t; cbn [enc_each mbind list_bind]; [by rewrite app_nil_r |].
  unfold mbind, enc_bind. by rewrite Hf, IH, <- app_assoc.
Qed.

Lemma enc_call_ok c t : enc_call prom c t = (Ok tt, t ++ [c]).
Proof. unfold enc_call. by rewrite Hprom. Qed.

(** The calls of a family. *)
Definition family_calls (ms : list Metrics) (f : rstr * rstr * (Metrics -> list (LabelSet * CounterValue))) : list EncCall :=
  EncDescriptor f.1.1 f.1.2 :: (ms ≫= fun m => f.2 m ≫= fun lv => [EncLabels lv.1; EncValue lv.2]).

Lemma collector_encode_ok ms : collector_encode prom ms [] = (Ok tt, families ≫= family_calls ms).
Proof.
  unfold collector_encode. rewrite (enc_each_ok _ (family_calls ms)); [done |]. intros [[name help] f] t.
  unfold encode_family, mbind, enc_bind. rewrite enc_call_ok. cbn [fst snd].
  rewrite (enc_each_ok _ (fun m => f m ≫= fun lv => [EncLabels lv.1; EncValue lv.2])).
  - by rewrite <- app_assoc.
  - intros m t'. apply enc_each_ok. intros lv t2. unfold mbind, enc_bind. by rewrite !enc_call_ok, <- app_assoc.
Qed.

Lemma samples_entries name (es : list (LabelSet * CounterValue)) calls :
  samples name ((es ≫= fun lv => [EncLabels lv.1; EncValue lv.2]) ++ calls) = (pair name <$> es) ++ samples name calls.
Proof. induction es as [| [l v] es IH]; [done |]. cbn. by rewrite IH. Qed.

(** The samples of the collector. *)
Lemma samples_families ms fs name :
  samples name (fs ≫= family_calls ms) = fs ≫= fun f => pair f.1.1 <$> (ms ≫= f.2).
Proof.
  revert name. induction fs as [| [[n h] f] fs IH]; intros name; [done |]. cbn [mbind list_bind]. unfold family_calls at 1. cbn [fst snd app samples].
  rewrite <- (IH n), <- samples_entries. f_equal. f_equal. by rewrite list_bind_assoc.
Qed.
End facts.

(** ** No series twice *)

(** The entries of a family tell the metrics they are for, and are distinct for one of
    them. *)
Definition family_ok (f : Metrics -> list (LabelSet * CounterValue)) : Prop :=
  (forall m lv, lv ∈ f m -> exists field v, lv.1 = label_set field m v) /\
  (forall m, NoDup (f m).*1).

Lemma label_set_value field m v v' : label_set field m v = label_set field m v' -> v = v'.
Proof. intros H. unfold label_set in H. by injection H. Qed.

Lemma two_entries_ok field (v v' : rstr) (c c' : Metrics -> CounterValue) :
  v <> v' -> family_ok (fun m => [(label_set field m v, c m); (label_set field m v', c' m)]).
Proof.
  intros Hv. split.
  - intros m lv [-> | [-> | []%elem_of_nil]%elem_of_cons]%elem_of_cons; by eexists _, _.
  - intros m. cbn [fmap list_fmap fst]. repeat constructor; [| set_solver]. intros H%list_elem_of_singleton.
    by apply label_set_value in H.
Qed.

Lemma drop_entries_ok field : family_ok (drop_entries field).
Proof.
  split.
  - intros m lv (r & _ & Hr)%list_elem_of_omap. cbv beta zeta in Hr. case_decide; [| done]. injection Hr as <-. by eexists _, _.
  - intros m. unfold drop_entries. pose proof drop_reason_values_NoDup as Hnd.
    induction Hnd as [| r l Hr Hnd IH]; [constructor |]. cbn [omap list_omap]. case_decide; [| exact IH]. cbn [fmap list_fmap fst].
    constructor; [| exact IH]. intros (lv & Heq & (r' & Hin & Hr')%list_elem_of_omap)%list_elem_of_fmap.
    cbv beta zeta in Hr'. case_decide; [| done]. injection Hr' as <-. cbn in Heq. apply label_set_value, (inj drop_reason_label) in Heq. congruence.
Qed.

Lemma families_ok : Forall (fun f => family_ok f.2) families.
Proof.
  assert (Ho : forall f, family_ok (outcome_entries f)) by (intros f; by apply (two_entries_ok (lit "outcome") (lit "succeeded") (lit "dropped"))).
  assert (Hc : family_ok congestion_entries /\ family_ok wait_entries)
    by (split; by apply (two_entries_ok (lit "event") (lit "queue_full") (lit "would_block"))).
  unfold families. repeat (apply Forall_cons_2; [first [apply drop_entries_ok | apply Ho | apply Hc] |]). apply Forall_nil_2.
Qed.

Lemma families_names : NoDup (fst <$> (fst <$> families)).
Proof. apply (bool_decide_unpack _). by vm_compute. Qed.

Lemma family_series f ms :
  family_ok f -> Forall (fun m => labels_wf (m_labels m)) ms -> NoDup (m_labels <$> ms) -> NoDup (ms ≫= fun m => (f m).*1).
Proof.
  intros [H1 H2] Hwf Hnd. rewrite Forall_forall in Hwf. apply NoDup_bind; [| intros m _; apply H2 | by eapply NoDup_fmap_1].
  intros m m' l Hm Hm' (lv & -> & Hlv)%list_elem_of_fmap (lv' & Heq & Hlv')%list_elem_of_fmap.
  destruct (H1 _ _ Hlv) as (fd & v & E), (H1 _ _ Hlv') as (fd' & v' & E'). rewrite E, E' in Heq.
  apply label_set_inj in Heq; [| by apply Hwf ..]. by apply (NoDup_fmap_elem m_labels ms).
Qed.

(** The series of the samples. *)
Definition series (s : rstr * (LabelSet * CounterValue)) : rstr * LabelSet := (s.1, s.2.1).

Lemma families_series ms :
  Forall (fun m => labels_wf (m_labels m)) ms -> NoDup (m_labels <$> ms) ->
  NoDup (series <$> (families ≫= fun f => pair f.1.1 <$> (ms ≫= f.2))).
Proof.
  intros Hwf Hnd. pose proof families_names as Hn. pose proof families_ok as Hok.
  rewrite list_fmap_of_bind. apply NoDup_bind.
  - intros f f' y Hf Hf' (s & -> & (lv & -> & _)%list_elem_of_fmap)%list_elem_of_fmap (s' & Heq & (lv' & -> & _)%list_elem_of_fmap)%list_elem_of_fmap.
    injection Heq as Heq _. apply (NoDup_fmap_elem (fun f => f.1.1) families); [| done ..]. by rewrite <- list_fmap_compose in Hn.
  - intros f Hf. rewrite Forall_forall in Hok. specialize (Hok f Hf).
    replace (series <$> (pair f.1.1 <$> (ms ≫= f.2))) with (pair f.1.1 <$> (ms ≫= fun m => (f.2 m).*1)).
    + apply NoDup_fmap_2; [apply _ |]. by apply family_series.
    + rewrite <- list_fmap_compose, !list_fmap_of_bind. apply list_bind_ext; [| done]. intros m. by rewrite <- list_fmap_compose.
  - by eapply NoDup_fmap_1, NoDup_fmap_1.
Qed.

(** ** The orchestrator's snapshot *)

Section snapshot.
Context {L : IpNetLib} {T : TrieLib L}.
Implicit Types (o : Orchestrator).

(** Metrics are stored under their labels. *)
Definition keyed (ms : gmap Labels Metrics) : Prop := map_Forall (fun l m => m_labels m = l) ms.

Lemma keyed_insert ms m : keyed ms -> keyed (<[m_labels m := m]> ms).
Proof. intros H. by apply map_Forall_insert_2. Qed.

Lemma collect_keyed o : keyed (non_peer_metrics o) -> keyed (collect_metrics_snapshot o).
Proof.
  unfold collect_metrics_snapshot. generalize (map_to_list (peers o) ≫= fun ie => bounds ie.2 ≫= bound_metrics).
  intros l. generalize (non_peer_metrics o). induction l as [| m l IH]; intros ms Hk; [done |]. cbn [foldl]. by apply IH, keyed_insert.
Qed.

#[local] Arguments reconcile : simpl never.
#[local] Arguments handle_dns_snapshot : simpl never.
#[local] Arguments handle_metrics : simpl never.
#[local] Arguments handle_connected : simpl never.

Lemma reconcile_metrics now closed o : non_peer_metrics (reconcile now closed o).1 = non_peer_metrics o.
Proof.
  unfold reconcile. pose proof (eq_refl : non_peer_metrics (refresh_peers now closed o).1.1 = non_peer_metrics o) as H.
  by destruct (refresh_peers now closed o) as [[]].
Qed.

(** Only metrics events change the metrics that belong to no peer. *)
Lemma run_step_keyed now closed i o o' outs :
  run_step now closed i o = Ret (Continue o' outs) -> keyed (non_peer_metrics o) -> keyed (non_peer_metrics o').
Proof.
  intros Hr Hk. pose proof (reconcile_metrics now closed o) as Hrec.
  destruct i as [[m |] | | | [] |]; cbn in Hr; simplify_eq; try done.
  2: { destruct (reconcile now closed o). simplify_eq/=. by rewrite Hrec. }
  destruct m as [| exit | m | ev | ev | ev | tx | ps tx | ids tx | tx | | | | |]; cbn in Hr; simplify_eq; try done.
  - unfold handle_actor_exit in Hr. destruct (exit_policy exit); cbn in Hr; simplify_eq; [| done].
    destruct (reconcile now closed o). simplify_eq/=. by rewrite Hrec.
  - unfold handle_metrics. destruct (lab_peer_id (m_labels m)) as [pid |], (lab_remote_addr (m_labels m)) as [addr |];
      cbn; try by apply keyed_insert. by destruct (peers o !! pid).
  - unfold handle_connected, update_bound in Hr. destruct (peers o !! conn_peer_id ev) as [e |]; [| by simplify_eq/=].
    cbn -[prune] in Hr. destruct (prune _ _) as [e' ch]. by simplify_eq/=.
  - unfold handle_dial_failed. destruct (peers o !! failed_peer_id ev) as [e |]; [| done]. by destruct (dials e !! failed_ip ev).
  - unfold handle_dns_snapshot in Hr. cbv zeta in Hr. set (o1 := with_peers o _) in Hr.
    pose proof (eq_refl : non_peer_metrics (refresh_peers now closed o1).1.1 = non_peer_metrics o) as H.
    destruct (refresh_peers now closed o1) as [[o2 ch] outs1]. simplify_eq/=. by rewrite H.
  - unfold handle_post_config in Hr. destruct (validate_peers _); by simplify_eq/=.
Qed.

Lemma orch_reach_keyed c o d : orch_reach c o d -> keyed (non_peer_metrics o).
Proof.
  induction 1 as [route_ok tun_tx o outs Hn | o d now closed i o' outs _ IH Hs]; [| by eapply run_step_keyed].
  unfold orch_new in Hn. injection Hn as <- <-. apply map_Forall_empty.
Qed.

(** The labels of a snapshot's values are distinct. *)
Lemma snapshot_labels (snapshot : gmap Labels Metrics) ms :
  keyed snapshot -> ms ≡ₚ (map_to_list snapshot).*2 -> NoDup (m_labels <$> ms).
Proof.
  intros Hk ->. replace (m_labels <$> (map_to_list snapshot).*2) with (map_to_list snapshot).*1; [apply NoDup_fst_map_to_list |].
  rewrite <- list_fmap_compose. apply list_fmap_ext. intros i [l m] Hi. cbn. symmetry. apply (Hk l m).
  by apply elem_of_map_to_list, (list_elem_of_lookup_2 _ i).
Qed.
End snapshot.

(** ** What a scrape must contain *)

Definition exported_labels (l : Labels) (field value : rstr) : LabelSet :=
  [(lit "source", match lab_source l with
                  | Tun => lit "tun" | BareUdp => lit "bare_udp" | Http3 => lit "http3" | Router => lit "router"
                  end);
   (lit "direction", match lab_direction l with Rx => lit "rx" | Tx => lit "tx" end);
   (lit "peer_id", match lab_peer_id l with Some id => id | None => [] end);
   (lit "remote_addr", match lab_remote_addr l with Some a => display_socket_addr a | None => [] end);
   (field, value)].

Definition reason_text (r : DropReason) : rstr :=
  match r with
  | Oversize => lit "oversize" | DisallowedSource => lit "disallowed_source" | SendErr => lit "send_error"
  | QuicError => lit "quic_error" | ChannelClosed => lit "channel_closed"
  | InvalidIpVersion => lit "invalid_ip_version" | InvalidFraming => lit "invalid_framing" | NoRoute => lit "no_route"
  | NoPeerChannel => lit "no_peer_channel" | NoHeadroom => lit "no_headroom" | QueueFull => lit "queue_full"
  | TtlExpired => lit "ttl_expired"
  end.

(** The three families of totals and the two by drop reason, with the counter each shows. *)
Definition total_family (name : rstr) (count : PktCounters -> Z) : Prop :=
  name = lit "h3llo_transport_packets" /\ count = packets \/
  name = lit "h3llo_transport_bytes" /\ count = bytes \/
  name = lit "h3llo_transport_batches" /\ count = batches.

Definition reason_family (name : rstr) (count : PktCounters -> Z) : Prop :=
  name = lit "h3llo_transport_drops" /\ count = packets \/
  name = lit "h3llo_transport_drop_bytes" /\ count = bytes.

(** The samples of a metric: of each total what succeeded and what was dropped, the
    drops of each reason that has any, and both kinds of waits, how many and how long. *)
Inductive exported (m : Metrics) : rstr -> LabelSet -> CounterValue -> Prop :=
| exported_succeeded name count :
    total_family name count ->
    exported m name (exported_labels (m_labels m) (lit "outcome") (lit "succeeded")) (CountU64 (count (succeeded (m_stats m))))
| exported_dropped name count :
    total_family name count ->
    exported m name (exported_labels (m_labels m) (lit "outcome") (lit "dropped")) (CountU64 (count (dropped (m_stats m))))
| exported_reason name count r :
    reason_family name count -> 0 < count (drop_reasons (m_stats m) r) ->
    exported m name (exported_labels (m_labels m) (lit "reason") (reason_text r)) (CountU64 (count (drop_reasons (m_stats m) r)))
| exported_queue_full :
    exported m (lit "h3llo_transport_congestion") (exported_labels (m_labels m) (lit "event") (lit "queue_full"))
      (CountU64 (queue_full_count (congestion (m_stats m))))
| exported_would_block :
    exported m (lit "h3llo_transport_congestion") (exported_labels (m_labels m) (lit "event") (lit "would_block"))
      (CountU64 (would_block_count (congestion (m_stats m))))
| exported_queue_full_wait :
    exported m (lit "h3llo_transport_congestion_wait_milliseconds") (exported_labels (m_labels m) (lit "event") (lit "queue_full"))
      (CountF64 (wait_millis (queue_full_duration (congestion (m_stats m)))))
| exported_would_block_wait :
    exported m (lit "h3llo_transport_congestion_wait_milliseconds") (exported_labels (m_labels m) (lit "event") (lit "would_block"))
      (CountF64 (wait_millis (would_block_duration (congestion (m_stats m))))).

Lemma label_set_exported field m v : label_set field m v = exported_labels (m_labels m) field v.
Proof. unfold label_set, exported_labels. destruct (m_labels m) as [[] [] [] []]; done. Qed.

Lemma drop_reason_label_text r : drop_reason_label r = reason_text r.
Proof. by destruct r. Qed.

Lemma elem_of_outcome_entries name count m labels v :
  total_family name count -> (labels, v) ∈ outcome_entries count m -> exported m name labels v.
Proof.
  intros Hf. unfold outcome_entries, PacketLabelSet. rewrite !label_set_exported.
  intros [[= -> ->] | [[= -> ->] | []%elem_of_nil]%elem_of_cons]%elem_of_cons; by constructor.
Qed.

Lemma elem_of_drop_entries name count m labels v :
  reason_family name count -> (labels, v) ∈ drop_entries count m -> exported m name labels v.
Proof.
  intros Hf (r & _ & Hr)%list_elem_of_omap. cbv zeta in Hr. case_decide; [| done]. injection Hr as <- <-.
  unfold DropLabelSet. rewrite label_set_exported, drop_reason_label_text. by constructor.
Qed.

Lemma drop_entries_elem count m r :
  0 < count (drop_reasons (m_stats m) r) ->
  (exported_labels (m_labels m) (lit "reason") (reason_text r), CountU64 (count (drop_reasons (m_stats m) r))) ∈ drop_entries count m.
Proof.
  intros Hr. apply list_elem_of_omap. exists r. split; [apply elem_of_drop_reason_values |]. cbv zeta.
  rewrite decide_True by done. unfold DropLabelSet. by rewrite label_set_exported, drop_reason_label_text.
Qed.

(** The families hold exactly these samples. *)
Lemma families_exported m name labels v :
  (exists f, f ∈ families /\ f.1.1 = name /\ (labels, v) ∈ f.2 m) <-> exported m name labels v.
Proof.
  split.
  - intros ([[n h] f] & Hf & <- & Hv). cbn [fst snd] in Hv |- *. unfold families in Hf.
    repeat (apply elem_of_cons in Hf as [[= -> -> ->] | Hf];
      [first [eapply elem_of_outcome_entries; [| exact Hv]; unfold total_family; tauto
             | eapply elem_of_drop_entries; [| exact Hv]; unfold reason_family; tauto
             | unfold congestion_entries, wait_entries, CongestionLabelSet in Hv; rewrite !label_set_exported in Hv;
               apply elem_of_cons in Hv as [[= -> ->] | [[= -> ->] | []%elem_of_nil]%elem_of_cons]; constructor] |]).
    by apply elem_of_nil in Hf.
  - assert (Hin : forall k f, families !! k = Some f -> (labels, v) ∈ f.2 m -> f.1.1 = name ->
      exists f, f ∈ families /\ f.1.1 = name /\ (labels, v) ∈ f.2 m).
    { intros k f Hk Hv Hn. exists f. split; [by eapply list_elem_of_lookup_2 |]. done. }
    intros H. destruct H as [n count Hn | n count Hn | n count r Hn Hr | | | |].
    1, 2: destruct Hn as [[-> ->] | [[-> ->] | [-> ->]]];
      [eapply (Hin 0%nat) | eapply (Hin 1%nat) | eapply (Hin 2%nat)]; try done; cbn [snd];
      unfold outcome_entries, PacketLabelSet; rewrite !label_set_exported; set_solver.
    1: destruct Hn as [[-> ->] | [-> ->]]; [eapply (Hin 3%nat) | eapply (Hin 4%nat)]; try done; by apply drop_entries_elem.
    1, 2: eapply (Hin 5%nat); try done; cbn [snd]; unfold congestion_entries, CongestionLabelSet; rewrite !label_set_exported; set_solver.
    1, 2: eapply (Hin 6%nat); try done; cbn [snd]; unfold wait_entries, CongestionLabelSet; rewrite !label_set_exported; set_solver.
Qed.

Lemma elem_of_samples ms name labels v :
  (name, (labels, v)) ∈ (families ≫= fun f => pair f.1.1 <$> (ms ≫= f.2)) <-> exists m, m ∈ ms /\ exported m name labels v.
Proof.
  rewrite list_elem_of_bind. setoid_rewrite <- families_exported. split.
  - intros (f & Hv & Hf). apply list_elem_of_fmap in Hv as (lv & [= -> <-] & Hv).
    apply list_elem_of_bind in Hv as (m & Hv & Hm). exists m. split; [done |]. by exists f.
  - intros (m & Hm & f & Hf & <- & Hv). exists f. split; [| done]. apply list_elem_of_fmap. exists (labels, v). split; [done |].
    apply list_elem_of_bind. by exists m.
Qed.

(** One end-of-file marker is left, at the end. *)
Lemma join_metrics_text_eof body quic :
  exists q, join_metrics_text (body ++ OPENMETRICS_EOF) quic = body ++ q ++ OPENMETRICS_EOF /\
    (forall q', quic = q' ++ OPENMETRICS_EOF -> q = q').
Proof.
  unfold join_metrics_text. case_decide as Hq.
  - exists []. split; [done |]. intros q' He. rewrite Hq in He. symmetry in He. by apply app_eq_nil in He as [_ He].
  - rewrite strip_suffix_app. eexists. split; [done |]. intros q' ->. by rewrite strip_suffix_app.
Qed.

(** ** Properties *)

(** C36: a scrape is complete and never repeats a series.  In every state the orchestrator
    can reach in which the snapshot's peer ids are not empty and its addresses are in
    range, and while the encoder accepts its input, the samples of the collector are
    exactly those the metrics of the snapshot have by [exported], which lists for every
    counter its family, labels and value; no two samples of the whole scrape have the
    same name and labels; and if the rendered text ends with an end-of-file marker, the
    text that is returned, also with the QUIC metrics appended, ends with the only
    marker the two contribute. *)
Theorem scrape_series_unique {L : IpNetLib} {T : TrieLib L} c o d ms prom render collected :
  orch_reach c o d -> ms ≡ₚ (map_to_list (collect_metrics_snapshot o)).*2 ->
  Forall (fun m => labels_wf (m_labels m)) ms -> (forall t call, prom t call = Ok tt) ->
  (forall calls, exists body, render calls = body ++ OPENMETRICS_EOF) ->
  exists calls, collector_encode prom ms [] = (Ok tt, calls) /\
    (forall name labels v, (name, (labels, v)) ∈ samples [] calls <-> exists m, m ∈ ms /\ exported m name labels v) /\
    NoDup (series <$> samples [] calls) /\
    exists body q, render calls = body ++ OPENMETRICS_EOF /\
      encode_metrics_snapshot prom render collected ms = Ret (body ++ q ++ OPENMETRICS_EOF) /\
      forall q', (collect_quic_metrics collected).1 = q' ++ OPENMETRICS_EOF -> q = q'.
Proof.
  intros Hr Hms Hwf Hp Hren. pose proof (collector_encode_ok prom Hp ms) as He. eexists. split; [exact He |].
  pose proof (snapshot_labels _ ms (collect_keyed o (orch_reach_keyed c o d Hr)) Hms) as Hnd.
  rewrite samples_families. split; [apply elem_of_samples |]. split; [by apply families_series |].
  destruct (Hren (families ≫= family_calls ms)) as [body Hb].
  destruct (join_metrics_text_eof body (collect_quic_metrics collected).1) as (q & Hq & Hq').
  exists body, q. split; [done |]. unfold encode_metrics_snapshot. rewrite He, Hb, Hq. done.
Qed.

(** ** Witness: a scrape after the TUN reader reported *)

Definition tun_metrics : Metrics :=
  snapshot (record_drop (record_success (counters_new Tun Rx) 3 300) Oversize 1 1600) None None.

Definition scraped_orch : @Orchestrator CidrNet.lib := handle_metrics tun_metrics sample_orch.

Lemma scrape_series_unique_witness :
  exists calls, collector_encode (fun _ _ => Ok tt) [tun_metrics] [] = (Ok tt, calls) /\ NoDup (series <$> samples [] calls) /\
    (lit "h3llo_transport_drops", (DropLabelSet tun_metrics Oversize, CountU64 1)) ∈ samples [] calls.
Proof.
  assert (Hr : exists d, orch_reach (T := MapTrie.lib) sample_config scraped_orch d).
  { eexists. apply (orch_next sample_config sample_orch (foldl apply_out downstream_new (orch_new sample_config false 0%nat).2)
      0 (fun _ => false) (InMessage (Some (MetricsEvent tun_metrics))) scraped_orch []); [by apply (orch_start _ false 0%nat) | reflexivity]. }
  destruct Hr as [d Hr].
  destruct (scrape_series_unique sample_config scraped_orch d [tun_metrics] (fun _ _ => Ok tt) (fun _ => OPENMETRICS_EOF) (Ok []) Hr)
    as (calls & He & Hs & Hnd & _).
  - reflexivity.
  - repeat constructor; cbn; congruence.
  - done.
  - intros calls. by exists [].
  - exists calls. split; [exact He |]. split; [exact Hnd |]. apply Hs. exists tun_metrics.
    split; [by left |]. apply (exported_reason tun_metrics _ packets Oversize); [by left |]. reflexivity.
Defined.

(** A wait of one and a half seconds is 1500 milliseconds. *)
Lemma wait_millis_example : SFeqb (wait_millis (from_millis 1500)) (f64_of 1500) = true.
Proof. by vm_compute. Qed.
