(* ===== verification/Fixture.v ===== *)
(** * The tokio-quiche interop fixture: handshakes

    Models the handshakes of [src/src/test_support/tokio_quiche_h3.rs], the second
    implementation of HTTP/3 CONNECT-IP that the interoperability tests run against
    the production stack: its settings, header checks and responses, the listener, the
    server's handshake [handle_h3_connection] and the dialer [dial_h3], and proves that
    each end of the fixture completes the handshake with the other end of the
    production stack.

    tokio-quiche is a library.  A handshake is a function of the events its driver
    delivers and of how their stream ends; the frames, commands and connections the
    fixture sends are returned as the trace of the calls with their answers, and what
    the library answers to a call is a function of the trace so far.  A send that does
    not complete before the handshake's deadline is [Stalled]: the timeout then drops
    the handshake. *)

From S2P Require Import Prelude Net Config Channel Udp AddrText Utf8 Codec Auth Session Bind Handshake Dial.
#[local] Open Scope Z_scope.

(** ** Settings *)

(** The fields of [QuicSettings] the code sets. *)
Record QuicSettings : Type := {
  qs_enable_dgram : bool;
  qs_handshake_timeout : option Z;
  qs_max_idle_timeout : option Z;
  qs_max_send_udp_payload_size : Z;
  qs_max_recv_udp_payload_size : Z;
  qs_cc_algorithm : rstr;
  qs_enable_pacing : bool;
  qs_verify_peer : bool;
}.

(** [make_quic_settings]; [s] is the library's [QuicSettings::default()]. *)
Definition make_quic_settings (s : QuicSettings) (tuning : Tuning) (tun_mtu : Z) : QuicSettings :=
  let quic_udp_payload_size := tun_mtu + CONNECT_IP_OVERHEAD in
  {| qs_enable_dgram := true;
     qs_handshake_timeout := Some (h3_handshake_timeout (t_h3 tuning));
     qs_max_idle_timeout := Some (h3_max_idle_timeout (t_h3 tuning));
     qs_max_send_udp_payload_size := quic_udp_payload_size;
     qs_max_recv_udp_payload_size := quic_udp_payload_size;
     qs_cc_algorithm := h3_cc_algorithm (t_h3 tuning);
     qs_enable_pacing := h3_enable_pacing (t_h3 tuning);
     qs_verify_peer := qs_verify_peer s |}.

(** [quic_settings.verify_peer = true]. *)
Definition set_verify_peer (s : QuicSettings) : QuicSettings :=
  {| qs_enable_dgram := qs_enable_dgram s; qs_handshake_timeout := qs_handshake_timeout s;
     qs_max_idle_timeout := qs_max_idle_timeout s;
     qs_max_send_udp_payload_size := qs_max_send_udp_payload_size s;
     qs_max_recv_udp_payload_size := qs_max_recv_udp_payload_size s;
     qs_cc_algorithm := qs_cc_algorithm s; qs_enable_pacing := qs_enable_pacing s; qs_verify_peer := true |}.

(** ** Headers *)

(** [find_header_value]. *)
Definition find_header_value (headers : list Header) (name : string) : option (list Z) :=
  find_header (named_ci name) headers.

(** [extract_and_validate_auth]; [k] is the random key of the comparison. *)
Definition extract_and_validate_auth {H : HmacLib} (k : hmac_key) (headers : list Header) (tokens : gmap rstr rstr) :
    result rstr AuthError :=
  let auth_header := from_utf8_lossy <$> find_header (named_ci "authorization") headers in
  validate_connect_auth k auth_header (map_to_list tokens).

(** [is_success_status]. *)
Definition is_success_status (status : list Z) : bool :=
  bool_decide (length status = 3%nat) && bool_decide (head status = Some 50).

(** [validate_connect_ip_headers]. *)
Definition validate_connect_ip_headers (headers : list Header) : result unit rstr :=
  if decide (find_header_value headers ":method" <> Some (lit "CONNECT")) then
    Err (lit "invalid :method, expected CONNECT")
  else if decide (find_header_value headers ":protocol" <> Some (lit "connect-ip")) then
    Err (lit "invalid :protocol, expected connect-ip")
  else if decide (find_header_value headers "capsule-protocol" <> Some (lit "?1")) then
    Err (lit "invalid capsule-protocol, expected ?1")
  else Ok tt.

(** ** Calls into the library *)

Inductive OutboundFrame : Type :=
| FrameHeaders (headers : list Header)
| FrameTrailers (headers : list Header)
| FrameDatagram (data : list Z) (flow_id : Z).

Record ConnectionShutdownBehaviour : Type := {
  send_application_close : bool;
  error_code : Z;
  close_reason : list Z;
}.

(** [Custom] is the keepalive's [send_ack_eliciting], the only one the code sends. *)
Inductive QuicCommand : Type :=
| ConnectionClose (behaviour : ConnectionShutdownBehaviour)
| Custom.

(** [H3Connection]; [con_quic_cmd_send] is the driver's command channel. *)
Record H3Connection : Type := {
  con_peer_id : rstr;
  con_remote_addr : SocketAddr;
  con_datagram_tx : Sender;
  con_datagram_rx : Sender;
  con_flow_id : Z;
  con_quic_cmd_send : Sender;
}.

Inductive Reply : Type := Accepted | SinkClosed | Stalled.

Inductive FxOut : Type :=
| FxFrame (tx : Sender) (frame : OutboundFrame) (reply : Reply)
| FxCommand (cmd : QuicCommand)
| FxConnection (conn : H3Connection) (delivered : bool)
| FxConnect (server_name : rstr) (settings : QuicSettings) (max_capabilities : bool) (ok : bool)
| FxRequest (request_id : Z) (headers : list Header) (body_writer : bool) (ok : bool).

(** A part of a handshake on the trace so far: its result, [None] when the timeout
    dropped it. *)
Definition fx (A : Type) : Type := list FxOut -> option A * list FxOut.

#[export] Instance fx_ret : MRet fx := fun A a t => (Some a, t).
#[export] Instance fx_bind : MBind fx := fun A B k m t =>
  match m t with
  | (Some a, t) => k a t
  | (None, t) => (None, t)
  end.

(** A wait that the deadline ends. *)
Definition waiting {A} : fx A := fun t => (None, t).

Definition close_command : QuicCommand :=
  ConnectionClose {| send_application_close := false; error_code := 0; close_reason := [] |}.

(** [close_quic_connection]; the result of the send is ignored. *)
Definition close_quic_connection : fx unit := fun t => (Some tt, t ++ [FxCommand close_command]).

(** The two headers of a positive response. *)
Definition response_headers (status : list Z) : list Header :=
  if is_success_status status then [(lit ":status", status); (lit "capsule-protocol", lit "?1")]
  else [(lit ":status", status)].

Section server.
Context {H : HmacLib} (k : hmac_key) (tokens : gmap rstr rstr) (remote_addr : SocketAddr) (quic_cmd_tx : Sender).
(** What an [OutboundFrameSender] answers, and whether [connection_tx]'s receiver is
    still there. *)
Context (sink : list FxOut -> Sender -> OutboundFrame -> Reply) (receiver : list FxOut -> bool).

(** [sender.send(frame).await]. *)
Definition send_frame (tx : Sender) (frame : OutboundFrame) (failure : rstr) : fx (result unit rstr) := fun t =>
  let reply := sink t tx frame in
  let t := t ++ [FxFrame tx frame reply] in
  match reply with
  | Accepted => (Some (Ok tt), t)
  | SinkClosed => (Some (Err failure), t)
  | Stalled => (None, t)
  end.

(** [send_response_headers]. *)
Definition send_response_headers (sender : Sender) (status : list Z) : fx (result unit rstr) :=
  send_frame sender (FrameHeaders (response_headers status)) (lit "failed to send response headers").

(** [send_error_response_and_finish_stream]. *)
Definition send_error_response_and_finish_stream (sender : Sender) (status : list Z) : fx (result unit rstr) :=
  if is_success_status status then mret (Err (lit "status must be non-2xx for error response")) else
  r ← send_response_headers sender status;
  match r with
  | Err e => mret (Err e)
  | Ok _ => send_frame sender (FrameTrailers []) (lit "failed to finish error response stream")
  end.

Inductive ServerH3Event : Type :=
| SrvHeaders (headers : list Header) (send : Sender)
| SrvNewFlow (flow_id : Z) (send recv : Sender)
| SrvConnectionShutdown
| SrvConnectionError (e : rstr)
| SrvOther.

(** How the stream of events ends: the driver closes it, or nothing more comes before
    the deadline. *)
Inductive StreamEnd : Type := EventsClosed | EventsQuiet.

(** [pending_headers] and [pending_flow]. *)
Definition PendingHeaders : Type := option (rstr * Sender).
Definition PendingFlow : Type := option (Sender * Sender * Z).

(** An error response, and the close when it cannot be sent. *)
Definition reject (sender : Sender) (status : list Z) : fx unit :=
  r ← send_error_response_and_finish_stream sender status;
  match r with Ok _ => mret tt | Err _ => close_quic_connection end.

(** The [match] on one event: the pending parts afterwards, [None] when the handshake
    returns. *)
Definition handshake_event (ev : ServerH3Event) (ph : PendingHeaders) (pf : PendingFlow) :
    fx (option (PendingHeaders * PendingFlow)) :=
  match ev with
  | SrvHeaders headers send =>
      match ph with
      | Some _ => close_quic_connection ;; mret None
      | None =>
          match validate_connect_ip_headers headers with
          | Err _ => reject send (lit "400") ;; mret None
          | Ok _ =>
              match extract_and_validate_auth k headers tokens with
              | Ok peer_id => mret (Some (Some (peer_id, send), pf))
              | Err _ => reject send (lit "401") ;; mret None
              end
          end
      end
  | SrvNewFlow flow_id send recv =>
      match pf with
      | Some _ => close_quic_connection ;; mret None
      | None => mret (Some (ph, Some (send, recv, flow_id)))
      end
  | SrvConnectionShutdown | SrvConnectionError _ => mret None
  | SrvOther => mret (Some (ph, pf))
  end.

(** [connection_tx.send(conn)]. *)
Definition emit (conn : H3Connection) : fx bool := fun t =>
  let ok := receiver t in (Some ok, t ++ [FxConnection conn ok]).

(** Both parts are there. *)
Definition handshake_complete (headers : rstr * Sender) (flow : Sender * Sender * Z) : fx unit :=
  let '(peer_id, sender) := headers in
  let '(dgram_tx, dgram_rx, flow_id) := flow in
  r ← send_response_headers sender (lit "200");
  match r with
  | Err _ => close_quic_connection
  | Ok _ =>
      ok ← emit {| con_peer_id := peer_id; con_remote_addr := remote_addr; con_datagram_tx := dgram_tx;
                   con_datagram_rx := dgram_rx; con_flow_id := flow_id; con_quic_cmd_send := quic_cmd_tx |};
      if ok : bool then mret tt else close_quic_connection
  end.

(** The [handshake] future. *)
Fixpoint handshake (evs : list ServerH3Event) (fin : StreamEnd) (ph : PendingHeaders) (pf : PendingFlow) : fx unit :=
  match evs with
  | [] =>
      match fin with
      | EventsClosed => if decide (is_Some ph \/ is_Some pf) then close_quic_connection else mret tt
      | EventsQuiet => waiting
      end
  | ev :: evs =>
      next ← handshake_event ev ph pf;
      match next with
      | None => mret tt
      | Some (Some headers, Some flow) => handshake_complete headers flow
      | Some (ph, pf) => handshake evs fin ph pf
      end
  end.

(** [handle_h3_connection]: the calls it makes. *)
Definition handle_h3_connection (evs : list ServerH3Event) (fin : StreamEnd) : list FxOut :=
  match handshake evs fin None None [] with
  | (Some _, t) => t
  | (None, t) => (close_quic_connection t).2
  end.
End server.

(** ** The dialer *)

(** The fixture's [DialError]. *)
Inductive FixtureDialError : Type :=
| FxSocket (message : rstr)
| FxHandshake (message : rstr)
| FxRejected (status : Z)
| FxAuth (message : rstr)
| FxTimeout (after : Z).

(** The text of its [Display]. *)
Definition fixture_dial_error_display (e : FixtureDialError) : rstr :=
  match e with
  | FxSocket m => lit "socket failed: " ++ m
  | FxHandshake m => lit "handshake failed: " ++ m
  | FxRejected n => lit "connect-ip rejected: status " ++ dec n
  | FxAuth m => lit "auth failed: " ++ m
  | FxTimeout d => lit "dial timed out after " ++ debug_duration d
  end.

(** [str::parse::<u16>]: decimal digits after an optional plus sign, in range. *)
Fixpoint parse_digits (s : rstr) (acc : Z) : option Z :=
  match s with
  | [] => Some acc
  | c :: s =>
      if decide (48 <= c <= 57) then
        let acc := acc * 10 + (c - 48) in
        if decide (acc <= u16_max) then parse_digits s acc else None
      else None
  end.

Definition parse_u16 (s : rstr) : option Z :=
  let digits := default s (strip_prefix (lit "+") s) in
  if decide (digits = []) then None else parse_digits digits 0.

Inductive ClientH3Event : Type :=
| CliIncomingHeaders (headers : list Header)
| CliNewFlow (flow_id : Z) (send recv : Sender)
| CliConnectionError (e : rstr)
| CliConnectionShutdown
| CliOther.

(** The checks of the response headers. *)
Definition check_response (headers : list Header) : result unit FixtureDialError :=
  match find_header (named ":status") headers with
  | None => Err (FxHandshake (lit "missing status"))
  | Some s =>
      if decide (s = lit "401") then Err (FxAuth (lit "unauthorized"))
      else if is_success_status s then
        if decide (find_header_value headers "capsule-protocol" <> Some (lit "?1")) then
          Err (FxHandshake (lit "server response missing capsule-protocol: ?1"))
        else Ok tt
      else Err (FxRejected (default 0 (parse_u16 (from_utf8_lossy s))))
  end.

(** What follows the loop. *)
Definition client_finish (new_flow : PendingFlow) (status_validated : bool) :
    result (Sender * Sender * Z) FixtureDialError :=
  if status_validated then
    match new_flow with
    | Some flow => Ok flow
    | None => Err (FxHandshake (lit "no NewFlow event received"))
    end
  else Err (FxHandshake (lit "missing successful CONNECT-IP response status")).

(** The handshake future of [dial_h3]; [None]: still waiting at the deadline. *)
Fixpoint client_handshake (evs : list ClientH3Event) (fin : StreamEnd) (new_flow : PendingFlow)
    (status_validated : bool) : option (result (Sender * Sender * Z) FixtureDialError) :=
  match evs with
  | [] =>
      match fin with
      | EventsClosed => Some (client_finish new_flow status_validated)
      | EventsQuiet => None
      end
  | CliIncomingHeaders headers :: evs =>
      match check_response headers with
      | Err e => Some (Err e)
      | Ok _ =>
          match new_flow with
          | Some _ => Some (client_finish new_flow true)
          | None => client_handshake evs fin new_flow true
          end
      end
  | CliNewFlow flow_id send recv :: evs =>
      let new_flow := Some (send, recv, flow_id) in
      if status_validated then Some (client_finish new_flow status_validated)
      else client_handshake evs fin new_flow status_validated
  | CliConnectionError e :: _ => Some (Err (FxHandshake (lit "H3 error: " ++ e)))
  | CliConnectionShutdown :: _ => Some (Err (FxHandshake (lit "connection shutdown")))
  | CliOther :: evs => client_handshake evs fin new_flow status_validated
  end.

(** What the system and tokio-quiche answer during one dial. *)
Record FixtureEnv : Type := {
  fe_sys : list SockOp -> SockOp -> result unit IoError;
  fe_io_to_string : IoError -> rstr;
  fe_probe : IpAddr -> option rstr -> result (list rstr) RouteProbeError;
  fe_default : QuicSettings;
  fe_from_std : result unit rstr;
  fe_try_into : result unit rstr;
  fe_connect : rstr -> QuicSettings -> bool -> result unit rstr;
  fe_request : list Header -> result unit rstr;
  fe_events : list ClientH3Event;
  fe_end : StreamEnd;
  fe_cmd_tx : Sender;
}.

(** The request headers of [dial_h3]. *)
Definition dial_request (authority path auth_header : rstr) : list Header :=
  [(lit ":method", lit "CONNECT");
   (lit ":protocol", lit "connect-ip");
   (lit ":scheme", lit "https");
   (lit ":authority", as_bytes authority);
   (lit ":path", as_bytes path);
   (lit "capsule-protocol", lit "?1");
   (lit "authorization", as_bytes auth_header)].

(** [dial_h3]: the result and the calls made. *)
Definition dial_h3 {I : IfNames} (peer_h3 : PeerH3) (remote_addr : SocketAddr) (peer_id : rstr) (tun_if : option rstr)
    (tun_mtu : Z) (tuning : Tuning) (env : FixtureEnv) : result H3Connection FixtureDialError * list FxOut :=
  match ph3_endpoint peer_h3 with
  | None => (Err (FxSocket (lit "peer_h3.endpoint is None")), [])
  | Some endpoint =>
  let server_name := default (h3_host endpoint) (ph3_sni peer_h3) in
  let authority := if decide (h3_port endpoint = 443) then h3_host endpoint
                   else h3_host endpoint ++ lit ":" ++ dec (h3_port endpoint) in
  let path := h3_path endpoint in
  match make_client_udp_socket (fe_sys env) (fe_io_to_string env) remote_addr tun_if (ph3_bindif peer_h3)
          (fe_probe env) (socket_buffer_bytes (t_io tuning)) with
  | (Err e, _) => (Err (FxSocket (display_udp_error e)), [])
  | (Ok _, _) =>
  let quic_settings := make_quic_settings (fe_default env) tuning tun_mtu in
  let quic_settings := if h3_insecure_skip_verify (t_h3 tuning) then quic_settings
                       else set_verify_peer quic_settings in
  match fe_from_std env with
  | Err e => (Err (FxSocket (lit "from_std: " ++ e)), [])
  | Ok _ =>
  match fe_try_into env with
  | Err e => (Err (FxSocket e), [])
  | Ok _ =>
  let caps := udp_enable_offload (t_io tuning) in
  let connected := fe_connect env server_name quic_settings caps in
  let t := [FxConnect server_name quic_settings caps (is_ok connected)] in
  match connected with
  | Err e => (Err (FxHandshake (lit "QUIC connect failed: " ++ e)), t)
  | Ok _ =>
  let headers := dial_request authority path (bearer_auth_header (ph3_token peer_h3)) in
  let requested := fe_request env headers in
  let t := t ++ [FxRequest 0 headers true (is_ok requested)] in
  match requested with
  | Err e => (Err (FxHandshake (lit "send CONNECT failed: " ++ e)), (close_quic_connection t).2)
  | Ok _ =>
  match client_handshake (fe_events env) (fe_end env) None false with
  | None => (Err (FxTimeout (h3_handshake_timeout (t_h3 tuning))), (close_quic_connection t).2)
  | Some (Err e) => (Err e, (close_quic_connection t).2)
  | Some (Ok (datagram_tx, datagram_rx, flow_id)) =>
      (Ok {| con_peer_id := peer_id; con_remote_addr := remote_addr; con_datagram_tx := datagram_tx;
             con_datagram_rx := datagram_rx; con_flow_id := flow_id; con_quic_cmd_send := fe_cmd_tx env |}, t)
  end end end end end end end.

(** ** The listener *)

(** The fixture's [ListenerError] and its [Display]. *)
Inductive ListenerError : Type :=
| ListenBind (message : rstr)
| ListenTls (message : rstr).

Definition listener_error_display (e : ListenerError) : rstr :=
  match e with
  | ListenBind m => lit "bind failed: " ++ m
  | ListenTls m => lit "tls failed: " ++ m
  end.

(** [H3Listener] without the socket. *)
Record FixtureListener : Type := {
  lst_bound_addr : SocketAddr;
  lst_cert_path : rstr;
  lst_key_path : rstr;
}.

(** [make_h3_listener]; the paths are the results of [Path::to_str]. *)
Definition make_h3_listener {I : IfNames} (sys : list SockOp -> SockOp -> result unit IoError) (io_to_string : IoError -> rstr)
    (local_addr : result SocketAddr rstr) (listen_addr : SocketAddr) (cert_path key_path : option rstr)
    (socket_buffer_bytes : Z) : result FixtureListener ListenerError :=
  match make_server_udp_socket sys io_to_string listen_addr socket_buffer_bytes with
  | (Err e, _) => Err (ListenBind (display_udp_error e))
  | (Ok _, _) =>
  match local_addr with
  | Err e => Err (ListenBind (lit "failed to get local addr: " ++ e))
  | Ok bound_addr =>
  match cert_path with
  | None => Err (ListenTls (lit "invalid cert path encoding"))
  | Some cert_str =>
  match key_path with
  | None => Err (ListenTls (lit "invalid key path encoding"))
  | Some key_str => Ok {| lst_bound_addr := bound_addr; lst_cert_path := cert_str; lst_key_path := key_str |}
  end end end end.

(** What the listener's loop receives: a command or the end of the commands, and an
    accepted connection's remote address, a failed accept or the end of the stream. *)
Inductive ListenerInput : Type :=
| LstCommand (update : option (gmap rstr rstr))
| LstAccept (result : option (result SocketAddr rstr)).

(** A task that runs [handle_h3_connection]. *)
Record HandshakeTask : Type := { task_remote_addr : SocketAddr; task_tokens : gmap rstr rstr }.

(** The loop of [spawn_h3_listener]: the tasks it spawns, and whether it returned. *)
Fixpoint listener_loop (inputs : list ListenerInput) (peer_tokens : gmap rstr rstr) (tasks : list HandshakeTask) :
    list HandshakeTask * bool :=
  match inputs with
  | [] => (tasks, false)
  | LstCommand (Some update) :: inputs => listener_loop inputs update tasks
  | LstCommand None :: _ | LstAccept None :: _ => (tasks, true)
  | LstAccept (Some (Err _)) :: inputs => listener_loop inputs peer_tokens tasks
  | LstAccept (Some (Ok remote)) :: inputs =>
      listener_loop inputs peer_tokens (tasks ++ [{| task_remote_addr := remote; task_tokens := peer_tokens |}])
  end.

(** [spawn_h3_listener] on the inputs of its loop; [into_listener] and [listen] are the
    results of [try_into] and of [listen_with_capabilities] for the settings, the
    certificate and key paths and the capabilities: the number of streams. *)
Definition spawn_h3_listener (into_listener : result unit rstr)
    (listen : QuicSettings -> rstr -> rstr -> bool -> result nat rstr) (qs_default : QuicSettings)
    (listener : FixtureListener) (peer_tokens : gmap rstr rstr) (tun_mtu : Z) (tuning : Tuning)
    (inputs : list ListenerInput) : outcome (list HandshakeTask * bool * SocketAddr) :=
  let quic_settings := make_quic_settings qs_default tuning tun_mtu in
  match into_listener with
  | Err _ => Panic
  | Ok _ =>
      match listen quic_settings (lst_cert_path listener) (lst_key_path listener) (udp_enable_offload (t_io tuning)) with
      | Err _ | Ok O => Panic
      | Ok (S _) => Ret (listener_loop inputs peer_tokens [], lst_bound_addr listener)
      end
  end.

(** ** Lemmas: headers *)

(** Header names as HTTP/3 requires them: without upper-case letters. *)
Definition lowercase_names (headers : list Header) : Prop :=
  Forall (fun h => to_ascii_lowercase <$> h.1 = h.1) headers.

Lemma find_header_lowercase name headers :
  to_ascii_lowercase <$> lit name = lit name -> lowercase_names headers ->
  find_header (named_ci name) headers = find_header (named name) headers.
Proof.
  intros Hn. induction 1 as [| [n v] headers Hl _ IH]; [done |]. cbn in Hl |- *. rewrite IH.
  unfold named_ci, named, eq_ignore_ascii_case. by rewrite Hn, Hl.
Qed.

(** On such headers the checks are those of the production listener. *)
Lemma validate_connect_ip_headers_server headers :
  lowercase_names headers -> validate_connect_ip_headers headers = validate_server_connect_headers headers.
Proof.
  intros Hl. unfold validate_connect_ip_headers, validate_server_connect_headers, find_header_value.
  by rewrite !(find_header_lowercase ":method"), !(find_header_lowercase ":protocol") by done.
Qed.

Lemma extract_and_validate_auth_server {H : HmacLib} k headers tokens :
  validate_server_auth k headers tokens =
  match extract_and_validate_auth k headers tokens with Ok id => Ok id | Err e => Err (auth_error_display e) end.
Proof. done. Qed.

Lemma connect_headers_lowercase authority path auth : lowercase_names (connect_headers authority path auth).
Proof. repeat constructor. Qed.

(** ** Lemmas: the server's handshake *)

Section server_facts.
Context {H : HmacLib} (k : hmac_key) (tokens : gmap rstr rstr) (remote_addr : SocketAddr) (quic_cmd_tx : Sender).
Context (sink : list FxOut -> Sender -> OutboundFrame -> Reply) (receiver : list FxOut -> bool).

Abbreviation handshake := (handshake k tokens remote_addr quic_cmd_tx sink receiver).
Abbreviation handle_h3_connection := (handle_h3_connection k tokens remote_addr quic_cmd_tx sink receiver).
Abbreviation handshake_complete := (handshake_complete remote_addr quic_cmd_tx sink receiver).

(** The events the handshake does not ignore. *)
Definition significant (evs : list ServerH3Event) : list ServerH3Event :=
  omap (fun e => match e with SrvOther => None | e => Some e end) evs.

Lemma handshake_significant evs fin ph pf t :
  ph = None \/ pf = None -> handshake evs fin ph pf t = handshake (significant evs) fin ph pf t.
Proof.
  revert ph pf t. induction evs as [| ev evs IH]; intros ph pf t Hn; [done |].
  assert (Hgo : forall ph pf t, match (ph, pf) with
      | (Some headers, Some flow) => handshake_complete headers flow
      | (ph, pf) => handshake evs fin ph pf end t =
    match (ph, pf) with
      | (Some headers, Some flow) => handshake_complete headers flow
      | (ph, pf) => handshake (significant evs) fin ph pf end t)
    by (intros [] [] t'; try done; apply IH; auto).
  destruct ev; cbn -[handshake_complete reject lit]; unfold mbind, fx_bind; try done.
  - destruct ph as [p |]; [done |].
    destruct (validate_connect_ip_headers headers); [| by destruct (reject sink send (lit "400") t) as [[] ?]].
    destruct (extract_and_validate_auth k headers tokens); [apply (Hgo (Some _) pf) |].
    by destruct (reject sink send (lit "401") t) as [[] ?].
  - destruct pf as [p |]; [done |]. apply (Hgo ph (Some _)).
  - rewrite <- IH by done. destruct Hn as [-> | ->]; [by destruct pf | by destruct ph].
Qed.

Lemma significant_other evs : SrvOther ∉ significant evs.
Proof. intros (e & He & Heq)%list_elem_of_omap. by destruct e. Qed.

(** The end of [handle_h3_connection]. *)
Definition finish (r : option unit * list FxOut) : list FxOut :=
  match r with (Some _, t) => t | (None, t) => (close_quic_connection t).2 end.

Definition no_connection (t : list FxOut) : Prop := forall conn d, FxConnection conn d ∉ t.

(** A trace that closes the QUIC connection without having emitted it. *)
Definition shut (t : list FxOut) : Prop := no_connection t /\ FxCommand close_command ∈ t.

Definition error_trace (tx : Sender) (status : list Z) : list FxOut :=
  [FxFrame tx (FrameHeaders [(lit ":status", status)]) Accepted; FxFrame tx (FrameTrailers []) Accepted].

Definition ok_frame : OutboundFrame := FrameHeaders [(lit ":status", lit "200"); (lit "capsule-protocol", lit "?1")].

Definition connection_of (pid : rstr) (flow : Sender * Sender * Z) : H3Connection :=
  {| con_peer_id := pid; con_remote_addr := remote_addr; con_datagram_tx := flow.1.1; con_datagram_rx := flow.1.2;
     con_flow_id := flow.2; con_quic_cmd_send := quic_cmd_tx |}.

(** The trace of a completed handshake. *)
Definition connected_trace (pid : rstr) (tx : Sender) (flow : Sender * Sender * Z) : list FxOut :=
  let answered := [FxFrame tx ok_frame Accepted] in
  let d := receiver answered in
  answered ++ [FxConnection (connection_of pid flow) d] ++ (if d then [] else [FxCommand close_command]).

Ltac no_conn := repeat first [apply not_elem_of_nil | apply not_elem_of_cons; split; [discriminate |]].
Ltac shut := solve [split; [intros ? ?; no_conn | fold close_command; repeat (first [apply list_elem_of_here | apply list_elem_of_further])]].

Lemma reject_finish tx status :
  is_success_status status = false ->
  finish (reject sink tx status []) = error_trace tx status \/ shut (finish (reject sink tx status [])).
Proof.
  intros Hs. unfold reject, send_error_response_and_finish_stream, send_response_headers, response_headers. rewrite Hs.
  unfold mbind, fx_bind, send_frame. destruct (sink [] tx _); cbn; try (right; shut).
  destruct (sink _ tx (FrameTrailers [])); cbn; [by left | right; shut ..].
Qed.

Lemma complete_finish pid tx flow :
  (sink [] tx ok_frame = Accepted /\ finish (handshake_complete (pid, tx) flow []) = connected_trace pid tx flow) \/
  (sink [] tx ok_frame <> Accepted /\ shut (finish (handshake_complete (pid, tx) flow []))).
Proof.
  destruct flow as [[s r] f]. unfold handshake_complete, send_response_headers. change (response_headers (lit "200")) with
    [(lit ":status", lit "200"); (lit "capsule-protocol", lit "?1")]. fold ok_frame.
  unfold mbind, fx_bind, send_frame. destruct (sink [] tx ok_frame); cbn.
  - left. split; [done |]. unfold connected_trace. cbn. by destruct (receiver _).
  - right. split; [done |]. shut.
  - right. split; [done |]. shut.
Qed.

(** One request and one flow, in either order. *)
Inductive handshake_pair : list ServerH3Event -> list Header -> Sender -> Sender * Sender * Z -> Prop :=
| headers_first headers tx f s r rest :
    handshake_pair (SrvHeaders headers tx :: SrvNewFlow f s r :: rest) headers tx (s, r, f)
| flow_first headers tx f s r rest :
    handshake_pair (SrvNewFlow f s r :: SrvHeaders headers tx :: rest) headers tx (s, r, f).

(** Why a request is refused, and with which status. *)
Definition refused (headers : list Header) (status : list Z) : Prop :=
  (status = lit "400" /\ validate_connect_ip_headers headers <> Ok tt) \/
  (status = lit "401" /\ validate_connect_ip_headers headers = Ok tt /\
   forall pid, extract_and_validate_auth k headers tokens <> Ok pid).

(** The client is gone: its events ended or report the end of the connection. *)
Definition gone (evs : list ServerH3Event) (fin : StreamEnd) : Prop :=
  evs = [] /\ fin = EventsClosed \/ SrvConnectionShutdown ∈ evs \/ exists e, SrvConnectionError e ∈ evs.

(** What a handshake on the events [evs] did. *)
Inductive handshake_result (evs : list ServerH3Event) (fin : StreamEnd) (t : list FxOut) : Prop :=
| res_connected headers tx flow pid :
    handshake_pair evs headers tx flow -> validate_connect_ip_headers headers = Ok tt ->
    extract_and_validate_auth k headers tokens = Ok pid -> t = connected_trace pid tx flow ->
    handshake_result evs fin t
| res_refused headers tx status :
    SrvHeaders headers tx ∈ evs -> refused headers status -> t = error_trace tx status -> handshake_result evs fin t
| res_shut : shut t -> handshake_result evs fin t
| res_gone : t = [] -> gone evs fin -> handshake_result evs fin t.

#[local] Hint Constructors handshake_pair : core.

Lemma headers_pending pid tx headers l fin :
  SrvOther ∉ l -> validate_connect_ip_headers headers = Ok tt -> extract_and_validate_auth k headers tokens = Ok pid ->
  handshake_result (SrvHeaders headers tx :: l) fin (finish (handshake l fin (Some (pid, tx)) None [])).
Proof.
  intros Hl Hv Ha. destruct l as [| [] l]; cbn -[handshake_complete lit].
  - destruct fin; apply res_shut; cbn; shut.
  - apply res_shut. shut.
  - unfold mbind, fx_bind. cbn -[handshake_complete].
    destruct (complete_finish pid tx (send, recv, flow_id)) as [[_ ->] | [_ Hs]]; [by eapply res_connected | by apply res_shut].
  - apply res_gone; [done |]. right. left. set_solver.
  - apply res_gone; [done |]. right. right. exists e. set_solver.
  - set_solver.
Qed.

Lemma reject_result {A} evs fin headers tx status (next : option A -> fx unit) :
  refused headers status -> (forall t, next None t = (Some tt, t)) -> SrvHeaders headers tx ∈ evs ->
  handshake_result evs fin (finish (((reject sink tx status ;; mret None) ≫= next) [])).
Proof.
  intros Hf Hn Hin. assert (Hs : is_success_status status = false) by (by destruct Hf as [[-> _] | [-> _]]).
  pose proof (reject_finish tx status Hs) as Hr. unfold mbind, fx_bind.
  destruct (reject sink tx status []) as [[u |] t]; cbn in Hr |- *; rewrite ?Hn; cbn;
    (destruct Hr as [Hr | Hr]; [by eapply res_refused | by apply res_shut]).
Qed.

(** A request that is not accepted. *)
Lemma request_refused headers send pf evs fin (next : option (PendingHeaders * PendingFlow) -> fx unit) :
  (forall t, next None t = (Some tt, t)) -> SrvHeaders headers send ∈ evs ->
  (exists pid, validate_connect_ip_headers headers = Ok tt /\ extract_and_validate_auth k headers tokens = Ok pid) \/
  handshake_result evs fin (finish ((handshake_event k tokens sink (SrvHeaders headers send) None pf ≫= next) [])).
Proof.
  intros Hn Hin. cbn -[reject lit]. destruct (validate_connect_ip_headers headers) as [[] | e] eqn:Hv.
  - destruct (extract_and_validate_auth k headers tokens) as [pid | e] eqn:Ha; [left; by exists pid |].
    right. apply (reject_result evs fin headers send (lit "401")); [| done | done]. right. split_and!; [done | done | congruence].
  - right. apply (reject_result evs fin headers send (lit "400")); [| done | done]. left. split; [done | congruence].
Qed.

Lemma flow_pending s r f l fin :
  SrvOther ∉ l ->
  handshake_result (SrvNewFlow f s r :: l) fin (finish (handshake l fin None (Some (s, r, f)) [])).
Proof.
  intros Hl. destruct l as [| [] l].
  - destruct fin; apply res_shut; cbn; shut.
  - destruct (request_refused headers send (Some (s, r, f)) (SrvNewFlow f s r :: SrvHeaders headers send :: l) fin
      (fun n => match n with None => mret tt | Some (Some h, Some fl) => handshake_complete h fl
                | Some (ph, pf) => handshake l fin ph pf end)) as [(pid & Hv & Ha) | Hr]; [done | set_solver | | exact Hr].
    cbn -[handshake_complete lit]. rewrite Hv, Ha.
    destruct (complete_finish pid send (s, r, f)) as [[_ Hc] | [_ Hc]]; [by eapply res_connected | by apply res_shut].
  - apply res_shut. cbn. shut.
  - apply res_gone; [done |]. right. left. set_solver.
  - apply res_gone; [done |]. right. right. exists e. set_solver.
  - set_solver.
Qed.

Lemma handshake_results l fin : SrvOther ∉ l -> handshake_result l fin (finish (handshake l fin None None [])).
Proof.
  intros Hl. destruct l as [| [] l].
  - destruct fin; [apply res_gone; [done | by left] | apply res_shut; cbn; shut].
  - destruct (request_refused headers send None (SrvHeaders headers send :: l) fin
      (fun n => match n with None => mret tt | Some (Some h, Some fl) => handshake_complete h fl
                | Some (ph, pf) => handshake l fin ph pf end)) as [(pid & Hv & Ha) | Hr]; [done | set_solver | | exact Hr].
    replace (handshake (SrvHeaders headers send :: l) fin None None []) with (handshake l fin (Some (pid, send)) None []);
      [apply headers_pending; [set_solver | done | done] |].
    cbn -[handshake_complete lit]. by rewrite Hv, Ha.
  - apply flow_pending. set_solver.
  - apply res_gone; [done |]. right. left. set_solver.
  - apply res_gone; [done |]. right. right. exists e. set_solver.
  - set_solver.
Qed.

Lemma server_handshake_results evs fin : handshake_result (significant evs) fin (handle_h3_connection evs fin).
Proof.
  change (handle_h3_connection evs fin) with (finish (handshake evs fin None None [])).
  rewrite handshake_significant by auto. apply handshake_results, significant_other.
Qed.

Lemma server_handshake_accepts evs fin headers tx flow pid :
  handshake_pair (significant evs) headers tx flow -> validate_connect_ip_headers headers = Ok tt ->
  extract_and_validate_auth k headers tokens = Ok pid -> sink [] tx ok_frame = Accepted ->
  handle_h3_connection evs fin = connected_trace pid tx flow.
Proof.
  intros Hp Hv Ha Hs. change (handle_h3_connection evs fin) with (finish (handshake evs fin None None [])).
  rewrite handshake_significant by auto.
  assert (He : forall f, finish (handshake_complete (pid, tx) f []) = connected_trace pid tx f)
    by (intros f; by destruct (complete_finish pid tx f) as [[_ ->] | [? _]]).
  destruct Hp; rewrite <- He; cbn -[handshake_complete lit]; rewrite Hv, Ha; done.
Qed.

(** ** Properties: the server's handshake *)

(** C7: the fixture's listener only hands out authenticated connections.  Whatever events
    the driver delivers and whatever the library answers, the handshake does one of
    four things: it answers 200 to a request that passes the header checks and carries
    a configured token, and emits the connection of that peer with the one flow;
    it refuses the request with 400 or 401 and finishes the stream; it closes the QUIC
    connection; or the client is gone and nothing is sent.  And a valid request
    with its flow, in either order and with any ignored events between, is always
    answered and emitted when the library takes the response. *)
Theorem fixture_server_handshake evs fin :
  let t := handle_h3_connection evs fin in
  handshake_result (significant evs) fin t /\
  (forall headers tx flow pid, handshake_pair (significant evs) headers tx flow ->
    validate_connect_ip_headers headers = Ok tt -> extract_and_validate_auth k headers tokens = Ok pid ->
    sink [] tx ok_frame = Accepted -> t = connected_trace pid tx flow).
Proof.
  split; [apply server_handshake_results |]. intros. by eapply server_handshake_accepts.
Qed.
End server_facts.

(** ** Lemmas: the dialer *)

Lemma check_response_ok headers :
  check_response headers = Ok tt <->
  exists status, find_header (named ":status") headers = Some status /\ is_success_status status = true /\
    find_header_value headers "capsule-protocol" = Some (lit "?1").
Proof.
  unfold check_response. destruct (find_header (named ":status") headers) as [s |]; [| naive_solver].
  case_decide as H4; [| destruct (is_success_status s) eqn:Hs; [case_decide |]].
  - subst. split; [done |]. intros (st & [= <-] & H2 & _). by vm_compute in H2.
  - split; [done |]. naive_solver.
  - split; [| done]. intros _. exists s. split_and!; [done | done |].
    by destruct (decide (find_header_value headers "capsule-protocol" = Some (lit "?1"))).
  - split; [done |]. intros (st & [= <-] & H2 & _). congruence.
Qed.

(** A handshake succeeds only on a positive response and a flow. *)
Lemma client_handshake_ok evs fin nf sv s r f :
  client_handshake evs fin nf sv = Some (Ok (s, r, f)) ->
  (sv = true \/ exists headers, CliIncomingHeaders headers ∈ evs /\ check_response headers = Ok tt) /\
  (nf = Some (s, r, f) \/ CliNewFlow f s r ∈ evs).
Proof.
  assert (Hfin : forall nf sv, client_finish nf sv = Ok (s, r, f) -> sv = true /\ nf = Some (s, r, f))
    by (intros [] []; cbn; naive_solver).
  revert nf sv. induction evs as [| ev evs IH]; intros nf sv; cbn.
  - destruct fin; [| done]. intros [= Hf]. apply Hfin in Hf as [-> ->]. auto.
  - destruct ev as [headers | f' s' r' | e | |]; try done.
    + destruct (check_response headers) as [[] | e] eqn:Hc; [| done].
      assert (Hv : exists headers', CliIncomingHeaders headers' ∈ CliIncomingHeaders headers :: evs /\ check_response headers' = Ok tt)
        by (exists headers; split; [apply list_elem_of_here | done]).
      destruct nf as [nf |].
      * intros [= ->]. auto.
      * intros [_ [? | Hin]]%IH; [done |]. set_solver.
    + destruct sv.
      * intros [= -> -> ->]. set_solver.
      * intros [Hv Hf]%IH. split; [set_solver |]. destruct Hf as [[= <- <- <-] |]; set_solver.
    + intros [Hv Hf]%IH. set_solver.
Qed.

(** The fixture's dialer never leaves a connection behind.  Unless verification is
    switched off, every QUIC connection it opens verifies the server's certificate.
    A dial succeeds only after the server answered the CONNECT request with a 2xx
    status and the capsule protocol and the driver delivered the flow that is
    returned; and when it fails after the QUIC connection was opened, the last thing
    it does is to close it. *)
Theorem fixture_dial_safe {I : IfNames} peer_h3 remote_addr peer_id tun_if tun_mtu tuning env :
  let '(r, t) := dial_h3 peer_h3 remote_addr peer_id tun_if tun_mtu tuning env in
  (forall name s caps ok, FxConnect name s caps ok ∈ t ->
    qs_enable_dgram s = true /\ (h3_insecure_skip_verify (t_h3 tuning) = false -> qs_verify_peer s = true)) /\
  match r with
  | Ok conn =>
      con_peer_id conn = peer_id /\ con_remote_addr conn = remote_addr /\ FxCommand close_command ∉ t /\
      (exists headers, FxRequest 0 headers true true ∈ t /\ validate_server_connect_headers headers = Ok tt) /\
      CliNewFlow (con_flow_id conn) (con_datagram_tx conn) (con_datagram_rx conn) ∈ fe_events env /\
      exists headers status, CliIncomingHeaders headers ∈ fe_events env /\
        find_header (named ":status") headers = Some status /\ is_success_status status = true /\
        find_header_value headers "capsule-protocol" = Some (lit "?1")
  | Err _ => (exists name s caps, FxConnect name s caps true ∈ t) -> last t = Some (FxCommand close_command)
  end.
Proof.
  unfold dial_h3. destruct (ph3_endpoint peer_h3) as [endpoint |]; [| set_solver]. cbv zeta.
  destruct (make_client_udp_socket _ _ _ _ _ _ _) as [[u | e] ts]; [| set_solver].
  destruct (fe_from_std env) as [u1 | e]; [| set_solver]. destruct (fe_try_into env) as [u2 | e]; [| set_solver].
  set (s0 := if h3_insecure_skip_verify (t_h3 tuning) then _ else _).
  assert (Hs : qs_enable_dgram s0 = true /\ (h3_insecure_skip_verify (t_h3 tuning) = false -> qs_verify_peer s0 = true))
    by (unfold s0; destruct (h3_insecure_skip_verify (t_h3 tuning)); done).
  set (name := default (h3_host endpoint) (ph3_sni peer_h3)). set (caps := udp_enable_offload (t_io tuning)).
  destruct (fe_connect env name s0 caps) as [u3 | e]; cbn -[lit]; [| split; set_solver].
  set (headers := dial_request _ _ _).
  destruct (fe_request env headers) as [u4 | e]; cbn -[lit]; [| split; set_solver].
  destruct (client_handshake _ _ _ _) as [[[[s r] f] | e] |] eqn:Hc; cbn -[lit]; [| split; set_solver ..].
  apply client_handshake_ok in Hc as [[? | (hs & Hin & Hok)] [? | Hf]]; try done.
  apply check_response_ok in Hok as (st & H1 & H2 & H3).
  split; [set_solver |]. split_and!; try done; [set_solver | | by exists hs, st].
  exists headers. split; [set_solver |]. apply (client_headers_find (h3_host endpoint) [] []).
Qed.

(** ** The listener *)

(** The tokens in force after the inputs. *)
Definition tokens_after (tokens : gmap rstr rstr) (inputs : list ListenerInput) : gmap rstr rstr :=
  foldl (fun tokens i => match i with LstCommand (Some update) => update | _ => tokens end) tokens inputs.

Definition keeps_running (i : ListenerInput) : Prop := i <> LstCommand None /\ i <> LstAccept None.

(** [task] is the handshake of the connection accepted by the input [n]. *)
Definition spawned_at (inputs : list ListenerInput) (tokens : gmap rstr rstr) (task : HandshakeTask) (n : nat) : Prop :=
  inputs !! n = Some (LstAccept (Some (Ok (task_remote_addr task)))) /\ Forall keeps_running (take n inputs) /\
  task_tokens task = tokens_after tokens (take n inputs).

Lemma spawned_at_cons i inputs tokens task :
  keeps_running i ->
  (exists n, spawned_at (i :: inputs) tokens task n) <->
  (i = LstAccept (Some (Ok (task_remote_addr task))) /\ task_tokens task = tokens) \/
  exists n, spawned_at inputs (tokens_after tokens [i]) task n.
Proof.
  intros Hi. split.
  - intros [[| n] (Hl & Hk & Ht)]; cbn in *; [left; by simplify_eq |]. right. exists n. by inv Hk.
  - intros [[-> Ht] | (n & Hl & Hk & Ht)]; [by exists 0%nat | exists (S n)]. split_and!; cbn; [done | by constructor | done].
Qed.

Lemma listener_loop_tasks inputs tokens tasks task :
  task ∈ (listener_loop inputs tokens tasks).1 <-> task ∈ tasks \/ exists n, spawned_at inputs tokens task n.
Proof.
  revert tokens tasks. induction inputs as [| i inputs IH]; intros tokens tasks; cbn.
  - split; [auto |]. intros [? | [n [Hl _]]]; [done |]. by destruct n.
  - assert (Hend : ~ keeps_running i -> (exists n, spawned_at (i :: inputs) tokens task n) -> exists r, i = LstAccept (Some (Ok r))).
    { intros Hn [[| n] (Hl & Hk & _)]; [cbn in Hl; simplify_eq; eauto |]. cbn in Hk. by inv Hk. }
    destruct i as [[update |] | [[remote | e] |]].
    + rewrite IH, spawned_at_cons by done. naive_solver.
    + split; [auto |]. intros [? | [r ?]%Hend]; [done | done |]. by intros [? _].
    + rewrite IH, spawned_at_cons by done. cbn. destruct task as [r ts]. cbn. set_solver.
    + rewrite IH, spawned_at_cons by done. naive_solver.
    + split; [auto |]. intros [? | [r ?]%Hend]; [done | done |]. by intros [_ ?].
Qed.

(** A handshake is served with the tokens in force when its connection was accepted, and
    an emitted connection belongs to a peer of these tokens: a token that was replaced
    earlier is no longer accepted. *)
Theorem fixture_listener_tokens {H : HmacLib} into listen qs listener tokens tun_mtu tuning inputs tasks ended bound
    task k cmd_tx sink receiver evs fin conn d :
  spawn_h3_listener into listen qs listener tokens tun_mtu tuning inputs = Ret (tasks, ended, bound) -> task ∈ tasks ->
  FxConnection conn d ∈ handle_h3_connection k (task_tokens task) (task_remote_addr task) cmd_tx sink receiver evs fin ->
  exists n headers, spawned_at inputs tokens task n /\
    extract_and_validate_auth k headers (tokens_after tokens (take n inputs)) = Ok (con_peer_id conn) /\
    con_remote_addr conn = task_remote_addr task.
Proof.
  intros Hs Ht Hc. assert (Hl : tasks = (listener_loop inputs tokens []).1).
  { unfold spawn_h3_listener in Hs. destruct into; [| done]. destruct (listen _ _ _ _) as [[] |]; simplify_eq/=.
    by destruct (listener_loop inputs tokens []); simplify_eq/=. }
  rewrite Hl in Ht. apply listener_loop_tasks in Ht as [Ht | [n Hn]]; [by apply not_elem_of_nil in Ht |]. exists n.
  pose proof Hn as (_ & _ & Htok). rewrite <- Htok.
  destruct (server_handshake_results k (task_tokens task) (task_remote_addr task) cmd_tx sink receiver evs fin)
    as [headers tx flow pid _ _ Ha Ht | headers tx status _ _ Ht | [Hn' _] | Ht _].
  - rewrite Ht in Hc. exists headers. unfold connected_trace in Hc. destruct (receiver _); set_solver.
  - rewrite Ht in Hc. unfold error_trace in Hc. set_solver.
  - by apply Hn' in Hc.
  - rewrite Ht in Hc. by apply not_elem_of_nil in Hc.
Qed.

(** ** Interoperability *)

(** The dialers of both stacks send the same request. *)
Lemma dial_request_connect_headers authority path auth : dial_request authority path auth = connect_headers authority path auth.
Proof. done. Qed.

(** A token nobody is configured with is refused by [validate_server_auth]. *)
Lemma connect_request_refused {H : HmacLib} {HH : HmacLaws H} (k : hmac_key) (tokens : gmap rstr rstr) token authority path :
  mac_unique k token (map_to_list tokens).*2 -> Forall is_char token -> tokens_wf (map_to_list tokens) ->
  (forall pid, tokens !! pid <> Some token) ->
  exists e, extract_and_validate_auth k (connect_headers authority path (bearer_auth_header token)) tokens = Err e.
Proof.
  intros Hcf Ht Hw Hu. destruct (client_headers_find authority path (bearer_auth_header token)) as [_ Hf].
  unfold extract_and_validate_auth. rewrite Hf. cbn [fmap option_fmap option_map].
  rewrite from_utf8_lossy_as_bytes by (apply Forall_app; split; [apply lit_chars | done]).
  unfold validate_connect_auth, bearer_auth_header. rewrite (proj2 (strip_prefix_Some (lit "Bearer ") _ token)) by done.
  case_decide; [eauto |]. pose proof (find_peer_spec k token (map_to_list tokens) Hcf Ht Hw) as Hp.
  destruct (find_peer k _ (map_to_list tokens)) as [pid | e]; [| eauto].
  apply elem_of_map_to_list in Hp. by destruct (Hu pid).
Qed.

Section interop.
Context {H : HmacLib} {HH : HmacLaws H} (k : hmac_key) (tokens : gmap rstr rstr).
Context (Hwf : tokens_wf (map_to_list tokens)).

(** The production listener's response to a request of either dialer. *)
Lemma server_handler_answers token authority path send_200 sid :
  let request := connect_headers authority path (bearer_auth_header token) in
  server_handler k tokens send_200 sid request =
  match extract_and_validate_auth k request tokens with
  | Err _ => (Ok Ignore, [SendResponse sid [status_header "401"] true])
  | Ok pid =>
      let calls := [SendResponse sid [status_header "200"; (lit "capsule-protocol", lit "?1")] false] in
      match send_200 sid with
      | Err e => (Err (ClosedStream (lit "send 200: " ++ e)), calls)
      | Ok _ => (Ok (Accept sid (Some pid)), calls)
      end
  end.
Proof.
  cbv zeta. unfold server_handler. destruct (client_headers_find authority path (bearer_auth_header token)) as [-> _].
  rewrite extract_and_validate_auth_server. by destruct (extract_and_validate_auth k _ tokens).
Qed.

(** C16: the fixture and the production stack complete the handshake with each other.  For
    a peer whose token, not empty and like all tokens a string of characters, no other peer
    has, nor a token with the same MAC under the key drawn: the production listener accepts the fixture
    dialer's request as that peer, and its response together with the flow, in either
    order, completes the fixture's dial; and the fixture's listener, given the
    production dialer's request and the flow in either order, emits the peer's connection
    after a response that the production dialer accepts. *)
Theorem handshake_interop pid token authority path :
  mac_unique k token (map_to_list tokens).*2 -> Forall is_char token -> token <> [] -> tokens !! pid = Some token ->
  (forall pid', tokens !! pid' = Some token -> pid' = pid) ->
  (forall send_200 sid, send_200 sid = Ok tt -> exists response,
    server_handler k tokens send_200 sid (dial_request authority path (bearer_auth_header token)) =
      (Ok (Accept sid (Some pid)), [SendResponse sid response false]) /\
    forall f s r rest fin,
      client_handshake (CliIncomingHeaders response :: CliNewFlow f s r :: rest) fin None false = Some (Ok (s, r, f)) /\
      client_handshake (CliNewFlow f s r :: CliIncomingHeaders response :: rest) fin None false = Some (Ok (s, r, f))) /\
  (forall remote_addr cmd_tx sink receiver evs fin tx flow,
    handshake_pair (significant evs) (connect_headers authority path (bearer_auth_header token)) tx flow ->
    sink [] tx ok_frame = Accepted ->
    FxConnection (connection_of remote_addr cmd_tx pid flow) (receiver [FxFrame tx ok_frame Accepted])
      ∈ handle_h3_connection k tokens remote_addr cmd_tx sink receiver evs fin /\
    exists response, ok_frame = FrameHeaders response /\
      forall sid, client_handler (Some sid) sid response = (Ok (Accept sid None), [])).
Proof.
  intros Hcf Ht Hne Hl Hu.
  destruct (connect_request_accepted k tokens pid token authority path Hcf Ht Hne Hwf Hl Hu) as [Hv Ha].
  assert (He : extract_and_validate_auth k (connect_headers authority path (bearer_auth_header token)) tokens = Ok pid).
  { rewrite extract_and_validate_auth_server in Ha. by destruct (extract_and_validate_auth k _ tokens); simplify_eq. }
  split.
  - intros send_200 sid Hs. eexists. rewrite dial_request_connect_headers, server_handler_answers, He, Hs. split; [done |]. done.
  - intros remote_addr cmd_tx sink receiver evs fin tx flow Hp Hs. split.
    + erewrite server_handshake_accepts; [| exact Hp | | exact He | exact Hs].
      * unfold connected_trace. set_solver.
      * rewrite validate_connect_ip_headers_server; [done | apply connect_headers_lowercase].
    + eexists. split; [done |]. intros sid. unfold client_handler. rewrite decide_False by auto. by vm_compute.
Qed.

(** A token nobody is configured with is refused by both listeners with 401, which
    both dialers report as a failure. *)
Theorem handshake_interop_refused token authority path :
  mac_unique k token (map_to_list tokens).*2 -> Forall is_char token -> (forall pid, tokens !! pid <> Some token) ->
  let request := connect_headers authority path (bearer_auth_header token) in
  (forall send_200 sid, server_handler k tokens send_200 sid (dial_request authority path (bearer_auth_header token)) =
    (Ok Ignore, [SendResponse sid [status_header "401"] true])) /\
  (forall evs fin nf, client_handshake (CliIncomingHeaders [status_header "401"] :: evs) fin nf false =
    Some (Err (FxAuth (lit "unauthorized")))) /\
  (forall remote_addr cmd_tx sink receiver evs fin tx flow,
    handshake_pair (significant evs) request tx flow ->
    no_connection (handle_h3_connection k tokens remote_addr cmd_tx sink receiver evs fin)) /\
  refused k tokens request (lit "401") /\
  forall sid, client_handler (Some sid) sid [status_header "401"] = (Err (Rejected (lit "401")), []).
Proof.
  intros Hcf Ht Hu request. destruct (connect_request_refused k tokens token authority path Hcf Ht Hwf Hu) as [e He].
  split_and!.
  - intros send_200 sid. by rewrite dial_request_connect_headers, server_handler_answers, He.
  - done.
  - intros remote_addr cmd_tx sink receiver evs fin tx flow Hp.
    destruct (server_handshake_results k tokens remote_addr cmd_tx sink receiver evs fin)
      as [headers tx' flow' pid Hp' _ Ha -> | headers tx' status _ _ -> | [Hn _] | -> _].
    + assert (headers = request) as -> by (inversion Hp; inversion Hp'; congruence). unfold request in Ha. congruence.
    + intros c d. unfold error_trace. set_solver.
    + exact Hn.
    + intros c d. apply not_elem_of_nil.
  - right. split_and!; [done | | unfold request; congruence].
    rewrite validate_connect_ip_headers_server; [| apply connect_headers_lowercase]. apply client_headers_find.
  - intros sid. unfold client_handler. rewrite decide_False by auto. by vm_compute.
Qed.
End interop.

(** ** Concrete handshakes *)

Definition sample_client : SocketAddr := {| sa_ip := V4 3221225985; sa_port := 4433 |}.

Definition bob_request : list Header := connect_headers (lit "vpn.example") (lit "/") (bearer_auth_header (lit "bob-token-22")).

Lemma handshake_interop_witness :
  handle_h3_connection (H := PlainMac.lib) tt sample_tokens sample_client 9%nat (fun _ _ _ => Accepted) (fun _ => true)
    [SrvOther; SrvNewFlow 0 3%nat 4%nat; SrvHeaders bob_request 2%nat] EventsQuiet =
  [FxFrame 2%nat ok_frame Accepted; FxConnection (connection_of sample_client 9%nat (lit "bob") (3%nat, 4%nat, 0)) true] /\
  FxConnection (connection_of sample_client 9%nat (lit "bob") (3%nat, 4%nat, 0)) true ∈
    handle_h3_connection (H := PlainMac.lib) tt sample_tokens sample_client 9%nat (fun _ _ _ => Accepted) (fun _ => true)
      [SrvOther; SrvNewFlow 0 3%nat 4%nat; SrvHeaders bob_request 2%nat] EventsQuiet.
Proof.
  split; [by vm_compute |].
  destruct (handshake_interop (H := PlainMac.lib) tt sample_tokens sample_tokens_wf
    (lit "bob") (lit "bob-token-22") (lit "vpn.example") (lit "/")) as [_ Hs].
  - apply PlainMac_unique.
  - apply lit_chars.
  - discriminate.
  - by vm_compute.
  - apply sample_tokens_bob.
  - refine (proj1 (Hs sample_client 9%nat (fun _ _ _ => Accepted) (fun _ => true)
      [SrvOther; SrvNewFlow 0 3%nat 4%nat; SrvHeaders bob_request 2%nat] EventsQuiet 2%nat (3%nat, 4%nat, 0) _ _)).
    + apply flow_first.
    + reflexivity.
Defined.

(** [is_success_status] looks at the length and the first byte only. *)
Lemma is_success_status_not_digits : is_success_status (lit "2ab") = true.
Proof. by vm_compute. Qed.

(** A request without a token is refused and its stream finished. *)
Lemma no_token_example :
  handle_h3_connection (H := PlainMac.lib) tt sample_tokens sample_client 9%nat (fun _ _ _ => Accepted) (fun _ => true)
    [SrvHeaders (take 6 bob_request) 2%nat] EventsQuiet = error_trace 2%nat (lit "401").
Proof. by vm_compute. Qed.
