(* ===== verification/FixtureLoop.v ===== *)
(** * The tokio-quiche interop fixture: datagrams

    Models the two actors of an established connection of
    [src/src/test_support/tokio_quiche_h3.rs]: [spawn_h3_rx] with
    [handle_inbound_frame], and [spawn_h3_tx]; and proves that both account for every
    packet and that the production codec and the fixture read each other's datagrams.

    The driver demultiplexes datagrams by flow: class [FlowLib] has what tokio-quiche
    puts on the wire for a datagram of a flow and how it reads one, with the RFC 9297
    framing as its law. *)

From S2P Require Import Prelude Net Config Channel Metrics Codec Engine Fixture.
#[local] Open Scope Z_scope.

Definition H3_RX_BATCH_SIZE : nat := 128.

Record H3Rx : Type := {
  fxr_peer_id : rstr;
  fxr_remote_addr : SocketAddr;
  fxr_datagram_rx : Sender;
}.

Record H3Tx : Type := {
  fxt_peer_id : rstr;
  fxt_remote_addr : SocketAddr;
  fxt_datagram_tx : Sender;
  fxt_flow_id : Z;
  fxt_quic_cmd_send : Sender;
}.

(** [H3Connection::into_actors]. *)
Definition into_actors (c : H3Connection) : H3Rx * H3Tx :=
  ({| fxr_peer_id := con_peer_id c; fxr_remote_addr := con_remote_addr c; fxr_datagram_rx := con_datagram_rx c |},
   {| fxt_peer_id := con_peer_id c; fxt_remote_addr := con_remote_addr c; fxt_datagram_tx := con_datagram_tx c;
      fxt_flow_id := con_flow_id c; fxt_quic_cmd_send := con_quic_cmd_send c |}).

Inductive InboundFrame : Type :=
| InDatagram (data : list Z)
| InBody (data : list Z) (fin : bool).

(** ** Receiving *)

Section rx.
Context {B : BufLib} (MAX_DATAGRAM_SIZE : nat) {M : Mpsc (list PooledBuf)}.

(** [batch], [ok_pkts], [ok_bytes] and [counters]. *)
Record RxBatch : Type := {
  rb_batch : list PooledBuf;
  rb_pkts : Z;
  rb_bytes : Z;
  rb_counters : Counters;
}.

Definition rx_drop (a : RxBatch) (len : Z) : RxBatch :=
  {| rb_batch := rb_batch a; rb_pkts := rb_pkts a; rb_bytes := rb_bytes a;
     rb_counters := record_drop (rb_counters a) InvalidFraming 1 len |}.

(** [handle_inbound_frame]. *)
Definition handle_inbound_frame (frame : InboundFrame) (a : RxBatch) : outcome RxBatch :=
  match frame with
  | InDatagram dgram =>
      if decide (dgram = [] \/ head dgram <> Some CONTEXT_ID_IP) then Ret (rx_drop a (zlen dgram)) else
      let dgram := drop 1 dgram in
      buf ← alloc_packet_buf MAX_DATAGRAM_SIZE dgram;
      Ret {| rb_batch := rb_batch a ++ [buf]; rb_pkts := rb_pkts a + 1; rb_bytes := rb_bytes a + zlen dgram;
             rb_counters := rb_counters a |}
  | InBody buffer _ => Ret (rx_drop a (zlen buffer))
  end.

(** The [while] loop over the frames that are ready; the result has the frames left. *)
Fixpoint drain_frames (ready : list InboundFrame) (a : RxBatch) : outcome (RxBatch * list InboundFrame) :=
  match ready with
  | [] => Ret (a, [])
  | f :: rest =>
      if decide (length (rb_batch a) < H3_RX_BATCH_SIZE)%nat then
        a ← handle_inbound_frame f a;
        drain_frames rest a
      else Ret (a, ready)
  end.

(** A frame that woke the loop with the frames that are ready after it, the end of the
    frames, or a metrics tick with whether the event channel is open. *)
Inductive RxInput : Type :=
| RxFrames (first : InboundFrame) (ready : list InboundFrame)
| RxClosed
| RxTick (events_open : bool).

Record RxLoop : Type := { rl_counters : Counters; rl_world : world; rl_reported : list Metrics }.

(** Where an iteration of the loop of [spawn_h3_rx] leaves the actor: the frames it did
    not take, or its return. *)
Inductive RxTurn : Type :=
| RxGo (st : RxLoop) (rest : list InboundFrame)
| RxReturn (st : RxLoop).

Definition rx_loop_new (w : world) : RxLoop :=
  {| rl_counters := counters_new Http3 Rx; rl_world := w; rl_reported := [] |}.

Definition h3_rx_step (rx : H3Rx) (ingress_tx : Sender) (i : RxInput) (st : RxLoop) : outcome RxTurn :=
  match i with
  | RxClosed => Ret (RxReturn st)
  | RxFrames first ready =>
      a ← handle_inbound_frame first {| rb_batch := []; rb_pkts := 0; rb_bytes := 0; rb_counters := rl_counters st |};
      '(a, rest) ← drain_frames ready a;
      let '(ok, c, w) := send_and_record (rb_counters a) (rl_world st) ingress_tx (rb_batch a) (rb_pkts a) (rb_bytes a) in
      let st := {| rl_counters := c; rl_world := w; rl_reported := rl_reported st |} in
      Ret (if ok : bool then RxGo st rest else RxReturn st)
  | RxTick events_open =>
      if events_open then
        Ret (RxGo {| rl_counters := rl_counters st; rl_world := rl_world st;
                     rl_reported := rl_reported st ++ [snapshot (rl_counters st) (Some (fxr_peer_id rx)) (Some (fxr_remote_addr rx))] |} [])
      else Ret (RxReturn st)
  end.
End rx.

(** ** Sending *)

Section tx.
Context {B : BufLib} {M : Mpsc OutboundFrame}.

(** [seg_pkts], [seg_bytes] and [counters]. *)
Record TxSegment : Type := {
  seg_pkts : Z;
  seg_bytes : Z;
  seg_counters : Counters;
}.

Definition with_counters (s : TxSegment) (c : Counters) : TxSegment :=
  {| seg_pkts := seg_pkts s; seg_bytes := seg_bytes s; seg_counters := c |}.

(** The segment recorded as one batch. *)
Definition flush_segment (s : TxSegment) : TxSegment :=
  if decide (0 < seg_pkts s) then with_counters s (record_success (seg_counters s) (seg_pkts s) (seg_bytes s)) else s.

(** The callback of [send_with_backpressure]. *)
Definition on_tx_event (len : Z) (e : SendEvent) (s : TxSegment) : TxSegment :=
  match e with
  | Fast => {| seg_pkts := seg_pkts s + 1; seg_bytes := seg_bytes s + len; seg_counters := seg_counters s |}
  | FullEvent => flush_segment s
  | Waited waited => {| seg_pkts := 1; seg_bytes := len; seg_counters := record_queue_full (seg_counters s) waited |}
  end.

(** The [for] loop over a batch; it fails when the channel is closed. *)
Fixpoint tx_packets (inner_tx : Sender) (flow_id : Z) (packets : list PooledBuf) (s : TxSegment) (w : world) :
    result unit unit * TxSegment * world :=
  match packets with
  | [] => (Ok tt, s, w)
  | packet :: packets =>
      let len := zlen (buf_bytes packet) in
      match add_prefix packet [CONTEXT_ID_IP] with
      | (false, _) => tx_packets inner_tx flow_id packets (with_counters s (record_drop (seg_counters s) NoHeadroom 1 len)) w
      | (true, packet) =>
          match send_with_backpressure w inner_tx (FrameDatagram (buf_bytes packet) flow_id) (on_tx_event len) s with
          | (Ok _, s, w) => tx_packets inner_tx flow_id packets s w
          | (Err _, s, w) => (Err tt, with_counters s (record_drop (seg_counters s) ChannelClosed 1 len), w)
          end
      end
  end.

(** A batch from the router. *)
Definition tx_batch (inner_tx : Sender) (flow_id : Z) (packets : list PooledBuf) (c : Counters) (w : world) :
    result unit unit * Counters * world :=
  match tx_packets inner_tx flow_id packets {| seg_pkts := 0; seg_bytes := 0; seg_counters := c |} w with
  | (Ok _, s, w) => (Ok tt, seg_counters (flush_segment s), w)
  | (Err _, s, w) => (Err tt, seg_counters s, w)
  end.

(** A batch or the end of the batches, a metrics tick with whether the event channel is
    open, and a keepalive tick with whether the command channel is. *)
Inductive TxInput : Type :=
| TxBatch (batch : option (list PooledBuf))
| TxTick (events_open : bool)
| TxKeepalive (commands_open : bool).

Record TxLoop : Type := {
  tl_counters : Counters;
  tl_world : world;
  tl_reported : list Metrics;
  tl_commands : list QuicCommand;
}.

Inductive TxTurn : Type :=
| TxGo (st : TxLoop)
| TxReturn (r : result unit rstr) (st : TxLoop).

(** Before the loop: [get_ref] gives the channel behind the [PollSender] unless it was
    closed. *)
Definition h3_tx_start (peer : rstr) (get_ref : option Sender) (w : world) : result (Sender * TxLoop) rstr :=
  match get_ref with
  | None => Err (lit "datagram channel for peer `" ++ peer ++ lit "` closed before TX loop started")
  | Some inner_tx =>
      Ok (inner_tx, {| tl_counters := counters_new Http3 Tx; tl_world := w; tl_reported := []; tl_commands := [] |})
  end.

(** One iteration of the loop of [spawn_h3_tx]. *)
Definition h3_tx_step (tx : H3Tx) (inner_tx : Sender) (i : TxInput) (st : TxLoop) : TxTurn :=
  let with_ c w := {| tl_counters := c; tl_world := w; tl_reported := tl_reported st; tl_commands := tl_commands st |} in
  let command cmd := {| tl_counters := tl_counters st; tl_world := tl_world st; tl_reported := tl_reported st;
                        tl_commands := tl_commands st ++ [cmd] |} in
  match i with
  | TxBatch None => TxReturn (Ok tt) (command close_command)
  | TxBatch (Some packets) =>
      match tx_batch inner_tx (fxt_flow_id tx) packets (tl_counters st) (tl_world st) with
      | (Ok _, c, w) => TxGo (with_ c w)
      | (Err _, c, w) => TxReturn (Err (lit "datagram channel for peer `" ++ fxt_peer_id tx ++ lit "` closed")) (with_ c w)
      end
  | TxTick events_open =>
      if events_open then
        TxGo {| tl_counters := tl_counters st; tl_world := tl_world st; tl_commands := tl_commands st;
                tl_reported := tl_reported st ++ [snapshot (tl_counters st) (Some (fxt_peer_id tx)) (Some (fxt_remote_addr tx))] |}
      else TxReturn (Ok tt) st
  | TxKeepalive commands_open => if commands_open then TxGo (command Custom) else TxReturn (Ok tt) (command Custom)
  end.
End tx.

(** ** Lemmas: receiving *)

(** The packet in a frame. *)
Definition frame_payload (f : InboundFrame) : option (list Z) :=
  match f with
  | InDatagram (b :: payload) => if decide (b = CONTEXT_ID_IP) then Some payload else None
  | _ => None
  end.

Definition frame_len (f : InboundFrame) : Z := match f with InDatagram d | InBody d _ => zlen d end.

(** What the frames without a packet are counted as. *)
Definition frame_drops (fs : list InboundFrame) : list CounterOp :=
  fs ≫= fun f => match frame_payload f with Some _ => [] | None => [OpDrop InvalidFraming 1 (frame_len f)] end.

Section rx_facts.
Context {B : BufLib} {HB : BufLaws B} (MAX_DATAGRAM_SIZE : nat).
Context (Hmax : (MAX_DATAGRAM_SIZE <= MAX_PACKET_BUFFER_SIZE)%nat).

(** Frames whose packets fit a packet buffer. *)
Definition fits (f : InboundFrame) : Prop :=
  forall p, frame_payload f = Some p -> (length p + HEADROOM <= MAX_PACKET_BUFFER_SIZE)%nat.

(** A batch that holds the packets of the frames [fs], on top of the counters [c]. *)
Definition holds (c : Counters) (fs : list InboundFrame) (a : RxBatch) : Prop :=
  buf_bytes <$> rb_batch a = omap frame_payload fs /\
  (rb_pkts a, rb_bytes a) = batch_stats (omap frame_payload fs) /\
  rb_counters a = foldl run_op c (frame_drops fs) /\ Forall (fun b => headroom b = HEADROOM) (rb_batch a).

Lemma handle_inbound_frame_holds c fs a f :
  holds c fs a -> fits f -> exists a', handle_inbound_frame MAX_DATAGRAM_SIZE f a = Ret a' /\ holds c (fs ++ [f]) a'.
Proof.
  intros (Hb & Hs & Hc & Hh) Hf.
  assert (Hdrop : frame_payload f = None -> holds c (fs ++ [f]) (rx_drop a (frame_len f))).
  { intros Hn. unfold holds, frame_drops. rewrite omap_app, bind_app, foldl_app. cbn. rewrite Hn. cbn. rewrite !app_nil_r.
    split_and!; [done | done | | done]. by rewrite Hc. }
  destruct f as [[| b p] | d fin]; cbn [handle_inbound_frame].
  - rewrite decide_True by auto. eexists. split; [done |]. by apply Hdrop.
  - destruct (decide (b = CONTEXT_ID_IP)) as [-> | Hne]; [| rewrite decide_True by (right; cbn; congruence); eexists; split;
      [done |]; apply Hdrop; cbn; by rewrite decide_False].
    rewrite decide_False by (cbn; naive_solver). cbv zeta. change (drop 1 (CONTEXT_ID_IP :: p)) with p.
    assert (Hp : frame_payload (InDatagram (CONTEXT_ID_IP :: p)) = Some p) by done.
    pose proof (alloc_packet_buf_spec MAX_DATAGRAM_SIZE p Hmax) as Ha. rewrite decide_True in Ha by by apply Hf.
    destruct Ha as (buf & -> & Hbuf & Hroom & _). cbn [mbind outcome_bind]. eexists. split; [done |].
    unfold holds, frame_drops. cbn [rb_batch rb_pkts rb_bytes rb_counters]. rewrite fmap_app, omap_app, bind_app.
    cbn [omap list_omap mbind list_bind]. rewrite Hp, Hb, foldl_app. cbn. split_and!.
    + by rewrite Hbuf.
    + rewrite batch_stats_app, <- Hs. unfold batch_stats. cbn. f_equal; lia.
    + done.
    + apply Forall_app. split; [done |]. by constructor.
  - eexists. split; [done |]. by apply (Hdrop).
Qed.

Lemma drain_frames_holds c ready fs a :
  holds c fs a -> Forall fits ready -> (length (rb_batch a) <= H3_RX_BATCH_SIZE)%nat ->
  exists consumed rest a', ready = consumed ++ rest /\ drain_frames MAX_DATAGRAM_SIZE ready a = Ret (a', rest) /\
    holds c (fs ++ consumed) a' /\ (length (rb_batch a') <= H3_RX_BATCH_SIZE)%nat /\
    (rest = [] \/ length (rb_batch a') = H3_RX_BATCH_SIZE).
Proof.
  intros Ha Hfit. revert fs a Ha. induction Hfit as [| f ready Hf _ IH]; intros fs a Ha Hlen; cbn [drain_frames].
  - exists [], [], a. rewrite (app_nil_r fs). split_and!; auto.
  - case_decide as Hlt; [| exists [], (f :: ready), a; rewrite (app_nil_r fs); split_and!; [done | done | done | done | right; lia]].
    destruct (handle_inbound_frame_holds c fs a f Ha Hf) as (a1 & -> & Ha1). cbn [mbind outcome_bind].
    assert (length (rb_batch a1) <= S (length (rb_batch a)))%nat as Hl.
    { destruct Ha as [Hb _], Ha1 as [Hb1 _]. apply (f_equal length) in Hb, Hb1. rewrite length_fmap in Hb, Hb1.
      rewrite Hb, Hb1, omap_app, length_app. cbn. destruct (frame_payload f); cbn; lia. }
    destruct (IH (fs ++ [f]) a1 Ha1 ltac:(lia)) as (consumed & rest & a2 & -> & Hd & Ha2 & H1 & H2).
    exists (f :: consumed), rest, a2. rewrite <- app_assoc in Ha2. split_and!; auto.
Qed.

Context {M : Mpsc (list PooledBuf)} {HM : MpscLaws M}.

(** The receive actor loses nothing: of the frames that are ready, those it takes are
    forwarded to the router in one batch of at most 128 packets, in order and byte for
    byte without the Context ID, a frame is left only when the batch is full, and every
    taken frame is counted once, as a success, as an invalid frame, or as dropped
    when the router is gone. *)
Theorem fixture_rx_burst rx ingress_tx first ready st :
  Forall fits (first :: ready) ->
  exists consumed rest batch turn qs, ready = consumed ++ rest /\
    h3_rx_step MAX_DATAGRAM_SIZE rx ingress_tx (RxFrames first ready) st = Ret turn /\
    buf_bytes <$> batch = omap frame_payload (first :: consumed) /\ (length batch <= H3_RX_BATCH_SIZE)%nat /\
    (rest = [] \/ length batch = H3_RX_BATCH_SIZE) /\ waits qs /\
    let '(n, b) := batch_stats (buf_bytes <$> batch) in
    let counted ops := foldl run_op (rl_counters st) (frame_drops (first :: consumed) ++ qs ++ ops) in
    match turn with
    | RxGo st' rest' => rest' = rest /\ sent (rl_world st) [(ingress_tx, batch)] (rl_world st') /\
        rl_counters st' = counted [OpSuccess n b]
    | RxReturn st' => is_closed (rl_world st') ingress_tx = true /\ sent (rl_world st) [] (rl_world st') /\
        rl_counters st' = counted [OpDrop ChannelClosed n b]
    end.
Proof.
  intros [Hf Hr]%Forall_cons. unfold h3_rx_step.
  destruct (handle_inbound_frame_holds (rl_counters st) [] {| rb_batch := []; rb_pkts := 0; rb_bytes := 0; rb_counters := rl_counters st |}
    first) as (a1 & -> & Ha1); [by repeat constructor | done |]. cbn [mbind outcome_bind].
  assert (Hl1 : (length (rb_batch a1) <= 1)%nat).
  { destruct Ha1 as [Hb _]. apply (f_equal length) in Hb. rewrite length_fmap in Hb. rewrite Hb. cbn. destruct (frame_payload first); cbn; lia. }
  destruct (drain_frames_holds (rl_counters st) ready [first] a1 Ha1 Hr) as (consumed & rest & a & -> & -> & Ha & Hlen & Hfull);
    [unfold H3_RX_BATCH_SIZE; lia |]. cbn [mbind outcome_bind app] in *. destruct Ha as (Hb & Hs & Hc & _).
  destruct (send_and_record (rb_counters a) (rl_world st) ingress_tx (rb_batch a) (rb_pkts a) (rb_bytes a)) as [[ok c] w] eqn:Hsend.
  apply send_and_record_ops in Hsend as (qs & Hq & -> & Hsent).
  eexists consumed, rest, (rb_batch a), _, qs. split; [done |]. split; [done |]. rewrite Hb, <- Hs, Hc, <- foldl_app.
  split_and!; [done | done | done | done |]. by destruct ok; cbn; destruct_and?; split_and?.
Qed.
End rx_facts.

(** ** Lemmas: sending *)

(** Packets and bytes the operations count as sent. *)
Definition op_success (ops : list CounterOp) : Z * Z :=
  foldr (fun op n => match op with OpSuccess k b => (k + n.1, b + n.2) | _ => n end) (0, 0) ops.

Lemma op_success_app o1 o2 :
  op_success (o1 ++ o2) = ((op_success o1).1 + (op_success o2).1, (op_success o1).2 + (op_success o2).2).
Proof.
  induction o1 as [| op o1 IH]; [cbn [app]; change (op_success []) with (0, 0); destruct (op_success o2); cbn; f_equal; lia |]. unfold op_success in *. cbn. rewrite IH. destruct op; cbn; f_equal; lia.
Qed.

Section tx_facts.
Context {B : BufLib} {HB : BufLaws B} {M : Mpsc OutboundFrame} {HM : MpscLaws M}.
Context (inner_tx : Sender) (flow_id : Z).

(** The packets with room for the Context ID, and their frames. *)
Definition sendable (packets : list PooledBuf) : list PooledBuf := filter (fun p => (1 <= headroom p)%nat) packets.

Definition datagram (p : PooledBuf) : OutboundFrame := FrameDatagram (CONTEXT_ID_IP :: buf_bytes p) flow_id.

Definition outgoing (packets : list PooledBuf) : list (Sender * OutboundFrame) := (fun p => (inner_tx, datagram p)) <$> packets.

Lemma outgoing_app l1 l2 : outgoing (l1 ++ l2) = outgoing l1 ++ outgoing l2.
Proof. apply fmap_app. Qed.

(** [s] continues [s0] after [ps] were sent and [dropped] had no room. *)
Definition continues (s0 s : TxSegment) (ps : list PooledBuf) (dropped : Z) : Prop :=
  exists ops, seg_counters s = foldl run_op (seg_counters s0) ops /\
    ((op_success ops).1 + seg_pkts s, (op_success ops).2 + seg_bytes s) =
    (seg_pkts s0 + (batch_stats (buf_bytes <$> ps)).1, seg_bytes s0 + (batch_stats (buf_bytes <$> ps)).2) /\
    op_reason NoHeadroom ops = dropped /\ 0 <= seg_pkts s /\ (seg_pkts s = 0 -> seg_bytes s = 0).

Lemma continues_trans s0 s1 s2 ps1 ps2 d1 d2 :
  continues s0 s1 ps1 d1 -> continues s1 s2 ps2 d2 -> continues s0 s2 (ps1 ++ ps2) (d1 + d2).
Proof.
  intros (o1 & Hc1 & Hs1 & Hd1 & _) (o2 & Hc2 & Hs2 & Hd2 & Hn). exists (o1 ++ o2).
  rewrite foldl_app, <- Hc1, op_success_app, fmap_app, batch_stats_app, op_reason_app. cbn.
  injection Hs1 as ? ?. injection Hs2 as ? ?. split_and!; [done | f_equal; lia | lia | apply Hn ..].
Qed.

Lemma continues_send s p f :
  0 <= seg_pkts s -> (seg_pkts s = 0 -> seg_bytes s = 0) ->
  f = on_tx_event (zlen (buf_bytes p)) Fast s \/
  (exists d, f = on_tx_event (zlen (buf_bytes p)) (Waited d) (on_tx_event (zlen (buf_bytes p)) FullEvent s)) ->
  continues s f [p] 0.
Proof.
  intros Hp Hz [-> | [d ->]]; unfold continues; change (buf_bytes <$> [p]) with [buf_bytes p]; rewrite batch_stats_one; cbn.
  - exists []. cbn. split_and!; [done | | done | lia | lia]. f_equal; lia.
  - unfold flush_segment. case_decide as Hpos.
    + exists [OpSuccess (seg_pkts s) (seg_bytes s); OpQueueFull d]. cbn. split_and!; [done | | done | lia | lia].
      f_equal; lia.
    + exists [OpQueueFull d]. cbn. split_and!; [done | | done | lia | lia]. rewrite Hz by lia.
      f_equal; lia.
Qed.

Lemma tx_packets_spec packets s w r s' w' :
  0 <= seg_pkts s -> (seg_pkts s = 0 -> seg_bytes s = 0) ->
  tx_packets inner_tx flow_id packets s w = (r, s', w') ->
  match r with
  | Ok _ => sent w (outgoing (sendable packets)) w' /\
      continues s s' (sendable packets) (zlen packets - zlen (sendable packets))
  | Err _ => is_closed w' inner_tx = true /\
      exists pre p post, sendable packets = pre ++ p :: post /\ sent w (outgoing pre) w'
  end.
Proof.
  revert s w. induction packets as [| p packets IH]; intros s w Hp Hz; cbn [tx_packets].
  - intros [= <- <- <-]. split; [apply sent_refl |]. exists []. cbn. split_and!; [done | | done | lia | done].
    f_equal; unfold zlen; cbn; lia.
  - pose proof (add_prefix_law p [CONTEXT_ID_IP]) as Hadd. cbn [length] in Hadd. unfold sendable. rewrite filter_cons. fold (sendable packets).
    case_decide as Hroom.
    + destruct (add_prefix p [CONTEXT_ID_IP]) as [ok p1]. cbn in Hadd. destruct Hadd as (-> & Hbytes & _).
      destruct (send_with_backpressure w inner_tx (FrameDatagram (buf_bytes p1) flow_id) _ s) as [[r1 s1] w1] eqn:Hsend.
      apply send_with_backpressure_spec in Hsend. rewrite Hbytes in Hsend. fold (datagram p) in Hsend.
      destruct r1 as [u | e].
      * destruct Hsend as [Hsent Hs1]. assert (Hcont : continues s s1 [p] 0).
        { apply continues_send; [done | done |]. destruct Hs1 as [-> | (d & _ & ->)]; eauto. }
        intros Hrun. pose proof Hcont as (_ & _ & _ & _ & Hp1 & Hz1). apply (IH s1 w1 Hp1 Hz1) in Hrun.
        destruct r as [u' | e].
        -- destruct Hrun as [Hsent' Hcont']. split; [by apply (sent_trans _ [(inner_tx, datagram p)] _ _ _ Hsent) |].
           rewrite !zlen_cons. replace (1 + zlen packets - (1 + zlen (sendable packets))) with (0 + (zlen packets - zlen (sendable packets))) by lia.
           by apply (continues_trans s s1 s' [p]).
        -- destruct Hrun as (Hc & pre & q & post & -> & Hpre). split; [done |]. exists (p :: pre), q, post.
           split; [done |]. by apply (sent_trans _ [(inner_tx, datagram p)] _ _ _ Hsent).
      * destruct Hsend as (_ & Hsent & Hc & _). intros [= <- <- <-]. split; [done |]. exists [], p, (sendable packets). by split.
    + destruct (add_prefix p [CONTEXT_ID_IP]) as [ok p1]. injection Hadd as -> ->. intros Hrun.
      apply (IH _ w) in Hrun; [| done | done]. destruct r as [u | e]; [| done]. destruct Hrun as [Hsent Hcont]. split; [done |].
      rewrite zlen_cons. replace (1 + zlen packets - zlen (sendable packets)) with (1 + (zlen packets - zlen (sendable packets))) by lia.
      eapply (continues_trans s _ s' []); [| exact Hcont].
      exists [OpDrop NoHeadroom 1 (zlen (buf_bytes p))]. cbn. split_and!; [done | | done | done | done].
      f_equal; unfold zlen; cbn; lia.
Qed.

(** The send actor accounts for every packet of a batch.  While the driver's channel is
    open, the packets with room for the Context ID are sent in order, each as one
    datagram of the connection's flow, the counters grow by exactly these packets
    and bytes whatever the segments the full queue cut the batch into, and the others
    are counted as having no headroom; when the channel is closed, the packets in
    front of the first that was refused were sent. *)
Theorem fixture_tx_batch packets c w r c' w' :
  tx_batch inner_tx flow_id packets c w = (r, c', w') ->
  match r with
  | Ok _ => sent w (outgoing (sendable packets)) w' /\
      exists ops, c' = foldl run_op c ops /\ op_success ops = batch_stats (buf_bytes <$> sendable packets) /\
        op_reason NoHeadroom ops = zlen packets - zlen (sendable packets)
  | Err _ => is_closed w' inner_tx = true /\
      exists pre p post, sendable packets = pre ++ p :: post /\ sent w (outgoing pre) w'
  end.
Proof.
  unfold tx_batch. destruct (tx_packets inner_tx flow_id packets _ w) as [[r1 s1] w1] eqn:Hrun.
  apply tx_packets_spec in Hrun; [| done | done]. destruct r1 as [u | e]; intros [= <- <- <-]; [| exact Hrun].
  destruct Hrun as [Hsent (ops & Hc & Hs & Hd & Hp & Hz)]. split; [done |]. cbn in Hc.
  destruct (batch_stats (buf_bytes <$> sendable packets)) as [n b]. destruct (op_success ops) as [n' b'] eqn:Hops. cbn in Hs.
  injection Hs as Hn Hb. unfold flush_segment. case_decide.
  - exists (ops ++ [OpSuccess (seg_pkts s1) (seg_bytes s1)]). rewrite foldl_app, <- Hc, op_success_app, op_reason_app, Hops. cbn.
    split_and!; [done | f_equal; lia | lia].
  - exists ops. rewrite Hops. split_and!; [done | | done]. f_equal; lia.
Qed.
End tx_facts.

(** ** Datagrams between the stacks *)

(** The driver's framing of the datagrams of a flow. *)
Class FlowLib : Type := {
  flow_wire : Z -> list Z -> option (list Z);     (* a datagram of the flow, on the wire *)
  flow_read : list Z -> option (Z * list Z);      (* its flow and the rest *)
}.

(** RFC 9297, section 2.1: the Quarter Stream ID as a variable-length integer, followed by
    the payload. *)
Class FlowLaws {L : VarintLib} (F : FlowLib) : Prop := {
  flow_wire_law flow qsi payload : put_varint flow = Some qsi -> flow_wire flow payload = Some (qsi ++ payload);
  flow_read_law flow qsi payload : put_varint flow = Some qsi -> flow_read (qsi ++ payload) = Some (flow, payload);
}.

Module PlainFlow.
#[export] Instance lib (L : VarintLib) : FlowLib := {|
  flow_wire flow payload := qsi ← put_varint flow; Some (qsi ++ payload);
  flow_read d :=
    b ← head d;
    flow ← get_varint d;
    Some (flow, drop (varint_parse_len b) d);
|}.
End PlainFlow.

Lemma PlainFlow_laws {L : VarintLib} {HL : VarintLaws L} :
  (forall v, is_Some (put_varint v) -> 0 <= v < 2 ^ 62) -> FlowLaws (PlainFlow.lib L).
Proof.
  intros Hdom. split; intros flow qsi payload Hq; cbn.
  - by rewrite Hq.
  - destruct (put_varint_law flow) as (b & bs & Hp & Hl & Hb & Hg); [apply Hdom; by rewrite Hq |].
    rewrite Hq in Hp. injection Hp as ->. cbn. rewrite Hg. cbn. rewrite Hb, <- Hl.
    by rewrite app_comm_cons, drop_app_length.
Qed.

(** Frames that all carry a packet. *)
Definition packet_frame (p : list Z) : InboundFrame := InDatagram (CONTEXT_ID_IP :: p).

Lemma packet_frames_payload (acc : list (list Z)) : omap frame_payload (packet_frame <$> acc) = acc.
Proof. induction acc as [| p acc IH]; [done |]. cbn. by rewrite IH. Qed.

Section datagrams.
Context {L : VarintLib} {HL : VarintLaws L} {B : BufLib} {HB : BufLaws B} {F : FlowLib} {HF : FlowLaws F}.

(** The stacks read each other's datagrams.  What the production engine frames for
    the CONNECT stream, the fixture's driver delivers on the stream's flow and the
    fixture's receiver takes as exactly the packet; what the fixture's sender hands its
    driver for that flow, the production codec of the stream accepts and strips to
    exactly the packet, except that it drops the empty packets the fixture accepts. *)
Theorem datagram_interop sid codec qsi pkt :
  0 <= sid <= u64_max -> codec_new sid = Ret codec -> qsi_bytes codec = Ret qsi -> (9 <= headroom pkt)%nat ->
  (exists framed payload, prepend codec pkt = Ret (true, framed) /\ flow_read (buf_bytes framed) = Some (sid / 4, payload) /\
    frame_payload (InDatagram payload) = Some (buf_bytes pkt)) /\
  (exists data wire, datagram (sid / 4) pkt = FrameDatagram data (sid / 4) /\ flow_wire (sid / 4) data = Some wire /\
    forall received, buf_bytes received = wire -> Forall is_byte wire ->
      exists stripped, strip codec received = Ret (bool_decide (buf_bytes pkt <> []), stripped) /\
        (buf_bytes pkt <> [] -> buf_bytes stripped = buf_bytes pkt)).
Proof.
  intros Hs Hc Hq Hroom.
  destruct (codec_new_spec sid Hs) as (c' & b & bs & Hc' & Hq' & _ & _ & _ & _ & Hput & _).
  rewrite Hc in Hc'. injection Hc' as <-. rewrite Hq in Hq'. injection Hq' as ->. split.
  - destruct (prepend_spec sid codec (b :: bs) pkt Hs Hc Hq) as (ok & framed & Hp & Hok). destruct (Hok Hroom) as [-> Hb].
    exists framed, (CONTEXT_ID_IP :: buf_bytes pkt). rewrite Hb. split_and!; [done | by apply flow_read_law | done].
  - exists (CONTEXT_ID_IP :: buf_bytes pkt), ((b :: bs) ++ CONTEXT_ID_IP :: buf_bytes pkt).
    split_and!; [done | by apply flow_wire_law |]. intros received Hr Hbytes. rewrite <- Hr in Hbytes.
    destruct (strip_spec sid codec (b :: bs) received Hs Hc Hq Hbytes) as (ok & p' & Hst & Hiff & Hyes & _).
    exists p'. rewrite Hst. assert (Hok : ok = bool_decide (buf_bytes pkt <> [])).
    { case_bool_decide as Hne; [apply Hiff; by exists (buf_bytes pkt) |]. apply not_true_is_false. rewrite Hiff, Hr.
      intros (payload & Hp & He). apply (inj (app (b :: bs))) in He. injection He as He. congruence. }
    rewrite Hok. split; [done |]. intros Hne. assert (ok = true) as Ht by (rewrite Hok; by case_bool_decide).
    specialize (Hyes Ht). rewrite Hr in Hyes. apply (inj (app (b :: bs))) in Hyes. by injection Hyes.
Qed.

(** The packets of a batch that the stream can carry and both receivers can take. *)
Definition carried (MAX_DATAGRAM_SIZE max : nat) (qsi : list Z) (p : list Z) : Prop :=
  p <> [] /\ Forall is_byte (qsi ++ CONTEXT_ID_IP :: p) /\
  (length (qsi ++ CONTEXT_ID_IP :: p) <= room MAX_DATAGRAM_SIZE max)%nat /\
  (length p + HEADROOM <= MAX_PACKET_BUFFER_SIZE)%nat.

Section tunnel.
Context {Q : QuicLib} {HQ : QuicLaws Q} (MAX_DATAGRAM_SIZE max : nat).
Context {MO : Mpsc OutboundFrame} {HMO : MpscLaws MO} {MI : Mpsc (list PooledBuf)} {HMI : MpscLaws MI}.
Context (sid : Z) (codec : ConnectIpDatagramCodec) (qsi : list Z).
Hypothesis Hmax : (MAX_DATAGRAM_SIZE <= MAX_PACKET_BUFFER_SIZE)%nat.
Hypothesis Hsid : 0 <= sid <= u64_max.
Hypothesis Hcodec : codec_new sid = Ret codec.
Hypothesis Hqsi : qsi_bytes codec = Ret qsi.

Lemma stream_flow : put_varint (sid / 4) = Some qsi.
Proof.
  destruct (codec_new_spec sid Hsid) as (c' & b & bs & Hc' & Hq' & _ & _ & _ & _ & Hput & _).
  rewrite Hcodec in Hc'. injection Hc' as <-. rewrite Hqsi in Hq'. by injection Hq' as ->.
Qed.

Lemma sendable_all (packets : list PooledBuf) : Forall (fun p => (9 <= headroom p)%nat) packets -> sendable packets = packets.
Proof.
  induction 1 as [| p packets Hp _ IH]; [done |]. unfold sendable in *. rewrite filter_cons, decide_True by lia. by rewrite IH.
Qed.

(** The fixture's receiver takes a burst of at most 128 packets whole. *)
Lemma rx_packet_frames rx tx st acc p :
  Forall (fun p => (length p + HEADROOM <= MAX_PACKET_BUFFER_SIZE)%nat) (p :: acc) -> (length (p :: acc) <= H3_RX_BATCH_SIZE)%nat ->
  exists batch turn, h3_rx_step MAX_DATAGRAM_SIZE rx tx (RxFrames (packet_frame p) (packet_frame <$> acc)) st = Ret turn /\
    buf_bytes <$> batch = p :: acc /\
    match turn with
    | RxGo st' rest => rest = [] /\ sent (rl_world st) [(tx, batch)] (rl_world st')
    | RxReturn st' => is_closed (rl_world st') tx = true
    end.
Proof.
  intros Hfit Hlen.
  destruct (fixture_rx_burst MAX_DATAGRAM_SIZE Hmax rx tx (packet_frame p) (packet_frame <$> acc) st)
    as (consumed & rest & batch & turn & qs & Hsplit & Hstep & Hb & _ & Hfull & _ & Hturn).
  { change (packet_frame p :: (packet_frame <$> acc)) with (packet_frame <$> (p :: acc)). apply Forall_fmap.
    eapply Forall_impl; [exact Hfit |]. intros q Hq p' [= <-]. exact Hq. }
  change (omap frame_payload (packet_frame p :: consumed)) with (p :: omap frame_payload consumed) in Hb.
  assert (Hacc : acc = omap frame_payload consumed ++ omap frame_payload rest)
    by (rewrite <- omap_app, <- Hsplit; symmetry; apply packet_frames_payload).
  assert (rest = []) as ->.
  { destruct Hfull as [| Hfull]; [done |]. apply (f_equal length) in Hb. rewrite length_fmap, Hfull in Hb. cbn [length] in Hb, Hlen.
    apply (f_equal length) in Hsplit. rewrite length_fmap, length_app in Hsplit.
    pose proof (omap_length frame_payload consumed) as Hom. destruct rest; [done |]. cbn [length] in Hsplit. unfold H3_RX_BATCH_SIZE in *. lia. }
  exists batch, turn. split; [done |]. split; [rewrite Hb; f_equal; cbn in Hacc; by rewrite app_nil_r in Hacc |].
  destruct (batch_stats (buf_bytes <$> batch)) as [n b]. destruct turn; naive_solver.
Qed.

End tunnel.
End datagrams.

(** ** Witness: one packet each way *)

Lemma Rfc9000_flow_laws : FlowLaws (L := Rfc9000.lib) (PlainFlow.lib Rfc9000.lib).
Proof. apply PlainFlow_laws. intros v [bs Hv]. cbn in Hv. by case_decide. Qed.


(** A datagram of the Context ID alone is an empty packet for the fixture; the production
    codec refuses it. *)
Lemma empty_packet_example :
  frame_payload (InDatagram [CONTEXT_ID_IP]) = Some [] /\
  strip (L := Rfc9000.lib) (B := HeadBuf.lib) sample_codec {| HeadBuf.free := 0; HeadBuf.data := [1; 0] |} =
    Ret (false, {| HeadBuf.free := 0; HeadBuf.data := [1; 0] |}).
Proof. by vm_compute. Qed.

(** A burst of invalid frames is forwarded as an empty batch and counted as one. *)
Lemma empty_batch_example rx :
  match h3_rx_step (B := HeadBuf.lib) (M := ListChannels.lib) 64 rx 7%nat (RxFrames (InDatagram [1]) [])
           (rx_loop_new (M := ListChannels.lib) (ListChannels.empty (V := list (@PooledBuf HeadBuf.lib)))) with
  | Ret (RxGo st _) => accepted (rl_world st) = [(7%nat, [])] /\ batches (succeeded (stats (rl_counters st))) = 1
  | _ => False
  end.
Proof. by vm_compute. Qed.
