(* ===== verification/Api.v ===== *)
(** * Management API

    Models [src/src/api.rs]: the routing of a request by method and path, the four
    handlers, and the accept loop.  Serving HTTP is hyper's: a request is its method,
    its path and the result of collecting its body within [MAX_BODY_SIZE].  YAML is
    serde_yaml's and the metrics text prometheus-client's (class [ApiLib]).  A handler
    either answers at once or sends an event to the orchestrator and answers from the
    reply; [serve] composes it with the orchestrator of [Orch]. *)

From stdpp Require Import countable.
From S2P Require Import Prelude Net Config Channel Metrics Routing Events Udp Orch.
#[local] Open Scope Z_scope.

Definition MAX_BODY_SIZE : Z := 1024 * 1024.

Inductive Method : Type := GET | POST | DELETE | OtherMethod.

Record Request : Type := { req_method : Method; req_path : rstr; req_body : result (list Z) rstr }.

Record Response : Type := { status : Z; content_type : option rstr; resp_body : rstr }.

Definition OK : Z := 200.
Definition BAD_REQUEST : Z := 400.
Definition NOT_FOUND : Z := 404.
Definition INTERNAL_SERVER_ERROR : Z := 500.

Definition response (st : Z) (body : rstr) : Response :=
  {| status := st; content_type := None; resp_body := body |}.

Class ApiLib (L : IpNetLib) : Type := {
  yaml_config : Config -> result rstr rstr;              (* serde_yaml::to_string *)
  yaml_post : list Z -> result (list Peer) rstr;         (* from_slice::<PostPayload> *)
  yaml_delete : list Z -> result (list rstr) rstr;       (* from_slice::<DeletePayload>, ids *)
  metrics_text : gmap Labels Metrics -> rstr;            (* encode_metrics_snapshot *)
}.

Section api.
Context {L : IpNetLib} {T : TrieLib L} {A : ApiLib L}.

Definition yaml_config_response (config : Config) : Response :=
  match yaml_config config with
  | Ok yaml => {| status := OK; content_type := Some (lit "application/yaml"); resp_body := yaml |}
  | Err e => response INTERNAL_SERVER_ERROR (lit "serialization error: " ++ e)
  end.

(** What a handler does: answer, or send an event carrying its reply channel and
    answer from the reply ([None]: it was dropped). *)
Inductive ApiAction : Type :=
| Respond (r : Response)
| SendAndAwait (make_event : ReplyTx -> Event) (answer : option Reply -> Response).

(** [send_and_await]: the two failures. *)
Definition unavailable : Response := response INTERNAL_SERVER_ERROR (lit "orchestrator unavailable").
Definition dropped_reply : Response := response INTERNAL_SERVER_ERROR (lit "orchestrator dropped reply").

Definition handle_get_config : ApiAction :=
  SendAndAwait (fun reply_tx => GetConfig reply_tx)
    (fun r => match r with Some (ReplyConfig config) => yaml_config_response config | _ => dropped_reply end).

(** The answer to a change of the peers. *)
Definition peers_response (r : option Reply) : Response :=
  match r with
  | Some (ReplyPeers (Ok config)) => yaml_config_response config
  | Some (ReplyPeers (Err e)) => response BAD_REQUEST (config_error_display (Validation e))
  | _ => dropped_reply
  end.

Definition handle_post_config (req : Request) : ApiAction :=
  match req_body req with
  | Err e => Respond (response BAD_REQUEST (lit "body read error: " ++ e))
  | Ok body =>
      match yaml_post body with
      | Err e => Respond (response BAD_REQUEST (lit "invalid YAML: " ++ e))
      | Ok peers => SendAndAwait (PostConfig peers) peers_response
      end
  end.

Definition handle_delete_config (req : Request) : ApiAction :=
  match req_body req with
  | Err e => Respond (response BAD_REQUEST (lit "body read error: " ++ e))
  | Ok body =>
      match yaml_delete body with
      | Err e => Respond (response BAD_REQUEST (lit "invalid YAML: " ++ e))
      | Ok peer_ids => SendAndAwait (DeleteConfig peer_ids) peers_response
      end
  end.

Definition handle_get_metrics : ApiAction :=
  SendAndAwait (fun reply_tx => GetMetricsSnapshot reply_tx)
    (fun r => match r with
     | Some (ReplyMetrics snapshot) =>
         {| status := OK;
            content_type := Some (lit "application/openmetrics-text; version=1.0.0; charset=utf-8");
            resp_body := metrics_text snapshot |}
     | _ => dropped_reply end).

(** The path below the configured base; [None]: not below it. *)
Definition relative_path (api_path path : rstr) : option rstr :=
  let base := trim_end_matches (fun c => c =? 47) api_path in
  if decide (base = []) then Some path else
  match strip_prefix base path with
  | Some rest =>
      if decide (rest = []) then Some (lit "/")
      else if decide (head rest = Some 47) then Some rest else None
  | None => None
  end.

Definition handle_request (api_path : rstr) (req : Request) : ApiAction :=
  match relative_path api_path (req_path req) with
  | None => Respond (response NOT_FOUND (lit "not found"))
  | Some relative =>
      let config := bool_decide (relative = lit "/config" \/ relative = lit "/config/") in
      let metrics := bool_decide (relative = lit "/metrics" \/ relative = lit "/metrics/") in
      match req_method req, config, metrics with
      | GET, true, _ => handle_get_config
      | POST, true, _ => handle_post_config req
      | DELETE, true, _ => handle_delete_config req
      | GET, _, true => handle_get_metrics
      | _, _, _ => Respond (response NOT_FOUND (lit "not found"))
      end
  end.

(** The accept loop of [spawn_api]: [None] is the stop of [run_until_stopped]; every
    connection is an actor of its own. *)
Inductive ApiNext : Type :=
| SpawnConnection (remote : SocketAddr)
| ApiExit (r : result unit anyhow).

Definition api_accept_step (accepted : option (result SocketAddr rstr)) : ApiNext :=
  match accepted with
  | None => ApiExit (Ok tt)
  | Some (Err e) => ApiExit (Err [lit "accept management API connection"; e])
  | Some (Ok remote) => SpawnConnection remote
  end.

(** The reply on channel [reply_tx] among the orchestrator's outputs. *)
Definition find_reply (reply_tx : ReplyTx) (outs : list OrchOut) : option Reply :=
  head (omap (fun out => match out with
    | SendReply tx r => if decide (tx = reply_tx) then Some r else None
    | _ => None end) outs).

(** An action with an orchestrator that handles the event next ([None]: its inbox is
    closed). *)
Definition run_action (now : Z) (closed : Sender -> bool) (reply_tx : ReplyTx) (action : ApiAction)
    (orch : option Orchestrator) : outcome (Response * option Orchestrator * list OrchOut) :=
  match action, orch with
  | Respond r, _ => Ret (r, orch, [])
  | SendAndAwait _ _, None => Ret (unavailable, None, [])
  | SendAndAwait make_event answer, Some o =>
      '(_, o, outs) ← handle_event now closed (make_event reply_tx) o;
      Ret (answer (find_reply reply_tx outs), Some o, outs)
  end.

Definition serve (now : Z) (closed : Sender -> bool) (api_path : rstr) (reply_tx : ReplyTx) (req : Request)
    (orch : option Orchestrator) : outcome (Response * option Orchestrator * list OrchOut) :=
  run_action now closed reply_tx (handle_request api_path req) orch.
End api.

(** ** Lemmas *)

Section facts.
Context {L : IpNetLib} {T : TrieLib L} {A : ApiLib L}.

(** The request is for endpoint [name], below the base path and with or without a
    trailing slash. *)
Definition names_endpoint (api_path path name : rstr) : Prop :=
  let base := trim_end_matches (fun c => c =? 47) api_path in
  path = base ++ lit "/" ++ name \/ path = base ++ lit "/" ++ name ++ lit "/".

Lemma relative_path_below api_path path r :
  head r = Some 47 -> r <> lit "/" ->
  relative_path api_path path = Some r <-> path = trim_end_matches (fun c => c =? 47) api_path ++ r.
Proof.
  intros Hh Hne. unfold relative_path. cbv zeta. case_decide as Hb.
  - rewrite Hb. split; [by intros [= ->] | by intros ->].
  - destruct (strip_prefix _ path) as [rest |] eqn:Hs.
    + apply strip_prefix_Some in Hs as ->. split.
      * case_decide as H1; [by intros [= <-] |]. case_decide; [by intros [= ->] | done].
      * intros ->%app_inv_head. rewrite decide_False by (by intros ->). by rewrite decide_True.
    + split; [done |]. intros Hp. apply strip_prefix_Some in Hp. congruence.
Qed.

(** The two endpoints, as [handle_request] tests them. *)
Lemma endpoint_test api_path path (name : rstr) relative :
  name <> [] -> relative_path api_path path = Some relative ->
  names_endpoint api_path path name <-> relative = lit "/" ++ name \/ relative = lit "/" ++ name ++ lit "/".
Proof.
  intros Hn Hr. unfold names_endpoint. cbv zeta.
  rewrite <- (relative_path_below api_path path (lit "/" ++ name)) by (done || by destruct name).
  rewrite <- (relative_path_below api_path path (lit "/" ++ name ++ lit "/")) by (done || by destruct name).
  rewrite Hr. split; intros [? | ?]; simplify_eq; auto.
Qed.

Lemma no_relative_path api_path path name :
  name <> [] -> relative_path api_path path = None -> ~ names_endpoint api_path path name.
Proof.
  intros Hn Hr [Hp | Hp]; apply relative_path_below in Hp; [congruence | done | by destruct name | congruence
    | done | by destruct name].
Qed.

Lemma find_reply_last tx r outs :
  Forall (fun out => match out with SendReply _ _ => False | _ => True end) outs ->
  find_reply tx (outs ++ [SendReply tx r]) = Some r.
Proof.
  unfold find_reply. induction 1 as [| out outs Ho _ IH]; cbn; [by rewrite decide_True |].
  by destruct out.
Qed.

Lemma find_reply_only tx r : find_reply tx [SendReply tx r] = Some r.
Proof. by apply (find_reply_last tx r []). Qed.

Lemma sync_no_reply o : Forall (fun out => match out with SendReply _ _ => False | _ => True end) (sync_peers_to_actors o).
Proof. unfold sync_peers_to_actors. repeat case_match; repeat constructor. Qed.

(** The answer to a change of the peers by [parse], whose effect on the peers is
    [effect] and which is accepted when [valid]. *)
Definition change_answered {P} (body : result (list Z) rstr) (parse : list Z -> result P rstr)
    (valid : P -> Prop) (effect : P -> Orchestrator -> Prop) (o : Orchestrator) (resp : Response) (o' : Orchestrator) : Prop :=
  match body with
  | Err _ => status resp = BAD_REQUEST /\ o' = o
  | Ok b =>
      match parse b with
      | Err _ => status resp = BAD_REQUEST /\ o' = o
      | Ok p =>
          (valid p -> effect p o' /\ resp = yaml_config_response (config_snapshot o')) /\
          (~ valid p -> status resp = BAD_REQUEST /\ o' = o)
      end
  end.

Lemma post_answered now closed reply_tx req o :
  exists resp o' outs, run_action now closed reply_tx (handle_post_config req) (Some o) = Ret (resp, Some o', outs) /\
    change_answered (req_body req) yaml_post (fun ps => exists merged, posted (config <$> peers o) ps merged /\ peers_valid ((map_to_list merged).*2))
      (fun ps o' => posted (config <$> peers o) ps (config <$> peers o')) o resp o'.
Proof.
  unfold handle_post_config, change_answered. destruct (req_body req) as [b | e]; [| by eexists _, _, _].
  destruct (yaml_post b) as [ps | e]; [| by eexists _, _, _]. unfold run_action. cbn [handle_event].
  unfold Orch.handle_post_config. pose proof (validate_peers_iff ((map_to_list (merged_peers o ps)).*2)) as Hv.
  destruct (validate_peers _) as [[] | errs]; cbn [mbind outcome_bind].
  - eexists _, _, _. split; [done |]. rewrite find_reply_last by apply sync_no_reply. split.
    + intros _. split; [| done]. cbn [peers with_peers]. rewrite upsert_fold_config. apply merged_posted.
    + intros Hn. destruct Hn. exists (merged_peers o ps). split; [apply merged_posted | by apply Hv].
  - eexists _, _, _. split; [done |]. split.
    { intros (m & Hm & Hp). rewrite (posted_unique _ _ _ _ Hm (merged_posted o ps)) in Hp. by apply Hv in Hp. }
    intros _. rewrite (find_reply_last _ _ []) by constructor. done.
Qed.

Lemma delete_answered now closed reply_tx req o :
  exists resp o' outs, run_action now closed reply_tx (handle_delete_config req) (Some o) = Ret (resp, Some o', outs) /\
    change_answered (req_body req) yaml_delete (fun _ => True)
      (fun ids o' => forall id, peers o' !! id = if decide (id ∈ ids) then None else peers o !! id) o resp o'.
Proof.
  unfold handle_delete_config, change_answered. destruct (req_body req) as [b | e]; [| by eexists _, _, _].
  destruct (yaml_delete b) as [ids | e]; [| by eexists _, _, _]. unfold run_action. cbn [handle_event].
  unfold Orch.handle_delete_config. cbv zeta. cbn [mbind outcome_bind].
  eexists _, _, _. split; [done |]. rewrite find_reply_last by (case_decide; [apply sync_no_reply | constructor]).
  split; [| tauto]. intros _. split; [| done]. intros id. cbn [peers with_peers]. apply delete_fold_lookup.
Qed.

(** ** Properties *)

(** C28: every request is answered, and only valid requests change anything.  A request
    for the configuration or the metrics below the base path gets the corresponding
    answer; a new set of peers is installed exactly when its body parses and the merged
    peers are valid, deleted peers are gone, and the answer is then the configuration
    now in force; a malformed or invalid change is refused with status 400 and any
    other request with 404, and neither changes the orchestrator. *)
Theorem api_serves now closed api_path reply_tx req o :
  exists resp o' outs, serve now closed api_path reply_tx req (Some o) = Ret (resp, Some o', outs) /\
  (names_endpoint api_path (req_path req) (lit "config") ->
     match req_method req with
     | GET => o' = o /\ resp = yaml_config_response (config_snapshot o)
     | POST => change_answered (req_body req) yaml_post
         (fun ps => exists merged, posted (config <$> peers o) ps merged /\ peers_valid ((map_to_list merged).*2))
         (fun ps o' => posted (config <$> peers o) ps (config <$> peers o')) o resp o'
     | DELETE => change_answered (req_body req) yaml_delete (fun _ => True)
         (fun ids o' => forall id, peers o' !! id = if decide (id ∈ ids) then None else peers o !! id) o resp o'
     | OtherMethod => status resp = NOT_FOUND /\ o' = o
     end) /\
  (names_endpoint api_path (req_path req) (lit "metrics") ->
     o' = o /\ match req_method req with
               | GET => status resp = OK /\ resp_body resp = metrics_text (collect_metrics_snapshot o)
               | _ => status resp = NOT_FOUND
               end) /\
  (~ names_endpoint api_path (req_path req) (lit "config") -> ~ names_endpoint api_path (req_path req) (lit "metrics") ->
     status resp = NOT_FOUND /\ o' = o).
Proof.
  unfold serve, handle_request.
  destruct (relative_path api_path (req_path req)) as [relative |] eqn:Hr.
  2: { eexists _, _, _. split; [done |]. split_and!; [intros H | intros H | done];
         by apply (no_relative_path _ _ _) in H. }
  pose proof (endpoint_test _ _ (lit "config") _ ltac:(done) Hr) as Hc.
  pose proof (endpoint_test _ _ (lit "metrics") _ ltac:(done) Hr) as Hm.
  change (lit "/" ++ lit "config") with (lit "/config") in Hc.
  change (lit "/" ++ lit "config" ++ lit "/") with (lit "/config/") in Hc.
  change (lit "/" ++ lit "metrics") with (lit "/metrics") in Hm.
  change (lit "/" ++ lit "metrics" ++ lit "/") with (lit "/metrics/") in Hm. cbv zeta.
  destruct (bool_decide (relative = lit "/config" \/ relative = lit "/config/")) eqn:Ec;
    destruct (bool_decide (relative = lit "/metrics" \/ relative = lit "/metrics/")) eqn:Em;
    [apply bool_decide_eq_true in Ec, Em; destruct Ec as [-> | ->], Em; done | ..].
  - apply bool_decide_eq_true in Ec. apply bool_decide_eq_false in Em.
    destruct (req_method req).
    + eexists _, _, _. split; [done |]. split_and!; [| tauto | tauto]. intros _. split; [done |].
      by rewrite find_reply_only.
    + destruct (post_answered now closed reply_tx req o) as (resp & o' & outs & H1 & H2).
      exists resp, o', outs. split; [done |]. split_and!; tauto.
    + destruct (delete_answered now closed reply_tx req o) as (resp & o' & outs & H1 & H2).
      exists resp, o', outs. split; [done |]. split_and!; tauto.
    + eexists _, _, _. split; [done |]. split_and!; [done | tauto | tauto].
  - apply bool_decide_eq_false in Ec. apply bool_decide_eq_true in Em.
    destruct (req_method req); eexists _, _, _; (split; [done |]); split_and!; try tauto; intros _; split; try done.
    by rewrite find_reply_only.
  - apply bool_decide_eq_false in Ec, Em. destruct (req_method req); eexists _, _, _; (split; [done |]);
      split_and!; try tauto; done.
Qed.
End facts.
