(* ===== verification/Tun.v ===== *)
(** * TUN device

    Models [src/src/tun.rs] on Linux: the buffer wrapper [TunBuf], the address setup of
    [make_tun], the reader and the writer, and the loops of [spawn_tun_rx] and
    [spawn_tun_tx] as step functions on the branch taken.  The device is the tun_rs
    crate's: what a receive delivered is part of the input, and class [TunDevice] holds
    its send operations.  A [PooledBuf] can also grow at its end (class [BufAppend]). *)

From S2P Require Import Prelude Net Config Channel Metrics Routing Events Codec Udp.
#[local] Open Scope Z_scope.

(** [PooledBuf::extend]. *)
Class BufAppend (B : BufLib) : Type := { buf_append : PooledBuf -> list Z -> PooledBuf }.

Class BufAppendLaws {B : BufLib} (E : BufAppend B) : Prop := {
  buf_append_law b d : buf_bytes (buf_append b d) = buf_bytes b ++ d /\ headroom (buf_append b d) = headroom b;
}.

(** [tun_rs::VIRTIO_NET_HDR_LEN] and [IDEAL_BATCH_SIZE]. *)
Class TunConsts : Type := { VIRTIO_NET_HDR_LEN : nat; IDEAL_BATCH_SIZE : nat }.

Section tunbuf.
Context {B : BufLib} {E : BufAppend B} {K : TunConsts} (MAX_DATAGRAM_SIZE : nat).

(** A [TunBuf] is the buffer it wraps. *)
Definition tun_alloc_uninit (mtu : nat) : PooledBuf := alloc_uninit_packet_buf MAX_DATAGRAM_SIZE mtu.

(** [into_pooled], with its assertion. *)
Definition into_pooled (b : PooledBuf) (len : nat) : outcome PooledBuf :=
  if decide (len <= length (buf_bytes b))%nat then Ret (truncate b len) else Panic.

(** [buf_extend]: [copy_from_slice] panics when the lengths differ. *)
Definition buf_extend (b : PooledBuf) (additional : nat) : outcome PooledBuf :=
  let current_len := length (buf_bytes b) in
  if decide (current_len <= MAX_DATAGRAM_SIZE /\ MAX_DATAGRAM_SIZE < current_len + additional)%nat then
    let new_buf := truncate (alloc_uninit_packet_buf MAX_DATAGRAM_SIZE MAX_DATAGRAM_SIZE) current_len in
    if decide (length (buf_bytes new_buf) = current_len) then Ret (buf_write new_buf (buf_bytes b)) else Panic
  else Ret b.

Definition prepend_hdr (b : PooledBuf) : outcome PooledBuf :=
  let zeroed := replicate VIRTIO_NET_HDR_LEN 0 in
  match add_prefix b zeroed with
  | (true, b) => Ret b
  | (false, b) =>
      buf ← alloc_packet_buf MAX_DATAGRAM_SIZE (buf_bytes b);
      match add_prefix buf zeroed with (true, buf) => Ret buf | (false, _) => Panic end
  end.

(** [ExpandBuffer]. *)
Definition buf_resize (b : PooledBuf) (new_len : nat) (val : Z) : outcome PooledBuf :=
  let current := length (buf_bytes b) in
  if decide (new_len <= current)%nat then Ret (truncate b new_len)
  else b ← buf_extend b (new_len - current); Ret (buf_append b (replicate (new_len - current) val)).

Definition buf_extend_from_slice (b : PooledBuf) (src : list Z) : outcome PooledBuf :=
  b ← buf_extend b (length src); Ret (buf_append b src).
End tunbuf.

(** ** Device setup *)

Section setup.
Context {L : IpNetLib} {K : TunConsts}.

Definition split_addrs_by_version (addrs : list IpNet) : list IpNet * list IpNet :=
  foldl (fun vs net => if is_ipv4 (ipnet_addr net) then (vs.1 ++ [net], vs.2) else (vs.1, vs.2 ++ [net]))
    ([], []) addrs.

(** What [make_tun] asks of the [DeviceBuilder], and the addresses it adds to the
    device afterwards. *)
Record DeviceSetup : Type := {
  dev_name : rstr;
  dev_mtu : Z;
  dev_offload : bool;
  dev_tx_queue_len : option Z;
  dev_ipv4 : option IpNet;
  dev_ipv6 : list IpNet;
  dev_extra_ipv4 : list IpNet;
}.

Definition device_setup (local_tun : LocalTun) (tx_queue_len : option Z) (enable_offload : bool) : DeviceSetup :=
  let '(v4_addrs, v6_addrs) := split_addrs_by_version (addrs local_tun) in
  {| dev_name := ifname local_tun; dev_mtu := mtu local_tun; dev_offload := enable_offload;
     dev_tx_queue_len := tx_queue_len; dev_ipv4 := head v4_addrs; dev_ipv6 := v6_addrs;
     dev_extra_ipv4 := drop 1 v4_addrs |}.

(** [TunReader] and [TunWriter] without the device. *)
Record TunHandle : Type := { tun_mtu : nat; tun_name : rstr; tun_offload : bool }.

(** [make_tun]: [build] creates the device, [add] adds an address; [name] and [mtu] are
    what the device answers. *)
Definition make_tun (local_tun : LocalTun) (tx_queue_len : option Z) (enable_offload : bool)
    (build : DeviceSetup -> result unit rstr) (add : IpNet -> result unit rstr)
    (name : result rstr rstr) (dev_mtu : result Z rstr) : result TunHandle rstr :=
  let setup := device_setup local_tun tx_queue_len enable_offload in
  match build setup with
  | Err e => Err e
  | Ok _ =>
      match head (omap (fun net => match add net with Err e => Some e | Ok _ => None end) (dev_extra_ipv4 setup)) with
      | Some e => Err e
      | None =>
          Ok {| tun_mtu := Z.to_nat (match dev_mtu with Ok m => m | Err _ => mtu local_tun end);
                tun_name := match name with Ok n => n | Err _ => ifname local_tun end;
                tun_offload := enable_offload |}
      end
  end.

Definition tun_batch_size (h : TunHandle) : nat := if tun_offload h then IDEAL_BATCH_SIZE else 1.

Definition scratch_buf_size (h : TunHandle) : nat :=
  if tun_offload h then VIRTIO_NET_HDR_LEN + Z.to_nat u16_max else tun_mtu h.
End setup.

(** ** The read loop *)

(** How an iteration of a loop ends. *)
Inductive TunNext (A : Type) : Type :=
| TunGo (a : A)
| TunReturn (r : result unit anyhow).
Arguments TunGo {A} a.
Arguments TunReturn {A} r.

Section rx.
Context {B : BufLib} {M : Mpsc (list PooledBuf)} (MAX_DATAGRAM_SIZE : nat) (io_to_string : IoError -> rstr).

Record TunRxActor : Type := {
  rx_bufs : list PooledBuf;
  rx_counters : Counters;
  rx_world : world;
  rx_emitted : list Metrics;
}.

Definition tun_rx_start (mtu batch_size : nat) (w : world) : TunRxActor :=
  {| rx_bufs := replicate batch_size (tun_alloc_uninit MAX_DATAGRAM_SIZE mtu);
     rx_counters := counters_new Tun Rx; rx_world := w; rx_emitted := [] |}.

(** [TunRecv]: the result of [recv_batch], and the buffers and sizes as it left them. *)
Inductive TunRxInput : Type :=
| TunRecv (r : result nat IoError) (bufs : list PooledBuf) (sizes : list nat)
| TunRxStop
| TunRxTick (owner_open : bool).

(** The loop over the received packets: each buffer taken is replaced by a fresh one. *)
Fixpoint take_packets (mtu : nat) (is_ : list nat) (sizes : list nat) (bufs batch : list PooledBuf) :
    outcome (list PooledBuf * list PooledBuf) :=
  match is_ with
  | [] => Ret (batch, bufs)
  | i :: is_ =>
      size ← index sizes i;
      if decide (0 < size)%nat then
        old ← index bufs i;
        bufs ← index_set bufs i (tun_alloc_uninit MAX_DATAGRAM_SIZE mtu);
        p ← into_pooled old size;
        take_packets mtu is_ sizes bufs (batch ++ [p])
      else take_packets mtu is_ sizes bufs batch
  end.

Definition tun_rx_step (mtu batch_size : nat) (output_tx : Sender) (i : TunRxInput) (a : TunRxActor) :
    outcome (TunNext TunRxActor) :=
  match i with
  | TunRecv (Ok count) bufs sizes =>
      let count := Nat.min count batch_size in
      '(batch, bufs) ← take_packets mtu (seq 0 count) sizes bufs [];
      let with_bufs c w := {| rx_bufs := bufs; rx_counters := c; rx_world := w; rx_emitted := rx_emitted a |} in
      if decide (batch = []) then Ret (TunGo (with_bufs (rx_counters a) (rx_world a))) else
      let '(pkt_count, total_bytes) := batch_stats (buf_bytes <$> batch) in
      match send_and_record (rx_counters a) (rx_world a) output_tx batch pkt_count total_bytes with
      | (true, c, w) => Ret (TunGo (with_bufs c w))
      | (false, _, _) => Ret (TunReturn (Ok tt))
      end
  | TunRecv (Err err) bufs _ =>
      if decide (err_kind err = Interrupted) then
        Ret (TunGo {| rx_bufs := bufs; rx_counters := rx_counters a; rx_world := rx_world a; rx_emitted := rx_emitted a |})
      else Ret (TunReturn (Err [lit "receive packet batch from TUN interface"; io_to_string err]))
  | TunRxStop => Ret (TunReturn (Ok tt))
  | TunRxTick owner_open =>
      Ret (if owner_open : bool then
             TunGo {| rx_bufs := rx_bufs a; rx_counters := rx_counters a; rx_world := rx_world a;
                      rx_emitted := rx_emitted a ++ [snapshot (rx_counters a) None None] |}
           else TunReturn (Ok tt))
  end.
End rx.

(** ** The write loop *)

(** The device's send operations, with their arguments: [send] of a packet, and
    [send_multiple] of a batch of prepared buffers. *)
Inductive DevCall : Type :=
| DevSend (p : list Z)
| DevSendMultiple (frames : list (list Z)).

(** The device: [dev_attempts] are the successive attempts to [send] one packet, and
    [dev_send_multiple] answers [None] when it never completes.
    [completed] are the calls that succeeded, with the bytes they were given; how
    [send_multiple] coalesces the buffers of one call is tun_rs's. *)
Class TunDevice (B : BufLib) : Type := {
  dev : Type;
  dev_attempts : dev -> list Z -> list (result unit IoError) * dev;
  dev_send_multiple : dev -> list PooledBuf -> option (result unit IoError) * dev;
  completed : dev -> list DevCall;
}.

Class TunDeviceLaws {B : BufLib} (D : TunDevice B) : Prop := {
  dev_attempts_law d p : completed (dev_attempts d p).2 =
    match retry_on_transient (dev_attempts d p).1 false with
    | Some (Ok _, _) => completed d ++ [DevSend p]
    | _ => completed d
    end;
  dev_send_multiple_law d bufs :
    (dev_send_multiple d bufs).1 = Some (Ok tt) ->
    completed (dev_send_multiple d bufs).2 = completed d ++ [DevSendMultiple (buf_bytes <$> bufs)];
}.

Section tx.
Context {B : BufLib} {K : TunConsts} {D : TunDevice B} (MAX_DATAGRAM_SIZE : nat) (io_to_string : IoError -> rstr).

(** [None]: a write never completed. *)
Fixpoint send_each (bufs : list PooledBuf) (d : dev) : option (result unit IoError) * dev :=
  match bufs with
  | [] => (Some (Ok tt), d)
  | b :: bufs =>
      let '(atts, d) := dev_attempts d (buf_bytes b) in
      match retry_on_transient atts false with
      | None => (None, d)
      | Some (Err e, _) => (Some (Err e), d)
      | Some (Ok _, _) => send_each bufs d
      end
  end.

Fixpoint prepend_all (bufs : list PooledBuf) : outcome (list PooledBuf) :=
  match bufs with
  | [] => Ret []
  | b :: bufs => b ← prepend_hdr MAX_DATAGRAM_SIZE b; bs ← prepend_all bufs; Ret (b :: bs)
  end.

(** [TunWriter::send_batch]. *)
Definition tun_send_batch (offload : bool) (bufs : list PooledBuf) (d : dev) :
    outcome (option (result unit IoError) * dev) :=
  if offload then
    bufs ← prepend_all bufs;
    Ret (dev_send_multiple d bufs)
  else Ret (send_each bufs d).

Record TunTxActor : Type := {
  tun_dev : dev;
  tun_counters : Counters;
  tun_emitted : list Metrics;
}.

Inductive TunTxInput : Type :=
| TunBatch (packets : option (list PooledBuf))
| TunTxStop
| TunTxTick (owner_open : bool).

(** The loop over a batch: the packets to send, their count and bytes. *)
Fixpoint select_packets (mtu : nat) (packets : list PooledBuf) (c : Counters) (bufs : list PooledBuf) (ok_count ok_bytes : Z) :
    Counters * list PooledBuf * Z * Z :=
  match packets with
  | [] => (c, bufs, ok_count, ok_bytes)
  | p :: packets =>
      let len := length (buf_bytes p) in
      if decide (mtu < len)%nat then
        select_packets mtu packets (record_drop c Oversize 1 (Z.of_nat len)) bufs ok_count ok_bytes
      else select_packets mtu packets c (bufs ++ [p]) (ok_count + 1) (ok_bytes + Z.of_nat len)
  end.

(** [None]: the device blocked for good. *)
Definition tun_tx_step (mtu : nat) (offload : bool) (i : TunTxInput) (a : TunTxActor) :
    outcome (option (TunNext TunTxActor)) :=
  match i with
  | TunBatch None | TunTxStop => Ret (Some (TunReturn (Ok tt)))
  | TunBatch (Some packets) =>
      let '(c, bufs, ok_count, ok_bytes) := select_packets mtu packets (tun_counters a) [] 0 0 in
      if decide (bufs = []) then
        Ret (Some (TunGo {| tun_dev := tun_dev a; tun_counters := c; tun_emitted := tun_emitted a |}))
      else
        '(r, d) ← tun_send_batch offload bufs (tun_dev a);
        Ret (match r with
             | None => None
             | Some (Ok _) =>
                 Some (TunGo {| tun_dev := d; tun_counters := record_success c ok_count ok_bytes; tun_emitted := tun_emitted a |})
             | Some (Err err) => Some (TunReturn (Err [lit "send packet batch to TUN interface"; io_to_string err]))
             end)
  | TunTxTick owner_open =>
      Ret (Some (if owner_open : bool then
             TunGo {| tun_dev := tun_dev a; tun_counters := tun_counters a;
                      tun_emitted := tun_emitted a ++ [snapshot (tun_counters a) None None] |}
           else TunReturn (Ok tt)))
  end.
End tx.

(** ** Lemmas: buffers *)

Section buffers.
Context {B : BufLib} {BL : BufLaws B} {E : BufAppend B} {EL : BufAppendLaws E} {K : TunConsts} (MAX_DATAGRAM_SIZE : nat).
Hypothesis small_datagrams : (MAX_DATAGRAM_SIZE + HEADROOM <= MAX_PACKET_BUFFER_SIZE)%nat.

Lemma buf_extend_spec b additional :
  exists b', buf_extend MAX_DATAGRAM_SIZE b additional = Ret b' /\ buf_bytes b' = buf_bytes b /\
    (headroom b' = headroom b \/ headroom b' = HEADROOM).
Proof.
  unfold buf_extend. case_decide as Hd; [| by exists b; auto].
  assert (headroom (alloc_uninit_packet_buf MAX_DATAGRAM_SIZE MAX_DATAGRAM_SIZE) = HEADROOM /\
    (MAX_DATAGRAM_SIZE <= length (buf_bytes (alloc_uninit_packet_buf MAX_DATAGRAM_SIZE MAX_DATAGRAM_SIZE)))%nat) as [Hh Hl].
  { unfold alloc_uninit_packet_buf. rewrite decide_False by (unfold HEADROOM; lia).
    destruct (pool_get_law MAX_PACKET_BUFFER_SIZE) as [Hl Hh].
    destruct (pop_front_law (pool_get MAX_PACKET_BUFFER_SIZE) HEADROOM) as [Hb ->]; [rewrite Hl; lia |].
    rewrite Hb, Hh, length_drop, Hl. split; [done | lia]. }
  destruct (truncate_law (alloc_uninit_packet_buf MAX_DATAGRAM_SIZE MAX_DATAGRAM_SIZE) (length (buf_bytes b))) as [Ht Hth].
  assert (length (buf_bytes (truncate (alloc_uninit_packet_buf MAX_DATAGRAM_SIZE MAX_DATAGRAM_SIZE) (length (buf_bytes b)))) =
    length (buf_bytes b)) as He by (rewrite Ht, length_take; lia).
  rewrite decide_True by done. eexists. split; [done |].
  destruct (buf_write_law (truncate (alloc_uninit_packet_buf MAX_DATAGRAM_SIZE MAX_DATAGRAM_SIZE) (length (buf_bytes b))) (buf_bytes b))
    as [-> ->]; [done |]. split; [done |]. right. by rewrite Hth.
Qed.

(** Growing a buffer for coalescing keeps its bytes, whichever pool they move to. *)
Lemma tunbuf_grow b src n v :
  (exists b', buf_extend_from_slice MAX_DATAGRAM_SIZE b src = Ret b' /\ buf_bytes b' = buf_bytes b ++ src) /\
  (exists b', buf_resize MAX_DATAGRAM_SIZE b n v = Ret b' /\
     buf_bytes b' = take n (buf_bytes b) ++ replicate (n - length (buf_bytes b)) v).
Proof.
  split.
  - unfold buf_extend_from_slice. destruct (buf_extend_spec b (length src)) as (b' & -> & Hb & _). cbn.
    eexists. split; [done |]. destruct (buf_append_law b' src) as [-> _]. by rewrite Hb.
  - unfold buf_resize. case_decide.
    + eexists. split; [done |]. destruct (truncate_law b n) as [-> _].
      replace (n - length (buf_bytes b))%nat with 0%nat by lia. cbn. by rewrite app_nil_r.
    + destruct (buf_extend_spec b (n - length (buf_bytes b))) as (b' & -> & Hb & _). cbn.
      eexists. split; [done |]. destruct (buf_append_law b' (replicate (n - length (buf_bytes b)) v)) as [-> _].
      by rewrite Hb, take_ge by lia.
Qed.

(** A packet the header can be put in front of: it has the headroom, or fits a fresh
    buffer. *)
Definition hdr_fits (b : PooledBuf) : Prop :=
  (VIRTIO_NET_HDR_LEN <= headroom b)%nat \/ (length (buf_bytes b) + HEADROOM <= MAX_PACKET_BUFFER_SIZE)%nat.

Hypothesis hdr_guard : (VIRTIO_NET_HDR_LEN <= HEADROOM)%nat.

(** With or without headroom, a zeroed header comes before the same bytes. *)
Lemma prepend_hdr_spec b :
  hdr_fits b -> exists b', prepend_hdr MAX_DATAGRAM_SIZE b = Ret b' /\
    buf_bytes b' = replicate VIRTIO_NET_HDR_LEN 0 ++ buf_bytes b.
Proof.
  intros Hf. unfold prepend_hdr. cbv zeta. pose proof (add_prefix_law b (replicate VIRTIO_NET_HDR_LEN 0)) as Hp.
  rewrite length_replicate in Hp. case_decide as Hh.
  - destruct Hp as (Hok & Hb & _). destruct (add_prefix b _) as [ok b']. cbn [fst snd] in *. subst. by exists b'.
  - rewrite Hp. destruct Hf as [? | Hf]; [done |].
    pose proof (alloc_packet_buf_spec MAX_DATAGRAM_SIZE (buf_bytes b)
      (Nat.le_trans _ _ _ (Nat.le_add_r _ _) small_datagrams)) as Ha.
    rewrite decide_True in Ha by done. destruct Ha as (buf & -> & Hb & Hroom & _). cbn [mbind outcome_bind].
    pose proof (add_prefix_law buf (replicate VIRTIO_NET_HDR_LEN 0)) as Hp'.
    rewrite length_replicate, Hroom, decide_True in Hp' by done. destruct Hp' as (Hok & Hb' & _).
    destruct (add_prefix buf _) as [ok b']. cbn [fst snd] in *. subst ok. exists b'. split; [done |]. by rewrite Hb', Hb.
Qed.

Lemma prepend_all_spec bufs :
  Forall hdr_fits bufs -> exists bufs', prepend_all MAX_DATAGRAM_SIZE bufs = Ret bufs' /\
    buf_bytes <$> bufs' = (fun p => replicate VIRTIO_NET_HDR_LEN 0 ++ p) <$> (buf_bytes <$> bufs).
Proof.
  induction 1 as [| b bufs Hb _ (bufs' & IH & Hbs)]; [by exists [] |]. cbn [prepend_all].
  destruct (prepend_hdr_spec b Hb) as (b' & -> & Hb'). cbn [mbind outcome_bind]. rewrite IH. cbn [mbind outcome_bind]. exists (b' :: bufs'). split; [done |].
  by rewrite !fmap_cons, Hb', Hbs.
Qed.
End buffers.

(** ** Lemmas: writing *)

Section writing.
Context {B : BufLib} {BL : BufLaws B} {K : TunConsts} {D : TunDevice B} {DL : TunDeviceLaws D}
  (MAX_DATAGRAM_SIZE : nat) (io_to_string : IoError -> rstr).

Lemma select_packets_spec mtu packets c bufs n b :
  let ok := filter (fun p => (length (buf_bytes p) <= mtu)%nat) packets in
  exists ops, select_packets mtu packets c bufs n b =
      (foldl run_op c ops, bufs ++ ok, n + zlen ok, b + (batch_stats (buf_bytes <$> ok)).2) /\
    op_packets ops = zlen packets - zlen ok /\ op_reason Oversize ops = zlen packets - zlen ok /\
    op_reason SendErr ops = 0.
Proof.
  revert c bufs n b. induction packets as [| p packets IH]; intros c bufs n b; cbn [select_packets].
  - exists []. cbn. rewrite app_nil_r, !Z.add_0_r. by split_and!.
  - cbv zeta in *. rewrite filter_cons. destruct (decide (mtu < length (buf_bytes p))%nat) as [Hl | Hl].
    + rewrite decide_False by lia. destruct (IH (record_drop c Oversize 1 (Z.of_nat (length (buf_bytes p)))) bufs n b)
        as (ops & -> & Hp & Ho & Hs).
      exists (OpDrop Oversize 1 (Z.of_nat (length (buf_bytes p))) :: ops). split; [done |].
      rewrite op_packets_cons, zlen_cons. unfold op_reason in *. cbn [foldr].
      rewrite decide_True, decide_False by done. split_and!; lia.
    + rewrite decide_True by lia. destruct (IH c (bufs ++ [p]) (n + 1) (b + Z.of_nat (length (buf_bytes p))))
        as (ops & -> & Hp & Ho & Hs).
      exists ops. rewrite fmap_cons, batch_stats_cons, !zlen_cons, <- app_assoc. cbn [fst snd app].
      split_and!; [| lia | lia | done]. f_equal; [f_equal |]; unfold zlen; lia.
Qed.

Lemma send_each_spec bufs d :
  match send_each bufs d with
  | (Some (Ok _), d') => completed d' = completed d ++ (DevSend <$> (buf_bytes <$> bufs))
  | (_, d') => exists sent rest, buf_bytes <$> bufs = sent ++ rest /\ rest <> [] /\
      completed d' = completed d ++ (DevSend <$> sent)
  end.
Proof.
  revert d. induction bufs as [| b bufs IH]; intros d; cbn [send_each]; [by rewrite app_nil_r |].
  pose proof (dev_attempts_law d (buf_bytes b)) as Hl. destruct (dev_attempts d (buf_bytes b)) as [atts d1]. cbn in Hl.
  destruct (retry_on_transient atts false) as [[[u | e] blocked] |].
  - specialize (IH d1). destruct (send_each bufs d1) as [[[u' | e] |] d2].
    + by rewrite IH, Hl, <- app_assoc.
    + destruct IH as (s & r & Hs & Hr & Hw). exists (buf_bytes b :: s), r.
      rewrite fmap_cons, Hs, Hw, Hl, <- app_assoc. done.
    + destruct IH as (s & r & Hs & Hr & Hw). exists (buf_bytes b :: s), r.
      rewrite fmap_cons, Hs, Hw, Hl, <- app_assoc. done.
  - exists [], (buf_bytes <$> b :: bufs). by rewrite app_nil_r.
  - exists [], (buf_bytes <$> b :: bufs). by rewrite app_nil_r.
Qed.

(** The calls that hand a batch to the device: one [send] for each packet, or with
    offload one [send_multiple] with each packet behind a zeroed virtio header. *)
Definition tun_calls (offload : bool) (ps : list (list Z)) : list DevCall :=
  if offload then
    if decide (ps = []) then [] else [DevSendMultiple ((fun p => replicate VIRTIO_NET_HDR_LEN 0 ++ p) <$> ps)]
  else DevSend <$> ps.

(** Handling a batch. *)
Lemma tun_tx_batch mtu offload packets a :
  (MAX_DATAGRAM_SIZE + HEADROOM <= MAX_PACKET_BUFFER_SIZE)%nat -> (VIRTIO_NET_HDR_LEN <= HEADROOM)%nat ->
  Forall hdr_fits packets ->
  let ok := filter (fun p => (length p <= mtu)%nat) (buf_bytes <$> packets) in
  exists r, tun_tx_step MAX_DATAGRAM_SIZE io_to_string mtu offload (TunBatch (Some packets)) a = Ret r /\
    match r with
    | Some (TunGo a') =>
        completed (tun_dev a') = completed (tun_dev a) ++ tun_calls offload ok /\
        exists ops, tun_counters a' = foldl run_op (tun_counters a) ops /\ op_packets ops = zlen packets /\
          op_reason Oversize ops = zlen packets - zlen ok /\ op_reason SendErr ops = 0
    | Some (TunReturn e) => is_ok e = false
    | None => True
    end.
Proof.
  intros Hm Hv Hf ok. cbn [tun_tx_step].
  destruct (select_packets_spec mtu packets (tun_counters a) [] 0 0) as (ops & -> & Hp & Ho & Hs).
  set (okb := filter (fun p => (length (buf_bytes p) <= mtu)%nat) packets) in *.
  assert (buf_bytes <$> okb = ok) as Hok.
  { unfold okb, ok. clear. induction packets as [| p ps IH]; [done |]. rewrite fmap_cons, !filter_cons.
    case_decide; [by rewrite fmap_cons, IH | done]. }
  assert (zlen okb = zlen ok) as Hz by (rewrite <- Hok; unfold zlen; by rewrite length_fmap).
  cbn [app]. case_decide as Hne.
  { eexists. split; [done |]. rewrite <- Hok, Hne. cbn [tun_dev tun_counters fmap list_fmap].
    replace (tun_calls offload []) with (@nil DevCall) by (by destruct offload). rewrite app_nil_r.
    split; [done |]. exists ops. clear Hm. rewrite Hne in Hp, Ho. change (zlen (A := PooledBuf) []) with 0 in *.
    change (zlen (A := list Z) []) with 0. split_and!; [done | lia | lia | done]. }
  assert (forall d', exists ops', record_success (foldl run_op (tun_counters a) ops) (0 + zlen okb) d' =
      foldl run_op (tun_counters a) ops' /\ op_packets ops' = zlen packets /\
      op_reason Oversize ops' = zlen packets - zlen ok /\ op_reason SendErr ops' = 0) as Hcount.
  { intros d'. exists (ops ++ [OpSuccess (0 + zlen okb) d']). rewrite foldl_app, op_packets_app, !op_reason_app, Hp, Ho, Hs.
    clear Hm. cbn. split_and!; [done | lia | lia | done]. }
  destruct offload; cbn [tun_send_batch].
  - destruct (prepend_all_spec MAX_DATAGRAM_SIZE Hm Hv okb) as (bufs' & -> & Hb).
    { apply Forall_forall. intros p [_ Hin]%list_elem_of_filter. rewrite Forall_forall in Hf. by apply Hf. }
    cbn [mbind outcome_bind]. pose proof (dev_send_multiple_law (tun_dev a) bufs') as Hl.
    destruct (dev_send_multiple (tun_dev a) bufs') as [[[[] | e] |] d']; eexists; (split; [done |]); [| done | done].
    cbn [tun_dev tun_counters]. specialize (Hl eq_refl). cbn [snd] in Hl. rewrite Hl, Hb, Hok. split; [| apply Hcount].
    unfold tun_calls. rewrite decide_False; [done |]. rewrite <- Hok. by destruct okb.
  - cbn [mbind outcome_bind]. pose proof (send_each_spec okb (tun_dev a)) as Hl.
    destruct (send_each okb (tun_dev a)) as [[[u | e] |] d']; eexists; (split; [done |]); [| done | done].
    cbn [tun_dev tun_counters]. rewrite Hl, Hok. split; [done |]. apply Hcount.
Qed.

(** The loop on a sequence of batches. *)
Fixpoint tun_tx_run (mtu : nat) (offload : bool) (ins : list TunTxInput) (a : TunTxActor) :
    outcome (option (TunNext TunTxActor)) :=
  match ins with
  | [] => Ret (Some (TunGo a))
  | i :: ins =>
      r ← tun_tx_step MAX_DATAGRAM_SIZE io_to_string mtu offload i a;
      match r with Some (TunGo a) => tun_tx_run mtu offload ins a | _ => Ret r end
  end.

Lemma tun_tx_run_written mtu offload batches a :
  (MAX_DATAGRAM_SIZE + HEADROOM <= MAX_PACKET_BUFFER_SIZE)%nat -> (VIRTIO_NET_HDR_LEN <= HEADROOM)%nat ->
  Forall (Forall hdr_fits) batches ->
  exists r, tun_tx_run mtu offload ((fun b => TunBatch (Some b)) <$> batches) a = Ret r /\
    match r with
    | Some (TunGo a') => completed (tun_dev a') = completed (tun_dev a) ++
        ((filter (fun p => (length p <= mtu)%nat) <$> ((fun b : list PooledBuf => buf_bytes <$> b) <$> batches)) ≫= tun_calls offload)
    | Some (TunReturn e) => is_ok e = false
    | None => True
    end.
Proof.
  intros Hm Hv Hf. revert a. induction Hf as [| b batches Hb _ IH]; intros a; cbn [fmap list_fmap tun_tx_run].
  { eexists. split; [done |]. cbn. by rewrite app_nil_r. }
  destruct (tun_tx_batch mtu offload b a Hm Hv Hb) as (r & Hr & Hspec). rewrite Hr. cbn [mbind outcome_bind].
  destruct r as [[a1 | e] |]; [| by eexists | by eexists]. destruct Hspec as [Hw _].
  destruct (IH a1) as (r & -> & Hspec). eexists. split; [done |]. destruct r as [[a2 | e] |]; [| done | done].
  by rewrite Hspec, Hw, <- app_assoc.
Qed.

End writing.

(** ** Lemmas: reading *)

Section reading.
Context {B : BufLib} {BL : BufLaws B} {M : Mpsc (list PooledBuf)} {HM : MpscLaws M}
  (MAX_DATAGRAM_SIZE : nat) (io_to_string : IoError -> rstr).

(** The non-empty packets among the first [count] buffers. *)
Definition received_packets (count : nat) (bufs : list PooledBuf) (sizes : list nat) : list (list Z) :=
  omap (fun bn => if decide (0 < bn.2)%nat then Some (take bn.2 (buf_bytes bn.1)) else None)
    (take count (zip bufs sizes)).

(** The device reports no size beyond its buffer. *)
Definition sizes_ok (bufs : list PooledBuf) (sizes : list nat) : Prop :=
  Forall2 (fun b n => (n <= length (buf_bytes b))%nat) bufs sizes.

Lemma take_packets_spec mtu m j bufs sizes batch :
  sizes_ok bufs sizes -> (j + m <= length bufs)%nat ->
  exists ps bufs', take_packets MAX_DATAGRAM_SIZE mtu (seq j m) sizes bufs batch = Ret (batch ++ ps, bufs') /\
    buf_bytes <$> ps = omap (fun bn => if decide (0 < bn.2)%nat then Some (take bn.2 (buf_bytes bn.1)) else None)
      (take m (drop j (zip bufs sizes))) /\ length bufs' = length bufs /\
    forall h, (forall k b, (j <= k)%nat -> bufs !! k = Some b -> (h <= headroom b)%nat) ->
      Forall (fun b => (h <= headroom b)%nat) ps.
Proof.
  intros Hs. assert (length sizes = length bufs) as Hl by (symmetry; by apply Forall2_length in Hs).
  assert (forall k b n, (j <= k)%nat -> bufs !! k = Some b -> sizes !! k = Some n -> (n <= length (buf_bytes b))%nat) as Hok.
  { intros k b n _ Hb Hn. by eapply Forall2_lookup_lr in Hs. }
  clear Hs. revert j bufs batch Hl Hok. induction m as [| m IH]; intros j bufs batch Hl Hok Hjm; cbn [seq take_packets].
  { exists [], bufs. rewrite app_nil_r. by repeat split. }
  destruct (lookup_lt_is_Some_2 bufs j) as [b Hb]; [lia |].
  destruct (lookup_lt_is_Some_2 sizes j) as [n Hn]; [lia |].
  rewrite (index_Ret _ _ _ Hn). cbn [mbind outcome_bind].
  assert (drop j (zip bufs sizes) = (b, n) :: drop (S j) (zip bufs sizes)) as Hd.
  { apply drop_S. rewrite lookup_zip_with, Hb, Hn. done. }
  rewrite Hd. cbn [take omap list_omap fst snd]. destruct (decide (0 < n)%nat) as [Hpos | Hpos].
  - rewrite (index_Ret _ _ _ Hb), index_set_Ret by lia. cbn [mbind outcome_bind].
    unfold into_pooled. rewrite decide_True by (by eapply Hok). cbn [mbind outcome_bind].
    destruct (IH (S j) (<[j := tun_alloc_uninit MAX_DATAGRAM_SIZE mtu]> bufs) (batch ++ [truncate b n]))
      as (ps & bufs' & -> & Hps & Hlen & Hroom).
    + by rewrite length_insert.
    + intros k b' n' Hk. rewrite list_lookup_insert_ne by lia. apply Hok. lia.
    + rewrite length_insert. lia.
    + exists (truncate b n :: ps), bufs'. rewrite <- app_assoc. split; [done |].
      rewrite length_insert in Hlen. destruct (truncate_law b n) as [Hbt Hht]. split_and!; [| done |].
      2: { intros h Hh. constructor; [rewrite Hht; by apply (Hh j) |]. apply Hroom. intros k b' Hk.
           rewrite list_lookup_insert_ne by lia. apply Hh. lia. }
      rewrite fmap_cons, Hps, Hbt.
      assert (forall x, drop (S j) (zip (<[j := x]> bufs) sizes) = drop (S j) (zip bufs sizes)) as ->; [| done].
      intros x. apply list_eq. intros k. rewrite !lookup_drop, !lookup_zip_with.
      by rewrite list_lookup_insert_ne by lia.
  - destruct (IH (S j) bufs batch) as (ps & bufs' & -> & Hps & Hlen & Hroom); [done | intros; apply (Hok k); [lia | done | done] | lia |].
    exists ps, bufs'. split_and!; [done | done | done |]. intros h Hh. apply Hroom. intros k b' Hk. apply Hh. lia.
Qed.

(** Handling a receive; the packets keep the headroom of their buffers. *)
Lemma tun_rx_batch mtu batch_size output_tx count bufs sizes a :
  length bufs = batch_size -> sizes_ok bufs sizes ->
  let packets := received_packets (Nat.min count batch_size) bufs sizes in
  exists n, tun_rx_step MAX_DATAGRAM_SIZE io_to_string mtu batch_size output_tx (TunRecv (Ok count) bufs sizes) a = Ret n /\
    match n with
    | TunGo a' => length (rx_bufs a') = batch_size /\
        exists batch ops, buf_bytes <$> batch = packets /\
          (forall n, Forall (fun b => (n <= headroom b)%nat) bufs -> Forall (fun b => (n <= headroom b)%nat) batch) /\
          sent (rx_world a) (if decide (packets = []) then [] else [(output_tx, batch)]) (rx_world a') /\
          rx_counters a' = foldl run_op (rx_counters a) ops /\ op_packets ops = zlen packets /\
          forall r, op_reason r ops = 0
    | TunReturn r => r = Ok tt /\ exists w, sent (rx_world a) [] w /\ is_closed w output_tx = true
    end.
Proof.
  intros Hlen Hs packets. cbn [tun_rx_step].
  destruct (take_packets_spec mtu (Nat.min count batch_size) 0 bufs sizes [] Hs) as (ps & bufs' & -> & Hps & Hl & Hroom); [lia |].
  rewrite drop_0 in Hps. fold (received_packets (Nat.min count batch_size) bufs sizes) in Hps. fold packets in Hps.
  cbn [mbind outcome_bind app]. case_decide as Hne.
  { subst ps. eexists. split; [done |]. cbn. split; [by rewrite Hl |]. exists [], []. rewrite <- Hps. cbn.
    split_and!; [done | by constructor | apply sent_refl | done | done | done]. }
  assert (packets <> []) as Hp by (rewrite <- Hps; by destruct ps).
  destruct (batch_stats (buf_bytes <$> ps)) as [n b] eqn:Hb.
  destruct (send_and_record (rx_counters a) (rx_world a) output_tx ps n b) as [[ok c] w] eqn:Hsr.
  apply send_and_record_ops in Hsr as (qs & Hq & -> & Hsent). destruct ok; eexists; (split; [done |]); cbn.
  - split; [by rewrite Hl |]. exists ps, (qs ++ [OpSuccess n b]). rewrite decide_False by done.
    unfold batch_stats in Hb. injection Hb as <- <-.
    split_and!; [done | | done | done | |].
    + intros h Hh. apply Hroom. intros k b' _ Hb'. rewrite Forall_lookup in Hh. by apply (Hh k).
    + rewrite op_packets_app, waits_packets by done. rewrite <- Hps. cbn. lia.
    + intros r. rewrite op_reason_app, waits_reason by done. done.
  - split; [done |]. by exists w.
Qed.

(** What the device delivers reaches the router unchanged.  However many packets a
    receive reports, handling it does not panic: the non-empty packets among the
    buffers, each cut to its size, go to the router as one batch in order and are
    counted, nothing is sent when there is none, as many buffers as before stay ready,
    and the loop ends only when the router's channel is closed. *)
Theorem tun_rx_delivers mtu batch_size output_tx count bufs sizes a :
  length bufs = batch_size -> sizes_ok bufs sizes ->
  let packets := received_packets (Nat.min count batch_size) bufs sizes in
  exists n, tun_rx_step MAX_DATAGRAM_SIZE io_to_string mtu batch_size output_tx (TunRecv (Ok count) bufs sizes) a = Ret n /\
    match n with
    | TunGo a' => length (rx_bufs a') = batch_size /\
        exists batch ops, buf_bytes <$> batch = packets /\
          sent (rx_world a) (if decide (packets = []) then [] else [(output_tx, batch)]) (rx_world a') /\
          rx_counters a' = foldl run_op (rx_counters a) ops /\ op_packets ops = zlen packets /\
          forall r, op_reason r ops = 0
    | TunReturn r => r = Ok tt /\ exists w, sent (rx_world a) [] w /\ is_closed w output_tx = true
    end.
Proof.
  intros Hlen Hs packets. destruct (tun_rx_batch mtu batch_size output_tx count bufs sizes a Hlen Hs) as (n & Hn & Hspec).
  exists n. split; [done |]. destruct n as [a' | r]; [| done].
  destruct Hspec as (? & batch & ops & ? & _ & ?). split; [done |]. by exists batch, ops.
Qed.
End reading.

(** ** Device setup *)

Section setup_facts.
Context {L : IpNetLib}.

(** Every configured address is given to the device, once and in order: the first IPv4
    address and the IPv6 addresses when it is built, the other IPv4 addresses after. *)
Lemma device_setup_addresses lt q off :
  let s := device_setup lt q off in
  option_list (dev_ipv4 s) ++ dev_extra_ipv4 s = filter (fun n => is_ipv4 (ipnet_addr n) = true) (addrs lt) /\
  dev_ipv6 s = filter (fun n => is_ipv4 (ipnet_addr n) = false) (addrs lt).
Proof.
  assert (forall l v4 v6, foldl (fun vs net => if is_ipv4 (ipnet_addr net) then (vs.1 ++ [net], vs.2) else (vs.1, vs.2 ++ [net]))
      (v4, v6) l =
    (v4 ++ filter (fun n => is_ipv4 (ipnet_addr n) = true) l, v6 ++ filter (fun n => is_ipv4 (ipnet_addr n) = false) l)) as Hf.
  { induction l as [| n l IH]; intros v4 v6; cbn [foldl]; [by rewrite !app_nil_r |]. rewrite !filter_cons.
    destruct (is_ipv4 (ipnet_addr n)) eqn:E; cbn [fst snd]; rewrite IH.
    - rewrite decide_True, decide_False by done. by rewrite <- app_assoc.
    - rewrite decide_False, decide_True by done. by rewrite <- app_assoc. }
  unfold device_setup, split_addrs_by_version. rewrite Hf. cbn. split; [| done].
  by destruct (filter _ (addrs lt)).
Qed.
End setup_facts.

(** ** A concrete device *)
Module MemTun.
#[export] Instance consts : TunConsts := {| VIRTIO_NET_HDR_LEN := 10; IDEAL_BATCH_SIZE := 128 |}.

#[export] Instance device : TunDevice HeadBuf.lib := {|
  dev := list DevCall;
  dev_attempts (d : list DevCall) p := ([Err {| err_kind := Interrupted; raw_os_error := None |}; Ok tt], d ++ [DevSend p]);
  dev_send_multiple (d : list DevCall) bufs := (Some (Ok tt), d ++ [DevSendMultiple (buf_bytes <$> bufs)]);
  completed d := d;
|}.
End MemTun.

#[export] Instance MemTun_laws : TunDeviceLaws MemTun.device.
Proof. by split. Qed.

Definition head_buf (n : nat) (d : list Z) : @PooledBuf HeadBuf.lib := {| HeadBuf.free := n; HeadBuf.data := d |}.


Definition rx_start_sample : TunRxActor (B := HeadBuf.lib) (M := @ListChannels.lib (list (@PooledBuf HeadBuf.lib))) :=
  {| rx_bufs := [] : list (@PooledBuf HeadBuf.lib); rx_counters := counters_new Tun Rx;
     rx_world := ListChannels.empty : @world _ (@ListChannels.lib (list (@PooledBuf HeadBuf.lib))); rx_emitted := [] |}.

Lemma tun_rx_delivers_witness :
  exists a' batch, tun_rx_step (B := HeadBuf.lib) (M := @ListChannels.lib (list (@PooledBuf HeadBuf.lib))) 1500 (fun _ => []) 1280 2 5
      (TunRecv (Ok 2%nat) [head_buf 10 [69; 1; 9]; head_buf 10 [69; 2; 9]] [2%nat; 0%nat]) rx_start_sample = Ret (TunGo a') /\
    buf_bytes <$> batch = [[69; 1]] /\ accepted (rx_world a') = [(5%nat, batch)].
Proof.
  destruct (tun_rx_delivers (B := HeadBuf.lib) (M := @ListChannels.lib (list (@PooledBuf HeadBuf.lib))) 1500 (fun _ => []) 1280 2 5 2
    [head_buf 10 [69; 1; 9]; head_buf 10 [69; 2; 9]] [2%nat; 0%nat] rx_start_sample) as (n & Hn & Hspec).
  - done.
  - apply Forall2_cons; split; [cbn; lia |]. apply Forall2_cons; split; [cbn; lia | constructor].
  - destruct n as [a' | e].
    + destruct Hspec as (_ & batch & ops & Hb & Hs & _). exists a', batch. split; [exact Hn |]. split; [exact Hb |].
      apply sent_accepted in Hs. exact Hs.
    + exfalso. apply (f_equal (fun o => match o with Ret (TunGo _) => true | _ => false end)) in Hn.
      vm_compute in Hn. discriminate.
Defined.
