(* ===== verification/MemoryTun.v ===== *)
(** * TUN receives and the in-memory device

    Models the receives behind the TUN actors of [src/src/tun.rs]: [TunReader::recv_batch]
    on the device, and the pair [MemoryTunRx], [MemoryTunTx] of its [test_support] module,
    the device that tests run the actors on, with its injected send errors.  Shows that
    the pair behaves as the actors rely on a device to behave ([sizes_ok],
    [TunDeviceLaws]), so that what a test observes through it is what the actors did. *)

From S2P Require Import Prelude Net Config Channel Metrics Routing Events Codec Udp Tun.
#[local] Open Scope Z_scope.

(** ** Receiving *)

Section receive.
Context {B : BufLib}.

(** The first buffer with [packet] at its start, and its size. *)
Definition fill_first (bufs : list PooledBuf) (sizes : list nat) (packet : list Z) : outcome (list PooledBuf * list nat) :=
  dst ← index bufs 0;
  bufs ← index_set bufs 0 (buf_write dst (packet ++ drop (length packet) (buf_bytes dst)));
  sizes ← index_set sizes 0 (length packet);
  Ret (bufs, sizes).

(** [TunReader::recv_batch]: [multiple] is what [recv_multiple] did with the buffers,
    [single] what [recv] wrote to the first of them. *)
Definition tun_recv_batch (offload : bool) (multiple : result nat IoError * list PooledBuf * list nat)
    (single : result (list Z) IoError) (bufs : list PooledBuf) (sizes : list nat) :
    outcome (result nat IoError * list PooledBuf * list nat) :=
  if offload then Ret multiple else
  match single with
  | Err e => Ret (Err e, bufs, sizes)
  | Ok packet => '(bufs, sizes) ← fill_first bufs sizes packet; Ret (Ok 1%nat, bufs, sizes)
  end.

(** [MemoryTunRx::recv_batch] on the next message of its channel. *)
Definition memory_recv_batch (message : option (list Z)) (bufs : list PooledBuf) (sizes : list nat) :
    outcome (result nat IoError * list PooledBuf * list nat) :=
  match message with
  | None => Ret (Err {| err_kind := OtherKind; raw_os_error := None |}, bufs, sizes)
  | Some packet =>
      dst ← index bufs 0;
      let len := Nat.min (length packet) (length (buf_bytes dst)) in
      '(bufs, sizes) ← fill_first bufs sizes (take len packet);
      Ret (Ok 1%nat, bufs, sizes)
  end.
End receive.

(** ** Sending *)

Section memory.
Context {M : Mpsc (list Z)}.

Record MemoryTunTx : Type := { packet_tx : Sender; send_errors : list ErrorKind; mem_world : world }.

(** [memory_tun_with_errors] and [memory_tun]: the sender's half, over the world its
    channel lives in. *)
Definition memory_tun_with_errors (errors : list ErrorKind) (tx : Sender) (w : world) : MemoryTunTx :=
  {| packet_tx := tx; send_errors := errors; mem_world := w |}.

Definition memory_tun (tx : Sender) (w : world) : MemoryTunTx := memory_tun_with_errors [] tx w.

(** The attempts of [MemoryTunTx::send_batch] to send one packet: the injected errors
    first, as long as they are transient, then the send on the channel. *)
Fixpoint memory_attempts (errors : list ErrorKind) (tx : Sender) (w : world) (p : list Z) :
    list (result unit IoError) * MemoryTunTx :=
  match errors with
  | [] =>
      match send w tx p with
      | (Ok _, w) => ([Ok tt], memory_tun_with_errors [] tx w)
      | (Err _, w) => ([Err {| err_kind := OtherKind; raw_os_error := None |}], memory_tun_with_errors [] tx w)
      end
  | kind :: errors =>
      let e := {| err_kind := kind; raw_os_error := None |} in
      if decide (kind = Interrupted \/ kind = WouldBlock) then
        let '(atts, d) := memory_attempts errors tx w p in (Err e :: atts, d)
      else ([Err e], memory_tun_with_errors errors tx w)
  end.

(** The device of the writer's loop.  It has no offload, so that the loop calls
    [send_batch] packet by packet. *)
#[export] Instance memory_device (B : BufLib) : TunDevice B := {|
  dev := MemoryTunTx;
  dev_attempts d p := memory_attempts (send_errors d) (packet_tx d) (mem_world d) p;
  dev_send_multiple d _ := (Some (Err {| err_kind := OtherKind; raw_os_error := None |}), d);
  completed d := omap (fun '(tx, p) => if decide (tx = packet_tx d) then Some (DevSend p) else None) (accepted (mem_world d));
|}.

Context {HM : MpscLaws M}.

Lemma memory_attempts_spec errors tx w p blocked :
  match retry_on_transient (memory_attempts errors tx w p).1 blocked with
  | Some (Ok _, _) => sent w [(tx, p)] (mem_world (memory_attempts errors tx w p).2) /\
      Forall (fun k => k = Interrupted \/ k = WouldBlock) errors
  | Some (Err e, _) => sent w [] (mem_world (memory_attempts errors tx w p).2) /\ (err_kind e ∈ errors \/ is_closed (mem_world (memory_attempts errors tx w p).2) tx = true)
  | None => False
  end /\ packet_tx (memory_attempts errors tx w p).2 = tx.
Proof.
  revert blocked. induction errors as [| kind errors IH]; intros blocked; cbn [memory_attempts].
  - pose proof (send_law w tx p) as Hs. destruct (send w tx p) as [[u | e] w']; cbn; [by split |].
    destruct Hs as (Hs & _ & Hc). split; [| done]. split; [done | by right].
  - case_decide as Ht.
    + destruct (memory_attempts errors tx w p) as [atts d] eqn:Ha. cbn [fst snd retry_on_transient err_kind] in *.
      destruct (IH (if decide (kind = Interrupted) then blocked else true)) as [Hr Hd]. split; [| done].
      destruct Ht as [-> | ->]; cbn in Hr |- *;
        destruct (retry_on_transient atts _) as [[[u | e] b] |]; [| | done | | | done];
        (split; [apply Hr |]); try (constructor; [auto | apply Hr]); destruct Hr as [_ [?|?]]; set_solver.
    + cbn. rewrite !decide_False by naive_solver. split; [| done]. split; [apply sent_refl | left; set_solver].
Qed.

#[export] Instance memory_laws (B : BufLib) : TunDeviceLaws (memory_device B).
Proof.
  split; [| done]. intros d p. cbn. pose proof (memory_attempts_spec (send_errors d) (packet_tx d) (mem_world d) p false) as [Hs Htx].
  rewrite Htx. destruct (retry_on_transient _ false) as [[[u | e] b] |]; [| | done]; destruct Hs as [Hs _];
    apply sent_accepted in Hs; rewrite Hs; [| by rewrite app_nil_r].
  rewrite omap_app. cbn. by rewrite decide_True.
Qed.

(** The in-memory device never blocks for good: a batch ends with a result. *)
Lemma memory_send_total {B : BufLib} bufs (d : dev (TunDevice := memory_device B)) : exists r d', send_each bufs d = (Some r, d').
Proof.
  revert d. induction bufs as [| b bufs IH]; intros d; cbn [send_each]; [by eexists _, _ |].
  pose proof (memory_attempts_spec (send_errors d) (packet_tx d) (mem_world d) (buf_bytes b) false) as [Hs _].
  cbn [dev_attempts memory_device]. destruct (memory_attempts _ _ _ _) as [atts d']. cbn [fst snd] in Hs.
  destruct (retry_on_transient atts false) as [[[u | e] bl] |]; [apply IH | by eexists _, _ | done].
Qed.
End memory.

(** ** What a receive puts in the buffers *)

Section facts.
Context {B : BufLib} {BL : BufLaws B}.

Lemma fill_first_spec b bufs n sizes packet :
  (length packet <= length (buf_bytes b))%nat -> sizes_ok (b :: bufs) (n :: sizes) ->
  exists b', fill_first (b :: bufs) (n :: sizes) packet = Ret (b' :: bufs, length packet :: sizes) /\
    take (length packet) (buf_bytes b') = packet /\ headroom b' = headroom b /\
    sizes_ok (b' :: bufs) (length packet :: sizes).
Proof.
  intros Hl [_ Hs]%Forall2_cons. unfold fill_first, index, index_set. cbn.
  assert (length (packet ++ drop (length packet) (buf_bytes b)) = length (buf_bytes b)) as He
    by (rewrite length_app, length_drop; lia).
  destruct (buf_write_law b _ He) as [Hb Hh]. eexists. split; [done |]. rewrite Hb, Hh. split_and!; [| done |].
  - by rewrite take_app_length.
  - apply Forall2_cons. split; [| done]. rewrite Hb, He. lia.
Qed.

(** The device without offload hands over one packet as it wrote it. *)
Lemma tun_recv_spec multiple b bufs n sizes packet :
  sizes_ok (b :: bufs) (n :: sizes) -> packet <> [] -> (length packet <= length (buf_bytes b))%nat ->
  exists bufs' sizes', tun_recv_batch false multiple (Ok packet) (b :: bufs) (n :: sizes) = Ret (Ok 1%nat, bufs', sizes') /\
    length bufs' = S (length bufs) /\ sizes_ok bufs' sizes' /\ received_packets 1 bufs' sizes' = [packet].
Proof.
  intros Hs Hne Hl. unfold tun_recv_batch. destruct (fill_first_spec b bufs n sizes packet Hl Hs) as (b' & -> & Ht & _ & Hok).
  cbn [mbind outcome_bind]. eexists _, _. split; [done |]. split; [done |]. split; [exact Hok |].
  unfold received_packets. cbn. rewrite Ht, take_0. destruct packet; [done |]. by rewrite decide_True by (cbn; lia).
Qed.

(** The in-memory receiver hands over one packet, cut to the buffer. *)
Lemma memory_recv_spec b bufs n sizes packet :
  sizes_ok (b :: bufs) (n :: sizes) -> length bufs = length sizes ->
  exists bufs' sizes', memory_recv_batch (Some packet) (b :: bufs) (n :: sizes) = Ret (Ok 1%nat, bufs', sizes') /\
    length bufs' = S (length bufs) /\ sizes_ok bufs' sizes' /\
    received_packets 1 bufs' sizes' = if decide (packet = [] \/ buf_bytes b = []) then [] else [take (length (buf_bytes b)) packet].
Proof.
  intros Hs Hlen. unfold memory_recv_batch, index. cbn [lookup list_lookup mbind outcome_bind].
  destruct (fill_first_spec b bufs n sizes (take (Nat.min (length packet) (length (buf_bytes b))) packet))
    as (b' & -> & Ht & _ & Hok); [rewrite length_take; lia | done |].
  cbn [mbind outcome_bind]. eexists _, _. split; [done |]. split; [done |]. split; [exact Hok |]. unfold received_packets. cbn. rewrite Ht, take_0. cbn.
  rewrite length_take. destruct (decide (packet = [] \/ buf_bytes b = [])) as [Hnil | Hne].
  - rewrite decide_False; [done |]. destruct Hnil as [-> | ->]; cbn; lia.
  - assert (length packet <> 0%nat /\ length (buf_bytes b) <> 0%nat) as [? ?] by (rewrite !length_zero_iff_nil; tauto).
    rewrite decide_True by lia. by rewrite Nat.min_comm, <- take_take, (take_ge packet) by done.
Qed.
End facts.
