(* ===== verification/UdpLoop.v ===== *)
(** * UDP actors

    Models the loops of [spawn_udp_rx] and [spawn_udp_tx] in [src/src/udp.rs] around the
    batch handling of [Udp]: the burst of receives after the socket became readable,
    and the transmit loop with its input queue, which is drained after a stop.  What
    the socket returns is part of the input. *)

From S2P Require Import Prelude Net Packet Channel Metrics Routing Events Udp.
#[local] Open Scope Z_scope.

(** ** Receiving *)

Section rx.
Context {M : Mpsc (SocketAddr * list packet)} (io_to_string : IoError -> rstr).

(** One [try_io]: its result, and the metadata and the buffer it left. *)
Record Received : Type := { rx_result : result Z IoError; rx_meta : RecvMeta; rx_buf : list Z }.

Inductive BurstEnd : Type :=
| Drained                              (* back to waiting for readability *)
| RxReturn (r : result unit anyhow)    (* the actor returned *)
| Pending.                             (* the receives given are used up *)

(** The inner [loop] of [spawn_udp_rx]. *)
Fixpoint udp_rx_burst (output : Sender) (rs : list Received) (w : world) : outcome (BurstEnd * world) :=
  match rs with
  | [] => Ret (Pending, w)
  | r :: rs =>
      act ← udp_rx_step (rx_result r) (rx_meta r) (rx_buf r);
      match act with
      | RxBreak => Ret (Drained, w)
      | RxFatal e => Ret (RxReturn (Err [lit "receive UDP datagrams"; io_to_string e]), w)
      | RxOutput remote batch =>
          match send w output (remote, batch) with
          | (Ok _, w) => udp_rx_burst output rs w
          | (Err _, w) => Ret (RxReturn (Ok tt), w)
          end
      end
  end.

(** The outer [while]: [None] is a stop. *)
Definition udp_rx_wakeup (output : Sender) (readable : option (result unit IoError)) (rs : list Received) (w : world) :
    outcome (BurstEnd * world) :=
  match readable with
  | None => Ret (RxReturn (Ok tt), w)
  | Some (Err e) => Ret (RxReturn (Err [lit "wait for UDP socket readability"; io_to_string e]), w)
  | Some (Ok _) => udp_rx_burst output rs w
  end.
End rx.

(** ** Transmitting *)

Section tx.
Context {U : UdpSocket} (enable_offload : bool) (io_to_string : IoError -> rstr).

(** The input channel's buffer, whether it still takes batches, whether a sender is
    left, and the transmissions made. *)
Record UdpTx : Type := {
  tx_queue : list (SocketAddr * list packet);
  tx_open : bool;
  tx_senders : bool;
  tx_sock : usock;
  tx_log : list Transmit;
}.

(** A batch sent to the actor; refused once the channel is closed. *)
Definition tx_enqueue (b : SocketAddr * list packet) (a : UdpTx) : option UdpTx :=
  if tx_open a then
    Some {| tx_queue := tx_queue a ++ [b]; tx_open := tx_open a; tx_senders := tx_senders a;
            tx_sock := tx_sock a; tx_log := tx_log a |}
  else None.

(** [input_rx.close()]. *)
Definition tx_close (a : UdpTx) : UdpTx :=
  {| tx_queue := tx_queue a; tx_open := false; tx_senders := tx_senders a; tx_sock := tx_sock a; tx_log := tx_log a |}.

Inductive TxNext : Type :=
| TxGo (a : UdpTx)
| TxReturn (r : result unit anyhow) (a : UdpTx)
| TxWaiting.                           (* nothing to receive yet, or a send blocked *)

(** One iteration of the loop: [stop] tells whether [wait_for_stop] was ready, which
    the biased [select!] takes first. *)
Definition udp_tx_iter (stop : bool) (a : UdpTx) : outcome TxNext :=
  let a := if stop then tx_close a else a in
  match tx_queue a with
  | [] => Ret (if tx_open a && tx_senders a then TxWaiting else TxReturn (Ok tt) a)
  | (dest, packets) :: queue =>
      let a' sock log := {| tx_queue := queue; tx_open := tx_open a; tx_senders := tx_senders a; tx_sock := sock; tx_log := log |} in
      if decide (packets = []) then Ret (TxGo (a' (tx_sock a) (tx_log a))) else
      '(ts, fin, sock) ← udp_tx_batch enable_offload dest packets (tx_sock a);
      Ret (match fin with
           | Sent | DroppedRest _ => TxGo (a' sock (tx_log a ++ ts))
           | Fatal e => TxReturn (Err [lit "send UDP datagrams"; io_to_string e]) (a' sock (tx_log a ++ ts))
           | WaitFailed e => TxReturn (Err [lit "wait for UDP socket writability"; io_to_string e]) (a' sock (tx_log a ++ ts))
           | Blocked => TxWaiting
           end)
  end.

(** The iterations after a stop: the first one sees it, the others find the channel
    closed.  The result is where the loop ended. *)
Fixpoint udp_tx_drain (fuel : nat) (stop : bool) (a : UdpTx) : outcome (option (result unit anyhow * UdpTx)) :=
  match fuel with
  | O => Ret None
  | S fuel =>
      n ← udp_tx_iter stop a;
      match n with
      | TxGo a => udp_tx_drain fuel false a
      | TxReturn r a => Ret (Some (r, a))
      | TxWaiting => Ret None
      end
  end.
End tx.

(** ** Properties *)

Section rx_facts.
Context {M : Mpsc (SocketAddr * list packet)} {HM : MpscLaws M} (io_to_string : IoError -> rstr).

(** A receive that delivers data. *)
Definition delivers (r : Received) : Prop :=
  exists n, rx_result r = Ok n /\ n <> 0 /\ (0 < meta_len (rx_meta r) <= length (rx_buf r))%nat /\
    (0 < meta_stride (rx_meta r))%nat.

(** The packets of a receive, cut at the stride. *)
Definition delivered (r : Received) : SocketAddr * list packet :=
  (meta_addr (rx_meta r),
   chunks_fuel (meta_len (rx_meta r)) (Nat.min (meta_stride (rx_meta r)) (meta_len (rx_meta r)))
     (take (meta_len (rx_meta r)) (rx_buf r))).

Lemma udp_rx_step_delivers r :
  delivers r -> udp_rx_step (rx_result r) (rx_meta r) (rx_buf r) =
    Ret (RxOutput (delivered r).1 (delivered r).2).
Proof.
  intros (n & -> & Hn & Hl & Hs). unfold udp_rx_step, delivered. rewrite decide_False, decide_False by lia.
  rewrite slice_Ret by lia. cbn [mbind outcome_bind]. rewrite drop_0, Nat.sub_0_r. unfold chunks.
  rewrite decide_False by lia. cbn [mbind outcome_bind fst snd]. by rewrite length_take, (Nat.min_l (meta_len _)) by lia.
Qed.

(** A burst loses nothing: the receives of a readable socket are forwarded in
    order, each tagged with its sender, until a receive would block, and the loop then
    waits again; if the consumer closed its channel, the actor returns. *)
Theorem udp_rx_burst_forwards output rs e last w :
  Forall delivers rs -> rx_result last = Err e -> err_kind e = WouldBlock ->
  exists fin w', udp_rx_burst io_to_string output (rs ++ [last]) w = Ret (fin, w') /\
    match fin with
    | Drained => sent w ((fun r => (output, delivered r)) <$> rs) w'
    | RxReturn r => r = Ok tt /\ is_closed w' output = true
    | Pending => False
    end.
Proof.
  intros Hrs Hlast He. revert w. induction Hrs as [| r rs Hr _ IH]; intros w; cbn [app udp_rx_burst].
  - rewrite Hlast. cbn [udp_rx_step]. rewrite decide_True by done. cbn. eexists _, _. split; [done |]. apply sent_refl.
  - rewrite udp_rx_step_delivers by done. cbn [mbind outcome_bind].
    pose proof (send_law w output (delivered r)) as Hl. destruct (delivered r) as [remote batch] eqn:Hd. cbn [fst snd].
    destruct (send w output (remote, batch)) as [[u | err] w1].
    + destruct (IH w1) as (fin & w' & -> & Hfin). exists fin, w'. split; [done |]. destruct fin; [| done | done].
      rewrite fmap_cons, Hd. exact (sent_trans _ _ _ _ _ Hl Hfin).
    + destruct Hl as (_ & _ & Hc). by eexists _, _.
Qed.
End rx_facts.

Section tx_facts.
Context {U : UdpSocket} (enable_offload : bool) (io_to_string : IoError -> rstr).

(** The socket stays writable, never blocks a send for good and fails none fatally. *)
Definition socket_works : Prop := forall s t, exists r,
  send_retrying (attempts s t).1 = Some (Ok r) /\
  forall e, r = Err e -> forall g, is_non_fatal_send_error e g = true.

(** What became of a batch on a socket: it was sent run by run to its destination, all
    of it or up to a run whose send failed, which was dropped with the rest. *)
Inductive transmitted (dest : SocketAddr) : usock -> list packet -> list Transmit -> usock -> Prop :=
| transmitted_all s : transmitted dest s [] [] s
| transmitted_run s t s1 rest ts s2 :
    destination t = dest -> segments t <> [] -> send_retrying (attempts s t).1 = Some (Ok (Ok tt)) -> (attempts s t).2 = s1 ->
    transmitted dest s1 rest ts s2 -> transmitted dest s (segments t ++ rest) (t :: ts) s2
| transmitted_dropped s t rest e s1 :
    destination t = dest -> segments t <> [] -> send_retrying (attempts s t).1 = Some (Ok (Err e)) -> (attempts s t).2 = s1 ->
    transmitted dest s (segments t ++ rest) [] s1.

(** Batch after batch. *)
Inductive drained : usock -> list (SocketAddr * list packet) -> list Transmit -> usock -> Prop :=
| drained_nil s : drained s [] [] s
| drained_batch s dest packets ts s1 bs ts' s2 :
    transmitted dest s packets ts s1 -> drained s1 bs ts' s2 -> drained s ((dest, packets) :: bs) (ts ++ ts') s2.

Context (Hworks : socket_works).

Lemma send_batch_transmits fuel dest packets s :
  (length packets <= fuel)%nat -> Forall (fun p => p <> []) packets ->
  exists ts fin s', send_batch fuel enable_offload dest packets s = Ret (ts, fin, s') /\
    transmitted dest s packets ts s' /\ (fin = Sent \/ exists e, fin = DroppedRest e).
Proof.
  revert packets s. induction fuel as [| fuel IH]; intros packets s Hf Hne.
  { destruct packets; [| cbn in Hf; lia]. exists [], Sent, s. split; [done |]. split; [constructor | by left]. }
  cbn [send_batch]. destruct packets as [| first packets].
  { exists [], Sent, s. split; [done |]. split; [constructor | by left]. }
  destruct (next_transmit_spec dest (if enable_offload then max_gso_segments s else 1%nat) first packets Hne)
    as (t & rest & -> & Hd & Hsp & Hsn & _). cbn [mbind outcome_bind].
  destruct (Hworks s t) as (r & Hr & He). destruct (attempts s t) as [atts s1] eqn:Ha. cbn [fst] in Hr. rewrite Hr, Hsp.
  destruct r as [[] | e].
  - destruct (IH rest s1) as (ts & fin & s' & -> & Ht & Hfin).
    { apply (f_equal length) in Hsp. rewrite length_app in Hsp. destruct (segments t); [done |]. cbn in *. lia. }
    { rewrite Hsp in Hne. by apply Forall_app in Hne as [_ Hne]. }
    exists (t :: ts), fin, s'. split; [done |]. split; [| done]. econstructor; rewrite ?Ha; done.
  - rewrite He by done. exists [], (DroppedRest e), s1. split; [done |]. split; [| by right; eexists].
    econstructor; rewrite ?Ha; done.
Qed.

Lemma udp_tx_iter_closed dest packets queue a :
  tx_queue a = (dest, packets) :: queue -> Forall (fun p => p <> []) packets ->
  exists ts sock, udp_tx_iter enable_offload io_to_string false a =
      Ret (TxGo {| tx_queue := queue; tx_open := tx_open a; tx_senders := tx_senders a; tx_sock := sock;
                   tx_log := tx_log a ++ ts |}) /\ transmitted dest (tx_sock a) packets ts sock.
Proof.
  intros Hq Hne. unfold udp_tx_iter. cbn [tx_close]. rewrite Hq. case_decide as Hp.
  { subst. exists [], (tx_sock a). rewrite app_nil_r. split; [done | constructor]. }
  destruct (send_batch_transmits (length packets) dest packets (tx_sock a) ltac:(lia) Hne) as (ts & fin & s' & Hs & Ht & Hfin).
  unfold udp_tx_batch. rewrite Hs. cbn [mbind outcome_bind]. exists ts, s'. split; [| done].
  by destruct Hfin as [-> | [e ->]].
Qed.

Lemma udp_tx_drain_closed fuel a :
  tx_open a = false -> (length (tx_queue a) < fuel)%nat ->
  Forall (fun b => Forall (fun p => p <> []) b.2) (tx_queue a) ->
  exists a' ts, udp_tx_drain enable_offload io_to_string fuel false a = Ret (Some (Ok tt, a')) /\
    tx_queue a' = [] /\ tx_open a' = false /\ tx_log a' = tx_log a ++ ts /\
    drained (tx_sock a) (tx_queue a) ts (tx_sock a').
Proof.
  revert a. induction fuel as [| fuel IH]; intros a Ho Hf Hne; [lia |]. cbn [udp_tx_drain].
  destruct (tx_queue a) as [| [dest packets] queue] eqn:Hq.
  - unfold udp_tx_iter. rewrite Hq, Ho. cbn. exists a, []. rewrite app_nil_r. split_and!; try done. constructor.
  - apply Forall_cons in Hne as [Hp Hne].
    destruct (udp_tx_iter_closed dest packets queue a Hq Hp) as (ts & sock & -> & Ht). cbn [mbind outcome_bind].
    edestruct IH as (a' & ts' & -> & H1 & H2 & H3 & H4); [done | cbn in *; lia | exact Hne |].
    exists a', (ts ++ ts'). cbn [tx_log tx_queue tx_sock] in *. split_and!; [done | done | done | | by econstructor].
    by rewrite H3, <- app_assoc.
Qed.

(** C33: a stopped transmit actor delivers what it was given and then ends.  From any
    state whose queued packets are not empty, with a stop pending and a socket that stays
    writable, blocks no send for good and fails none fatally, the loop returns without an
    error within one iteration per queued batch plus one, whatever the senders do.  By
    then every queued batch was transmitted, in order and to its destination, entirely
    or up to a run whose own send failed; the socket is the one these sends left; and no
    further batch is accepted. *)
Theorem udp_tx_drains a :
  Forall (fun b => Forall (fun p => p <> []) b.2) (tx_queue a) ->
  exists a' ts, udp_tx_drain enable_offload io_to_string (S (length (tx_queue a))) true a = Ret (Some (Ok tt, a')) /\
    tx_queue a' = [] /\ (forall b, tx_enqueue b a' = None) /\ tx_log a' = tx_log a ++ ts /\
    drained (tx_sock a) (tx_queue a) ts (tx_sock a').
Proof.
  intros Hne. destruct (udp_tx_drain_closed (S (length (tx_queue a))) (tx_close a)) as (a' & ts & H1 & H2 & H3 & H4 & H5);
    [done | cbn; lia | done |].
  exists a', ts. split_and!; [exact H1 | done | | done | done]. intros b. unfold tx_enqueue. by rewrite H3.
Qed.
End tx_facts.

(** ** Concrete runs *)

Lemma udp_rx_burst_forwards_witness :
  let r := {| rx_result := Ok 1; rx_meta := {| meta_addr := sample_dest; meta_len := 5; meta_stride := 2 |};
              rx_buf := [1; 2; 3; 4; 5; 0] |} in
  exists w', udp_rx_burst (M := @ListChannels.lib (SocketAddr * list packet)) (fun _ => []) 6
      ([r] ++ [{| rx_result := Err {| err_kind := WouldBlock; raw_os_error := None |};
                  rx_meta := {| meta_addr := sample_dest; meta_len := 0; meta_stride := 0 |}; rx_buf := [] |}])
      ListChannels.empty = Ret (Drained, w') /\
    accepted w' = [(6%nat, (sample_dest, [[1; 2]; [3; 4]; [5]]))].
Proof.
  intros r. destruct (udp_rx_burst_forwards (M := @ListChannels.lib (SocketAddr * list packet)) (fun _ => []) 6 [r]
    {| err_kind := WouldBlock; raw_os_error := None |}
    {| rx_result := Err {| err_kind := WouldBlock; raw_os_error := None |};
       rx_meta := {| meta_addr := sample_dest; meta_len := 0; meta_stride := 0 |}; rx_buf := [] |} ListChannels.empty)
    as (fin & w' & Hr & Hfin).
  - constructor; [| constructor]. exists 1. cbn. split_and!; [done | lia | lia | lia | lia].
  - done.
  - done.
  - destruct fin as [| r' |]; [exists w'; split; [exact Hr |]; apply sent_accepted in Hfin; exact Hfin | |]; exfalso;
      apply (f_equal (fun o => match o with Ret (Drained, _) => true | _ => false end)) in Hr; vm_compute in Hr; discriminate.
Defined.

Definition tx_sample : UdpTx (U := FreeSocket.lib) :=
  {| tx_queue := [(sample_dest, [[1; 2]; [3; 4]; [5]]); (sample_dest, [[6]])]; tx_open := true; tx_senders := true;
     tx_sock := (0%nat : @usock FreeSocket.lib); tx_log := [] |}.

Lemma udp_tx_drains_witness :
  exists a', udp_tx_drain (U := FreeSocket.lib) true (fun _ => []) 3 true tx_sample = Ret (Some (Ok tt, a')) /\
    (forall b, tx_enqueue b a' = None) /\ length (tx_log a') = 3%nat.
Proof.
  destruct (udp_tx_drains (U := FreeSocket.lib) true (fun _ => [])) with (a := tx_sample) as (a' & tss & Hd & _ & He & _).
  - intros s t. exists (Ok tt). split; [done |]. intros e [=].
  - repeat constructor; done.
  - exists a'. split; [exact Hd |]. split; [exact He |].
    change (length (tx_log a')) with
      (match Ret (Some (Ok (E := anyhow) tt, a')) with Ret (Some (_, a)) => length (tx_log a) | _ => 0%nat end).
    rewrite <- Hd. by vm_compute.
Defined.
