(* ===== verification/Tunnel.v ===== *)
(** * From device to device

    Composes the data plane: the TUN reader of [Tun], the router of [RouterLoop] and
    the engine of [Engine] on the host a packet leaves, the engine, the router and the
    TUN writer on the host it is for ([src/src/tun.rs], [src/src/router.rs],
    [src/src/h3engine.rs]).  A relation for each host runs the steps of its actors, each
    on what the one before it put on the channel between them; the ends other than
    success are a closed channel and a failing device.  Routing is stated on the
    configuration the tables are made from.  QUIC may drop, reorder and repeat DATAGRAMs
    between the hosts. *)

From S2P Require Import Prelude Net Packet Config Channel Metrics Routing Router Codec Events RouterLoop Engine Udp Tun.
#[local] Open Scope Z_scope.

(** ** Routing by configuration *)

Section routes.
Context {L : IpNetLib} {T : TrieLib L}.

(** The longest prefixes among the claims of a configuration that contain [dst] lead to
    the channel [tx]. *)
Definition routes_to (cs : list (IpNet * RouteEntry)) (dst : IpAddr) (tx : Sender) : Prop :=
  exists best, best ∈ cs /\ contains_addr best.1 dst = true /\
    forall c, c ∈ cs -> contains_addr c.1 dst = true -> prefix_len c.1 < prefix_len best.1 \/ re_tx c.2 = tx.

Context {HL : IpNetLaws L} {HT : TrieLaws T}.

Lemma routing_lookup_routes peers peer_txs local_tun input_tx t dst tx :
  routing_make peers peer_txs local_tun input_tx = Ok t ->
  routes_to (all_claims peers peer_txs local_tun input_tx) dst tx ->
  exists m, routing_lookup t dst = Some m /\ rm_tx m = tx.
Proof.
  intros Hm (best & Hb & Hc & Hall). set (cs := all_claims _ _ _ _) in *.
  pose proof (routing_lookup_holds t cs dst (routing_make_holds _ _ _ _ _ Hm)) as Hl.
  destruct (routing_lookup t dst) as [m |]; [| by rewrite (Hl best Hb) in Hc].
  exists m. split; [done |]. destruct Hl as (Hf & Hcm & Hmax).
  apply first_claim_Some in Hf as (net & Hin & Htr).
  destruct (Hall _ Hin) as [Hlt | Heq]; [| | done].
  - cbn [fst]. rewrite <- contains_addr_trunc, Htr. by rewrite contains_addr_trunc.
  - cbn [fst] in Hlt. specialize (Hmax best Hb Hc). rewrite <- (trunc_len net), Htr, trunc_len in Hlt. lia.
Qed.
End routes.

Lemma messages_on_channel tx log : concat (messages tx log) = on_channel tx log.
Proof.
  induction log as [| [tx' b] log IH]; [done |]. unfold messages, on_channel in *. cbn.
  case_decide; cbn; by rewrite IH.
Qed.

(** A batch regrouped into the messages it was sent as. *)
Lemma regroup {A B} (f : A -> B) (ms : list (list B)) (l : list A) :
  f <$> l = concat ms -> exists ls, (fun b : list A => f <$> b) <$> ls = ms.
Proof.
  revert l. induction ms as [| m ms IH]; intros l Hl; [by exists [] |]. cbn in Hl.
  apply fmap_app_inv in Hl as (l1 & l2 & -> & H2 & ->). destruct (IH l2) as [ls Hls]; [done |].
  exists (l1 :: ls). by rewrite fmap_cons, Hls.
Qed.

(** ** The two hosts *)

Section hosts.
Context {L : IpNetLib} {T : TrieLib L} {Q : QuicLib} {V : VarintLib} {B : BufLib} {K : TunConsts} {D : TunDevice B}.
Context {MP : Mpsc (list packet)} {MB : Mpsc (list PooledBuf)}.
Context (MAX_DATAGRAM_SIZE : nat) (io_to_string : IoError -> rstr) (codec : ConnectIpDatagramCodec).

(** One receive on the TUN device of the host the packets leave, up to the connection
    to the peer; [None]: an actor on the way is gone. *)
Inductive egress_path (mtu batch_size : nat) (output_tx egress_tx input_tx : Sender)
    (i : TunRxInput) (rx : TunRxActor) (r : RouterActor) (c : conn) (k : Counters) : option conn -> Prop :=
| egress_done rx' batch r' c' k' :
    tun_rx_step MAX_DATAGRAM_SIZE io_to_string mtu batch_size output_tx i rx = Ret (TunGo rx') ->
    sent (rx_world rx) [(output_tx, batch)] (rx_world rx') ->
    router_step input_tx (InOutput (Some (buf_bytes <$> batch))) r = Ret (Some r') ->
    sent (router_world r) [(egress_tx, buf_bytes <$> batch)] (router_world r') ->
    handle_router_egress c batch codec k = Ret (c', k') ->
    egress_path mtu batch_size output_tx egress_tx input_tx i rx r c k (Some c')
| egress_router_gone w :
    tun_rx_step MAX_DATAGRAM_SIZE io_to_string mtu batch_size output_tx i rx = Ret (TunReturn (Ok tt)) ->
    sent (rx_world rx) [] w -> is_closed w output_tx = true ->
    egress_path mtu batch_size output_tx egress_tx input_tx i rx r c k None
| egress_engine_gone rx' batch r' :
    tun_rx_step MAX_DATAGRAM_SIZE io_to_string mtu batch_size output_tx i rx = Ret (TunGo rx') ->
    sent (rx_world rx) [(output_tx, batch)] (rx_world rx') ->
    router_step input_tx (InOutput (Some (buf_bytes <$> batch))) r = Ret (Some r') ->
    sent (router_world r) [] (router_world r') -> is_closed (router_world r') egress_tx = true ->
    egress_path mtu batch_size output_tx egress_tx input_tx i rx r c k None.

(** The DATAGRAMs a connection has, up to the TUN device of the host they are for;
    [None]: the TUN writer is gone or its device failed. *)
Inductive ingress_path (max mtu : nat) (offload : bool) (input_tx : Sender)
    (c : conn) (k : Counters) (r : RouterActor) (t : TunTxActor) : option TunTxActor -> Prop :=
| ingress_done c' k' got r' log batches t' :
    collect_router_ingress MAX_DATAGRAM_SIZE c max k codec = Ret (c', k', got) ->
    router_step input_tx (InIngress (Some (buf_bytes <$> got))) r = Ret (Some r') ->
    sent (router_world r) log (router_world r') -> is_closed (router_world r') input_tx = false ->
    (fun b : list PooledBuf => buf_bytes <$> b) <$> batches = messages input_tx log ->
    tun_tx_run MAX_DATAGRAM_SIZE io_to_string mtu offload ((fun b => TunBatch (Some b)) <$> batches) t =
      Ret (Some (TunGo t')) ->
    ingress_path max mtu offload input_tx c k r t (Some t')
| ingress_writer_gone c' k' got r' :
    collect_router_ingress MAX_DATAGRAM_SIZE c max k codec = Ret (c', k', got) ->
    router_step input_tx (InIngress (Some (buf_bytes <$> got))) r = Ret (Some r') ->
    is_closed (router_world r') input_tx = true ->
    ingress_path max mtu offload input_tx c k r t None
| ingress_device_failed c' k' got r' log batches n :
    collect_router_ingress MAX_DATAGRAM_SIZE c max k codec = Ret (c', k', got) ->
    router_step input_tx (InIngress (Some (buf_bytes <$> got))) r = Ret (Some r') ->
    sent (router_world r) log (router_world r') ->
    (fun b : list PooledBuf => buf_bytes <$> b) <$> batches = messages input_tx log ->
    tun_tx_run MAX_DATAGRAM_SIZE io_to_string mtu offload ((fun b => TunBatch (Some b)) <$> batches) t = Ret n ->
    match n with Some (TunGo _) => False | Some (TunReturn e) => is_ok e = false | None => True end ->
    ingress_path max mtu offload input_tx c k r t None.
End hosts.

(** ** Lemmas *)

Section facts.
Context {L : IpNetLib} {HL : IpNetLaws L} {T : TrieLib L} {HT : TrieLaws T}.
Context {Q : QuicLib} {HQ : QuicLaws Q} {V : VarintLib} {HV : VarintLaws V} {B : BufLib} {HB : BufLaws B}.
Context {K : TunConsts} {D : TunDevice B} {HD : TunDeviceLaws D}.
Context {MP : Mpsc (list packet)} {HMP : MpscLaws MP} {MB : Mpsc (list PooledBuf)} {HMB : MpscLaws MB}.
Context (MAX_DATAGRAM_SIZE : nat) (io_to_string : IoError -> rstr).
Context (sid : Z) (codec : ConnectIpDatagramCodec) (qsi : list Z).
Hypothesis Hsid : 0 <= sid <= u64_max.
Hypothesis Hcodec : codec_new sid = Ret codec.
Hypothesis Hqsi : qsi_bytes codec = Ret qsi.

(** A packet as the DATAGRAM it travels in. *)
Definition framed (p : list Z) : list Z := qsi ++ CONTEXT_ID_IP :: p.

(** The packet has a destination, and [cs] lead it to [tx]. *)
Definition goes_to (cs : list (IpNet * RouteEntry)) (tx : Sender) (p : packet) : Prop :=
  exists dst, extract_dst_ip p = Ret (Some dst) /\ routes_to cs dst tx.

Lemma goes_to_nonempty cs tx p : goes_to cs tx p -> p <> [].
Proof. intros (dst & Hd & _) ->. by vm_compute in Hd. Qed.

Lemma router_output_step peers peer_txs local_tun input_tx first others r tx :
  routing_make peers peer_txs local_tun input_tx = Ok (routing r) ->
  goes_to (all_claims peers peer_txs local_tun input_tx) tx first ->
  exists r', router_step input_tx (InOutput (Some (first :: others))) r = Ret (Some r') /\
    (sent (router_world r) [(tx, first :: others)] (router_world r') \/
     sent (router_world r) [] (router_world r') /\ is_closed (router_world r') tx = true).
Proof.
  intros Hm (dst & Hd & Hr). destruct (routing_lookup_routes _ _ _ _ _ _ _ Hm Hr) as (m & Hl & Htx).
  destruct (handle_output_batch_spec first others (routing r) (router_counters r) (router_world r)) as (c' & w' & ops & Hb & _ & _ & Hs).
  rewrite Hd, Hl, Htx in Hs. exists (with_data r (c', w')). cbn [router_step]. rewrite Hb. split; [done |]. cbn.
  destruct Hs as [[? _] | (? & ? & _)]; auto.
Qed.

(** Packets for the host itself are handed to the TUN writer as they are, in order. *)
Lemma router_local_step peers peer_txs local_tun input_tx ps r :
  routing_make peers peer_txs local_tun input_tx = Ok (routing r) ->
  Forall (fun p => Forall is_byte p /\ goes_to (all_claims peers peer_txs local_tun input_tx) input_tx p) ps ->
  exists r' log, router_step input_tx (InIngress (Some ps)) r = Ret (Some r') /\
    sent (router_world r) log (router_world r') /\
    (is_closed (router_world r') input_tx = false -> concat (messages input_tx log) = ps).
Proof.
  intros Hm Hps. assert (Hv : verdict (routing r) input_tx <$> ps = VSend input_tx <$> ps).
  { apply list_fmap_ext. intros i p Hi. rewrite Forall_lookup in Hps. destruct (Hps i p Hi) as (_ & dst & Hd & Hr).
    destruct (routing_lookup_routes _ _ _ _ _ _ _ Hm Hr) as (m & Hl & Htx).
    unfold verdict, same_channel. by rewrite Hd, Hl, Htx, bool_decide_true. }
  destruct (ingress_loop_routed (length ps) ps (routing r) input_tx (router_counters r) (router_world r))
    as (c' & w' & Hb & log & ops & Hs & _ & _ & _ & Hch & _); [done | by eapply Forall_impl; [exact Hps | intros p [? _]] |].
  exists (with_data r (c', w')), log. cbn [router_step]. unfold handle_ingress_batch. rewrite Hb. split_and!; [done | exact Hs |].
  intros Ho. rewrite messages_on_channel, (Hch _ Ho), Hv. clear. induction ps as [| p ps IH]; [done |].
  rewrite fmap_cons, bind_cons, routed_to_app, IH. cbn. by rewrite decide_True.
Qed.

(** The sending host: it comes through, and what its connection accepted are packets of
    the receive, framed and in order. *)
Lemma egress_path_spec peers peer_txs local_tun mtu batch_size output_tx egress_tx input_tx count bufs sizes rx r c k :
  routing_make peers peer_txs local_tun input_tx = Ok (routing r) ->
  length bufs = batch_size -> sizes_ok bufs sizes -> Forall (fun b => (9 <= headroom b)%nat) bufs ->
  let packets := received_packets (Nat.min count batch_size) bufs sizes in
  packets <> [] -> Forall (goes_to (all_claims peers peer_txs local_tun input_tx) egress_tx) packets ->
  (exists o, egress_path MAX_DATAGRAM_SIZE io_to_string codec mtu batch_size output_tx egress_tx input_tx
     (TunRecv (Ok count) bufs sizes) rx r c k o) /\
  forall c', egress_path MAX_DATAGRAM_SIZE io_to_string codec mtu batch_size output_tx egress_tx input_tx
      (TunRecv (Ok count) bufs sizes) rx r c k (Some c') ->
    exists acc, sublist acc packets /\ dgrams_sent c' = dgrams_sent c ++ (framed <$> acc).
Proof.
  intros Hm Hlen Hs Hroom packets Hne Hgo.
  destruct (tun_rx_batch MAX_DATAGRAM_SIZE io_to_string mtu batch_size output_tx count bufs sizes rx Hlen Hs) as (n & Hn & Hspec).
  fold packets in Hspec.
  assert (Hout : forall batch, buf_bytes <$> batch = packets -> Forall (fun b => (9 <= headroom b)%nat) batch ->
    exists c' k' acc, handle_router_egress c batch codec k = Ret (c', k') /\ sublist acc packets /\
      dgrams_sent c' = dgrams_sent c ++ (framed <$> acc)).
  { intros batch Hb Hh. unfold handle_router_egress.
    destruct (egress_loop_exact sid codec qsi Hsid Hcodec Hqsi batch c k 0 0 Hh) as (c' & k' & acc & Hsub & Hsent & ->).
    cbn [mbind outcome_bind]. eexists c', _, acc. rewrite <- Hb. by split_and!. }
  split.
  - destruct n as [rx' | e].
    + destruct Hspec as (_ & batch & ops & Hb & Hh & Hsent & _). specialize (Hh 9%nat Hroom).
      rewrite decide_False in Hsent by done.
      destruct (Hout batch Hb Hh) as (c' & k' & acc & He & _).
      assert (exists r', router_step input_tx (InOutput (Some (buf_bytes <$> batch))) r = Ret (Some r') /\
        (sent (router_world r) [(egress_tx, buf_bytes <$> batch)] (router_world r') \/
         sent (router_world r) [] (router_world r') /\ is_closed (router_world r') egress_tx = true)) as (r' & Hr & Hw).
      { rewrite Hb. destruct packets as [| p ps]; [done |]. apply Forall_cons in Hgo as [Hp _]. by eapply router_output_step. }
      destruct Hw as [Hw | [Hw Hc]]; [exists (Some c'); by eapply egress_done | exists None; by eapply egress_engine_gone].
    + destruct Hspec as (-> & w & Hw & Hc). exists None. by eapply egress_router_gone.
  - intros c' H. inversion H as [rx' batch r' c2 k' Hstep Hsent _ _ He | |]; subst.
    rewrite Hn in Hstep. injection Hstep as ->. destruct Hspec as (_ & batch' & ops & Hb & Hh & Hsent' & _).
    rewrite decide_False in Hsent' by done.
    apply sent_accepted in Hsent, Hsent'. rewrite Hsent in Hsent'. apply app_inv_head in Hsent'. injection Hsent' as ->.
    destruct (Hout batch' Hb (Hh 9%nat Hroom)) as (c3 & k3 & acc & He' & Hsub & Hd).
    rewrite He in He'. injection He' as -> ->. by exists acc.
Qed.

(** The device completed exactly the calls that hand it [ps], in one or several batches. *)
Definition handed_over (offload : bool) (ps : list packet) (d d' : dev) : Prop :=
  exists batches, concat batches = ps /\ completed d' = completed d ++ (batches ≫= tun_calls offload).

Lemma filter_groups {A} (P : A -> Prop) `{forall x, Decision (P x)} (xss : list (list A)) :
  Forall P (concat xss) -> filter P <$> xss = xss.
Proof.
  induction xss as [| xs xss IH]; [done |]. cbn. rewrite Forall_app. intros [Hx Hxs]. by rewrite filter_all, IH.
Qed.

(** Without offload the batches do not show. *)
Lemma handed_over_plain ps d d' : handed_over false ps d d' -> completed d' = completed d ++ (DevSend <$> ps).
Proof.
  intros (bs & <- & ->). f_equal. induction bs as [| b bs IH]; [done |]. cbn. by rewrite fmap_app, IH.
Qed.

(** The receiving host: it comes through, and the device gets the packets of the
    DATAGRAMs. *)
Lemma ingress_path_spec peers peer_txs local_tun max mtu offload input_tx ps c k r t :
  (MAX_DATAGRAM_SIZE + HEADROOM <= MAX_PACKET_BUFFER_SIZE)%nat -> (VIRTIO_NET_HDR_LEN <= HEADROOM)%nat ->
  (mtu + HEADROOM <= MAX_PACKET_BUFFER_SIZE)%nat ->
  routing_make peers peer_txs local_tun input_tx = Ok (routing r) ->
  Forall (fun p => Forall is_byte (framed p) /\ (length (framed p) <= room MAX_DATAGRAM_SIZE max)%nat /\
    (length p <= mtu)%nat /\ goes_to (all_claims peers peer_txs local_tun input_tx) input_tx p) ps ->
  dgrams c = framed <$> ps ->
  (exists o, ingress_path MAX_DATAGRAM_SIZE io_to_string codec max mtu offload input_tx c k r t o) /\
  forall t', ingress_path MAX_DATAGRAM_SIZE io_to_string codec max mtu offload input_tx c k r t (Some t') ->
    handed_over offload ps (tun_dev t) (tun_dev t').
Proof.
  intros Hmax Hv Hmtu Hm Hps Hc.
  destruct (collect_framed MAX_DATAGRAM_SIZE sid codec qsi Hsid Hcodec Hqsi max c k ps) as (c' & got & Hcol & Hgot); [| exact Hc |].
  { eapply Forall_impl; [exact Hps |]. intros p (? & ? & _ & Hg). split_and!; [by eapply goes_to_nonempty | done | done]. }
  destruct (router_local_step peers peer_txs local_tun input_tx (buf_bytes <$> got) r Hm) as (r' & log & Hr & Hs & Hlog).
  { rewrite Hgot. eapply Forall_impl; [exact Hps |]. intros p (Hb & _ & _ & Hg). split; [| done].
    unfold framed in Hb. apply Forall_app in Hb as [_ Hb]. by apply Forall_cons in Hb as [_ Hb]. }
  assert (Hwr : forall batches, (fun b : list PooledBuf => buf_bytes <$> b) <$> batches = messages input_tx log ->
    is_closed (router_world r') input_tx = false ->
    exists n, tun_tx_run MAX_DATAGRAM_SIZE io_to_string mtu offload ((fun b => TunBatch (Some b)) <$> batches) t = Ret n /\
      match n with
      | Some (TunGo t') => handed_over offload ps (tun_dev t) (tun_dev t')
      | Some (TunReturn e) => is_ok e = false
      | None => True
      end).
  { intros batches Hb Ho. specialize (Hlog Ho). rewrite <- Hb, Hgot in Hlog.
    assert (Hall : Forall (fun p => (length p <= mtu)%nat) ps) by (eapply Forall_impl; [exact Hps | by intros p (_ & _ & ? & _)]).
    destruct (tun_tx_run_written MAX_DATAGRAM_SIZE io_to_string mtu offload batches t Hmax Hv) as (n & -> & Hn).
    - apply Forall_forall. intros b Hin. apply Forall_forall. intros x Hx. right. rewrite Forall_forall in Hall.
      specialize (Hall (buf_bytes x)). assert (length (buf_bytes x) <= mtu)%nat; [| lia]. apply Hall. rewrite <- Hlog.
      apply list_elem_of_In, in_concat. exists (buf_bytes <$> b). split; apply list_elem_of_In, list_elem_of_fmap; eauto.
    - exists n. split; [done |]. destruct n as [[t' | e] |]; [| done | done]. rewrite filter_groups in Hn by (by rewrite Hlog).
      by exists ((fun b : list PooledBuf => buf_bytes <$> b) <$> batches). }
  split.
  - destruct (is_closed (router_world r') input_tx) eqn:Ho; [exists None; by eapply ingress_writer_gone |].
    destruct (regroup buf_bytes (messages input_tx log) got) as [batches Hb]; [by rewrite Hlog |].
    destruct (Hwr batches Hb eq_refl) as (n & Hrun & Hn). destruct n as [[t' | e] |].
    + exists (Some t'). by eapply ingress_done.
    + exists None. by eapply ingress_device_failed.
    + exists None. by eapply ingress_device_failed.
  - intros t' H. inversion H as [c2 k2 got2 r2 log2 batches t2 Hcol2 Hr2 Hs2 Ho Hb Hrun | |]; subst.
    rewrite Hcol in Hcol2. injection Hcol2 as <- <- <-. rewrite Hr in Hr2. injection Hr2 as <-.
    apply sent_accepted in Hs, Hs2. rewrite Hs in Hs2. apply app_inv_head in Hs2. subst log2.
    destruct (Hwr batches Hb Ho) as (n & Hrun2 & Hn). rewrite Hrun in Hrun2. by injection Hrun2 as <-.
Qed.

(** ** Properties *)

End facts.

(** ** Witness: one packet for 10.1.2.3, which is the peer's own address *)

Definition far_packet : packet := [69; 0; 0; 20; 0; 0; 0; 0; 64; 17; 0; 0; 10; 9; 9; 9; 10; 1; 2; 3].
Definition near_tun : @LocalTun CidrNet.lib :=
  {| ifname := default_ifname; addrs := [sample_net 168364297 24]; mtu := default_mtu |}.

Definition near_table : @RoutingTable CidrNet.lib MapTrie.lib :=
  match routing_make sample_peers sample_txs near_tun 0%nat with Ok t => t | Err _ => routing_new end.
Definition far_table : @RoutingTable CidrNet.lib MapTrie.lib :=
  match routing_make [] ∅ sample_tun 0%nat with Ok t => t | Err _ => routing_new end.

Definition near_router : @RouterActor CidrNet.lib MapTrie.lib (@ListChannels.lib (list packet)) :=
  router_start near_table (ListChannels.empty : @world _ (@ListChannels.lib (list packet))).
Definition far_router : @RouterActor CidrNet.lib MapTrie.lib (@ListChannels.lib (list packet)) :=
  router_start far_table (ListChannels.empty : @world _ (@ListChannels.lib (list packet))).
Definition far_writer : TunTxActor (D := MemTun.device) :=
  {| tun_dev := ([] : @dev _ MemTun.device); tun_counters := counters_new Tun Tx; tun_emitted := [] |}.

(** A decision procedure for the routes of a configuration. *)
Lemma routes_to_check {L : IpNetLib} (cs : list (IpNet * RouteEntry)) best dst tx :
  best ∈ cs -> contains_addr best.1 dst = true ->
  forallb (fun c => negb (contains_addr c.1 dst) || (prefix_len c.1 <? prefix_len best.1) || bool_decide (re_tx c.2 = tx)) cs = true ->
  routes_to cs dst tx.
Proof.
  intros Hin Hc Hall. exists best. split; [done |]. split; [done |]. intros c Hcs Hcc. rewrite forallb_forall in Hall.
  specialize (Hall c (proj1 (list_elem_of_In _ _) Hcs)). rewrite Hcc in Hall. cbn in Hall.
  apply orb_true_iff in Hall as [Hlt | Htx]; [left; lia | right; by apply bool_decide_eq_true in Htx].
Qed.

Lemma near_route : goes_to (all_claims sample_peers sample_txs near_tun 0%nat) 2%nat far_packet.
Proof.
  exists (V4 167838211). split; [by vm_compute |].
  apply (routes_to_check _ (sample_net 167837696 16, {| re_peer_id := lit "b"; re_tx := 2%nat |})).
  - apply list_elem_of_lookup. exists 1%nat. reflexivity.
  - by vm_compute.
  - by vm_compute.
Qed.

Lemma far_route : goes_to (all_claims (L := CidrNet.lib) [] ∅ sample_tun 0%nat) 0%nat far_packet.
Proof.
  exists (V4 167838211). split; [by vm_compute |].
  apply (routes_to_check _ (ipnet_from (V4 167838211), {| re_peer_id := LOCAL_PEER_ID; re_tx := 0%nat |})).
  - apply list_elem_of_lookup. exists 0%nat. reflexivity.
  - by vm_compute.
  - by vm_compute.
Qed.

Lemma near_make : routing_make sample_peers sample_txs near_tun 0%nat = Ok (routing near_router).
Proof.
  assert (H : is_ok (routing_make (T := MapTrie.lib) sample_peers sample_txs near_tun 0%nat) = true) by by vm_compute.
  cbn [routing near_router router_start]. unfold near_table. by destruct (routing_make sample_peers sample_txs near_tun 0%nat).
Qed.

Lemma far_make : routing_make (T := MapTrie.lib) [] ∅ sample_tun 0%nat = Ok (routing far_router).
Proof.
  assert (H : is_ok (routing_make (T := MapTrie.lib) [] ∅ sample_tun 0%nat) = true) by by vm_compute.
  cbn [routing far_router router_start]. unfold far_table. by destruct (routing_make [] ∅ sample_tun 0%nat).
Qed.

Definition near_egress := egress_path (Q := FifoQuic.lib sample_remote) (MP := @ListChannels.lib (list packet)) 1500 (fun _ => []) sample_codec
  1280 1 5 2 0 (TunRecv (Ok 1%nat) [head_buf 10 far_packet] [20%nat]) rx_start_sample near_router FifoQuic.empty (counters_new Http3 Tx).

Definition far_conn : FifoQuic.state :=
  {| FifoQuic.inbox := [framed [1] far_packet; framed [1] far_packet]; FifoQuic.sent := []; FifoQuic.outbox := []; FifoQuic.shut := false |}.

Definition far_ingress := ingress_path (Q := FifoQuic.lib sample_remote) (V := Rfc9000.lib) (K := MemTun.consts) (D := MemTun.device)
  (MP := @ListChannels.lib (list packet)) 1500 (fun _ => []) sample_codec
  1400 1280 false 0 far_conn (counters_new Http3 Rx) far_router far_writer.

Definition near_read := tun_rx_step (B := HeadBuf.lib) (M := @ListChannels.lib (list (@PooledBuf HeadBuf.lib))) 1500 (fun _ => [])
  1280 1 5 (TunRecv (Ok 1%nat) [head_buf 10 far_packet] [20%nat]) rx_start_sample.

Lemma near_read_batch n :
  near_read = Ret n -> exists rx', n = TunGo rx' /\
    forall batch, sent (rx_world rx_start_sample) [(5%nat, batch)] (rx_world rx') -> batch = [head_buf 10 far_packet].
Proof.
  assert (Hgo : match near_read with Ret (TunGo a) => Some (accepted (rx_world a)) | _ => None end =
    Some [(5%nat, [head_buf 10 far_packet])]) by (vm_compute; reflexivity).
  intros Hn. rewrite Hn in Hgo. destruct n as [rx' | e]; [| done]. exists rx'. split; [done |].
  intros batch Hs%sent_accepted. rewrite Hs in Hgo.
  change (accepted (rx_world rx_start_sample)) with (@nil (Sender * list (@PooledBuf HeadBuf.lib))) in Hgo.
  cbn [app] in Hgo. by injection Hgo.
Qed.

(** The receive goes through: no channel of the sample is closed. *)
Lemma near_egress_done o : near_egress o -> exists ca, o = Some ca /\ dgrams_sent ca = [framed [1] far_packet].
Proof.
  intros H. destruct H as [rx' batch r' c' k' Hs Hsent _ _ He | w Hs | rx' batch r' Hs Hsent Hr _ Hc];
    apply near_read_batch in Hs as (rx & Hrx & Hb); [| done |]; injection Hrx as <-; apply Hb in Hsent; subst batch.
  - exists c'. split; [done |].
    assert (Hd : match handle_router_egress (Q := FifoQuic.lib sample_remote) FifoQuic.empty [head_buf 10 far_packet] sample_codec
      (counters_new Http3 Tx) with Ret (c, _) => dgrams_sent c | Panic => [] end = [framed [1] far_packet]) by (vm_compute; reflexivity).
    by rewrite He in Hd.
  - exfalso. assert (Hopen : match router_step 0%nat (InOutput (Some [far_packet])) near_router with
      | Ret (Some r) => is_closed (router_world r) 2%nat | _ => true end = false) by (vm_compute; reflexivity).
    change (buf_bytes <$> [head_buf 10 far_packet]) with [far_packet] in Hr. rewrite Hr in Hopen. congruence.
Qed.

