(* ===== verification/Query.v ===== *)
(** * One DNS exchange

    Models [exchange] of [src/src/dns.rs] from the socket to the answer, on top of the
    receive loop of [Dns] and the sockets of [Bind]: a fresh socket connected to the
    server, bound to an interface other than the TUN's where there is one, and the request built with hickory_proto
    (class [DnsWire]).  The deadline of a query is [resolve] of [Dns]. *)

From stdpp Require Import countable.
From S2P Require Import Prelude Net Config Route Udp AddrText Dns Events Bind Dial.
#[local] Open Scope Z_scope.

(** The parts of a request [exchange] sets; a name is its [to_ascii()]. *)
Record DnsRequest : Type := {
  rq_id : Z;
  rq_recursion_desired : bool;
  rq_queries : list Question;
}.

(** hickory_proto: [Name::from_ascii] and [Message::to_vec]. *)
Class DnsWire : Type := {
  name_from_ascii : rstr -> result rstr rstr;
  request_to_vec : DnsRequest -> result (list Z) rstr;
}.

(** [record_type_query]. *)
Definition record_type_query (name : rstr) (record_type : RecordType) : Question :=
  {| qn_ascii := name; qn_type := record_type |}.

Section exchange.
Context {L : IpNetLib} {I : IfNames} {W : DnsWire}.
Context (sys : list SockOp -> SockOp -> result unit IoError) (io_to_string : IoError -> rstr).

(** [exchange] with the random [id]: the result ([None]: still waiting), the calls on
    the socket and the datagram sent.  [registered] is the result of
    [UdpSocket::from_std], [send] of sending, [packets] what is received. *)
Definition exchange (server : SocketAddr) (tun_if bindif : option rstr)
    (probe : IpAddr -> option rstr -> result (list rstr) RouteProbeError) (registered : result unit rstr)
    (id : Z) (query : DnsQuery) (send : list Z -> result unit rstr) (packets : list Received) :
    option (result Message anyhow) * list SockOp * option (list Z) :=
  match make_client_udp_socket sys io_to_string server tun_if bindif probe 0 with
  | (Err e, t) => (Some (Err [display_udp_error e]), t, None)
  | (Ok _, t) =>
  match registered with
  | Err e => (Some (Err [lit "register DNS socket"; e]), t, None)
  | Ok _ =>
  match name_from_ascii (q_hostname query) with
  | Err e => (Some (Err [e]), t, None)
  | Ok name =>
  let request := {| rq_id := id; rq_recursion_desired := true;
                    rq_queries := [record_type_query name (q_type query)] |} in
  match request_to_vec request with
  | Err e => (Some (Err [e]), t, None)
  | Ok datagram =>
  match send datagram with
  | Err e => (Some (Err [lit "send DNS query"; e]), t, None)
  | Ok _ =>
      (match exchange_recv id query packets with
       | None => None
       | Some (Ok m) => Some (Ok m)
       | Some (Err e) => Some (Err [lit "receive DNS response"; e])
       end, t, Some datagram)
  end end end end end.
End exchange.

(** ** What answers a query *)

(** [ascii] is the hostname, but for a final dot and the case of its letters. *)
Definition names_host (ascii host : rstr) : Prop :=
  exists s, (ascii = s ++ lit "." \/ ascii = s /\ last s <> Some 46) /\
    Forall2 (fun c d => 65 <= c <= 90 /\ d = c + 32 \/ ~ 65 <= c <= 90 /\ d = c) s host.

(** The message carries the request's id, repeats its question first and is complete. *)
Definition answers (id : Z) (query : DnsQuery) (m : Message) : Prop :=
  m_id m = id /\ m_truncation m = false /\
  exists question rest, m_queries m = question :: rest /\ qn_type question = q_type query /\
    names_host (qn_ascii question) (q_hostname query).

(** What the exchange passes over: bytes that do not decode and messages that do not
    answer. *)
Definition passed_over (id : Z) (query : DnsQuery) (p : Received) : Prop :=
  match p with RxMessage m => ~ answers id query m | RxGarbage => True | RxError _ => False end.

Lemma lowered s host :
  Forall2 (fun c d => 65 <= c <= 90 /\ d = c + 32 \/ ~ 65 <= c <= 90 /\ d = c) s host <-> ascii_lowercase <$> s = host.
Proof.
  revert host. induction s as [| c s IH]; intros [| d host]; rewrite ?fmap_cons, ?fmap_nil.
  - split; [done | constructor].
  - split; [by inversion 1 | done].
  - split; [by inversion 1 | done].
  - rewrite Forall2_cons, IH. unfold ascii_lowercase. case_decide as Hc; split; intros H.
    + destruct H as [[[_ ->] | [? _]] ->]; [done | lia].
    + injection H as <- <-. split; [left; lia | done].
    + destruct H as [[[? _] | [_ ->]] ->]; [lia | done].
    + injection H as <- <-. split; [right; lia | done].
Qed.

Lemma names_host_iff ascii host : names_host ascii host <-> normalize_dns_name ascii = host.
Proof.
  unfold names_host, normalize_dns_name. setoid_rewrite lowered. destruct (strip_suffix (lit ".") ascii) as [s |] eqn:Hs; cbn.
  - apply strip_suffix_Some in Hs as ->. split; [| by exists s; auto].
    intros (s' & [Hs' | [Hs' Hl]] & <-); [by apply app_inj_tail in Hs' as [-> _] |].
    subst s'. destruct Hl. apply last_snoc.
  - split.
    + intros (s' & [-> | [-> _]] & <-); [by rewrite strip_suffix_app in Hs | done].
    + intros <-. exists ascii. split; [right | done]. split; [done |]. intros [s Hl]%last_Some.
      change [46] with (lit ".") in Hl. by rewrite Hl, strip_suffix_app in Hs.
Qed.

Lemma answers_iff id query m : answers id query m <-> answers_query id query m = true /\ m_truncation m = false.
Proof.
  unfold answers, answers_query. rewrite andb_true_iff, bool_decide_eq_true. setoid_rewrite names_host_iff.
  destruct (m_queries m) as [| question rest]; cbn [head]; [naive_solver |].
  rewrite andb_true_iff, !bool_decide_eq_true. naive_solver.
Qed.

Lemma skipped_passed_over id query p : skipped id query p = true <-> passed_over id query p.
Proof.
  destruct p as [m | | e]; cbn; [| done | done]. rewrite answers_iff, orb_true_iff, negb_true_iff.
  destruct (answers_query id query m), (m_truncation m); naive_solver.
Qed.

(** What comes of the packets received. *)
Definition exchange_result (id : Z) (query : DnsQuery) (packets : list Received) (r : option (result Message rstr)) : Prop :=
  match r with
  | None => Forall (passed_over id query) packets
  | Some (Ok m) => answers id query m /\
      exists pre post, packets = pre ++ RxMessage m :: post /\ Forall (passed_over id query) pre
  | Some (Err e) => exists pre post, packets = pre ++ RxError e :: post /\ Forall (passed_over id query) pre
  end.

Lemma exchange_recv_result id query packets : exchange_result id query packets (exchange_recv id query packets).
Proof.
  assert (Hskip : forall l, Forall (fun p => skipped id query p = true) l -> Forall (passed_over id query) l)
    by (intros l Hl; eapply Forall_impl; [exact Hl |]; intros p; apply skipped_passed_over).
  pose proof (exchange_recv_first id query packets) as H. unfold exchange_result.
  destruct (exchange_recv id query packets) as [[m | e] |]; [| | by apply Hskip];
    destruct H as (pre & p & post & -> & Hpre & Hs & Hr); destruct p as [m' | | e']; try done; injection Hr as ->.
  - cbn in Hs. apply orb_false_iff in Hs as [Ha%negb_false_iff Ht]. split; [by apply answers_iff |].
    exists pre, post. split; [done | by apply Hskip].
  - exists pre, post. split; [done | by apply Hskip].
Qed.

(** ** Properties *)

Section facts.
Context {L : IpNetLib} {R : RouteLib} {RI : RouteInfo R} {I : IfNames} {HI : IfNamesLaws I} {W : DnsWire}.
Context (sys : list SockOp -> SockOp -> result unit IoError) (io_to_string : IoError -> rstr).

#[local] Ltac exchange_fails := split_and!; [done | done | done | by intros []].

End facts.

(** ** Witness: a server that answers after a stray datagram *)

Module AsciiWire.
#[export] Instance lib : DnsWire := {|
  name_from_ascii s := Ok s;
  request_to_vec r := Ok (u16_to_be_bytes (rq_id r));
|}.
End AsciiWire.

Definition sample_query : DnsQuery := {| q_hostname := sample_host; q_type := A |}.

Definition sample_answer : Message :=
  {| m_id := 7; m_code := NoError; m_truncation := false;
     m_queries := [{| qn_ascii := lit "VPN.example."; qn_type := A |}]; m_answers := [] |}.

