(* ===== verification/Pipeline.v ===== *)
(** * Actor pipelines

    Models which actors the program spawns together and how it links them, as the
    operations on the bus of [Actor]: [spawn_h3_dispatcher] of
    [src/src/h3listener.rs], [spawn_bare_rx] and [dial_bare_tx] of [src/src/bare.rs],
    and [dial_h3_client] of [src/src/h3dialer.rs].  The references are those the
    spawns returned; nothing is assumed about what runs in between. *)

From stdpp Require Import countable.
From S2P Require Import Prelude Net Config Channel Metrics Routing AddrText Events Actor.
#[local] Open Scope Z_scope.

Section pipeline.
Context {L : IpNetLib} {T : TrieLib L}.

(** [ActorRef::link]: two sends. *)
Definition link (a other : ActorRef) : list BusOp := [OpLink a other; OpLink other a].

(** [spawn_udp_rx] and [spawn_udp_tx]: the registration of the actors. *)
Definition spawn_udp_rx (parent : ActorRef) (local_addr : rstr) (policy : SupervisionPolicy) : list BusOp :=
  [OpSpawn parent (lit "udp-rx[" ++ local_addr ++ lit "]") policy].

Definition spawn_udp_tx (parent : ActorRef) (local_addr : rstr) (policy : SupervisionPolicy) : list BusOp :=
  [OpSpawn parent (lit "udp-tx[" ++ local_addr ++ lit "]") policy].

Definition spawn_h3_dispatcher (parent udp_rx udp_tx dispatcher : ActorRef) (local_addr : rstr) (bound_addr : SocketAddr) :
    list BusOp :=
  spawn_udp_rx parent local_addr Critical ++ spawn_udp_tx parent local_addr Critical ++
  [OpSpawn parent (lit "h3-dispatcher[" ++ display_socket_addr bound_addr ++ lit "]") Critical] ++
  link dispatcher udp_rx ++ link dispatcher udp_tx ++ link udp_rx udp_tx.

Definition spawn_bare_rx (parent bare_filter udp_rx : ActorRef) (local_addr : rstr) : list BusOp :=
  [OpSpawn parent (lit "bare-rx-filter") Critical] ++ spawn_udp_rx parent local_addr Critical ++ link bare_filter udp_rx.

(** The actors of [dial_bare_tx] with [spawn_bare_tx]. *)
Definition dial_bare_actors (parent udp_tx bare_tx : ActorRef) (local_addr peer_id : rstr) : list BusOp :=
  spawn_udp_tx parent local_addr Restartable ++
  [OpSpawn parent (lit "bare-tx[" ++ peer_id ++ lit "]") Restartable] ++ link udp_tx bare_tx.

(** The actors of [dial_h3_client]: those of the socket before the handshake, the
    engine after it. *)
Definition dial_h3_actors (parent udp_rx udp_tx engine : ActorRef) (local_addr peer_id : rstr) (remote_addr : SocketAddr) :
    list BusOp :=
  spawn_udp_rx parent local_addr Restartable ++ spawn_udp_tx parent local_addr Restartable ++ link udp_rx udp_tx ++
  [OpSpawn parent (lit "h3-engine[" ++ peer_id ++ lit "@" ++ display_socket_addr remote_addr ++ lit "]") Restartable] ++
  link engine udp_rx ++ link engine udp_tx.

(** The pipelines, and the actors that live and die together in each. *)
Inductive Pipeline : Type :=
| H3Listener (parent udp_rx udp_tx dispatcher : ActorRef) (local_addr : rstr) (bound_addr : SocketAddr)
| BareListener (parent bare_filter udp_rx : ActorRef) (local_addr : rstr)
| BareDial (parent udp_tx bare_tx : ActorRef) (local_addr peer_id : rstr)
| H3Dial (parent udp_rx udp_tx engine : ActorRef) (local_addr peer_id : rstr) (remote_addr : SocketAddr).

Definition pipeline_ops (p : Pipeline) : list BusOp :=
  match p with
  | H3Listener parent rx tx d local bound => spawn_h3_dispatcher parent rx tx d local bound
  | BareListener parent f rx local => spawn_bare_rx parent f rx local
  | BareDial parent tx b local peer => dial_bare_actors parent tx b local peer
  | H3Dial parent rx tx e local peer remote => dial_h3_actors parent rx tx e local peer remote
  end.

Definition members (p : Pipeline) : list ActorRef :=
  match p with
  | H3Listener _ rx tx d _ _ => [rx; tx; d]
  | BareListener _ f rx _ => [f; rx]
  | BareDial _ tx b _ _ => [tx; b]
  | H3Dial _ rx tx e _ _ _ => [rx; tx; e]
  end.
End pipeline.

(** ** Lemmas *)

Section facts.
Context {L : IpNetLib} {T : TrieLib L}.
Implicit Types (b : Bus) (p : Pipeline).

(** Every two members are linked in both directions. *)
Lemma pipeline_links p x y : x ∈ members p -> y ∈ members p -> x <> y -> OpLink x y ∈ pipeline_ops p.
Proof.
  destruct p; cbn [members pipeline_ops]; intros Hx Hy Hne;
    repeat (apply elem_of_cons in Hx as [-> | Hx]); try (by apply elem_of_nil in Hx);
    repeat (apply elem_of_cons in Hy as [-> | Hy]); try (by apply elem_of_nil in Hy); try done;
    unfold spawn_h3_dispatcher, spawn_bare_rx, dial_bare_actors, dial_h3_actors, spawn_udp_rx, spawn_udp_tx, link; set_solver.
Qed.

Lemma bus_send_linked t ev b : linked (bus_send t ev b) = linked b.
Proof. unfold bus_send. destruct (actors b !! t) as [st |]; [by destruct (a_inbox_open st) | done]. Qed.

(** Links are never forgotten. *)
Lemma bus_step_linked op b b' : bus_step op b = Some b' ->
  linked b' = linked b ++ match op with OpLink x y => [(x, y)] | _ => [] end.
Proof.
  destruct op as [pa n pol | a o | | a r | t ev | a | a | a | a |]; cbn -[bus_send with_actor]; intros Hs.
  - unfold spawn in Hs. destruct (actors b !! pa); [| done]. injection Hs as <-. by rewrite app_nil_r.
  - unfold link_half in Hs. destruct (actors b !! a) as [st |]; [| done]. destruct (actors b !! o); [| done].
    cbn -[bus_send with_actor] in Hs. injection Hs as <-. cbn -[bus_send with_actor].
    destruct (a_links_open st); [done | by rewrite bus_send_linked].
  - unfold drive in Hs. destruct (registrations b) as [| x rest]; [done |]. destruct (actors b !! x); [| done].
    injection Hs as <-. by rewrite app_nil_r.
  - case_decide; [done |]. unfold task_exit in Hs. destruct (actors b !! a) as [st |]; [| done]. cbn in Hs.
    destruct (a_phase st); try done. injection Hs as <-. by rewrite app_nil_r.
  - injection Hs as <-. by rewrite bus_send_linked, app_nil_r.
  - unfold recv in Hs. destruct (actors b !! a) as [st |]; [| done]. cbn in Hs. destruct (a_inbox st); [done |].
    injection Hs as <-. by rewrite app_nil_r.
  - unfold monitor_close in Hs. destruct (actors b !! a) as [st |]; [| done]. cbn in Hs.
    destruct (a_phase st), (a_monitored st); try done. injection Hs as <-. by rewrite app_nil_r.
  - unfold monitor_stop in Hs. destruct (actors b !! a) as [st |]; [| done]. cbn -[bus_send with_actor] in Hs.
    destruct (a_phase st), (a_links st); try done. injection Hs as <-. by rewrite bus_send_linked, app_nil_r.
  - unfold monitor_report in Hs. destruct (actors b !! a) as [st |]; [| done]. cbn -[bus_send with_actor] in Hs.
    destruct (a_phase st), (a_links st); try done. injection Hs as <-. by rewrite bus_send_linked, app_nil_r.
  - injection Hs as <-. by rewrite app_nil_r.
Qed.

Lemma bus_run_linked x y ops b b' : OpLink x y ∈ ops \/ (x, y) ∈ linked b -> bus_run ops b = Some b' -> (x, y) ∈ linked b'.
Proof.
  revert b. induction ops as [| op ops IH]; intros b Hin Hb.
  - injection Hb as <-. by destruct Hin as [?%elem_of_nil | ?].
  - rewrite bus_run_cons in Hb. destruct (bus_step op b) as [b1 |] eqn:Hs; [| done]. cbn in Hb.
    apply (IH b1); [| done]. rewrite (bus_step_linked _ _ _ Hs). destruct Hin as [Hin | Hin]; [| right; set_solver].
    apply elem_of_cons in Hin as [<- | Hin]; [right; set_solver | by left].
Qed.

(** ** Properties *)

(** C13: a pipeline lives and dies as one: however its spawns and links interleave with
    everything else on the bus, once the exit of any of its actors has been reported,
    every other actor of the pipeline has been told to stop or has itself ended. *)
Theorem pipeline_stops_together root p trace b a st r other :
  pipeline_ops p ⊆ trace -> bus_run trace (bus_new root) = Some b ->
  a ∈ members p -> actors b !! a = Some st -> a_phase st = Reported r ->
  other ∈ members p -> other <> a -> stopped b other.
Proof.
  intros Hsub Hrun Ha Hst Hp Ho Hne.
  apply (reported_stops b a other st r); [| | done | done].
  - by eapply bus_reach_ok, bus_run_reach; [apply bus_start |].
  - eapply bus_run_linked; [left | done]. by apply Hsub, pipeline_links.
Qed.
End facts.

(** ** Witness: the actors of an HTTP/3 listener; the sender fails *)

Definition listener_addr : SocketAddr := {| sa_ip := V4 0; sa_port := 443 |}.
Definition sample_pipeline : Pipeline := H3Listener 0%nat 1%nat 2%nat 3%nat (lit "0.0.0.0:443") listener_addr.

Definition sample_trace : list (@BusOp CidrNet.lib MapTrie.lib) :=
  pipeline_ops sample_pipeline ++
  [OpDrive; OpDrive; OpDrive; OpExit 2%nat (Ok (Err [lit "send UDP datagrams"])); OpClose 2%nat; OpStop 2%nat; OpStop 2%nat; OpReport 2%nat].

Lemma pipeline_stops_together_witness :
  exists b, bus_run sample_trace (bus_new []) = Some b /\ stopped b 1%nat /\ stopped b 3%nat.
Proof.
  assert (Hph : (fun b => @a_phase CidrNet.lib MapTrie.lib <$> actors b !! 2%nat) <$> bus_run sample_trace (bus_new []) =
    Some (Some (Reported (Ok (Err [lit "send UDP datagrams"]))))) by reflexivity.
  destruct (bus_run sample_trace (bus_new [])) as [b |] eqn:Hrun; [| discriminate Hph]. cbn [fmap option_fmap option_map] in Hph.
  destruct (actors b !! 2%nat) as [st |] eqn:Ha; [| discriminate Hph]. injection Hph as Hp.
  assert (Hsub : pipeline_ops sample_pipeline ⊆ sample_trace) by (intros op Hop; apply elem_of_app; by left).
  assert (Hm : forall i x, members sample_pipeline !! i = Some x -> x ∈ members sample_pipeline)
    by (intros i x; apply list_elem_of_lookup_2).
  exists b. split; [reflexivity |]. split.
  - apply (pipeline_stops_together [] sample_pipeline sample_trace b 2%nat st _ 1%nat Hsub Hrun (Hm 1%nat _ eq_refl) Ha Hp (Hm 0%nat _ eq_refl)). discriminate.
  - apply (pipeline_stops_together [] sample_pipeline sample_trace b 2%nat st _ 3%nat Hsub Hrun (Hm 1%nat _ eq_refl) Ha Hp (Hm 2%nat _ eq_refl)). discriminate.
Defined.
