(* ===== verification/Live.v ===== *)
(** * Liveness of the supervision

    What [src/src/actor.rs] promises eventually happens.  An execution of the bus of
    [Actor] is an infinite sequence of states with the operation taken at each point,
    or none while the tasks do other work.  The assumptions are those the code makes
    of tokio: [ActorBus::drive] keeps being polled (the orchestrator's loop does), a
    monitor task that can run is run, and an actor keeps polling its inbox and returns
    after it has received [Stop].  Under them an exit is always reported, and a group
    of linked actors ends as a whole once one of them has ended. *)

From stdpp Require Import countable relations.
From S2P Require Import Prelude Net Config Channel Metrics Routing Events Actor Pipeline.
#[local] Open Scope nat_scope.

Section live.
Context {L : IpNetLib} {T : TrieLib L}.
Implicit Types (b : Bus) (st : Actor) (op : BusOp).

Definition enabled (op : BusOp) (b : Bus) : Prop := is_Some (bus_step op b).

(** The operation at a point, or none. *)
Definition sched_step (o : option BusOp) (b b' : Bus) : Prop :=
  match o with Some op => bus_step op b = Some b' | None => b' = b end.

Record execution (root : rstr) (sched : nat -> option BusOp) (run : nat -> Bus) : Prop := {
  run_start : run 0 = bus_new root;
  run_next n : sched_step (sched n) (run n) (run (S n));
}.

(** Weak fairness: from every point on, [op] is at some point disabled or taken. *)
Definition fair (sched : nat -> option BusOp) (run : nat -> Bus) (op : BusOp) : Prop :=
  forall n, exists m, n <= m /\ (~ enabled op (run m) \/ sched m = Some op).

(** The bus is not dropped, [drive] and the monitors run. *)
Record supervised (sched : nat -> option BusOp) (run : nat -> Bus) : Prop := {
  bus_kept n : sched n <> Some OpDrop;
  fair_drive : fair sched run OpDrive;
  fair_close a : fair sched run (OpClose a);
  fair_stop a : fair sched run (OpStop a);
  fair_report a : fair sched run (OpReport a);
}.

(** What is known of the task of an actor that has ended. *)
Definition ended (b : Bus) (a : ActorRef) : Prop :=
  exists st, actors b !! a = Some st /\ a_phase st <> Running.

Definition inbox_head (b : Bus) (a : ActorRef) : option Event := st ← actors b !! a; head (a_inbox st).

(** An actor polls its inbox, and ends after it has received [Stop]. *)
Definition responsive (sched : nat -> option BusOp) (run : nat -> Bus) (a : ActorRef) : Prop :=
  fair sched run (OpRecv a) /\
  forall n, sched n = Some (OpRecv a) -> inbox_head (run n) a = Some Stop ->
    exists m, n <= m /\ ended (run m) a.

(** The exit of [a] was reported and its owner told. *)
Definition reported (b : Bus) (a : ActorRef) : Prop :=
  exists st r, actors b !! a = Some st /\ a_phase st = Reported r /\ notified b st r.

(** ** One step seen from one actor *)

(** What an actor is spawned with. *)
Definition identity st : rstr * SupervisionPolicy * ActorRef := (a_name st, a_policy st, a_owner st).

(** What the steps of others, and sends, change of an actor. *)
Definition quiet st st' : Prop :=
  a_phase st' = a_phase st /\ a_inbox_open st' = a_inbox_open st /\ a_links_open st' = a_links_open st /\
  (exists l, a_inbox st' = a_inbox st ++ l) /\
  (exists l, a_links st' = a_links st ++ l /\ (a_links_open st = false -> l = [])) /\
  (a_monitored st = true -> a_monitored st' = true) /\ identity st' = identity st.

(** [op] is not a step of the task or the monitor of [a]. *)
Definition foreign (a : ActorRef) (op : BusOp) : Prop :=
  match op with
  | OpExit x _ | OpRecv x | OpClose x | OpStop x | OpReport x => x <> a
  | _ => True
  end.

(** What the steps of the actor itself and of its monitor do. *)
Inductive own_step (a : ActorRef) st : BusOp -> Actor -> Prop :=
| own_none op : foreign a op -> own_step a st op st
| own_exit r st' : a_phase st = Running -> a_phase st' = Finished r -> a_inbox_open st' = false ->
    a_links st' = a_links st -> a_monitored st' = a_monitored st -> identity st' = identity st -> own_step a st (OpExit a r) st'
| own_recv ev rest : a_inbox st = ev :: rest -> own_step a st (OpRecv a) (with_inbox st rest)
| own_close r : a_phase st = Finished r -> a_monitored st = true ->
    own_step a st (OpClose a) (with_links st (a_links st) false (Draining r))
| own_stop r l rest : a_phase st = Draining r -> a_links st = l :: rest ->
    own_step a st (OpStop a) (with_links st rest false (Draining r))
| own_report r : a_phase st = Draining r -> a_links st = [] ->
    own_step a st (OpReport a) (with_links st [] false (Reported r)).

#[export] Instance quiet_preorder : PreOrder quiet.
Proof.
  split.
  - intros st. split_and!; try done; exists []; by rewrite ?app_nil_r.
  - intros x y z (H1 & H2 & H3 & [l1 H4] & (k1 & H5 & H5') & H6 & H7) (G1 & G2 & G3 & [l2 G4] & (k2 & G5 & G5') & G6 & G7).
    unfold quiet. rewrite G1, G2, G3, G4, G5, G7, H1, H2, H3, H4, H5, H7, <- !app_assoc. split_and!; try done; [by eexists | | auto].
    exists (k1 ++ k2). split; [done |]. intros Hc. by rewrite H5', G5' by congruence.
Qed.

Lemma bus_send_quiet t ev b a st :
  actors b !! a = Some st -> exists st', actors (bus_send t ev b) !! a = Some st' /\ quiet st st'.
Proof.
  intros Ha. rewrite bus_send_lookup, Ha. eexists. split; [done |]. case_decide; [| reflexivity].
  split_and!; try done; [by eexists | exists []; by rewrite app_nil_r].
Qed.

(** What becomes of actor [a] with record [st] under [op]. *)
Definition evolves op (acts : gmap ActorRef Actor) a st : Prop :=
  exists st0 st', acts !! a = Some st' /\ own_step a st op st0 /\ quiet st0 st'.

Lemma evolves_quiet op acts a st st' : foreign a op -> acts !! a = Some st' -> quiet st st' -> evolves op acts a st.
Proof. intros Hf H1 H2. exists st, st'. split_and!; [done | by constructor | done]. Qed.

(** A step that replaces the record of [x]. *)
Lemma replace_evolves op b x sx s1 s0 a st :
  actors b !! x = Some sx -> own_step x sx op s1 -> quiet s1 s0 -> (a <> x -> foreign a op) -> actors b !! a = Some st ->
  evolves op (<[x := s0]> (actors b)) a st.
Proof.
  intros Hx Ho Hq Hf Ha. destruct (decide (a = x)) as [-> |].
  - simplify_eq. exists s1, s0. by rewrite lookup_insert_eq.
  - apply (evolves_quiet _ _ _ _ st); [auto | by rewrite lookup_insert_ne | reflexivity].
Qed.

(** A step that replaces the record of [x] and sends an event. *)
Lemma replace_send_evolves op b x sx s0 t ev a st :
  actors b !! x = Some sx -> own_step x sx op s0 -> (a <> x -> foreign a op) -> actors b !! a = Some st ->
  evolves op (actors (bus_send t ev (with_actor b x s0))) a st.
Proof.
  intros Hx Ho Hf Ha. destruct (replace_evolves op b x sx s0 s0 a st) as (st0 & st1 & H1 & H2 & H3); [done | done | reflexivity | done | done |].
  destruct (bus_send_quiet t ev (with_actor b x s0) a st1 H1) as (st' & H4 & H5).
  exists st0, st'. split_and!; [done | done | by etrans].
Qed.

(** Every step but the drop of the bus, seen from an actor. *)
Lemma step_evolves op b b' a st :
  bus_ok b -> bus_step op b = Some b' -> op <> OpDrop -> actors b !! a = Some st -> evolves op (actors b') a st.
Proof.
  intros Hok Hs Hnd Ha.
  destruct op as [p n pol | x o | | x r | t ev | x | x | x | x |]; cbn -[bus_send with_actor] in Hs; try done.
  - unfold spawn in Hs. destruct (actors b !! p); [| done]. injection Hs as <-. apply (evolves_quiet _ _ _ _ st); [done | | reflexivity].
    cbn. rewrite lookup_insert_ne; [done |]. intros <-. destruct Hok as (H1 & _). specialize (H1 _ (mk_is_Some _ _ Ha)). lia.
  - unfold link_half in Hs. destruct (actors b !! x) as [sx |] eqn:Hx; [| done]. destruct (actors b !! o); [| done].
    cbn -[bus_send with_actor] in Hs. injection Hs as <-. cbn -[bus_send with_actor]. destruct (a_links_open sx) eqn:Hopen.
    + apply (replace_evolves _ b x sx sx); [done | by constructor | | done | done]. unfold quiet. cbn. split_and!; try done.
      * exists []. by rewrite app_nil_r.
      * exists [o]. split; [done | congruence].
    + destruct (bus_send_quiet o Stop b a st Ha) as (st' & H1 & H2). by eapply evolves_quiet.
  - unfold drive in Hs. destruct (registrations b) as [| x rest]; [done |]. destruct (actors b !! x) as [sx |] eqn:Hx; [| done].
    cbn in Hs. injection Hs as <-. apply (replace_evolves _ b x sx sx); [done | by constructor | | done | done].
    unfold quiet. cbn. split_and!; try done; exists []; by rewrite app_nil_r.
  - case_decide; [done |]. unfold task_exit in Hs. destruct (actors b !! x) as [sx |] eqn:Hx; [| done]. cbn in Hs.
    destruct (a_phase sx) eqn:Hp; try done. injection Hs as <-. by eapply replace_evolves; [| apply own_exit | reflexivity | cbn; congruence |].
  - injection Hs as <-. destruct (bus_send_quiet t ev b a st Ha) as (st' & H1 & H2). by eapply evolves_quiet.
  - unfold recv in Hs. destruct (actors b !! x) as [sx |] eqn:Hx; [| done]. cbn in Hs.
    destruct (a_inbox sx) as [| ev rest] eqn:Hi; [done |]. injection Hs as <-.
    by eapply replace_evolves; [| eapply own_recv | reflexivity | cbn; congruence |].
  - unfold monitor_close in Hs. destruct (actors b !! x) as [sx |] eqn:Hx; [| done]. cbn in Hs.
    destruct (a_phase sx) eqn:Hp; try done. destruct (a_monitored sx) eqn:Hm; [| done]. injection Hs as <-.
    by eapply replace_evolves; [| apply own_close | reflexivity | cbn; congruence |].
  - unfold monitor_stop in Hs. destruct (actors b !! x) as [sx |] eqn:Hx; [| done]. cbn -[bus_send with_actor] in Hs.
    destruct (a_phase sx) eqn:Hp; try done. destruct (a_links sx) as [| l rest] eqn:Hl; [done |]. injection Hs as <-.
    by eapply replace_send_evolves; [| eapply own_stop | cbn; congruence |].
  - unfold monitor_report in Hs. destruct (actors b !! x) as [sx |] eqn:Hx; [| done]. cbn -[bus_send with_actor] in Hs.
    destruct (a_phase sx) eqn:Hp; try done. destruct (a_links sx) as [| l rest] eqn:Hl; [| done]. injection Hs as <-.
    by eapply replace_send_evolves; [| apply own_report | cbn; congruence |].
Qed.

(** The registrations after a step. *)
Lemma step_registrations op b b' :
  bus_step op b = Some b' ->
  match op with
  | OpSpawn _ _ _ => registrations b' = if bus_open b then registrations b ++ [next_ref b] else registrations b
  | OpDrive => exists a, registrations b = a :: registrations b' /\
      exists st, actors b' !! a = Some st /\ a_monitored st = true
  | OpDrop => True
  | _ => registrations b' = registrations b
  end /\ (op <> OpDrop -> bus_open b' = bus_open b).
Proof.
  assert (Hsend : forall t ev b0, registrations (bus_send t ev b0) = registrations b0 /\ bus_open (bus_send t ev b0) = bus_open b0).
  { intros t ev b0. unfold bus_send. destruct (actors b0 !! t) as [st |]; [by destruct (a_inbox_open st) | done]. }
  intros Hs. destruct op as [p n pol | x o | | x r | t ev | x | x | x | x |]; cbn -[bus_send with_actor] in Hs; try done.
  - unfold spawn in Hs. destruct (actors b !! p); [| done]. by injection Hs as <-.
  - unfold link_half in Hs. destruct (actors b !! x) as [sx |]; [| done]. destruct (actors b !! o); [| done].
    cbn -[bus_send with_actor] in Hs. injection Hs as <-. cbn -[bus_send with_actor]. destruct (a_links_open sx); [done | by rewrite (proj1 (Hsend _ _ _)), (proj2 (Hsend _ _ _))].
  - unfold drive in Hs. destruct (registrations b) as [| x rest]; [done |]. destruct (actors b !! x) as [sx |]; [| done].
    cbn in Hs. injection Hs as <-. split; [| done]. exists x. split; [done |]. cbn. rewrite lookup_insert_eq. eauto.
  - case_decide; [done |]. unfold task_exit in Hs. destruct (actors b !! x) as [sx |]; [| done]. cbn in Hs.
    destruct (a_phase sx); try done. by injection Hs as <-.
  - injection Hs as <-. by rewrite (proj1 (Hsend _ _ _)), (proj2 (Hsend _ _ _)).
  - unfold recv in Hs. destruct (actors b !! x) as [sx |]; [| done]. cbn in Hs. destruct (a_inbox sx); [done |]. by injection Hs as <-.
  - unfold monitor_close in Hs. destruct (actors b !! x) as [sx |]; [| done]. cbn in Hs.
    destruct (a_phase sx), (a_monitored sx); try done. by injection Hs as <-.
  - unfold monitor_stop in Hs. destruct (actors b !! x) as [sx |]; [| done]. cbn -[bus_send with_actor] in Hs.
    destruct (a_phase sx), (a_links sx); try done. injection Hs as <-. by rewrite (proj1 (Hsend _ _ _)), (proj2 (Hsend _ _ _)).
  - unfold monitor_report in Hs. destruct (actors b !! x) as [sx |]; [| done]. cbn -[bus_send with_actor] in Hs.
    destruct (a_phase sx), (a_links sx); try done. injection Hs as <-. by rewrite (proj1 (Hsend _ _ _)), (proj2 (Hsend _ _ _)).
Qed.

(** Without a drop: the bus is open, the root runs, every other actor has a monitor or
    waits for it, and has ended once its inbox is closed. *)
Definition kept_ok b : Prop :=
  bus_open b = true /\ is_Some (actors b !! 0) /\ (forall a, a ∈ registrations b -> is_Some (actors b !! a)) /\
  forall a st, actors b !! a = Some st ->
    if decide (a = 0) then a_phase st = Running
    else a_phase st <> Aborted /\ (a_monitored st = true \/ a ∈ registrations b) /\
         (a_inbox_open st = false -> a_phase st <> Running).

(** What [own_step] and [quiet] keep of an actor that is not the root. *)
Lemma evolves_phase op acts a st :
  evolves op acts a st -> exists st', acts !! a = Some st' /\
    (a_phase st <> Aborted -> a_phase st' <> Aborted) /\ (a_phase st <> Running -> a_phase st' <> Running) /\
    (a_monitored st = true -> a_monitored st' = true) /\
    (a_inbox_open st' = false -> a_inbox_open st = false \/ a_phase st' <> Running) /\
    (a_phase st' = a_phase st \/ (exists r, op = OpExit a r /\ a_phase st' = Finished r) \/ op = OpClose a \/ op = OpReport a).
Proof.
  intros (st0 & st' & Ha & Ho & H1 & H2 & _ & _ & _ & H6 & _). exists st'. split; [done |].
  rewrite H1, H2. destruct Ho as [op Hf | r s0 Hp Hp' Hi Hl Hm _ | ev rest Hi | r Hp Hm | r l rest Hp Hl | r Hp Hl];
    cbn in *; rewrite ?Hm in *; try rewrite Hp in *; split_and!; try done; auto; try congruence;
    try (intros _; right; congruence); naive_solver.
Qed.

(** Only [spawn] makes actors. *)
Lemma step_new op b b' a :
  bus_step op b = Some b' -> op <> OpDrop -> actors b !! a = None ->
  actors b' !! a = None \/
  exists p name policy st, op = OpSpawn p name policy /\ a = next_ref b /\ actors b' !! a = Some st /\
    a_phase st = (if bus_open b then Running else Aborted) /\ a_inbox_open st = bus_open b /\
    (a_owner <$> actors b !! p) = Some (a_owner st) /\ a_name st = name /\ a_policy st = policy.
Proof.
  assert (Hsend : forall t ev b0, actors b0 !! a = None -> actors (bus_send t ev b0) !! a = None)
    by (intros t ev b0 H0; by rewrite bus_send_lookup, H0).
  assert (Hins : forall x sx s0, actors b !! x = Some sx -> actors b !! a = None -> <[x := s0]> (actors b) !! a = None)
    by (intros x sx s0 Hx H0; rewrite lookup_insert_ne; [done | congruence]).
  intros Hs Hnd Ha. destruct op as [p n pol | x o | | x r | t ev | x | x | x | x |]; cbn -[bus_send with_actor] in Hs; try done.
  { unfold spawn in Hs. destruct (actors b !! p) as [sp |] eqn:Hp; [| done]. injection Hs as <-. cbn.
    destruct (decide (a = next_ref b)) as [-> |]; [right | left; by rewrite lookup_insert_ne].
    eexists _, _, _, _. split; [done |]. split; [done |]. rewrite lookup_insert_eq. split; [done |]. by rewrite Hp. }
  all: left.
  - unfold link_half in Hs. destruct (actors b !! x) as [sx |] eqn:Hx; [| done]. destruct (actors b !! o); [| done].
    cbn -[bus_send with_actor] in Hs. injection Hs as <-. cbn -[bus_send with_actor]. destruct (a_links_open sx); [by eapply Hins | by apply Hsend].
  - unfold drive in Hs. destruct (registrations b) as [| x rest]; [done |]. destruct (actors b !! x) as [sx |] eqn:Hx; [| done].
    cbn in Hs. injection Hs as <-. by eapply Hins.
  - case_decide; [done |]. unfold task_exit in Hs. destruct (actors b !! x) as [sx |] eqn:Hx; [| done]. cbn in Hs.
    destruct (a_phase sx); try done. injection Hs as <-. by eapply Hins.
  - injection Hs as <-. by apply Hsend.
  - unfold recv in Hs. destruct (actors b !! x) as [sx |] eqn:Hx; [| done]. cbn in Hs. destruct (a_inbox sx); [done |].
    injection Hs as <-. by eapply Hins.
  - unfold monitor_close in Hs. destruct (actors b !! x) as [sx |] eqn:Hx; [| done]. cbn in Hs.
    destruct (a_phase sx), (a_monitored sx); try done. injection Hs as <-. by eapply Hins.
  - unfold monitor_stop in Hs. destruct (actors b !! x) as [sx |] eqn:Hx; [| done]. cbn -[bus_send with_actor] in Hs.
    destruct (a_phase sx), (a_links sx); try done. injection Hs as <-. apply Hsend. by eapply Hins.
  - unfold monitor_report in Hs. destruct (actors b !! x) as [sx |] eqn:Hx; [| done]. cbn -[bus_send with_actor] in Hs.
    destruct (a_phase sx), (a_links sx); try done. injection Hs as <-. apply Hsend. by eapply Hins.
Qed.

(** The root has no monitor and does not exit. *)
Lemma root_runs op acts st : evolves op acts 0 st -> op <> OpDrop -> a_phase st = Running -> (forall r, op <> OpExit 0 r) ->
  exists st', acts !! 0 = Some st' /\ a_phase st' = Running.
Proof.
  intros (st0 & st' & Ha & Ho & H1 & _) Hnd Hp Hne. exists st'. split; [done |]. rewrite H1.
  destruct Ho; cbn; congruence || naive_solver.
Qed.

Lemma step_keeps op b b' a : bus_step op b = Some b' -> op <> OpDrop -> bus_ok b ->
  is_Some (actors b !! a) -> is_Some (actors b' !! a).
Proof. intros Hs Hnd Hok [st Ha]. destruct (step_evolves op b b' a st Hok Hs Hnd Ha) as (_ & st' & H & _). by exists st'. Qed.

Lemma in_registrations op b b' a : bus_step op b = Some b' -> op <> OpDrop -> a ∈ registrations b ->
  a ∈ registrations b' \/ exists st, actors b' !! a = Some st /\ a_monitored st = true.
Proof.
  intros Hs Hnd Ha. apply step_registrations in Hs as [Hr _].
  destruct op; try (rewrite Hr; by left); [destruct (bus_open b); rewrite Hr; left; set_solver | | done].
  destruct Hr as (x & Hx & Hm). rewrite Hx in Ha. apply elem_of_cons in Ha as [-> | Ha]; [by right | by left].
Qed.

Lemma kept_step op b b' : bus_ok b -> kept_ok b -> op <> OpDrop -> bus_step op b = Some b' -> kept_ok b'.
Proof.
  intros Hok (Hopen & H0 & Hreg & Hact) Hnd Hs. destruct (step_registrations op b b' Hs) as [Hr Ho].
  split; [by rewrite Ho |]. split; [by eapply step_keeps |]. split.
  - intros a Ha. destruct (actors b !! a) eqn:E; [by eapply step_keeps |].
    assert (Hout : a ∉ registrations b) by (intros Hin; destruct (Hreg a Hin); congruence).
    destruct op; try done; try (by rewrite Hr in Ha).
    + rewrite Hopen in Hr. rewrite Hr in Ha. apply elem_of_app in Ha as [? | ->%list_elem_of_singleton]; [done |].
      cbn in Hs. unfold spawn in Hs. destruct (actors b !! parent); [| done]. injection Hs as <-. cbn.
      rewrite lookup_insert_eq. by eexists.
    + destruct Hr as (x & Hx & _). rewrite Hx in Hout. set_solver.
  - intros a st' Ha'. destruct (actors b !! a) as [st |] eqn:Ha.
    + specialize (Hact a st Ha). pose proof (step_evolves op b b' a st Hok Hs Hnd Ha) as Hev. case_decide as Hz.
      * subst. destruct (root_runs _ _ _ Hev) as (st2 & H2 & Hp2); try done; [| congruence].
        intros r ->. cbn in Hs. by destruct (decide (0 = 0)).
      * destruct (evolves_phase _ _ _ _ Hev) as (st2 & H2 & Hna & Hnr & Hm & Hib & _). simplify_eq.
        destruct Hact as (A1 & A2 & A3). split_and!; [auto | |].
        -- destruct A2 as [A2 | A2]; [auto |]. destruct (in_registrations op b b' a Hs Hnd A2) as [? | (st3 & ? & ?)]; [by right |].
           simplify_eq. by left.
        -- intros Hc. destruct (Hib Hc); auto.
    + destruct (step_new _ _ _ _ Hs Hnd Ha) as [Hn | (p & name & pol & st & -> & -> & Hn & Hp & Hi & _)]; [congruence |].
      simplify_eq. rewrite Hopen in *. rewrite decide_False.
      2: { intros Hz. destruct H0 as [s0 H0]. rewrite Hz in Ha. congruence. }
      rewrite Hp, Hi, Hr. split_and!; [done | right; set_solver | done].
Qed.

(** An accepted event is in its inbox. *)
Lemma bus_send_delivered t ev b x e :
  (x, e) ∈ delivered (bus_send t ev b) ->
  (x, e) ∈ delivered b \/ exists st, actors (bus_send t ev b) !! x = Some st /\ e ∈ a_inbox st.
Proof.
  unfold bus_send. destruct (actors b !! t) as [st |]; [| by left]. destruct (a_inbox_open st); [| by left].
  cbn. intros [Hin | Heq%list_elem_of_singleton]%elem_of_app; [by left |]. injection Heq as -> ->. right.
  rewrite lookup_insert_eq. eexists. split; [done |]. cbn. set_solver.
Qed.

Lemma step_delivered op b b' x e :
  bus_step op b = Some b' -> (x, e) ∈ delivered b' ->
  (x, e) ∈ delivered b \/ exists st, actors b' !! x = Some st /\ e ∈ a_inbox st.
Proof.
  intros Hs Hin. destruct op as [p n pol | y o | | y r | t ev | y | y | y | y |]; cbn -[bus_send with_actor] in Hs.
  - left. unfold spawn in Hs. destruct (actors b !! p); [| done]. by injection Hs as <-.
  - unfold link_half in Hs. destruct (actors b !! y) as [sx |]; [| done]. destruct (actors b !! o); [| done].
    cbn -[bus_send with_actor] in Hs. injection Hs as <-. cbn -[bus_send with_actor] in *.
    destruct (a_links_open sx); [by left | by apply bus_send_delivered].
  - left. unfold drive in Hs. destruct (registrations b) as [| z rest]; [done |]. destruct (actors b !! z); [| done].
    by injection Hs as <-.
  - left. case_decide; [done |]. unfold task_exit in Hs. destruct (actors b !! y) as [sx |]; [| done]. cbn in Hs.
    destruct (a_phase sx); try done. by injection Hs as <-.
  - injection Hs as <-. by apply bus_send_delivered.
  - left. unfold recv in Hs. destruct (actors b !! y) as [sx |]; [| done]. cbn in Hs. destruct (a_inbox sx); [done |]. by injection Hs as <-.
  - left. unfold monitor_close in Hs. destruct (actors b !! y) as [sx |]; [| done]. cbn in Hs.
    destruct (a_phase sx), (a_monitored sx); try done. by injection Hs as <-.
  - unfold monitor_stop in Hs. destruct (actors b !! y) as [sx |]; [| done]. cbn -[bus_send with_actor] in Hs.
    destruct (a_phase sx), (a_links sx); try done. injection Hs as <-. by apply bus_send_delivered in Hin.
  - unfold monitor_report in Hs. destruct (actors b !! y) as [sx |]; [| done]. cbn -[bus_send with_actor] in Hs.
    destruct (a_phase sx), (a_links sx); try done. injection Hs as <-. by apply bus_send_delivered in Hin.
  - left. by injection Hs as <-.
Qed.

(** ** Executions *)

Section executions.
Context (root : rstr) (sched : nat -> option BusOp) (run : nat -> Bus).
Context (Hexec : execution root sched run) (Hsup : supervised sched run).

Lemma run_ok n : bus_ok (run n) /\ kept_ok (run n).
Proof.
  induction n as [| n [IH1 IH2]].
  - rewrite (run_start _ _ _ Hexec). split; [apply (bus_reach_ok root), bus_start |]. split_and!; [done | by eexists | set_solver |].
    intros a st Ha. cbn in Ha. apply lookup_singleton_Some in Ha as [<- <-]. done.
  - pose proof (run_next _ _ _ Hexec n) as Hs. pose proof (bus_kept _ _ Hsup n) as Hd.
    destruct (sched n) as [op |]; cbn in Hs; [| by rewrite Hs].
    split; [by apply (bus_step_ok op (run n)) | apply (kept_step op (run n)); congruence || done].
Qed.

(** The next point, seen from an actor. *)
Lemma run_evolves n a st : actors (run n) !! a = Some st ->
  exists st0 st', actors (run (S n)) !! a = Some st' /\ quiet st0 st' /\
    match sched n with Some op => own_step a st op st0 | None => st0 = st end.
Proof.
  intros Ha. pose proof (run_next _ _ _ Hexec n) as Hs. pose proof (bus_kept _ _ Hsup n) as Hd.
  destruct (sched n) as [op |]; cbn in Hs.
  - destruct (step_evolves op (run n) (run (S n)) a st) as (st0 & st' & H1 & H2 & H3); [apply run_ok | done | congruence | done |].
    by exists st0, st'.
  - exists st, st. by rewrite Hs.
Qed.

(** An action that is enabled as long as [P] holds, and ends it with [Q]. *)
Lemma fair_leads op (P Q : nat -> Prop) n :
  fair sched run op -> (forall k, P k -> enabled op (run k)) ->
  (forall k, P k -> Q (S k) \/ P (S k) /\ sched k <> Some op) -> P n -> exists m, n <= m /\ Q m.
Proof.
  intros Hf Hen Hst HP. destruct (Hf n) as (m & Hle & Hm).
  assert (Hto : P m \/ exists k, n <= k /\ Q k).
  { clear Hm. induction Hle as [| m Hle IH]; [by left |]. destruct IH as [Hp | ?]; [| by right].
    destruct (Hst _ Hp) as [? | [? _]]; [| by left]. right. exists (S m). split; [lia | done]. }
  destruct Hto as [Hp | ?]; [| done]. destruct Hm as [Hm | Hm]; [by destruct Hm; apply Hen |].
  destruct (Hst _ Hp) as [? | [_ ?]]; [| done]. exists (S m). split; [lia | done].
Qed.

(** A property that is kept holds from then on. *)
Lemma kept_later (P : nat -> Prop) n m : (forall k, P k -> P (S k)) -> n <= m -> P n -> P m.
Proof. intros Hs Hle HP. induction Hle; auto. Qed.

Definition monitored n a : Prop := exists st, actors (run n) !! a = Some st /\ a_monitored st = true.

Definition exiting n a r : Prop := exists st, actors (run n) !! a = Some st /\
  (a_phase st = Finished r \/ a_phase st = Draining r \/ a_phase st = Reported r).

Definition at_phase n a p : Prop := exists st, actors (run n) !! a = Some st /\ a_phase st = p.

(** The monitor stops the links one by one and reports. *)
Definition draining n a r (k : nat) : Prop :=
  exists st, actors (run n) !! a = Some st /\ a_phase st = Draining r /\ length (a_links st) = k.

Lemma monitored_step n a : monitored n a -> monitored (S n) a.
Proof.
  intros (st & Ha & Hm). destruct (run_evolves n a st Ha) as (st0 & st' & Ha' & Hq & Ho). exists st'. split; [done |].
  apply Hq. destruct (sched n) as [op |]; [| by subst]. destruct Ho; cbn; congruence.
Qed.

(** One point of the queue of registrations. *)
Lemma registrations_step n i a :
  registrations (run n) !! i = Some a ->
  match i with O => monitored (S n) a | S i => registrations (run (S n)) !! i = Some a end \/
  registrations (run (S n)) !! i = Some a /\ sched n <> Some OpDrive.
Proof.
  intros Hi. pose proof (run_next _ _ _ Hexec n) as Hs. pose proof (bus_kept _ _ Hsup n) as Hd.
  destruct (sched n) as [op |]; cbn in Hs; [| right; by rewrite Hs].
  apply step_registrations in Hs as [Hr _]. destruct op; try (right; by rewrite Hr); [| | done].
  - right. rewrite Hr. split; [| done]. destruct (bus_open (run n)); [by apply lookup_app_l_Some | done].
  - left. destruct Hr as (x & Hx & Hm). rewrite Hx in Hi. destruct i; [| done]. injection Hi as ->. exact Hm.
Qed.

Lemma drive_enabled n i a : registrations (run n) !! i = Some a -> enabled OpDrive (run n).
Proof.
  intros Hi. destruct (run_ok n) as [_ (_ & _ & Hreg & _)]. unfold enabled. cbn. unfold drive.
  destruct (registrations (run n)) as [| x rest] eqn:E; [done |].
  destruct (Hreg x) as [sx ->]; [set_solver |]. by eexists.
Qed.

(** A registration reaches the head of the queue and is driven. *)
Lemma registered_monitored i n a : registrations (run n) !! i = Some a -> exists m, n <= m /\ monitored m a.
Proof.
  revert n. induction i as [| i IH]; intros n Hi.
  - apply (fair_leads OpDrive (fun k => registrations (run k) !! 0 = Some a)); [apply Hsup | | | done].
    + intros k. apply drive_enabled.
    + intros k. apply (registrations_step k 0).
  - destruct (fair_leads OpDrive (fun k => registrations (run k) !! S i = Some a)
      (fun k => registrations (run k) !! i = Some a) n) as (m & Hle & Hm); [apply Hsup | | | done |].
    + intros k. apply drive_enabled.
    + intros k. apply (registrations_step k (S i)).
    + destruct (IH m Hm) as (m' & Hle' & ?). exists m'. split; [lia | done].
Qed.

(** Every actor but the root gets its monitor. *)
Lemma eventually_monitored n a : a <> 0 -> is_Some (actors (run n) !! a) -> exists m, n <= m /\ monitored m a.
Proof.
  intros Hz [st Ha]. destruct (run_ok n) as [_ (_ & _ & _ & Hact)]. specialize (Hact a st Ha).
  rewrite decide_False in Hact by done. destruct Hact as (_ & [Hm | [i Hi]%list_elem_of_lookup] & _).
  - exists n. split; [lia | by exists st].
  - by apply (registered_monitored i).
Qed.

(** A monitored actor that has finished is closed by its monitor. *)
Lemma finished_drains n a r : at_phase n a (Finished r) -> monitored n a -> exists m, n <= m /\ at_phase m a (Draining r).
Proof.
  intros Hp Hm. apply (fair_leads (OpClose a) (fun k => at_phase k a (Finished r) /\ monitored k a)); [apply Hsup | | | done].
  - intros k [(st & Ha & Hph) (st' & Ha' & Hmon)]. simplify_eq. unfold enabled. cbn. unfold monitor_close.
    rewrite Ha. cbn. rewrite Hph, Hmon. by eexists.
  - intros k [(st & Ha & Hph) Hmon]. pose proof (monitored_step _ _ Hmon) as Hmon'.
    destruct (run_evolves k a st Ha) as (st0 & st' & Ha' & (Hq & _) & Ho). unfold at_phase.
    assert (Hkeep : a_phase st0 = Finished r -> (exists st, actors (run (S k)) !! a = Some st /\ a_phase st = Finished r) /\ monitored (S k) a).
    { intros H0. split; [| done]. exists st'. split; congruence. }
    destruct (sched k) as [op |]; [| right; subst; auto].
    destruct Ho as [op Hf | r' s0 Hp' | ev rest Hi | r' Hp' | r' x rest Hp' Hlk | r' Hp' Hlk]; cbn in *; try congruence.
    + right. split; [auto |]. by intros [= ->].
    + right. auto.
    + left. exists st'. split; congruence.
Qed.

Lemma draining_step n a r k : draining n a r k ->
  match k with O => at_phase (S n) a (Reported r) | S k => draining (S n) a r k end \/
  draining (S n) a r k /\ sched n <> Some (match k with O => OpReport a | S _ => OpStop a end).
Proof.
  intros (st & Ha & Hp & Hl). destruct (run_ok n) as [(_ & H2 & _) _]. destruct (H2 a st Ha) as [_ [_ Hph]]. rewrite Hp in Hph.
  destruct (run_evolves n a st Ha) as (st0 & st' & Ha' & (Hq & _ & _ & _ & (l & Hl' & Hnil) & _) & Ho).
  assert (Hsame : a_phase st0 = Draining r -> a_links st0 = a_links st -> a_links_open st0 = false -> draining (S n) a r k).
  { intros G1 G2 G3. exists st'. rewrite Hl', (Hnil G3), app_nil_r, G2. split_and!; [done | congruence | done]. }
  destruct (sched n) as [op |]; [| subst; by right; split; [apply Hsame |]].
  destruct Ho as [op Hf | r' s0 Hp' | ev rest Hi | r' Hp' | r' x rest Hp' Hlk | r' Hp' Hlk]; try congruence;
    try (right; split; [by apply Hsame |]; destruct k; intros [= ->]; done).
  - left. rewrite Hlk in Hl. destruct k as [| k]; [done |]. injection Hl as Hl. exists st'.
    rewrite Hl', (Hnil eq_refl), app_nil_r. split_and!; [done | rewrite Hq; cbn; congruence | done].
  - left. rewrite Hlk in Hl. destruct k as [| k]; [| done]. exists st'. split; [done |]. rewrite Hq. cbn. congruence.
Qed.

Lemma draining_reports k n a r : draining n a r k -> exists m, n <= m /\ at_phase m a (Reported r).
Proof.
  revert n. induction k as [| k IH]; intros n Hd.
  - apply (fair_leads (OpReport a) (fun m => draining m a r 0)); [apply Hsup | | intros m; apply draining_step | done].
    intros m (st & Ha & Hp & Hl). unfold enabled. cbn. unfold monitor_report. rewrite Ha. cbn -[bus_send with_actor].
    rewrite Hp. destruct (a_links st); [by eexists | done].
  - destruct (fair_leads (OpStop a) (fun m => draining m a r (S k)) (fun m => draining m a r k) n) as (m & Hle & Hm);
      [apply Hsup | | intros m; apply draining_step | done |].
    + intros m (st & Ha & Hp & Hl). unfold enabled. cbn. unfold monitor_stop. rewrite Ha. cbn -[bus_send with_actor].
      rewrite Hp. destruct (a_links st); [done | by eexists].
    + destruct (IH m Hm) as (m' & Hle' & ?). exists m'. split; [lia | done].
Qed.

Lemma ended_step n a : ended (run n) a -> ended (run (S n)) a.
Proof.
  intros (st & Ha & Hp). destruct (run_evolves n a st Ha) as (st0 & st' & Ha' & (Hq & _) & Ho). exists st'. split; [done |].
  rewrite Hq. destruct (sched n) as [op |]; [| by subst]. destruct Ho; cbn; congruence.
Qed.

(** The end of a task leads to its report. *)
Lemma ended_reported n a : a <> 0 -> ended (run n) a -> exists m, n <= m /\ reported (run m) a.
Proof.
  intros Hz He. assert (Hrep : forall m r, at_phase m a (Reported r) -> reported (run m) a).
  { intros m r (st & Ha & Hp). exists st, r. split_and!; [done | done |]. destruct (run_ok m) as [(_ & H2 & _) _].
    destruct (H2 a st Ha) as [_ [_ Hph]]. rewrite Hp in Hph. apply Hph. }
  destruct (eventually_monitored n a Hz) as (m & Hle & Hm); [destruct He as (st & ? & _); by exists st |].
  apply (kept_later (fun k => ended (run k) a) n m) in He as (st & Ha & Hp); [| intros k; apply ended_step | done].
  destruct (run_ok m) as [_ (_ & _ & _ & Hact)]. specialize (Hact a st Ha). rewrite decide_False in Hact by done.
  destruct Hact as (Hab & _). destruct (a_phase st) as [| r | r | r |] eqn:Hph; try done.
  - destruct (finished_drains m a r) as (m1 & H1 & st1 & Ha1 & Hp1); [by exists st | done |].
    destruct (draining_reports (length (a_links st1)) m1 a r) as (m2 & H2 & Hr); [by exists st1 |].
    exists m2. split; [lia | by eapply Hrep].
  - destruct (draining_reports (length (a_links st)) m a r) as (m2 & H2 & Hr); [by exists st |].
    exists m2. split; [lia | by eapply Hrep].
  - exists m. split; [lia | by eapply Hrep; exists st].
Qed.

(** [ev] is the [i]th event of the inbox. *)
Definition pending n a (ev : Event) (i : nat) : Prop := exists st, actors (run n) !! a = Some st /\ a_inbox st !! i = Some ev.

(** [a] receives [ev] at point [n]. *)
Definition receives n a (ev : Event) : Prop := sched n = Some (OpRecv a) /\ inbox_head (run n) a = Some ev.

Lemma pending_step n a ev i : pending n a ev i ->
  (ended (run (S n)) a \/ match i with O => receives n a ev | S i => pending (S n) a ev i end) \/
  pending (S n) a ev i /\ sched n <> Some (OpRecv a).
Proof.
  intros (st & Ha & Hi). destruct (run_evolves n a st Ha) as (st0 & st' & Ha' & (Hq & _ & _ & (l & Hin) & _) & Ho).
  assert (Hsame : a_inbox st0 = a_inbox st -> pending (S n) a ev i).
  { intros H0. exists st'. rewrite Hin, H0. split; [done | by apply lookup_app_l_Some]. }
  destruct (sched n) as [op |] eqn:Hop; [| right; subst; auto].
  destruct Ho as [op Hf | r' s0 Hp' Hp2 | ev' rest Hi' | r' Hp' | r' x rest Hp' Hlk | r' Hp' Hlk];
    try (right; split; [by apply Hsame | done]).
  - right. split; [by apply Hsame |]. by intros [= ->].
  - left. left. exists st'. split; congruence.
  - left. right. rewrite Hi' in Hi. destruct i as [| i].
    + split; [done |]. unfold inbox_head. rewrite Ha. cbn. by rewrite Hi'.
    + exists st'. rewrite Hin. split; [done |]. by apply lookup_app_l_Some.
Qed.

Lemma pending_progress n a ev i : fair sched run (OpRecv a) -> pending n a ev i ->
  exists k, n <= k /\ (ended (run (S k)) a \/ match i with O => receives k a ev | S i => pending (S k) a ev i end).
Proof.
  intros Hf Hp. destruct (fair_leads (OpRecv a) (fun k => n <= k /\ pending k a ev i)
    (fun k => exists k', k = S k' /\ n <= k' /\ (ended (run k) a \/ match i with O => receives k' a ev | S i => pending k a ev i end)) n)
    as (m & Hle & k & -> & Hk & Hm); [done | | | done | by exists k].
  - intros k (_ & st & Ha & Hi). unfold enabled. cbn. unfold recv. rewrite Ha. cbn. destruct (a_inbox st); [done | by eexists].
  - intros k [Hle Hk]. destruct (pending_step _ _ _ _ Hk) as [? | [? ?]]; [left; by exists k | right]. split_and!; [lia | done | done].
Qed.

(** An actor that keeps polling its inbox receives what is in it, or ends. *)
Lemma pending_received i n a ev : fair sched run (OpRecv a) -> pending n a ev i ->
  exists k, n <= k /\ (ended (run (S k)) a \/ receives k a ev).
Proof.
  intros Hf. revert n. induction i as [| i IH]; intros n Hp;
    destruct (pending_progress n a ev _ Hf Hp) as (k & Hk & [He | Hq]); try (exists k; split; [lia | by auto]).
  destruct (IH (S k) Hq) as (m & ? & ?). exists m. split; [lia | done].
Qed.

(** Where a delivered event is. *)
Lemma delivered_event n a ev : (a, ev) ∈ delivered (run n) ->
  ended (run n) a \/ (exists i, pending n a ev i) \/ exists k, k < n /\ receives k a ev.
Proof.
  induction n as [| n IH]; intros Hin; [rewrite (run_start _ _ _ Hexec) in Hin; by apply elem_of_nil in Hin |].
  assert (Hold : (a, ev) ∈ delivered (run n) \/ exists i, pending (S n) a ev i).
  { pose proof (run_next _ _ _ Hexec n) as Hs. destruct (sched n) as [op |]; cbn in Hs; [| left; by rewrite <- Hs].
    destruct (step_delivered op _ _ _ _ Hs Hin) as [? | (st & Ha & [i Hi]%list_elem_of_lookup)]; [by left |].
    right. exists i. by exists st. }
  destruct Hold as [Hold | ?]; [| by right; left].
  destruct (IH Hold) as [He | [[i Hp] | (k & Hk & Hr)]]; [left; by apply ended_step | | right; right; exists k; split; [lia | done]].
  destruct (pending_step n a ev i Hp) as [[He | Hq] | [Hq _]]; [by left | | right; left; by exists i].
  destruct i as [| i]; [| right; left; by exists i]. right. right. exists n. split; [lia | done].
Qed.

(** An actor that was stopped ends. *)
Lemma stopped_ends n a : a <> 0 -> responsive sched run a -> stopped (run n) a -> exists m, n <= m /\ ended (run m) a.
Proof.
  intros Hz Hr [Hd | (st & Ha & Hc)].
  - assert (Hlate : forall k, ended (run k) a -> exists m, n <= m /\ ended (run m) a).
    { intros k He. exists (Nat.max k n). split; [lia |]. apply (kept_later (fun k => ended (run k) a) k); [intros j; apply ended_step | lia | done]. }
    destruct Hr as [Hf Hr].
    assert (Hrec : forall k, receives k a Stop -> exists m, n <= m /\ ended (run m) a)
      by (intros k [H1 H2]; destruct (Hr k H1 H2) as (m & _ & He); by apply (Hlate m)).
    destruct (delivered_event n a Stop Hd) as [He | [[i Hp] | (k & _ & Hk)]]; [by exists n | | by apply (Hrec k)].
    destruct (pending_received i n a Stop Hf Hp) as (k & _ & [He | Hk]); [by apply (Hlate (S k)) | by apply (Hrec k)].
  - exists n. split; [lia |]. destruct (run_ok n) as [_ (_ & _ & _ & Hact)]. specialize (Hact a st Ha).
    rewrite decide_False in Hact by done. exists st. split; [done |]. by apply Hact.
Qed.

Lemma reported_step n a : a <> 0 -> reported (run n) a -> reported (run (S n)) a.
Proof.
  intros Hz (st & r & Ha & Hp & _). destruct (run_evolves n a st Ha) as (st0 & st' & Ha' & (Hq & _) & Ho).
  exists st', r. assert (Hp' : a_phase st' = Reported r).
  { rewrite Hq. destruct (sched n) as [op |]; [| by subst]. destruct Ho; cbn; congruence. }
  split_and!; [done | done |]. destruct (run_ok (S n)) as [(_ & H2 & _) _]. destruct (H2 a st' Ha') as [_ [_ Hph]].
  rewrite Hp' in Hph. apply Hph.
Qed.

Lemma linked_step n x y : (x, y) ∈ linked (run n) -> (x, y) ∈ linked (run (S n)).
Proof.
  intros Hin. pose proof (run_next _ _ _ Hexec n) as Hs. destruct (sched n) as [op |]; cbn in Hs; [| by rewrite Hs].
  rewrite (bus_step_linked _ _ _ Hs). set_solver.
Qed.

(** The end of an actor ends the actors it is linked with. *)
Lemma linked_ends n x y :
  x <> 0 -> y <> 0 -> responsive sched run y -> (x, y) ∈ linked (run n) -> ended (run n) x -> exists m, n <= m /\ ended (run m) y.
Proof.
  intros Hx Hy Hr Hl He. destruct (ended_reported n x Hx He) as (m & Hle & st & r & Ha & Hp & _).
  apply (kept_later (fun k => (x, y) ∈ linked (run k)) n m) in Hl; [| intros k; apply linked_step | done].
  destruct (stopped_ends m y Hy Hr) as (m' & Hle' & ?); [| exists m'; split; [lia | done]].
  eapply reported_stops; [apply run_ok | done | done | done].
Qed.

(** [y] is reached from [x] over links at point [n] to actors of [g]. *)
Definition group_link n (g : list ActorRef) (x y : ActorRef) : Prop := (x, y) ∈ linked (run n) /\ y ∈ g.

Lemma group_ends n g x y :
  Forall (fun z => z <> 0 /\ responsive sched run z) g -> x <> 0 -> rtc (group_link n g) x y ->
  forall k, n <= k -> ended (run k) x -> exists m, k <= m /\ ended (run m) y.
Proof.
  intros Hg Hx Hrtc. revert Hx. induction Hrtc as [x | x z y [Hl Hz] _ IH]; intros Hx k Hk He; [by exists k |].
  rewrite Forall_forall in Hg. destruct (Hg z Hz) as [Hz0 Hzr].
  apply (kept_later (fun j => (x, z) ∈ linked (run j)) n k) in Hl; [| intros j; apply linked_step | done].
  destruct (linked_ends k x z Hx Hz0 Hzr Hl He) as (m & Hle & Hm).
  destruct (IH Hz0 m) as (m' & Hle' & ?); [lia | done |]. exists m'. split; [lia | done].
Qed.

Lemma group_reported n g x :
  Forall (fun z => z <> 0 /\ responsive sched run z) g -> x <> 0 -> ended (run n) x ->
  Forall (rtc (group_link n g) x) g -> exists m, n <= m /\ Forall (reported (run m)) g.
Proof.
  intros Hg Hx He Hrtc. pose proof Hg as Hall. revert Hall. induction Hrtc as [| y l Hy Hrtc IH]; intros Hall; [by exists n |].
  apply Forall_cons in Hall as [[Hy0 _] Hall]. destruct (IH Hall) as (m1 & Hle1 & Hrep).
  destruct (group_ends n g x y Hg Hx Hy n) as (k & Hk & Hek); [lia | done |].
  destruct (ended_reported k y Hy0 Hek) as (m2 & Hle2 & Hr2). exists (Nat.max m1 m2). split; [lia |]. constructor.
  - apply (kept_later (fun j => reported (run j) y) m2); [intros j; by apply reported_step | lia | done].
  - apply Forall_forall. intros z Hz. rewrite Forall_forall in Hrep, Hall. destruct (Hall z Hz) as [Hz0 _].
    apply (kept_later (fun j => reported (run j) z) m1); [intros j; by apply reported_step | lia | by apply Hrep].
Qed.

(** Every actor is owned by the root, whose inbox stays open. *)
Lemma run_owned n : (forall a st, actors (run n) !! a = Some st -> a_owner st = 0) /\ ~ closed_inbox (run n) 0.
Proof.
  induction n as [| n [IH1 IH2]].
  - rewrite (run_start _ _ _ Hexec). split.
    + intros a st Ha. cbn in Ha. by apply lookup_singleton_Some in Ha as [<- <-].
    + intros (st & Ha & Hc). cbn in Ha. by apply lookup_singleton_Some in Ha as [_ <-].
  - pose proof (run_next _ _ _ Hexec n) as Hs. pose proof (bus_kept _ _ Hsup n) as Hd.
    destruct (sched n) as [op |]; cbn in Hs; [| by rewrite Hs]. assert (Hnd : op <> OpDrop) by congruence.
    destruct (run_ok n) as [Hok (_ & [s0 H0] & _ & Hkept)]. split.
    + intros a st' Ha'. destruct (actors (run n) !! a) as [st |] eqn:Ha.
      * destruct (step_evolves op _ _ a st Hok Hs Hnd Ha) as (st0 & st1 & H1 & Ho & _ & _ & _ & _ & _ & _ & Hid).
        rewrite Ha' in H1. injection H1 as <-. assert (identity st0 = identity st) as Hid' by by destruct Ho.
        rewrite Hid' in Hid. injection Hid as _ _ ->. by apply (IH1 a).
      * destruct (step_new _ _ _ _ Hs Hnd Ha) as [Hn | (p & name & pol & st & _ & _ & Hn & _ & _ & Hp & _)]; [congruence |].
        simplify_eq. apply fmap_Some in Hp as (sp & Hp & ->). by apply (IH1 p).
    + intros (st' & Ha' & Hc). destruct (step_evolves op _ _ 0 s0 Hok Hs Hnd H0) as (st0 & st1 & H1 & Ho & _ & Hi & _). simplify_eq.
      rewrite Hi in Hc. apply IH2. exists s0. split; [done |]. destruct Ho; cbn in *; try done.
Qed.

Lemma identity_later n m a st : n <= m -> actors (run n) !! a = Some st ->
  exists st', actors (run m) !! a = Some st' /\ identity st' = identity st.
Proof.
  intros Hle Ha. apply (kept_later (fun k => exists st', actors (run k) !! a = Some st' /\ identity st' = identity st) n m); [| done | by exists st].
  intros k (sk & Hk & Hid). destruct (run_evolves k a sk Hk) as (st0 & st' & Hs' & Hq & Ho). exists st'. split; [done |].
  destruct Hq as (_ & _ & _ & _ & _ & _ & ->). rewrite <- Hid. destruct (sched k); [by destruct Ho | by subst].
Qed.

(** A root that keeps receiving is told of every exit. *)
Lemma exit_received n a st : a <> 0 -> fair sched run (OpRecv 0) -> actors (run n) !! a = Some st -> a_phase st <> Running ->
  exists k st' r, receives k 0 (exit_event st' r) /\ identity st' = identity st.
Proof.
  intros Hz Hf Ha Hp. destruct (ended_reported n a Hz) as (m & Hle & sm & r & Hm & _ & Hn); [by exists st |].
  destruct (identity_later n m a st Hle Ha) as (sm' & Hm' & Hid).
  rewrite Hm in Hm'. injection Hm' as <-.
  destruct (run_owned m) as [Hown Hopen]. unfold notified in Hn. rewrite (Hown a sm Hm) in Hn.
  destruct Hn as [Hd | ?]; [| done].
  assert (Hroot : forall k, ~ ended (run k) 0).
  { intros k (s0 & H0 & Hne). destruct (run_ok k) as [_ (_ & _ & _ & Hkept)]. by specialize (Hkept 0 s0 H0). }
  destruct (delivered_event m 0 _ Hd) as [He | [[i Hi] | (k & _ & Hk)]]; [by destruct (Hroot m) | | by exists k, sm, r].
  destruct (pending_received i m 0 _ Hf Hi) as (k & _ & [He | Hk]); [by destruct (Hroot (S k)) | by exists k, sm, r].
Qed.
End executions.

(** ** Properties *)

(** C11: a group of linked actors ends as a whole.  In every execution in which the bus is
    kept and driven, the monitors run, and the actors of the group poll their inboxes
    and return after [Stop]: once an actor has ended, for whatever reason, every actor
    of the group that links lead to from it eventually ends too, and each exit is
    eventually reported to the actor's owner with its name, policy and result. *)
Theorem linked_group_terminates root sched run n (g : list ActorRef) x :
  execution root sched run -> supervised sched run ->
  Forall (fun z => z <> 0 /\ responsive sched run z) g ->
  x <> 0 -> ended (run n) x -> Forall (rtc (group_link run n g) x) g ->
  exists m, n <= m /\ Forall (reported (run m)) g.
Proof. intros He Hs Hg Hx. by apply (group_reported root sched run He Hs). Qed.

(** The pipelines of the program: when one member has ended, all end. *)
Theorem pipeline_terminates root sched run n (p : Pipeline) x :
  execution root sched run -> supervised sched run ->
  Forall (fun z => z <> 0 /\ responsive sched run z) (members p) ->
  (forall y z, OpLink y z ∈ pipeline_ops p -> (y, z) ∈ linked (run n)) ->
  x ∈ members p -> ended (run n) x -> exists m, n <= m /\ Forall (reported (run m)) (members p).
Proof.
  intros He Hs Hg Hl Hx Hend. rewrite Forall_forall in Hg. apply (group_reported root sched run He Hs n (members p) x).
  - by apply Forall_forall.
  - by apply Hg.
  - done.
  - apply Forall_forall. intros y Hy. destruct (decide (x = y)) as [-> |]; [reflexivity |].
    apply rtc_once. split; [by apply Hl, pipeline_links | done].
Qed.
End live.

(** ** Witness: a finite run, followed by rest *)

Section finite.
Context {L : IpNetLib} {T : TrieLib L} (root : rstr) (ops : list BusOp).

Definition finite_sched (n : nat) : option BusOp := ops !! n.
Definition finite_run (n : nat) : Bus := default (bus_new root) (bus_run (take n ops) (bus_new root)).

Lemma bus_run_app o1 o2 b : bus_run (o1 ++ o2) b = (b' ← bus_run o1 b; bus_run o2 b').
Proof.
  revert b. induction o1 as [| op o1 IH]; intros b; [done |]. cbn [app]. rewrite !bus_run_cons.
  destruct (bus_step op b) as [b' |]; cbn [mbind option_bind]; [apply IH | done].
Qed.

Lemma finite_execution : is_Some (bus_run ops (bus_new root)) -> execution root finite_sched finite_run.
Proof.
  intros [bf Hf]. split; [done |]. intros n. unfold finite_sched, sched_step. destruct (ops !! n) as [op |] eqn:Hn.
  - unfold finite_run. rewrite (take_S_r _ _ _ Hn), bus_run_app. rewrite <- (take_drop n ops), bus_run_app in Hf.
    destruct (bus_run (take n ops) (bus_new root)) as [b |]; [| done]. cbn -[bus_step bus_run bus_new drop] in *.
    rewrite (drop_S ops op n Hn) in Hf. rewrite bus_run_cons in *.
    destruct (bus_step op b) as [b' |]; [done |]. cbn in Hf. congruence.
  - apply lookup_ge_None in Hn. unfold finite_run. by rewrite !take_ge by lia.
Qed.

(** What is disabled at the end is treated fairly. *)
Lemma finite_fair op : ~ enabled op (finite_run (length ops)) -> fair finite_sched finite_run op.
Proof.
  intros Hd n. exists (Nat.max n (length ops)). split; [lia |]. left. unfold finite_run in *. by rewrite take_ge in * by lia.
Qed.
Definition at_rest (st : Actor) : bool := match a_phase st with Running | Reported _ => true | _ => false end.

(** A finite run that keeps the bus and ends with every exit reported. *)
Lemma finite_supervised :
  OpDrop ∉ ops -> registrations (finite_run (length ops)) = [] ->
  forallb (fun p => at_rest p.2) (map_to_list (actors (finite_run (length ops)))) = true ->
  supervised finite_sched finite_run.
Proof.
  intros Hd Hr Hall. assert (Hrest : forall a st, actors (finite_run (length ops)) !! a = Some st -> at_rest st = true).
  { intros a st Ha. rewrite forallb_forall in Hall. apply (Hall (a, st)). by apply list_elem_of_In, elem_of_map_to_list. }
  split.
  - intros n Hn. apply Hd. by apply list_elem_of_lookup_2 in Hn.
  - apply finite_fair. intros [b Hb]. cbn -[finite_run] in Hb. unfold drive in Hb. by rewrite Hr in Hb.
  - intros a. apply finite_fair. intros [b Hb]. cbn -[finite_run] in Hb. unfold monitor_close in Hb.
    destruct (actors _ !! a) as [st |] eqn:Ha; [| done]. apply Hrest in Ha. unfold at_rest in Ha. cbn in Hb. by destruct (a_phase st).
  - intros a. apply finite_fair. intros [b Hb]. cbn -[finite_run bus_send with_actor] in Hb. unfold monitor_stop in Hb.
    destruct (actors _ !! a) as [st |] eqn:Ha; [| done]. apply Hrest in Ha. unfold at_rest in Ha.
    cbn -[bus_send with_actor] in Hb. by destruct (a_phase st).
  - intros a. apply finite_fair. intros [b Hb]. cbn -[finite_run bus_send with_actor] in Hb. unfold monitor_report in Hb.
    destruct (actors _ !! a) as [st |] eqn:Ha; [| done]. apply Hrest in Ha. unfold at_rest in Ha.
    cbn -[bus_send with_actor] in Hb. by destruct (a_phase st).
Qed.
End finite.

(** Two linked actors: the first fails, the second is stopped and returns. *)
Definition group_ops : list (@BusOp CidrNet.lib MapTrie.lib) :=
  [OpSpawn 0 (lit "a") Restartable; OpSpawn 0 (lit "b") Restartable; OpLink 1 2; OpLink 2 1; OpDrive; OpDrive;
   OpExit 1 (Ok (Err [lit "down"])); OpClose 1; OpStop 1; OpReport 1; OpRecv 2; OpExit 2 (Ok (Ok tt)); OpClose 2; OpStop 2; OpReport 2].

Definition is_some {A} (o : option A) : bool := match o with Some _ => true | None => false end.

Lemma not_enabled {L : IpNetLib} {T : TrieLib L} op b : is_some (bus_step op b) = false -> ~ enabled op b.
Proof. intros H [b' Hb]. by rewrite Hb in H. Qed.

Lemma group_supervised : supervised (finite_sched group_ops) (finite_run [] group_ops).
Proof. apply finite_supervised; [set_solver | by vm_compute | by vm_compute]. Qed.

Lemma group_responsive a : a = 1 \/ a = 2 -> a <> 0 /\ responsive (finite_sched group_ops) (finite_run [] group_ops) a.
Proof.
  intros Ha. split; [lia |]. split.
  - apply finite_fair, not_enabled. destruct Ha as [-> | ->]; vm_compute; reflexivity.
  - intros n Hn _. exists (length group_ops). split; [apply lookup_lt_Some in Hn; lia |].
    assert (Hp : exists r, @a_phase CidrNet.lib MapTrie.lib <$> actors (finite_run [] group_ops (length group_ops)) !! a = Some (Reported r))
      by (destruct Ha as [-> | ->]; eexists; vm_compute; reflexivity).
    destruct Hp as [r Hp]. apply fmap_Some in Hp as (st & Hst & Hp). exists st. split; [exact Hst |]. rewrite <- Hp. discriminate.
Qed.

Lemma linked_group_terminates_witness :
  exists m, 7 <= m /\ Forall (reported (finite_run [] group_ops m)) [1; 2].
Proof.
  apply (linked_group_terminates [] (finite_sched group_ops) (finite_run [] group_ops) 7 [1; 2] 1).
  - apply finite_execution. assert (Hs : is_some (bus_run group_ops (bus_new [])) = true) by (vm_compute; reflexivity).
    destruct (bus_run group_ops (bus_new [])); [by eexists | discriminate Hs].
  - apply group_supervised.
  - repeat constructor; apply group_responsive; auto.
  - discriminate.
  - assert (Hp : @a_phase CidrNet.lib MapTrie.lib <$> actors (finite_run [] group_ops 7) !! 1 = Some (Finished (Ok (Err [lit "down"])))) by (vm_compute; reflexivity).
    apply fmap_Some in Hp as (st & Hst & Hp). exists st. split; [exact Hst |]. rewrite <- Hp. discriminate.
  - constructor; [reflexivity |]. constructor; [| constructor]. apply rtc_once.
    split; [apply list_elem_of_lookup; exists 0; vm_compute; reflexivity | set_solver].
Defined.
