(* ===== verification/Runtime.v ===== *)
(** * Runtimes

    Models the runtimes of [src/src/actor.rs]: the threads of [DedicatedRuntime] from
    [new] to [drop], the handles an actor is placed by, [ActorBus::new] with its error
    paths, [run_on], and the order in which dropping an [ActorBus] releases its threads.  A thread is started by the operating system and ends once its shutdown
    sender has been dropped; joining a thread that was not told to end never returns,
    which is the result [None]. *)

From stdpp Require Import countable.
From S2P Require Import Prelude Net Config Channel Metrics Routing Events Actor.
#[local] Open Scope nat_scope.

Inductive ActorRuntime : Type := RtMain | RtTun | RtCrypto | RtUdp.

(** A [tokio::runtime::Handle]: the runtime of the caller, or of a thread. *)
Inductive Handle : Type :=
| Current
| OfThread (t : nat).

(** The payload of a panic. *)
Inductive Payload : Type :=
| PayStr (msg : rstr)
| PayString (msg : rstr)
| PayOther.

(** One thread: its name, whether its shutdown sender was dropped, whether it was joined. *)
Record Thread : Type := { th_name : rstr; th_signalled : bool; th_joined : bool }.

Inductive ThreadOp : Type :=
| ThStart (t : nat)
| ThSignal (t : nat)
| ThJoin (t : nat)
| ThCancelMonitors
| ThLogPanic (msg : rstr).

(** The threads of the process; [th_log] records the operations on them in order. *)
Record Threads : Type := { threads : list Thread; th_log : list ThreadOp }.

Definition no_threads : Threads := {| threads := []; th_log := [] |}.

Definition log_op (op : ThreadOp) (os : Threads) : Threads := {| threads := threads os; th_log := th_log os ++ [op] |}.

Record DedicatedRuntime : Type := {
  d_handle : Handle;
  d_shutdown_tx : option nat;
  d_thread : option nat;
}.

Record RuntimeHandles : Type := { rt_main : Handle; rt_tun : Handle; rt_crypto : Handle; rt_udp : Handle }.

(** [RuntimeHandles::get]. *)
Definition runtimes_get (r : RuntimeHandles) (runtime : ActorRuntime) : Handle :=
  match runtime with RtMain => rt_main r | RtTun => rt_tun r | RtCrypto => rt_crypto r | RtUdp => rt_udp r end.

(** What the system answers: building the tokio runtime and starting the thread of the
    given name, and how a thread ends. *)
Record RtEnv : Type := {
  rt_build : rstr -> result unit rstr;
  rt_spawn : rstr -> result unit rstr;
  rt_end : nat -> result unit Payload;
}.

Section runtime.
Context (env : RtEnv).

(** [DedicatedRuntime::new]. *)
Definition dedicated_new (name : rstr) (os : Threads) : result DedicatedRuntime rstr * Threads :=
  match rt_build env name with
  | Err e => (Err e, os)
  | Ok _ =>
      match rt_spawn env name with
      | Err e => (Err e, os)
      | Ok _ =>
          let t := length (threads os) in
          (Ok {| d_handle := OfThread t; d_shutdown_tx := Some t; d_thread := Some t |},
           log_op (ThStart t) {| threads := threads os ++ [{| th_name := name; th_signalled := false; th_joined := false |}];
                                 th_log := th_log os |})
      end
  end.

(** Dropping a shutdown sender. *)
Definition drop_sender (tx : option nat) (os : Threads) : Threads :=
  match tx with
  | None => os
  | Some t => log_op (ThSignal t)
      {| threads := alter (fun th => {| th_name := th_name th; th_signalled := true; th_joined := th_joined th |}) t (threads os);
         th_log := th_log os |}
  end.

(** [JoinHandle::join]. *)
Definition thread_join (t : nat) (os : Threads) : option (result unit Payload * Threads) :=
  th ← threads os !! t;
  if th_signalled th then
    Some (rt_end env t, log_op (ThJoin t)
      {| threads := <[t := {| th_name := th_name th; th_signalled := true; th_joined := true |}]> (threads os); th_log := th_log os |})
  else None.

(** The message of a panic payload. *)
Definition panic_message (p : Payload) : rstr :=
  match p with PayStr msg | PayString msg => msg | PayOther => lit "<non-string panic>" end.

(** [impl Drop for DedicatedRuntime]. *)
Definition dedicated_drop (d : DedicatedRuntime) (os : Threads) : option Threads :=
  let os := drop_sender (d_shutdown_tx d) os in
  match d_thread d with
  | None => Some os
  | Some t =>
      r ← thread_join t os;
      let '(ended, os) := r in
      Some (match ended with
            | Ok _ => os
            | Err payload => log_op (ThLogPanic (lit "dedicated runtime thread panicked: " ++ panic_message payload)) os
            end)
  end.

(** The runtimes an [ActorBus] owns. *)
Record BusRuntimes : Type := { br_handles : RuntimeHandles; br_dedicated : option (list DedicatedRuntime) }.

(** [ActorBus::new]: the runtimes made so far are dropped, the last one first, when a
    later one cannot be made. *)
Definition actor_bus_new (os : Threads) : option (result BusRuntimes rstr * Threads) :=
  match dedicated_new (lit "h3llo-tun") os with
  | (Err e, os) => Some (Err e, os)
  | (Ok tun, os) =>
  match dedicated_new (lit "h3llo-crypto") os with
  | (Err e, os) => os ← dedicated_drop tun os; Some (Err e, os)
  | (Ok crypto, os) =>
  match dedicated_new (lit "h3llo-udp") os with
  | (Err e, os) => os ← dedicated_drop crypto os; os ← dedicated_drop tun os; Some (Err e, os)
  | (Ok udp, os) =>
      Some (Ok {| br_handles := {| rt_main := Current; rt_tun := d_handle tun; rt_crypto := d_handle crypto; rt_udp := d_handle udp |};
                  br_dedicated := Some [tun; crypto; udp] |}, os)
  end end end.

(** [ActorBus::on_current_runtime]. *)
Definition on_current_runtime : BusRuntimes :=
  {| br_handles := {| rt_main := Current; rt_tun := Current; rt_crypto := Current; rt_udp := Current |}; br_dedicated := None |}.

(** Dropping the elements of an array. *)
Fixpoint drop_all (ds : list DedicatedRuntime) (os : Threads) : option Threads :=
  match ds with
  | [] => Some os
  | d :: ds => os ← dedicated_drop d os; drop_all ds os
  end.

(** Dropping an [ActorBus]: its fields in the order of their declaration.  Dropping
    [tasks] only requests the cancellation of the monitors, which run on the caller's
    runtime and see it when that runtime next polls them; the handles and the
    registrations have no effect on threads; the dedicated runtimes are dropped last. *)
Definition actor_bus_drop (r : BusRuntimes) (os : Threads) : option Threads :=
  drop_all (default [] (br_dedicated r)) (log_op ThCancelMonitors os).

(** [ActorContext::run_on]: a task on the runtime, which fails when the operation panics
    or the runtime is gone. *)
Inductive JoinError : Type := JoinPanicked | JoinCancelled.

Definition run_on {A} (r : RuntimeHandles) (runtime : ActorRuntime) (os : Threads) (operation : outcome A) : result A JoinError :=
  let gone := match runtimes_get r runtime with
              | Current => false
              | OfThread t => match threads os !! t with Some th => th_joined th | None => true end
              end in
  if gone then Err JoinCancelled
  else match operation with Ret a => Ok a | Panic => Err JoinPanicked end.
End runtime.

(** ** Lemmas *)

(** The threads that still run. *)
Definition running (os : Threads) : list rstr := th_name <$> filter (fun th => th_joined th = false) (threads os).

Section facts.
Context (env : RtEnv).

(** A runtime whose thread runs. *)
Definition owns (d : DedicatedRuntime) (os : Threads) (name : rstr) : Prop :=
  exists t, d = {| d_handle := OfThread t; d_shutdown_tx := Some t; d_thread := Some t |} /\
    threads os !! t = Some {| th_name := name; th_signalled := false; th_joined := false |}.

Lemma dedicated_new_cases name os r os' :
  dedicated_new env name os = (r, os') ->
  match r with
  | Err _ => os' = os
  | Ok d => owns d os' name /\ d_handle d = OfThread (length (threads os)) /\
      threads os' = threads os ++ [{| th_name := name; th_signalled := false; th_joined := false |}] /\
      th_log os' = th_log os ++ [ThStart (length (threads os))]
  end.
Proof.
  unfold dedicated_new. destruct (rt_build env name); [| by intros [= <- <-]].
  destruct (rt_spawn env name); [| by intros [= <- <-]]. intros [= <- <-]. split_and!; try done.
  exists (length (threads os)). split; [done |]. cbn. by rewrite lookup_app_r, Nat.sub_diag.
Qed.

(** The threads after the runtime of thread [t] was dropped. *)
Definition ended_thread (t : nat) (ths : list Thread) : list Thread :=
  alter (fun th => {| th_name := th_name th; th_signalled := true; th_joined := true |}) t ths.

Lemma dedicated_drop_cases d os name t :
  owns d os name -> d_handle d = OfThread t ->
  exists os' log, dedicated_drop env d os = Some os' /\ threads os' = ended_thread t (threads os) /\
    th_log os' = th_log os ++ ThSignal t :: ThJoin t :: log /\ Forall (fun op => exists msg, op = ThLogPanic msg) log.
Proof.
  intros (t' & -> & Ht) [= ->]. unfold dedicated_drop, thread_join. cbn.
  rewrite list_lookup_alter_eq, Ht. cbn.
  assert (Hth : <[t := {| th_name := name; th_signalled := true; th_joined := true |}]>
    (alter (fun th => {| th_name := th_name th; th_signalled := true; th_joined := th_joined th |}) t (threads os)) =
    ended_thread t (threads os)).
  { apply list_eq. intros i. unfold ended_thread. destruct (decide (i = t)) as [-> |].
    - rewrite list_lookup_insert_eq by (rewrite length_alter; by eapply lookup_lt_Some).
      rewrite list_lookup_alter_eq, Ht. done.
    - by rewrite list_lookup_insert_ne, !list_lookup_alter_ne by done. }
  rewrite Hth. destruct (rt_end env t) as [u | p].
  - eexists _, []. split; [done |]. cbn. rewrite <- !app_assoc. by split_and!.
  - eexists _, [_]. split; [done |]. cbn. rewrite <- !app_assoc. split_and!; [done | done |]. repeat constructor. by eexists.
Qed.

Definition fresh (name : rstr) : Thread := {| th_name := name; th_signalled := false; th_joined := false |}.
Definition of_thread (t : nat) : DedicatedRuntime := {| d_handle := OfThread t; d_shutdown_tx := Some t; d_thread := Some t |}.

Lemma ended_thread_app l r i : ended_thread (length l + i) (l ++ r) = l ++ ended_thread i r.
Proof.
  apply list_eq. intros j. unfold ended_thread. destruct (decide (j < length l)) as [Hj |].
  - by rewrite list_lookup_alter_ne, !lookup_app_l by lia.
  - replace j with (length l + (j - length l)) by lia. set (k := j - length l).
    destruct (decide (k = i)) as [-> |].
    + by rewrite list_lookup_alter_eq, !lookup_app_r, Nat.add_comm, Nat.add_sub, list_lookup_alter_eq by lia.
    + by rewrite list_lookup_alter_ne, !lookup_app_r, Nat.add_comm, Nat.add_sub, list_lookup_alter_ne by lia.
Qed.

(** Dropping a runtime that runs; what comes after it in the list of threads is [r]. *)
Lemma drop_running base log name r ths os :
  threads os = base ++ ths ->
  ths !! r = Some (fresh name) -> th_log os = log ->
  let t := length base + r in
  exists os' l, dedicated_drop env (of_thread t) os = Some os' /\
    threads os' = base ++ ended_thread r ths /\ th_log os' = log ++ ThSignal t :: ThJoin t :: l /\
    Forall (fun op => exists msg, op = ThLogPanic msg) l.
Proof.
  intros Hth Hr <- t.
  destruct (dedicated_drop_cases (of_thread t) os name t)
    as (os' & l & H1 & H2 & H3 & H4); [| done |].
  - exists t. split; [done |]. rewrite Hth, lookup_app_r by (subst t; lia). by subst t; rewrite Nat.add_comm, Nat.add_sub.
  - exists os', l. split_and!; [done | | done | done]. subst t. by rewrite H2, Hth, ended_thread_app.
Qed.

(** The operations that tell a thread to end or wait for it. *)
Definition ending (op : ThreadOp) : option ThreadOp :=
  match op with ThSignal _ | ThJoin _ => Some op | _ => None end.

Lemma ending_panics log : Forall (fun op => exists msg, op = ThLogPanic msg) log -> omap ending log = [].
Proof. by induction 1 as [| op log [msg ->] _ IH]. Qed.

Lemma bus_drop_releases base n1 n2 n3 handles os :
  threads os = base ++ [fresh n1; fresh n2; fresh n3] ->
  let rt := {| br_handles := handles; br_dedicated := Some [of_thread (length base); of_thread (length base + 1); of_thread (length base + 2)] |} in
  exists os' ths log, actor_bus_drop env rt os = Some os' /\ threads os' = base ++ ths /\
    Forall (fun th => th_joined th = true) ths /\ th_log os' = th_log os ++ log /\
    let t := length base in
    omap ending log = [ThSignal t; ThJoin t; ThSignal (t + 1); ThJoin (t + 1); ThSignal (t + 2); ThJoin (t + 2)].
Proof.
  intros Hth rt. unfold actor_bus_drop. cbn [br_dedicated default drop_all from_option id rt].
  destruct (drop_running base _ n1 0 _ (log_op ThCancelMonitors os) Hth eq_refl eq_refl) as (o1 & l1 & D1 & T1 & G1 & P1).
  rewrite Nat.add_0_r in D1, G1. rewrite D1. cbn [mbind option_bind].
  destruct (drop_running base _ n2 1 _ o1 T1 eq_refl eq_refl) as (o2 & l2 & D2 & T2 & G2 & P2).
  rewrite D2. cbn [mbind option_bind].
  destruct (drop_running base _ n3 2 _ o2 T2 eq_refl eq_refl) as (o3 & l3 & D3 & T3 & G3 & P3).
  rewrite D3. cbn [mbind option_bind]. eexists _, _, _. split; [done |]. split; [exact T3 |].
  split; [by repeat constructor |]. split.
  - rewrite G3, G2, G1. cbn [log_op th_log]. rewrite <- !app_assoc. reflexivity.
  - cbv zeta. repeat (cbn [omap list_omap ending app]; rewrite ?omap_app, ?ending_panics by done). done.
Qed.

(** The threads that run among [base] and [ths]. *)
Lemma running_app os base ths : threads os = base ++ ths ->
  running os = (th_name <$> filter (fun th => th_joined th = false) base) ++ (th_name <$> filter (fun th => th_joined th = false) ths).
Proof. intros H. unfold running. by rewrite H, filter_app, fmap_app. Qed.

Lemma running_joined os base ths : threads os = base ++ ths -> Forall (fun th => th_joined th = true) ths ->
  running os = th_name <$> filter (fun th => th_joined th = false) base.
Proof.
  intros H Hj. rewrite (running_app _ _ _ H). enough (filter (fun th => th_joined th = false) ths = []) as -> by apply app_nil_r.
  clear H. induction Hj as [| th ths Ht _ IH]; [done |]. rewrite filter_cons_False by congruence. exact IH.
Qed.
End facts.

(** ** Properties *)

(** C37: the threads of the bus are neither leaked nor waited for in vain.  Whatever the
    system answers, creating an actor bus returns; if it fails, no thread it had started
    is left running; if it succeeds, its three threads run, the TUN, crypto and UDP
    classes are placed on one each and the main class on the caller's runtime.  Dropping
    the bus then returns and leaves none of the three running: one after the other, TUN,
    crypto and UDP, each is told to end and only then joined. *)
Theorem bus_runtimes_released (env : RtEnv) (os : Threads) :
  exists r os', actor_bus_new env os = Some (r, os') /\
  match r with
  | Err _ => running os' = running os
  | Ok rt =>
      running os' = running os ++ [lit "h3llo-tun"; lit "h3llo-crypto"; lit "h3llo-udp"] /\
      let t := length (threads os) in
      (forall c, runtimes_get (br_handles rt) c =
         match c with RtMain => Current | RtTun => OfThread t | RtCrypto => OfThread (t + 1) | RtUdp => OfThread (t + 2) end) /\
      exists os'' log, actor_bus_drop env rt os' = Some os'' /\ running os'' = running os /\
        th_log os'' = th_log os' ++ log /\
        omap ending log = [ThSignal t; ThJoin t; ThSignal (t + 1); ThJoin (t + 1); ThSignal (t + 2); ThJoin (t + 2)]
  end.
Proof.
  assert (H0 : running os = th_name <$> filter (fun th => th_joined th = false) (threads os)) by done. rewrite !H0.
  unfold actor_bus_new.
  destruct (dedicated_new env (lit "h3llo-tun") os) as [[tun | e] os1] eqn:E1; apply dedicated_new_cases in E1;
    [| subst; by eexists _, _].
  destruct E1 as ((t1 & -> & _) & [= ->] & H1 & _). fold (fresh (lit "h3llo-tun")) (of_thread (length (threads os))) in *.
  destruct (dedicated_new env (lit "h3llo-crypto") os1) as [[crypto | e] os2] eqn:E2; apply dedicated_new_cases in E2.
  2: { subst os2. destruct (drop_running env (threads os) _ _ 0 _ os1 H1 eq_refl eq_refl) as (os' & l & Hd & Hth & _).
       rewrite Nat.add_0_r in Hd. rewrite Hd. eexists _, _. split; [done |]. apply (running_joined _ _ _ Hth). by repeat constructor. }
  destruct E2 as ((t2 & -> & _) & [= ->] & H2 & _). rewrite H1, length_app in *. rewrite <- app_assoc in H2. cbn [length app] in *.
  fold (fresh (lit "h3llo-crypto")) (of_thread (length (threads os) + 1)) in *.
  destruct (dedicated_new env (lit "h3llo-udp") os2) as [[udp | e] os3] eqn:E3; apply dedicated_new_cases in E3.
  2: { subst os3. destruct (drop_running env (threads os) _ _ 1 _ os2 H2 eq_refl eq_refl) as (os' & l & Hd & Hth & _).
       rewrite Hd. cbn [mbind option_bind]. destruct (drop_running env (threads os) _ _ 0 _ os' Hth eq_refl eq_refl)
         as (os'' & l' & Hd' & Hth' & _). rewrite Nat.add_0_r in Hd'. rewrite Hd'. eexists _, _. split; [done |].
       apply (running_joined _ _ _ Hth'). by repeat constructor. }
  destruct E3 as ((t3 & -> & _) & [= ->] & H3 & _). rewrite H2, length_app in *. rewrite <- app_assoc in H3. cbn [length app] in *.
  fold (fresh (lit "h3llo-udp")) (of_thread (length (threads os) + 2)) in *.
  eexists _, _. split; [done |]. split; [by rewrite (running_app _ _ _ H3) |]. split.
  - by intros [].
  - match goal with |- context [{| br_handles := ?h; br_dedicated := _ |}] =>
      destruct (bus_drop_releases env (threads os) _ _ _ h os3 H3) as (os' & ths & log & Hd & Hth & Hj & Hl & He) end.
    rewrite Hd. eexists _, _. split; [done |]. split; [by apply (running_joined _ _ _ Hth) | by split].
Qed.
