(* ===== verification/Start.v ===== *)
(** * Startup

    Models the entry points and the setup they perform: [init_logging],
    [parse_config_path] and [run] of [src/src/main.rs], [Orchestrator::new] with [resolve_listen_addr] and the start
    of [Orchestrator::run] of [src/src/orch.rs], [make_bare_rx] of [src/src/bare.rs],
    [make_h3_dispatcher] and [make_server_quiche_config] of [src/src/h3listener.rs].
    What the operating system and the libraries answer is a [StartEnv]; creating a
    channel or an interval can panic (class [TokioLib]). *)

From stdpp Require Import countable.
From S2P Require Import Prelude Net Config Channel Metrics Routing Route Codec Udp AddrText Events Orch Bind Dial Tun.
#[local] Open Scope Z_scope.

(** ** The command line *)

(** [parse_config_path] after [skip(1)]; [config_path] is the value read so far. *)
Fixpoint parse_args (args : list rstr) (config_path : option rstr) : result rstr anyhow :=
  match args with
  | [] => match config_path with Some p => Ok p | None => Err [lit "missing -c/--config"] end
  | arg :: rest =>
      match (match strip_prefix (lit "--config=") arg with Some v => Some v | None => strip_prefix (lit "-c=") arg end) with
      | Some value => parse_args rest (Some value)
      | None =>
          if decide (arg = lit "-c" \/ arg = lit "--config") then
            match rest with
            | [] => Err [lit "missing value for -c/--config"]
            | value :: rest => parse_args rest (Some value)
            end
          else Err [lit "unknown argument: " ++ arg]
      end
  end.

Definition parse_config_path (args : list rstr) : result rstr anyhow := parse_args args None.

(** ** Setup: a computation that can panic or fail *)

Definition setup (A : Type) : Type := outcome (result A anyhow).

#[export] Instance setup_ret : MRet setup := fun A a => Ret (Ok a).
#[export] Instance setup_bind : MBind setup := fun A B k m =>
  match m with
  | Panic => Panic
  | Ret (Err e) => Ret (Err e)
  | Ret (Ok a) => k a
  end.

Definition lift {A} (r : result A anyhow) : setup A := Ret r.

(** [.context(message)?] on an error displayed as [e]. *)
Definition context {A} (message : rstr) (r : result A rstr) : setup A :=
  Ret (match r with Ok a => Ok a | Err e => Err [message; e] end).

Definition or_panic (r : outcome unit) : setup unit :=
  match r with Ret _ => Ret (Ok tt) | Panic => Panic end.

(** ** Listeners *)

(** [resolve_listen_addr]; [lookup] is the synchronous name resolution. *)
Definition resolve_listen_addr (lookup : rstr -> result (list SocketAddr) rstr) (host : rstr) (port : Z) :
    result SocketAddr anyhow :=
  let host := strip_ipv6_brackets host in
  match parse_ip host with
  | Some ip => Ok {| sa_ip := ip; sa_port := port |}
  | None =>
      let addr_str := host ++ lit ":" ++ dec port in
      match lookup addr_str with
      | Err e => Err [lit "resolve listen address `" ++ addr_str ++ lit "`"; e]
      | Ok [] => Err [lit "listen address `" ++ addr_str ++ lit "` resolved to no addresses"]
      | Ok (first :: _) => Ok first
      end
  end.

(** [ServerError] and its [Display]. *)
Inductive ServerError : Type :=
| ServerSocket (message : rstr)
| ServerConfig (message : rstr)
| ServerWatcher (message : rstr)
| ServerAccept (message : rstr).

Definition server_error_display (e : ServerError) : rstr :=
  match e with
  | ServerSocket m => lit "socket: " ++ m
  | ServerConfig m => lit "config: " ++ m
  | ServerWatcher m => lit "certificate watcher: " ++ m
  | ServerAccept m => lit "accept: " ++ m
  end.

(** [make_server_quiche_config]; a path is given by its [to_str]. *)
Definition make_server_quiche_config (quic : list QuicOp -> QuicOp -> result unit rstr) (created : result unit rstr)
    (h3_tuning : H3Tuning) (max_udp_payload : Z) (cert_path key_path : option rstr) : conf ServerError unit :=
  match created with
  | Err e => fun t => (Err (ServerConfig (lit "quiche config: " ++ e)), t)
  | Ok _ =>
      match cert_path with
      | None => fun t => (Err (ServerConfig (lit "invalid cert path encoding")), t)
      | Some cert_path =>
          conf_map_err (fun e => ServerConfig (lit "cert: " ++ e)) (try_op quic (LoadCertChain cert_path)) ;;
          match key_path with
          | None => fun t => (Err (ServerConfig (lit "invalid key path encoding")), t)
          | Some key_path =>
              conf_map_err (fun e => ServerConfig (lit "key: " ++ e)) (try_op quic (LoadPrivKey key_path)) ;;
              conf_map_err (fun e => ServerConfig (lit "transport config: " ++ e))
                (apply_transport_config quic h3_tuning max_udp_payload)
          end
      end
  end.

(** [Path::parent] of an absolute path without repeated separators. *)
Definition path_parent (path : rstr) : option rstr :=
  match drop_while (fun c => c =? 47) (rev path) with
  | [] => None
  | r =>
      let dir := drop_while (fun c => c =? 47) (drop_while (fun c => negb (c =? 47)) r) in
      Some (if decide (dir = []) then lit "/" else rev dir)
  end.

(** The components of a path, and the order of [BTreeSet<PathBuf>]. *)
Fixpoint components (path current : rstr) : list rstr :=
  match path with
  | [] => if decide (current = []) then [] else [rev current]
  | c :: path =>
      if c =? 47 then (if decide (current = []) then components path [] else rev current :: components path [])
      else components path (c :: current)
  end.

Fixpoint lex {A} (cmp : A -> A -> comparison) (l1 l2 : list A) : comparison :=
  match l1, l2 with
  | [], [] => Eq
  | [], _ :: _ => Lt
  | _ :: _, [] => Gt
  | x :: l1, y :: l2 => match cmp x y with Eq => lex cmp l1 l2 | c => c end
  end.

Definition path_cmp (p q : rstr) : comparison := lex (lex Z.compare) (components p []) (components q []).

(** The set of directories to watch, in its order. *)
Definition watch_directories (cert_path key_path : rstr) : list rstr :=
  match path_parent cert_path, path_parent key_path with
  | Some c, Some k => match path_cmp c k with Eq => [c] | Lt => [c; k] | Gt => [k; c] end
  | Some d, None | None, Some d => [d]
  | None, None => []
  end.

Section start.
Context {L : IpNetLib} {T : TrieLib L} {K : TokioLib} {C : TunConsts}.

(** What the system and the libraries answer during startup: [ActorBus::new]; the task
    of [make_tun] and the device; name resolution; per listener the socket calls, the
    registration on the UDP runtime (the outer error is the task's) and, for HTTP/3,
    [local_addr], [std::path::absolute], [Path::to_str], the filesystem watcher and the
    QUIC configuration; [make_route]; the bind of the API listener; and the channel of
    the TUN writer. *)
Record StartEnv : Type := {
  se_bus_new : result unit rstr;
  se_tun_task : result unit rstr;
  se_tun_build : DeviceSetup -> result unit rstr;
  se_tun_add : IpNet -> result unit rstr;
  se_tun_name : result rstr rstr;
  se_tun_mtu : result Z rstr;
  se_lookup : rstr -> result (list SocketAddr) rstr;
  se_io_to_string : IoError -> rstr;
  se_bare_sys : list SockOp -> SockOp -> result unit IoError;
  se_bare_registered : result (result unit UdpError) rstr;
  se_h3_sys : list SockOp -> SockOp -> result unit IoError;
  se_h3_local_addr : result SocketAddr rstr;
  se_absolute : rstr -> result rstr rstr;
  se_to_str : rstr -> option rstr;
  se_watcher : result unit rstr;
  se_watch : rstr -> result unit rstr;
  se_config_new : result unit rstr;
  se_quic : list QuicOp -> QuicOp -> result unit rstr;
  se_h3_registered : result (result unit UdpError) rstr;
  se_route : result unit rstr;
  se_api_bind : SocketAddr -> result unit rstr;
  se_input_tx : Sender;
}.

(** [make_bare_rx]. *)
Definition make_bare_rx {I : IfNames} (listen_addr : SocketAddr) (tuning : Tuning) (env : StartEnv) : result unit UdpError :=
  match make_server_udp_socket (se_bare_sys env) (se_io_to_string env) listen_addr (socket_buffer_bytes (t_io tuning)) with
  | (Err e, _) => Err e
  | (Ok _, _) =>
      match se_bare_registered env with
      | Err error => Err (UdpSocketError (lit "UDP runtime task failed: " ++ error))
      | Ok r => r
      end
  end.

(** The loop that registers the watches. *)
Fixpoint watch_all (env : StartEnv) (directories : list rstr) : result unit ServerError :=
  match directories with
  | [] => Ok tt
  | d :: directories =>
      match se_watch env d with
      | Err e => Err (ServerWatcher (lit "failed to watch credential directory `" ++ d ++ lit "`: " ++ e))
      | Ok _ => watch_all env directories
      end
  end.

(** The part of [H3DispatcherGroup] that depends on the configuration; [ds_socket] are
    the calls that set its socket up and [ds_config] those that made its QUIC
    configuration. *)
Record DispatcherSetup : Type := {
  ds_bound_addr : SocketAddr;
  ds_socket : list SockOp;
  ds_config : list QuicOp;
  ds_max_udp_payload : Z;
  ds_cert_path : rstr;
  ds_key_path : rstr;
  ds_watched : list rstr;
}.

Definition resolve_path (env : StartEnv) (path : rstr) : result rstr ServerError :=
  match se_absolute env path with
  | Ok p => Ok p
  | Err e => Err (ServerWatcher (lit "failed to resolve credential path `" ++ path ++ lit "`: " ++ e))
  end.

(** [make_h3_dispatcher]. *)
Definition make_h3_dispatcher {I : IfNames} (listen_addr : SocketAddr) (cert_path key_path : rstr) (tun_mtu : Z)
    (io_tuning : IoTuning) (h3_tuning : H3Tuning) (env : StartEnv) : result DispatcherSetup ServerError :=
  match make_server_udp_socket (se_h3_sys env) (se_io_to_string env) listen_addr (socket_buffer_bytes io_tuning) with
  | (Err e, _) => Err (ServerSocket (display_udp_error e))
  | (Ok _, socket) =>
  match se_h3_local_addr env with
  | Err e => Err (ServerSocket (lit "local_addr: " ++ e))
  | Ok bound =>
  match resolve_path env cert_path with
  | Err e => Err e
  | Ok cert =>
  match resolve_path env key_path with
  | Err e => Err e
  | Ok key =>
  let dirs := watch_directories cert key in
  match se_watcher env with
  | Err e => Err (ServerWatcher (lit "failed to create watcher: " ++ e))
  | Ok _ =>
  match watch_all env dirs with
  | Err e => Err e
  | Ok _ =>
  let payload := tun_mtu + CONNECT_IP_OVERHEAD in
  match make_server_quiche_config (se_quic env) (se_config_new env) h3_tuning payload (se_to_str env cert) (se_to_str env key) [] with
  | (Err e, _) => Err e
  | (Ok _, cfg) =>
  match se_h3_registered env with
  | Err e => Err (ServerSocket (lit "UDP runtime task failed: " ++ e))
  | Ok (Err e) => Err (ServerSocket (lit "make_udp: " ++ display_udp_error e))
  | Ok (Ok _) =>
      Ok {| ds_bound_addr := bound; ds_socket := socket; ds_config := cfg; ds_max_udp_payload := payload; ds_cert_path := cert;
            ds_key_path := key; ds_watched := dirs |}
  end end end end end end end end.

(** ** [Orchestrator::new] *)

(** Each listener: resolution, setup and the channels of its actors. *)
Definition start_bare {I : IfNames} (c : Config) (env : StartEnv) : setup unit :=
  match l_bare (c_local c) with
  | None => mret tt
  | Some local_bare =>
      listen_addr ← lift (resolve_listen_addr (se_lookup env) (udp_host (lbare_listen local_bare)) (udp_port (lbare_listen local_bare)));
      context (lit "set up BareUDP listener on " ++ display_socket_addr listen_addr)
        (match make_bare_rx listen_addr (c_tuning c) env with Ok u => Ok u | Err e => Err (display_udp_error e) end) ;;
      or_panic (mpsc_channel (packet_queue_depth (t_io (c_tuning c))))
  end.

Definition start_h3 {I : IfNames} (c : Config) (env : StartEnv) : setup (option DispatcherSetup) :=
  match l_h3 (c_local c) with
  | None => mret None
  | Some h3_cfg =>
      listen_addr ← lift (resolve_listen_addr (se_lookup env) (h3_host (lh3_listen h3_cfg)) (h3_port (lh3_listen h3_cfg)));
      ds ← context (lit "set up HTTP/3 listener on " ++ display_socket_addr listen_addr)
        (match make_h3_dispatcher listen_addr (lh3_cert h3_cfg) (lh3_key h3_cfg) (mtu (l_tun (c_local c)))
                 (t_io (c_tuning c)) (t_h3 (c_tuning c)) env with
         | Ok ds => Ok ds
         | Err e => Err (server_error_display e)
         end);
      or_panic (mpsc_channel (packet_queue_depth (t_io (c_tuning c)))) ;;
      or_panic (mpsc_channel (packet_queue_depth (t_io (c_tuning c)))) ;;
      mret (Some ds)
  end.

Definition start_api (c : Config) (env : StartEnv) : setup unit :=
  match l_api (c_local c) with
  | None => mret tt
  | Some local_api =>
      addr ← lift (resolve_listen_addr (se_lookup env) (api_host (lapi_listen local_api)) (api_port (lapi_listen local_api)));
      context (lit "bind management API to " ++ display_socket_addr addr) (se_api_bind env addr)
  end.

(** [make_tun] on the TUN runtime. *)
Definition start_tun (c : Config) (env : StartEnv) : setup TunHandle :=
  context (lit "join TUN setup task") (se_tun_task env) ;;
  context (lit "set up TUN device")
    (match make_tun (l_tun (c_local c)) (tun_tx_queue_len (t_io (c_tuning c))) (tun_enable_offload (t_io (c_tuning c)))
             (se_tun_build env) (se_tun_add env) (se_tun_name env) (se_tun_mtu env) with
     | Ok h => Ok h
     | Err e => Err (lit "failed to build TUN device: " ++ e)
     end).

(** A route manager that is unavailable is not an error.  The HTTP/3 dispatcher started,
    if any, is part of the result. *)
Definition orchestrator_new {I : IfNames} (c : Config) (env : StartEnv) :
    setup (Orchestrator * list OrchOut * option DispatcherSetup) :=
  let depth := packet_queue_depth (t_io (c_tuning c)) in
  context (lit "initialize actor runtimes") (se_bus_new env) ;;
  start_tun c env ;;
  or_panic (mpsc_channel depth) ;;
  or_panic (mpsc_channel depth) ;;
  or_panic (mpsc_channel depth) ;;
  start_bare c env ;;
  h3_listener ← start_h3 c env;
  start_api c env ;;
  mret (orch_new c (is_ok (se_route env)) (se_input_tx env), h3_listener).

(** [make_interval]. *)
Definition make_interval (period : Z) : outcome unit := interval period.

(** [h3llo::run] up to the event loop. *)
Definition run_start {I : IfNames} (c : Config) (env : StartEnv) :
    setup (Orchestrator * list OrchOut * option DispatcherSetup) :=
  o ← orchestrator_new c env;
  or_panic (make_interval (reconcile_interval (c_tuning c))) ;;
  or_panic (make_interval (metrics_log_interval (c_tuning c))) ;;
  mret o.

(** [.context(message)] on a chain of causes. *)
Definition add_context {A} (message : rstr) (m : setup A) : setup A :=
  match m with
  | Ret (Err e) => Ret (Err (message :: e))
  | _ => m
  end.

(** The sources below the display of a [ConfigError]. *)
Definition config_error_chain (e : ConfigError) : anyhow :=
  match e with
  | Parse y => [config_error_display e; y]
  | Validation _ => [config_error_display e]
  end.

(** [main] up to the event loop; [read] opens and parses the file at a path. *)
Definition main_start {I : IfNames} (args : list rstr) (read : rstr -> result (result Config rstr) rstr) (env : StartEnv) :
    setup (Orchestrator * list OrchOut * option DispatcherSetup) :=
  config_path ← lift (parse_config_path args);
  parsed ← context (lit "open configuration file `" ++ config_path ++ lit "`") (read config_path);
  config ← add_context (lit "load configuration from `" ++ config_path ++ lit "`")
             (lift (match load_config parsed with Ok c => Ok c | Err e => Err (config_error_chain e) end));
  add_context (lit "run h3llo") (run_start config env).

(** What [init_logging] meets: the filter given in the environment, whether the process
    has a subscriber already, and what the telemetry library answers. *)
Record LoggingEnv : Type := {
  env_filter : result rstr unit;
  subscriber_set : bool;
  telemetry_init : result unit rstr;
}.

(** [init_logging]: the filter in force and the lines on standard error; installing a
    second subscriber panics. *)
Definition init_logging (e : LoggingEnv) : outcome (rstr * list rstr) :=
  let filter := match env_filter e with Ok f => f | Err _ => lit "warn,h3llo=info" end in
  if subscriber_set e then Panic else
  Ret (filter, match telemetry_init e with
               | Err err => [lit "failed to init foundations telemetry: " ++ err]
               | Ok _ => []
               end).

(** [main] up to the event loop, with its logging. *)
Definition main_logged {I : IfNames} (e : LoggingEnv) (args : list rstr) (read : rstr -> result (result Config rstr) rstr)
    (env : StartEnv) : setup (Orchestrator * list OrchOut * option DispatcherSetup) :=
  match init_logging e with Ret _ => main_start args read env | Panic => Panic end.

(** The logging setup has no influence on the start: neither the filter nor a failing
    telemetry library changes its result. *)
Lemma main_logged_start {I : IfNames} e args read env :
  subscriber_set e = false -> main_logged e args read env = main_start args read env.
Proof. intros He. unfold main_logged, init_logging. by rewrite He. Qed.
End start.

(** ** The command line: lemmas *)

(** An occurrence of the option: [--config=v], [-c=v], [--config v] or [-c v]. *)
Inductive ConfigOpt : Type :=
| Joined (long : bool) (value : rstr)
| Separate (long : bool) (value : rstr).

Definition opt_value (o : ConfigOpt) : rstr := match o with Joined _ v | Separate _ v => v end.

Definition opt_name (long : bool) : rstr := if long then lit "--config" else lit "-c".

Definition render (o : ConfigOpt) : list rstr :=
  match o with
  | Joined long v => [opt_name long ++ lit "=" ++ v]
  | Separate long v => [opt_name long; v]
  end.

Lemma parse_args_step o rest acc : parse_args (render o ++ rest) acc = parse_args rest (Some (opt_value o)).
Proof. by destruct o as [[] v | [] v]. Qed.

Lemma parse_args_render opts acc :
  parse_args (concat (render <$> opts)) acc = parse_args [] (match last (opt_value <$> opts) with Some v => Some v | None => acc end).
Proof.
  revert acc. induction opts as [| o opts IH]; intros acc; [done |]. cbn [fmap list_fmap concat].
  rewrite parse_args_step, IH, last_cons. by destruct (last (opt_value <$> opts)).
Qed.

Lemma parse_args_inv args acc p :
  parse_args args acc = Ok p -> exists opts, args = concat (render <$> opts).
Proof.
  revert acc. induction args as [args IH] using (induction_ltof1 _ length). unfold ltof in IH. intros acc.
  destruct args as [| arg rest]; [by exists [] |]. cbn [parse_args].
  assert (Hcons : forall o rest', (length rest' < length (arg :: rest))%nat -> arg :: rest = render o ++ rest' ->
    parse_args rest' (Some (opt_value o)) = Ok p -> exists opts, arg :: rest = concat (render <$> opts)).
  { intros o rest' Hl -> Hp. destruct (IH rest' Hl _ Hp) as [opts ->]. by exists (o :: opts). }
  destruct (strip_prefix (lit "--config=") arg) as [v |] eqn:E1.
  { apply strip_prefix_Some in E1 as ->. apply (Hcons (Joined true v)); cbn; [lia | done]. }
  destruct (strip_prefix (lit "-c=") arg) as [v |] eqn:E2.
  { apply strip_prefix_Some in E2 as ->. apply (Hcons (Joined false v)); cbn; [lia | done]. }
  case_decide as Ha; [| done]. destruct rest as [| v rest]; [done |].
  destruct Ha as [-> | ->]; [apply (Hcons (Separate false v)) | apply (Hcons (Separate true v))]; cbn; (lia || done).
Qed.

(** ** Startup: lemmas *)

Section facts.
Context {L : IpNetLib} {T : TrieLib L} {K : TokioLib} {HK : TokioLaws K} {I : IfNames}.
Implicit Types (c : Config) (env : StartEnv).

(** The steps of the startup that must succeed. *)
Definition bare_ok c env : Prop := forall b, l_bare (c_local c) = Some b ->
  exists addr, resolve_listen_addr (se_lookup env) (udp_host (lbare_listen b)) (udp_port (lbare_listen b)) = Ok addr /\
    make_bare_rx addr (c_tuning c) env = Ok tt.

Definition h3_ok c env : Prop := forall h, l_h3 (c_local c) = Some h ->
  exists addr ds, resolve_listen_addr (se_lookup env) (h3_host (lh3_listen h)) (h3_port (lh3_listen h)) = Ok addr /\
    make_h3_dispatcher addr (lh3_cert h) (lh3_key h) (mtu (l_tun (c_local c))) (t_io (c_tuning c)) (t_h3 (c_tuning c)) env = Ok ds.

Definition api_ok c env : Prop := forall a, l_api (c_local c) = Some a ->
  exists addr, resolve_listen_addr (se_lookup env) (api_host (lapi_listen a)) (api_port (lapi_listen a)) = Ok addr /\
    se_api_bind env addr = Ok tt.

Definition tun_ok c env : Prop := se_tun_task env = Ok tt /\
  exists h, make_tun (l_tun (c_local c)) (tun_tx_queue_len (t_io (c_tuning c))) (tun_enable_offload (t_io (c_tuning c)))
    (se_tun_build env) (se_tun_add env) (se_tun_name env) (se_tun_mtu env) = Ok h.

Definition start_ok c env : Prop :=
  se_bus_new env = Ok tt /\ tun_ok c env /\ bare_ok c env /\ h3_ok c env /\ api_ok c env.

(** A setup that does not panic, and succeeds exactly when [P] holds. *)
Definition decides {A} (m : setup A) (P : Prop) : Prop :=
  (exists a, m = Ret (Ok a)) /\ P \/ (exists e, m = Ret (Err e)) /\ ~ P.

Lemma decides_bind {A B} (m : setup A) (k : A -> setup B) P R :
  decides m P -> (forall a, m = Ret (Ok a) -> decides (k a) R) -> decides (m ≫= k) (P /\ R).
Proof.
  intros [[[a ->] HP] | [[e ->] HP]] Hk.
  - destruct (Hk a eq_refl) as [[? ?] | [? ?]]; [left | right]; cbn; tauto.
  - right. split; [by exists e | tauto].
Qed.

Lemma decides_iff {A} (m : setup A) P R : decides m P -> (P <-> R) -> decides m R.
Proof. unfold decides. tauto. Qed.

Lemma decides_ret {A} (a : A) : decides (mret a) True.
Proof. left. split; [by exists a | done]. Qed.

Lemma decides_context {A} message (r : result A rstr) : decides (context message r) (is_ok r = true).
Proof. destruct r as [a | e]; [left | right]; (split; [by eexists | done]). Qed.

Lemma decides_channel c : tuning_valid (c_tuning c) -> packet_queue_depth (t_io (c_tuning c)) <= max_permits ->
  decides (or_panic (mpsc_channel (packet_queue_depth (t_io (c_tuning c))))) True.
Proof. intros [H _] Hm. rewrite mpsc_channel_law by done. left. split; [by eexists | done]. Qed.

Lemma decides_interval p : p <> 0 -> decides (or_panic (make_interval p)) True.
Proof. intros H. unfold make_interval. rewrite interval_law by done. left. split; [by eexists | done]. Qed.

(** The resolution of a listen address, followed by what uses it. *)
Lemma decides_resolve {B} (r : result SocketAddr anyhow) (k : SocketAddr -> setup B) (R : SocketAddr -> Prop) :
  (forall addr, decides (k addr) (R addr)) -> decides (lift r ≫= k) (exists addr, r = Ok addr /\ R addr).
Proof.
  intros Hk. destruct r as [addr | e].
  - eapply decides_iff; [apply (Hk addr) |]. split; [by exists addr | by intros (? & [= <-] & ?)].
  - right. split; [by exists e |]. by intros (? & ? & _).
Qed.

Lemma is_ok_Ok {A E} (r : result A E) : is_ok r = true <-> exists a, r = Ok a.
Proof. destruct r; split; [by eexists | done | done | by intros [? ?]]. Qed.

(** A step configured by an option. *)
Lemma forall_None {A} (P : A -> Prop) : (forall a, None = Some a -> P a) <-> True.
Proof. by split. Qed.

Lemma forall_Some {A} (x : A) (P : A -> Prop) : (forall a, Some x = Some a -> P a) <-> P x.
Proof. split; [by intros H; apply H | by intros H ? [= <-]]. Qed.

Section valid.
Context (c : Config) (Htuning : tuning_valid (c_tuning c)) (Hdepth : packet_queue_depth (t_io (c_tuning c)) <= max_permits).

Lemma start_bare_decides env : decides (start_bare c env) (bare_ok c env).
Proof.
  unfold start_bare, bare_ok. destruct (l_bare (c_local c)) as [b |].
  - eapply decides_iff; [| symmetry; apply forall_Some]. apply decides_resolve. intros addr.
    eapply decides_iff; [apply decides_bind; [apply decides_context | intros; by apply decides_channel] |].
    destruct (make_bare_rx addr (c_tuning c) env) as [[] | e]; cbn; naive_solver.
  - eapply decides_iff; [apply decides_ret | symmetry; apply forall_None].
Qed.

Lemma start_h3_decides env : decides (start_h3 c env) (h3_ok c env).
Proof.
  unfold start_h3, h3_ok. destruct (l_h3 (c_local c)) as [h |].
  - eapply decides_iff; [| symmetry; apply forall_Some].
    eapply decides_iff; [apply decides_resolve; intros addr; apply decides_bind; [apply decides_context |];
      intros; apply decides_bind; [by apply decides_channel |]; intros; apply decides_bind; [by apply decides_channel |];
      intros; apply decides_ret |].
    split; [intros (addr & Hr & Hd & _) | intros (addr & ds & Hr & Hd)].
    + destruct (make_h3_dispatcher addr _ _ _ _ _ env) as [ds | e] eqn:E; [| done]. by exists addr, ds.
    + exists addr. by rewrite Hd.
  - eapply decides_iff; [apply decides_ret | symmetry; apply forall_None].
Qed.

Lemma start_api_decides env : decides (start_api c env) (api_ok c env).
Proof.
  unfold start_api, api_ok. destruct (l_api (c_local c)) as [a |].
  - eapply decides_iff; [| symmetry; apply forall_Some]. apply decides_resolve. intros addr.
    eapply decides_iff; [apply decides_context |]. destruct (se_api_bind env addr) as [[] | e]; naive_solver.
  - eapply decides_iff; [apply decides_ret | symmetry; apply forall_None].
Qed.

Lemma start_tun_decides env : decides (start_tun c env) (tun_ok c env).
Proof.
  unfold start_tun, tun_ok. eapply decides_iff; [apply decides_bind; [apply decides_context | intros; apply decides_context] |].
  destruct (se_tun_task env) as [[] | e]; destruct (make_tun _ _ _ _ _ _ _) as [h | e']; naive_solver.
Qed.

Lemma run_start_decides env : decides (run_start c env) (start_ok c env).
Proof.
  pose proof Htuning as (_ & Hd & _). unfold intervals_positive in Hd.
  eapply decides_iff.
  - unfold run_start, orchestrator_new.
    repeat first [apply start_tun_decides | apply start_bare_decides | apply start_h3_decides | apply start_api_decides
      | apply decides_context | by apply decides_channel | apply decides_ret | apply decides_interval
      | apply decides_bind; [| intros]].
    + apply Hd.
    + apply Hd.
  - unfold start_ok. destruct (se_bus_new env) as [[] | e]; cbn; intuition congruence.
Qed.
End valid.

Lemma setup_bind_Ok {A B} (m : setup A) (k : A -> setup B) b :
  m ≫= k = Ret (Ok b) -> exists a, m = Ret (Ok a) /\ k a = Ret (Ok b).
Proof. destruct m as [[a | e] |]; cbn; [by exists a | done | done]. Qed.

Lemma setup_ret_Ok {A} (a b : A) : mret (M := setup) a = Ret (Ok b) -> a = b.
Proof. by intros [= ->]. Qed.

(** What a successful start returns. *)
Lemma run_start_value c env o outs ds :
  run_start c env = Ret (Ok (o, outs, ds)) ->
  orch_new c (is_ok (se_route env)) (se_input_tx env) = (o, outs) /\ start_h3 c env = Ret (Ok ds).
Proof.
  unfold run_start. intros (o1 & Ho & (? & _ & (? & _ & [= ->])%setup_bind_Ok)%setup_bind_Ok)%setup_bind_Ok.
  unfold orchestrator_new in Ho. do 6 apply setup_bind_Ok in Ho as (? & _ & Ho).
  apply setup_bind_Ok in Ho as (h3 & Hh3 & Ho). apply setup_bind_Ok in Ho as (? & _ & Ho).
  apply setup_ret_Ok in Ho. split; [exact (f_equal fst Ho) |]. rewrite Hh3. do 2 f_equal. exact (f_equal snd Ho).
Qed.

(** The directories of both credentials are watched. *)
Lemma path_cmp_refl p : path_cmp p p = Eq.
Proof.
  assert (Hz : forall l, lex Z.compare l l = Eq) by (induction l as [| z l IH]; cbn; [done | by rewrite Z.compare_refl]).
  unfold path_cmp. induction (components p []) as [| x l IH]; cbn; [done | by rewrite Hz].
Qed.

Lemma watch_directories_both cert key d :
  path_parent cert = Some d \/ path_parent key = Some d ->
  exists w, w ∈ watch_directories cert key /\ (path_cmp w d = Eq).
Proof.
  unfold watch_directories. pose proof path_cmp_refl as Hr.
  intros [-> | ->].
  - destruct (path_parent key) as [k |]; [| exists d; set_solver]. exists d. split; [| done].
    destruct (path_cmp d k); set_solver.
  - destruct (path_parent cert) as [x |]; [| exists d; set_solver]. destruct (path_cmp x d) eqn:E.
    + exists x. set_solver.
    + exists d. set_solver.
    + exists d. set_solver.
Qed.

Lemma watch_all_ok env dirs : watch_all env dirs = Ok tt -> Forall (fun d => se_watch env d = Ok tt) dirs.
Proof.
  induction dirs as [| d dirs IH]; cbn; [by constructor |]. destruct (se_watch env d) as [[] | e] eqn:E; [| done].
  intros H. by constructor; [| apply IH].
Qed.

(** The calls of a server configuration. *)
Lemma make_server_quiche_config_ops quic created tuning payload cert key cfg u :
  make_server_quiche_config quic created tuning payload cert key [] = (Ok u, cfg) ->
  exists cp kp, cert = Some cp /\ key = Some kp /\ LoadCertChain cp ∈ cfg /\ LoadPrivKey kp ∈ cfg /\
    setting recv_payload cfg = Some payload /\ setting send_payload cfg = Some payload /\
    setting dgram_enabled cfg = Some true.
Proof.
  unfold make_server_quiche_config. destruct created as [[] | e]; [| done]. destruct cert as [cp |]; [| done].
  destruct key as [kp |].
  - unfold mbind, conf_bind, conf_map_err, apply_transport_config, mbind, conf_bind, try_op, set_op.
    destruct (quic [] (LoadCertChain cp)); [| done]. destruct (quic _ (LoadPrivKey kp)); [| done].
    destruct (quic _ SetApplicationProtos); [| done]. destruct (quic _ (SetCcAlgorithmName _)); [| done].
    intros [= <- <-]. exists cp, kp. by split_and!; try done; set_solver.
  - unfold mbind, conf_bind, conf_map_err, try_op. by destruct (quic [] (LoadCertChain cp)).
Qed.

(** A server socket is bound to its address by the last call. *)
Lemma make_server_udp_socket_bound sys text listen n u t :
  make_server_udp_socket sys text listen n = (Ok u, t) -> last t = Some (BindAddr listen).
Proof.
  unfold make_server_udp_socket, make_udp_socket_raw, call, socket_result.
  destruct (sys [] _) as [? | ?]; [| done]. destruct (sys _ SetNonblocking) as [? | ?]; [| done].
  destruct (sys _ SetReuseAddress) as [? | ?]; [| done]. cbn [fst snd]. destruct (sys _ (BindAddr listen)) as [? | ?]; [| done].
  intros [= <- <-]. apply last_snoc.
Qed.

(** What a working HTTP/3 listener has: its socket is bound to the configured address,
    the directories of both credentials are watched, and its QUIC configuration loads
    both, carries datagrams and is sized for the packets of the TUN device. *)
Definition dispatcher_ready (h : LocalH3) (tun_mtu : Z) env (ds : DispatcherSetup) : Prop :=
  (exists addr, resolve_listen_addr (se_lookup env) (h3_host (lh3_listen h)) (h3_port (lh3_listen h)) = Ok addr /\
     last (ds_socket ds) = Some (BindAddr addr)) /\
  se_absolute env (lh3_cert h) = Ok (ds_cert_path ds) /\ se_absolute env (lh3_key h) = Ok (ds_key_path ds) /\
  (forall d, path_parent (ds_cert_path ds) = Some d \/ path_parent (ds_key_path ds) = Some d ->
     exists w, path_cmp w d = Eq /\ w ∈ ds_watched ds /\ se_watch env w = Ok tt) /\
  (exists cp kp, se_to_str env (ds_cert_path ds) = Some cp /\ se_to_str env (ds_key_path ds) = Some kp /\
     LoadCertChain cp ∈ ds_config ds /\ LoadPrivKey kp ∈ ds_config ds) /\
  setting dgram_enabled (ds_config ds) = Some true /\
  setting recv_payload (ds_config ds) = Some (tun_mtu + CONNECT_IP_OVERHEAD) /\
  setting send_payload (ds_config ds) = Some (tun_mtu + CONNECT_IP_OVERHEAD) /\
  ds_max_udp_payload ds = tun_mtu + CONNECT_IP_OVERHEAD.

Lemma make_h3_dispatcher_ready addr h tun_mtu io_tuning h3_tuning env ds :
  resolve_listen_addr (se_lookup env) (h3_host (lh3_listen h)) (h3_port (lh3_listen h)) = Ok addr ->
  make_h3_dispatcher addr (lh3_cert h) (lh3_key h) tun_mtu io_tuning h3_tuning env = Ok ds ->
  dispatcher_ready h tun_mtu env ds.
Proof.
  intros Haddr. unfold make_h3_dispatcher, resolve_path.
  destruct (make_server_udp_socket _ _ _ _) as [[u | e] t] eqn:Hsock; [| done]. apply make_server_udp_socket_bound in Hsock.
  destruct (se_h3_local_addr env) as [bound | e]; [| done].
  destruct (se_absolute env (lh3_cert h)) as [cert | e] eqn:Hcert; [| done].
  destruct (se_absolute env (lh3_key h)) as [key | e] eqn:Hkey; [| done]. cbv zeta.
  destruct (se_watcher env) as [u' | e]; [| done]. destruct (watch_all env _) as [[] | e] eqn:Hw; [| done].
  destruct (make_server_quiche_config _ _ _ _ _ _ _) as [[[] | e] cfg] eqn:Hcfg; [| done].
  destruct (se_h3_registered env) as [[u2 | e] | e]; [| done | done]. intros [= <-].
  apply make_server_quiche_config_ops in Hcfg as (cp & kp & Hc & Hk & H1 & H2 & H3 & H4 & H5).
  unfold dispatcher_ready. cbn. split_and!; try done.
  - by exists addr.
  - intros d Hd. destruct (watch_directories_both _ _ _ Hd) as (w & Hin & Heq). exists w. split; [done |]. split; [done |].
    apply watch_all_ok in Hw. rewrite Forall_forall in Hw. by apply Hw.
  - by exists cp, kp.
Qed.

Lemma start_h3_ready c env h3_listener :
  start_h3 c env = Ret (Ok h3_listener) ->
  match l_h3 (c_local c) with
  | Some h => exists ds, h3_listener = Some ds /\ dispatcher_ready h (mtu (l_tun (c_local c))) env ds
  | None => h3_listener = None
  end.
Proof.
  unfold start_h3. destruct (l_h3 (c_local c)) as [h |]; [| by intros [= <-]].
  intros (addr & Haddr & Hh3)%setup_bind_Ok. injection Haddr as Haddr. apply setup_bind_Ok in Hh3 as (ds & Hctx & Hh3).
  do 2 apply setup_bind_Ok in Hh3 as (? & _ & Hh3). apply setup_ret_Ok in Hh3 as <-. exists ds. split; [done |].
  destruct (make_h3_dispatcher addr _ _ _ _ _ env) as [ds' |] eqn:Hds; [| done]. injection Hctx as ->.
  by apply make_h3_dispatcher_ready in Hds.
Qed.

(** ** Properties *)

(** C34: startup with a valid configuration whose queue depth is within tokio's limit never
    panics, and it reaches the event loop exactly when the runtimes, the TUN device and
    every configured listener (BareUDP, HTTP/3, management API) could be set up; that
    the route manager is unavailable never prevents it.  The state it then runs
    from is the one built from the configuration. *)
Theorem startup_total c env :
  config_valid c -> packet_queue_depth (t_io (c_tuning c)) <= max_permits ->
  exists r, run_start c env = Ret r /\ (is_ok r = true <-> start_ok c env) /\
    forall o outs ds, r = Ok (o, outs, ds) -> orch_new c (is_ok (se_route env)) (se_input_tx env) = (o, outs).
Proof.
  intros [Hv _] Hd. pose proof (run_start_value c env) as Hval.
  destruct (run_start_decides c Hv Hd env) as [[[[[o outs] ds] Hr] Hok] | [[e Hr] Hno]]; rewrite Hr in *; eexists; (split; [done |]).
  - split; [done |]. intros o' outs' ds' [= <- <- <-]. by apply (Hval _ _ ds).
  - by split.
Qed.

(** C35: the process enters its event loop only with a configuration that was read from the
    path on the command line and passed validation, in a state that satisfies the
    orchestrator's invariants.  It has an HTTP/3 listener exactly when one is
    configured; the socket of that listener is bound to the configured address, the
    directories of its certificate and key are watched, and the QUIC configuration it
    was started with loaded both, enables datagrams, and allows UDP payloads of the TUN
    device's MTU plus the CONNECT-IP overhead. *)
Theorem main_start_sound args read env o outs h3_listener :
  main_start args read env = Ret (Ok (o, outs, h3_listener)) ->
  exists path c, parse_config_path args = Ok path /\ read path = Ok (Ok c) /\ config_valid c /\
    orch_reach c o (foldl apply_out downstream_new outs) /\ configs_ok (config <$> peers o) /\
    match l_h3 (c_local c) with
    | Some h => exists ds, h3_listener = Some ds /\ dispatcher_ready h (mtu (l_tun (c_local c))) env ds
    | None => h3_listener = None
    end.
Proof.
  unfold main_start. intros (path & Hp & Hm)%setup_bind_Ok. injection Hp as Hp.
  apply setup_bind_Ok in Hm as (parsed & Hread & Hm). destruct (read path) as [r |] eqn:Er; [| done]. injection Hread as ->.
  apply setup_bind_Ok in Hm as (c & Hload & Hm).
  destruct parsed as [c' | e]; [| done]. unfold load_config in Hload.
  destruct (validate c') as [[] | errs] eqn:Hv; [| done]. injection Hload as ->. apply validate_iff in Hv.
  destruct (run_start c env) as [[[[o' outs'] ds'] | e] |] eqn:Hr; [| done | done]. injection Hm as -> -> ->.
  destruct (run_start_value c env o outs h3_listener Hr) as [Hnew Hh3].
  assert (orch_reach c o (foldl apply_out downstream_new outs)) as Hreach by by eapply orch_start.
  exists path, c. split_and!; try done; [by eapply orch_reach_configs; [apply Hv |] |].
  by apply start_h3_ready.
Qed.
End facts.

(** The command line is accepted exactly when it is a non-empty sequence of
    configuration options, joined or with a separate value, and the last one wins. *)
Theorem parse_config_path_spec args p :
  parse_config_path args = Ok p <->
  exists opts, args = concat (render <$> opts) /\ last (opt_value <$> opts) = Some p.
Proof.
  unfold parse_config_path. split.
  - intros Hp. destruct (parse_args_inv _ _ _ Hp) as [opts ->]. exists opts. split; [done |].
    rewrite parse_args_render in Hp. destruct (last (opt_value <$> opts)) as [v |]; cbn in Hp; congruence.
  - intros (opts & -> & Hl). by rewrite parse_args_render, Hl.
Qed.

(** ** Witnesses: a host on which everything can be set up *)

Definition sample_h3 : LocalH3 :=
  {| lh3_listen := {| h3_host := lit "[::]"; h3_port := 443; h3_path := lit "/" |};
     lh3_cert := lit "/etc/h3llo/cert.pem"; lh3_key := lit "/etc/h3llo/key.pem" |}.

Definition h3_config : @Config CidrNet.lib :=
  {| c_local := {| l_table := true; l_dns := default_dns; l_h3 := Some sample_h3; l_bare := None; l_api := None; l_tun := sample_tun |};
     c_tuning := Tuning_default; c_peers := sample_peers |}.

Definition sample_env : @StartEnv CidrNet.lib :=
  {| se_bus_new := Ok tt; se_tun_task := Ok tt; se_tun_build := fun _ => Ok tt; se_tun_add := fun _ => Ok tt;
     se_tun_name := Ok (lit "h3llo0"); se_tun_mtu := Ok 1291; se_lookup := fun _ => Err (lit "no resolver");
     se_io_to_string := fun _ => []; se_bare_sys := fun _ _ => Ok tt; se_bare_registered := Ok (Ok tt);
     se_h3_sys := fun _ _ => Ok tt; se_h3_local_addr := Ok {| sa_ip := V6 0; sa_port := 443 |};
     se_absolute := fun p => Ok p; se_to_str := fun p => Some p; se_watcher := Ok tt; se_watch := fun _ => Ok tt;
     se_config_new := Ok tt; se_quic := fun _ _ => Ok tt; se_h3_registered := Ok (Ok tt);
     se_route := Err (lit "no netlink"); se_api_bind := fun _ => Ok tt; se_input_tx := 0%nat |}.

Lemma h3_config_valid : config_valid h3_config.
Proof. apply validate_iff. by vm_compute. Qed.

Lemma startup_total_witness :
  exists r, run_start (T := MapTrie.lib) (K := PanickyTokio.lib) (I := ListIfs.names) h3_config sample_env = Ret r /\
    is_ok r = true /\ start_ok (I := ListIfs.names) h3_config sample_env.
Proof.
  destruct (startup_total (T := MapTrie.lib) (K := PanickyTokio.lib) (I := ListIfs.names) h3_config sample_env h3_config_valid
    ltac:(discriminate)) as (r & Hr & Hiff & _).
  exists r. assert (is_ok r = true) as Hok.
  { apply (f_equal (fun x => match x with Ret r => is_ok r | Panic => false end)) in Hr. rewrite <- Hr. by vm_compute. }
  split; [exact Hr |]. split; [exact Hok | by apply Hiff].
Defined.

Lemma main_start_sound_witness :
  exists o outs ds, main_start (T := MapTrie.lib) (K := PanickyTokio.lib) (I := ListIfs.names)
      [lit "--config=old.yaml"; lit "-c"; lit "h3llo.yaml"]
      (fun p => if decide (p = lit "h3llo.yaml") then Ok (Ok h3_config) else Err (lit "not found")) sample_env =
      Ret (Ok (o, outs, Some ds)) /\
    dispatcher_ready sample_h3 1291 sample_env ds.
Proof.
  set (read := fun p : rstr => if decide (p = lit "h3llo.yaml") then Ok (Ok h3_config) else Err (lit "not found")).
  set (args := [lit "--config=old.yaml"; lit "-c"; lit "h3llo.yaml"]).
  destruct (main_start (T := MapTrie.lib) (K := PanickyTokio.lib) (I := ListIfs.names) args read sample_env)
    as [[[[o outs] h3] | e] |] eqn:Hm.
  2, 3: apply (f_equal (fun x => match x with Ret r => is_ok r | Panic => false end)) in Hm; vm_compute in Hm; discriminate.
  destruct (main_start_sound (T := MapTrie.lib) (K := PanickyTokio.lib) (I := ListIfs.names) args read sample_env o outs h3 Hm)
    as (path & c & Hp & Hc & _ & _ & _ & Hh).
  vm_compute in Hp. injection Hp as <-. injection Hc as <-.
  destruct Hh as (ds & -> & Hds). exists o, outs, ds. split; [reflexivity | exact Hds].
Defined.
