(* ===== verification/Supervise.v ===== *)
(** * Supervision of the whole program

    Composes the bus of [Actor], its fair executions of [Live] and the orchestrator of
    [Orch]: which actors [Orchestrator::new] of [src/src/orch.rs] registers with the
    bus, with the names and policies the spawn functions of [src/src/tun.rs],
    [src/src/router.rs], [src/src/dns.rs], [src/src/route.rs] and [src/src/api.rs] give
    them, and what the end of any of them does to the program.  The references are those
    the spawns returned; what else runs during startup is arbitrary. *)

From stdpp Require Import countable.
From S2P Require Import Prelude Net Config Channel Metrics Routing AddrText Events Orch Actor Pipeline Live.
#[local] Open Scope nat_scope.

Section startup.
Context {L : IpNetLib} {T : TrieLib L}.

(** The registrations of the spawn functions. *)
Definition spawn_tun_tx (parent : ActorRef) (tun_name : rstr) : list BusOp :=
  [OpSpawn parent (lit "tun-tx[" ++ tun_name ++ lit "]") Critical].

Definition spawn_tun_rx (parent : ActorRef) (tun_name : rstr) : list BusOp :=
  [OpSpawn parent (lit "tun-rx[" ++ tun_name ++ lit "]") Critical].

Definition spawn_router (parent : ActorRef) : list BusOp := [OpSpawn parent (lit "router") Critical].

Definition spawn_dns (parent : ActorRef) (local_dns : LocalDns) : list BusOp :=
  [OpSpawn parent (lit "dns-resolver[" ++ display_socket_addr (dns_server local_dns) ++ lit "]") Critical].

Definition spawn_route (parent : ActorRef) : list BusOp := [OpSpawn parent (lit "route-sync") Critical].

Definition spawn_api (parent : ActorRef) (addr : SocketAddr) : list BusOp :=
  [OpSpawn parent (lit "api[" ++ display_socket_addr addr ++ lit "]") Critical].

(** What startup learns from the system: the name of the device, the addresses of the
    listeners (those of the sockets as the UDP actors name them), and whether
    [make_route] succeeded; and the references of the actors it links. *)
Record Startup : Type := {
  su_tun_name : rstr;
  su_bare_local : rstr;
  su_bare_filter : ActorRef;
  su_bare_udp_rx : ActorRef;
  su_h3_local : rstr;
  su_h3_bound : SocketAddr;
  su_h3_udp_rx : ActorRef;
  su_h3_udp_tx : ActorRef;
  su_h3_dispatcher : ActorRef;
  su_route_ok : bool;
  su_api_addr : SocketAddr;
}.

(** The registrations of an [Orchestrator::new] that succeeds, in order; its context is
    the root. *)
Definition startup_ops (c : Config) (su : Startup) : list BusOp :=
  let l := c_local c in
  spawn_tun_tx 0 (su_tun_name su) ++
  spawn_router 0 ++
  spawn_tun_rx 0 (su_tun_name su) ++
  match l_bare l with
  | Some _ => spawn_bare_rx 0 (su_bare_filter su) (su_bare_udp_rx su) (su_bare_local su)
  | None => []
  end ++
  match l_h3 l with
  | Some _ => spawn_h3_dispatcher 0 (su_h3_udp_rx su) (su_h3_udp_tx su) (su_h3_dispatcher su) (su_h3_local su) (su_h3_bound su)
  | None => []
  end ++
  spawn_dns 0 (l_dns l) ++
  (if l_table l then if su_route_ok su then spawn_route 0 else [] else []) ++
  match l_api l with Some _ => spawn_api 0 (su_api_addr su) | None => [] end.

(** ** Lemmas *)

Implicit Types (b : Bus) (st : Actor).

(** Everything started at startup is critical and owned by the orchestrator. *)
Lemma startup_spawns c su parent name policy :
  OpSpawn parent name policy ∈ startup_ops c su -> parent = 0 /\ policy = Critical.
Proof.
  unfold startup_ops, spawn_tun_tx, spawn_router, spawn_tun_rx, spawn_bare_rx, spawn_h3_dispatcher, spawn_udp_rx, spawn_udp_tx,
    spawn_dns, spawn_route, spawn_api, link. intros Hin.
  repeat (apply elem_of_app in Hin as [Hin | Hin]);
    repeat match goal with H : _ ∈ match ?x with _ => _ end |- _ => destruct x end; set_solver.
Qed.

(** The message of an error ends with the name of an actor in quotes and what happened. *)
Definition names_actor (e : anyhow) (name : rstr) : Prop :=
  exists m prefix suffix, head e = Some m /\ m = prefix ++ lit "`" ++ name ++ lit "`" ++ suffix.

Lemma critical_exit_step now closed exit o :
  exit_policy exit = Critical ->
  exists e, run_step now closed (InMessage (Some (ActorExited exit))) o = Ret (Exit (Err e)) /\ names_actor e (exit_name exit).
Proof.
  intros Hp. cbn. unfold handle_actor_exit. rewrite Hp. eexists. split; [done |]. unfold names_actor.
  destruct (exit_result exit) as [[[] | e] | e]; cbn [head].
  - eexists _, (lit "critical actor "), (lit " exited unexpectedly"). by split.
  - eexists _, (lit "critical actor "), (lit " failed"). by split.
  - eexists _, (lit "join critical actor "), []. split; [done |]. by rewrite app_nil_r.
Qed.

Lemma other_exit_step now closed exit o :
  exit_policy exit <> Critical ->
  exists o' outs, run_step now closed (InMessage (Some (ActorExited exit))) o = Ret (Continue o' outs).
Proof.
  intros Hp. cbn. unfold handle_actor_exit. destruct (exit_policy exit); [done | | by eexists _, _].
  destruct (reconcile now closed o) as [o' outs]. by eexists _, _.
Qed.

(** An actor keeps the name and the policy of its spawn. *)
Lemma spawned_identity root sched run i name policy :
  execution root sched run -> supervised sched run -> sched i = Some (OpSpawn 0 name policy) ->
  next_ref (run i) <> 0 /\
  forall n st, S i <= n -> actors (run n) !! next_ref (run i) = Some st -> a_name st = name /\ a_policy st = policy.
Proof.
  intros He Hs Hi. pose proof (run_next _ _ _ He i) as Hn. rewrite Hi in Hn. cbn in Hn.
  destruct (run_ok root sched run He Hs i) as [(Hlt & _) (_ & H0 & _)]. assert (Hfresh : actors (run i) !! next_ref (run i) = None).
  { destruct (actors (run i) !! next_ref (run i)) eqn:E; [| done]. specialize (Hlt (next_ref (run i)) ltac:(by rewrite E)). lia. }
  split; [intros Hz; rewrite Hz in Hfresh; destruct H0; congruence |].
  unfold spawn in Hn. destruct (actors (run i) !! 0) as [s0 |]; [| done]. injection Hn as Hn.
  intros n st Hle Hst. destruct (identity_later root sched run He Hs (S i) n (next_ref (run i))) with
    (st := {| a_name := name; a_policy := policy; a_owner := a_owner s0; a_inbox := []; a_inbox_open := bus_open (run i);
              a_links := []; a_links_open := bus_open (run i); a_phase := if bus_open (run i) then Running else Aborted;
              a_monitored := false |}) as (st' & Hst' & Hid); [done | by rewrite <- Hn; cbn; rewrite lookup_insert_eq |].
  rewrite Hst in Hst'. injection Hst' as <-. by injection Hid.
Qed.

(** ** Properties *)

(** C12: the program does not outlive its parts.  In every execution of the bus in which
    the orchestrator keeps driving it and receiving, once an actor that startup
    registered (a TUN, router, listener, DNS, route or API actor) has ended, with or
    without an error or by a panic, the orchestrator receives its exit, and the
    iteration of its loop that does so ends the program with an error naming that
    actor; while the exit of any actor with another policy never ends the loop. *)
Theorem startup_exit_ends_program c su root sched run i name policy n :
  execution root sched run -> supervised sched run -> fair sched run (OpRecv 0) ->
  sched i = Some (OpSpawn 0 name policy) -> OpSpawn 0 name policy ∈ startup_ops c su ->
  S i <= n -> ended (run n) (next_ref (run i)) ->
  (exists k exit, receives sched run k 0 (ActorExited exit) /\ exit_name exit = name /\
    forall now closed o, exists e, run_step now closed (InMessage (Some (ActorExited exit))) o = Ret (Exit (Err e)) /\
      names_actor e name) /\
  forall exit now closed o, exit_policy exit <> Critical ->
    exists o' outs, run_step now closed (InMessage (Some (ActorExited exit))) o = Ret (Continue o' outs).
Proof.
  intros He Hs Hf Hi Hin Hle (st & Ha & Hp). apply startup_spawns in Hin as [_ ->].
  destruct (spawned_identity root sched run i name Critical He Hs Hi) as [Hz Hid]. destruct (Hid n st Hle Ha) as [Hname Hpol].
  destruct (exit_received root sched run He Hs n _ st Hz Hf Ha Hp) as (k & st' & r & Hk & Hst').
  injection Hst' as Hn' Hp' _. split; [| intros; by apply other_exit_step]. rewrite <- Hname, <- Hn'.
  exists k, {| exit_name := a_name st'; exit_policy := a_policy st'; exit_result := r |}. split; [exact Hk |].
  split; [done |]. intros now closed o. apply critical_exit_step. cbn. congruence.
Qed.
End startup.

(** ** Witness: the router fails after startup *)

Definition sample_startup : Startup :=
  {| su_tun_name := lit "h3llo0"; su_bare_local := []; su_bare_filter := 0; su_bare_udp_rx := 0; su_h3_local := [];
     su_h3_bound := listener_addr; su_h3_udp_rx := 0; su_h3_udp_tx := 0; su_h3_dispatcher := 0; su_route_ok := false;
     su_api_addr := listener_addr |}.

Definition program_ops : list (@BusOp CidrNet.lib MapTrie.lib) :=
  startup_ops sample_config sample_startup ++
  [OpDrive; OpDrive; OpDrive; OpDrive; OpExit 2 (Ok (Err [lit "down"])); OpClose 2; OpReport 2; OpRecv 0].

Definition root_name : rstr := lit "orchestrator".

Lemma startup_exit_ends_program_witness :
  exists k exit, receives (finite_sched program_ops) (finite_run root_name program_ops) k 0 (ActorExited exit) /\
    exit_name exit = lit "router".
Proof.
  assert (Hs : is_some (bus_run program_ops (bus_new root_name)) = true) by (vm_compute; reflexivity).
  destruct (startup_exit_ends_program sample_config sample_startup root_name (finite_sched program_ops) (finite_run root_name program_ops)
    1 (lit "router") Critical 9) as [(k & exit & Hk & Hn & _) _].
  - apply finite_execution. destruct (bus_run program_ops (bus_new root_name)); [by eexists | discriminate Hs].
  - apply finite_supervised; [| vm_compute; reflexivity | vm_compute; reflexivity].
    assert (Hd : forallb (fun op => match op with OpDrop => false | _ => true end) program_ops = true) by (vm_compute; reflexivity).
    rewrite forallb_forall in Hd. intros Hin%list_elem_of_In%Hd. discriminate Hin.
  - apply finite_fair, not_enabled. vm_compute. reflexivity.
  - reflexivity.
  - apply list_elem_of_lookup. exists 1. reflexivity.
  - lia.
  - assert (Hp : @a_phase CidrNet.lib MapTrie.lib <$> actors (finite_run root_name program_ops 9) !! next_ref (finite_run root_name program_ops 1)
      = Some (Finished (Ok (Err [lit "down"])))) by (vm_compute; reflexivity).
    apply fmap_Some in Hp as (st & Hst & Hp). exists st. split; [exact Hst |]. rewrite <- Hp. discriminate.
  - exists k, exit. split; [exact Hk | exact Hn].
Defined.
