(* ===== verification/Store.v ===== *)
(** * The configuration as a store

    What the configuration requests promise their clients: the peers are a store keyed by
    id, on which GET, POST and DELETE act one after the other, and which nothing else
    changes.  [store_step] specifies the three requests; [orch_refines_store] shows that
    the orchestrator of [src/src/orch.rs] implements it, whatever other events, ticks and
    channel closures it sees in between. *)

From stdpp Require Import countable.
From S2P Require Import Prelude Net Packet Config Channel Metrics Routing Events Udp Orch.
#[local] Open Scope Z_scope.

Section store.
Context {L : IpNetLib} {T : TrieLib L}.

(** ** Specification *)

Abbreviation PeerStore := (gmap rstr Peer).

Inductive StoreOp : Type :=
| OpGet
| OpPost (new_peers : list Peer)
| OpDelete (peer_ids : list rstr).

(** An answer: the configuration now in force, or the refusal of a change. *)
Inductive StoreAnswer : Type :=
| Contents (local : Local) (tuning : Tuning) (s : PeerStore)
| Rejected.

Definition store_valid (s : PeerStore) : Prop := peers_valid ((map_to_list s).*2).

Inductive store_step (local : Local) (tuning : Tuning) : PeerStore -> StoreOp -> StoreAnswer -> PeerStore -> Prop :=
| store_get s : store_step local tuning s OpGet (Contents local tuning s) s
| store_post s new_peers s' :
    posted s new_peers s' -> store_valid s' ->
    store_step local tuning s (OpPost new_peers) (Contents local tuning s') s'
| store_post_rejected s new_peers s' :
    posted s new_peers s' -> ~ store_valid s' ->
    store_step local tuning s (OpPost new_peers) Rejected s
| store_delete s peer_ids s' :
    (forall id, s' !! id = if decide (id ∈ peer_ids) then None else s !! id) ->
    store_step local tuning s (OpDelete peer_ids) (Contents local tuning s') s'.

(** A sequence of requests, each with the channel its answer goes to. *)
Inductive store_trace (local : Local) (tuning : Tuning) :
    PeerStore -> list (ReplyTx * StoreOp) -> list (ReplyTx * StoreAnswer) -> PeerStore -> Prop :=
| trace_nil s : store_trace local tuning s [] [] s
| trace_cons s tx op answer s1 ops answers s2 :
    store_step local tuning s op answer s1 -> store_trace local tuning s1 ops answers s2 ->
    store_trace local tuning s ((tx, op) :: ops) ((tx, answer) :: answers) s2.

(** ** The orchestrator as an implementation *)

(** Iterations of its loop, each at its time and with the channels closed by then, and
    what they put out; [None]: the loop ended. *)
Fixpoint orch_run (steps : list (Z * (Sender -> bool) * OrchInput)) (o : Orchestrator) :
    option (Orchestrator * list OrchOut) :=
  match steps with
  | [] => Some (o, [])
  | (now, closed, i) :: steps =>
      match run_step now closed i o with
      | Ret (Continue o outs) => '(o, outs') ← orch_run steps o; Some (o, outs ++ outs')
      | _ => None
      end
  end.

(** The inputs after which the loop goes on: all but the stop, the end of the inbox, a
    failure of the bus, the shutdown signal and the exit of a critical actor. *)
Definition keeps_running (i : OrchInput) : bool :=
  match i with
  | InMessage None | InMessage (Some Stop) | InDrive (Err _) | InShutdown => false
  | InMessage (Some (ActorExited exit)) => match exit_policy exit with Critical => false | _ => true end
  | _ => true
  end.

(** The requests among the inputs. *)
Definition op_of (i : OrchInput) : option (ReplyTx * StoreOp) :=
  match i with
  | InMessage (Some (GetConfig tx)) => Some (tx, OpGet)
  | InMessage (Some (PostConfig new_peers tx)) => Some (tx, OpPost new_peers)
  | InMessage (Some (DeleteConfig peer_ids tx)) => Some (tx, OpDelete peer_ids)
  | _ => None
  end.

(** A list of peers by id, the last one of an id. *)
Definition store_of (ps : list Peer) : PeerStore := foldl (fun s p => <[p_id p := p]> s) ∅ ps.

Definition contents_of (c : Config) : StoreAnswer := Contents (c_local c) (c_tuning c) (store_of (c_peers c)).

(** The answers among the outputs. *)
Definition answer_of (out : OrchOut) : option (ReplyTx * StoreAnswer) :=
  match out with
  | SendReply tx (ReplyConfig c) => Some (tx, contents_of c)
  | SendReply tx (ReplyPeers (Ok c)) => Some (tx, contents_of c)
  | SendReply tx (ReplyPeers (Err _)) => Some (tx, Rejected)
  | _ => None
  end.

(** The store an orchestrator holds. *)
Definition store (o : Orchestrator) : PeerStore := config <$> peers o.

(** ** Lemmas *)

(** Every peer is filed under its own id. *)
Definition filed (s : PeerStore) : Prop := forall id p, s !! id = Some p -> p_id p = id.

Lemma filed_insert s p : filed s -> filed (<[p_id p := p]> s).
Proof. intros Hs id q. rewrite lookup_insert_Some. intros [[<- <-] | [_ Hq]]; [done | by apply Hs]. Qed.

Lemma filed_posts l s : filed s -> filed (foldl (fun s p => <[p_id p := p]> s) s l).
Proof. revert s. induction l as [| p l IH]; intros s Hs; [done |]. by apply IH, filed_insert. Qed.

(** The listing of a store reads back as the store. *)
Lemma store_of_listing s : filed s -> store_of ((map_to_list s).*2) = s.
Proof.
  intros Hs. apply map_eq. intros id. unfold store_of. rewrite merged_lookup, lookup_empty.
  destruct (last _) as [p |] eqn:Hl.
  - apply last_Some_elem_of, list_elem_of_filter in Hl as [<- Hin].
    apply list_elem_of_fmap in Hin as ([id p'] & -> & Hin%elem_of_map_to_list). cbn. by rewrite (Hs _ _ Hin).
  - apply last_None in Hl. destruct (s !! id) as [p |] eqn:Hp; [| done]. exfalso.
    assert (p ∈ filter (fun p => p_id p = id) (map_to_list s).*2) as Hin; [| rewrite Hl in Hin; by apply elem_of_nil in Hin].
    apply list_elem_of_filter. split; [by apply Hs |].
    apply list_elem_of_fmap. exists (id, p). split; [done |]. by apply elem_of_map_to_list.
Qed.

Lemma contents_snapshot o : filed (store o) ->
  contents_of (config_snapshot o) = Contents (o_local o) (o_tuning o) (store o).
Proof.
  intros Hs. unfold contents_of, config_snapshot, peer_configs. cbn [c_local c_tuning c_peers].
  change (config <$> peers o) with (store o). by rewrite store_of_listing.
Qed.

(** A part of a step that neither changes the store nor answers a request. *)
Definition internal (o o' : Orchestrator) (outs : list OrchOut) : Prop :=
  store o' = store o /\ same_frame o o' /\ omap answer_of outs = [].

Definition silent (outs : list OrchOut) : Prop := omap answer_of outs = [].

Lemma silent_app outs outs' : silent outs -> silent outs' -> silent (outs ++ outs').
Proof. unfold silent. intros H H'. by rewrite omap_app, H, H'. Qed.

Lemma silent_routing o : silent (update_routing o).
Proof. unfold silent, update_routing. by destruct (build_routing o), (has_route o). Qed.

Lemma silent_sync o : silent (sync_peers_to_actors o).
Proof. unfold silent, sync_peers_to_actors. by destruct (has_h3_listener o). Qed.

Lemma silent_sources o : silent (update_accepted_sources o).
Proof. unfold silent, update_accepted_sources. by destruct (has_bare_rx o). Qed.

Lemma silent_refresh now closed o : silent (refresh_peers now closed o).2.
Proof.
  unfold silent, refresh_peers. cbn [snd]. induction (map_to_list _) as [| ir l IH]; [done |]. cbn [mbind list_bind].
  rewrite omap_app. change (mbind _ l) with (l ≫= fun ir => spawn_dials o ir.2.1.1 ir.2.2). rewrite IH, app_nil_r.
  unfold spawn_dials. by induction ir.2.2.
Qed.

Lemma reconcile_internal now closed o : internal o (reconcile now closed o).1 (reconcile now closed o).2.
Proof.
  pose proof (refresh_peers_config now closed o) as Hc. pose proof (refresh_peers_frame now closed o) as Hf.
  pose proof (silent_refresh now closed o) as Hs. unfold reconcile.
  destruct (refresh_peers now closed o) as [[o' changed] outs]. split; [done |]. split; [done |]. cbn in *.
  apply silent_app; [done |]. destruct changed; [apply silent_routing | done].
Qed.

Lemma dns_snapshot_internal now closed ev o :
  internal o (handle_dns_snapshot now closed ev o).1 (handle_dns_snapshot now closed ev o).2.
Proof.
  unfold handle_dns_snapshot. cbv zeta. set (o1 := with_peers o _).
  pose proof (refresh_peers_config now closed o1) as Hc. pose proof (refresh_peers_frame now closed o1) as Hf.
  pose proof (silent_refresh now closed o1) as Hs. destruct (refresh_peers now closed o1) as [[o' changed] outs].
  split; [| split; [done |]].
  - unfold store. cbn in *. rewrite Hc. apply set_resolved_config.
  - cbn in *. apply silent_app; [done |]. apply silent_app; [apply silent_sources | apply silent_routing].
Qed.

Lemma connected_internal closed ev o : internal o (handle_connected closed ev o).1 (handle_connected closed ev o).2.
Proof.
  unfold handle_connected, update_bound. destruct (peers o !! conn_peer_id ev) as [e |] eqn:He; [| done].
  pose proof (prune_config closed (add_bound (conn_endpoint ev) (conn_remote_addr ev) (conn_tx ev) e)) as Hc.
  destruct (prune _ _) as [e' changed]. cbn in Hc. split; [| split; [done |]].
  - by apply (fmap_insert_same _ _ e).
  - cbn [snd]. destruct (_ || _); [apply silent_routing | done].
Qed.

(** An input that is not a request. *)
Lemma step_internal now closed i o o' outs :
  op_of i = None -> run_step now closed i o = Ret (Continue o' outs) -> internal o o' outs.
Proof.
  intros Hi Hr. destruct i as [[m |] | | | [] |]; cbn -[reconcile] in Hr; simplify_eq; try done.
  2: { pose proof (reconcile_internal now closed o) as H. destruct (reconcile now closed o). by simplify_eq/=. }
  destruct m as [| exit | m | ev | ev | ev | tx | ps tx | ids tx | tx | | | | |];
    cbn -[handle_dns_snapshot handle_connected handle_actor_exit] in Hr; simplify_eq; try done.
  - unfold handle_actor_exit in Hr. destruct (exit_policy exit); cbn -[reconcile] in Hr; simplify_eq; [| done].
    pose proof (reconcile_internal now closed o) as H. destruct (reconcile now closed o). by simplify_eq/=.
  - destruct (handle_metrics_routing m o) as [[H1 _] H2]. by split_and!.
  - pose proof (connected_internal closed ev o) as H. destruct (handle_connected _ _ _). by simplify_eq/=.
  - destruct (handle_dial_failed_routing now ev o) as [[H1 _] H2]. by split_and!.
  - pose proof (dns_snapshot_internal now closed ev o) as H. destruct (handle_dns_snapshot _ _ _ _). by simplify_eq/=.
Qed.

(** An input that is a request is answered once, as the specification says. *)
Lemma step_request now closed i tx op o o' outs :
  filed (store o) -> op_of i = Some (tx, op) -> run_step now closed i o = Ret (Continue o' outs) ->
  filed (store o') /\ same_frame o o' /\
  exists answer, omap answer_of outs = [(tx, answer)] /\
    store_step (o_local o) (o_tuning o) (store o) op answer (store o').
Proof.
  intros Hf Hi Hr. destruct i as [[m |] | | | [] |]; try done.
  destruct m as [| | | | | | tx' | ps tx' | ids tx' | | | | | |]; try done; injection Hi as <- <-;
    cbn -[handle_post_config handle_delete_config config_snapshot] in Hr.
  - injection Hr as <- <-. split; [done |]. split; [done |]. eexists. split; [done |].
    rewrite contents_snapshot by done. constructor.
  - unfold handle_post_config in Hr. pose proof (validate_peers_iff ((map_to_list (merged_peers o ps)).*2)) as Hv.
    assert (posted (store o) ps (merged_peers o ps)) as Hp by apply merged_posted.
    destruct (validate_peers _) as [[] | errs]; injection Hr as <- <-.
    + set (o' := with_peers o _). assert (store o' = merged_peers o ps) as Hs by apply upsert_fold_config.
      assert (filed (store o')) as Hf' by (rewrite Hs; by apply filed_posts).
      split; [done |]. split; [done |]. eexists. split.
      { rewrite omap_app, silent_sync. cbn [omap list_omap answer_of app]. by rewrite contents_snapshot. }
      apply store_post; rewrite Hs; [done |]. by apply Hv.
    + split; [done |]. split; [done |]. eexists. split; [done |].
      apply store_post_rejected with (merged_peers o ps); [done |]. by intros ?%Hv.
  - unfold handle_delete_config in Hr. injection Hr as <- <-. set (o' := with_peers o _).
    assert (forall id, store o' !! id = if decide (id ∈ ids) then None else store o !! id) as Hs.
    { intros id. unfold store. rewrite !lookup_fmap. cbn. rewrite delete_fold_lookup. by case_decide. }
    assert (filed (store o')) as Hf'.
    { intros id p. rewrite Hs. case_decide; [done | apply Hf]. }
    split; [done |]. split; [done |]. eexists. split; [| by apply store_delete].
    rewrite omap_app. cbn [omap list_omap answer_of]. rewrite contents_snapshot by done.
    case_decide; [by rewrite silent_sync | done].
Qed.

Lemma step_continues now closed i o :
  keeps_running i = true -> exists o' outs, run_step now closed i o = Ret (Continue o' outs).
Proof.
  intros Hk. destruct i as [[m |] | | | [] |]; try done; [| by eexists _, _..].
  destruct m; try done; cbn -[reconcile handle_post_config handle_delete_config handle_dns_snapshot handle_connected] in *;
    unfold handle_actor_exit in *; repeat case_match; simplify_eq; by eexists _, _.
Qed.

Lemma run_total steps o :
  Forall (fun i => keeps_running i = true) steps.*2 -> exists o' outs, orch_run steps o = Some (o', outs).
Proof.
  revert o. induction steps as [| [[now closed] i] steps IH]; intros o Hk; [by eexists _, _ |].
  apply Forall_cons in Hk as [Hi Hk]. cbn [orch_run].
  destruct (step_continues now closed i o Hi) as (o1 & outs & ->).
  destruct (IH o1 Hk) as (o2 & outs2 & ->). by eexists _, _.
Qed.

Lemma run_refines steps o o' outs :
  filed (store o) -> orch_run steps o = Some (o', outs) ->
  store_trace (o_local o) (o_tuning o) (store o) (omap op_of steps.*2) (omap answer_of outs) (store o').
Proof.
  revert o outs. induction steps as [| [[now closed] i] steps IH]; intros o outs Hf Hr; simplify_eq/=; [constructor |].
  destruct (run_step now closed i o) as [[o1 outs1 |] |] eqn:Hs; try done.
  destruct (orch_run steps o1) as [[o2 outs2] |] eqn:Hr2; simplify_eq/=. rewrite omap_app.
  destruct (op_of i) as [[tx op] |] eqn:Hi.
  - destruct (step_request _ _ _ _ _ _ _ _ Hf Hi Hs) as (Hf1 & (Hl & Ht & _) & answer & -> & Hstep).
    cbn. econstructor; [exact Hstep |]. rewrite <- Hl, <- Ht. by apply IH.
  - destruct (step_internal _ _ _ _ _ _ Hi Hs) as (Hst & (Hl & Ht & _) & ->). cbn. rewrite <- Hl, <- Ht, <- Hst.
    apply IH; [by rewrite Hst | done].
Qed.

Lemma store_new c route_ok tun_tx : store (orch_new c route_ok tun_tx).1 = store_of (c_peers c).
Proof.
  unfold store, store_of. cbn [orch_new fst peers]. induction (c_peers c) as [| p l IH] using rev_ind; [done |].
  rewrite rev_unit, foldl_app. cbn. by rewrite fmap_insert, IH.
Qed.

(** ** Properties *)

(** C9: the orchestrator implements the store: every run of its loop from a configuration,
    over any inputs but those that end the loop, at whatever times, goes through, and in it
    the requests for the configuration are answered once each and in order, on the channel
    they came with; the answers are those of a store that starts with the configured peers,
    is changed by an accepted POST or a DELETE only, all at once or not at all, and shows
    every request what the requests before it left; the peers in force at the end are the
    store's. *)
Theorem orch_refines_store c route_ok tun_tx steps :
  Forall (fun i => keeps_running i = true) steps.*2 ->
  exists o outs, orch_run steps (orch_new c route_ok tun_tx).1 = Some (o, outs) /\
  store_trace (c_local c) (c_tuning c) (store_of (c_peers c)) (omap op_of steps.*2) (omap answer_of outs) (store o).
Proof.
  intros Hk. destruct (run_total steps (orch_new c route_ok tun_tx).1 Hk) as (o & outs & Hr).
  exists o, outs. split; [done |]. rewrite <- (store_new c route_ok tun_tx).
  apply (run_refines steps (orch_new c route_ok tun_tx).1); [| done].
  rewrite store_new. apply filed_posts. by intros id p ?%lookup_empty_Some.
Qed.
End store.

(** ** Witnesses *)

(** A refused change, a deletion and a read, with a tick between them. *)
Definition sample_steps : list (Z * (Sender -> bool) * OrchInput (L := CidrNet.lib) (T := MapTrie.lib)) :=
  let quiet := (0, fun _ : Sender => false) in
  [(quiet, InMessage (Some (PostConfig [{| p_id := []; p_transport := TransportBare
       {| pbare_endpoint := {| udp_host := lit "h"; udp_port := 1 |}; pbare_bindif := None |}; p_tun := {| allowed_ips := [] |} |}] 1%nat)));
   (quiet, InReconcileTick);
   (quiet, InMessage (Some (DeleteConfig (p_id <$> sample_peers) 2%nat)));
   (quiet, InMessage (Some (GetConfig 3%nat)))].

(** The answers are a refusal, then twice the empty store. *)
Definition sample_answers (outs : list (@OrchOut CidrNet.lib MapTrie.lib)) : bool :=
  match omap answer_of outs with
  | [(1%nat, Rejected); (2%nat, Contents _ _ s); (3%nat, Contents _ _ s')] => bool_decide (s = ∅) && bool_decide (s' = ∅)
  | _ => false
  end.

Lemma orch_refines_store_witness :
  exists o outs, orch_run (T := MapTrie.lib) sample_steps sample_orch = Some (o, outs) /\ sample_answers outs = true /\
    store_trace (c_local sample_config) (c_tuning sample_config) (store_of (c_peers sample_config))
      (omap op_of sample_steps.*2) (omap answer_of outs) (store o).
Proof.
  destruct (orch_refines_store (T := MapTrie.lib) sample_config false 0%nat sample_steps) as (o & outs & Hr & Ht).
  { by repeat constructor. }
  exists o, outs. split; [exact Hr |]. split; [| exact Ht].
  assert (match orch_run (T := MapTrie.lib) sample_steps sample_orch with Some (_, outs) => sample_answers outs | None => false end = true)
    as H by by vm_compute.
  unfold sample_orch in H. by rewrite Hr in H.
Defined.
