(* ===== verification/Testing.v ===== *)
(** * Unit tests on the model

    The files [*Tests] translate the unit tests of the repository (the [tests] modules of
    the files under [src/src/]) and run them on the definitions of this library, with the
    concrete instances of the library interfaces.  A test is a boolean under the name it
    has in the source; a panic, a failed assertion and a failed [expect] are [false].
    This file has the assertions, and the helpers of [src/src/helpers.rs] that build
    packets. *)

From S2P Require Import Prelude Net Packet Config Channel Metrics Routing AddrText.
#[local] Open Scope Z_scope.

(** ** Assertions *)

Definition assert_eq {A} `{EqDecision A} (x y : A) : bool := bool_decide (x = y).

(** [o.expect()], [r.unwrap()] and [r.unwrap_err()], and a call that must not panic: the
    test goes on with the value. *)
Definition expect {A} (o : option A) (k : A -> bool) : bool :=
  match o with Some a => k a | None => false end.

Definition unwrap {A E} (r : result A E) (k : A -> bool) : bool :=
  match r with Ok a => k a | Err _ => false end.

Definition unwrap_err {A E} (r : result A E) (k : E -> bool) : bool :=
  match r with Ok _ => false | Err e => k e end.

Definition runs {A} (o : outcome A) (k : A -> bool) : bool :=
  match o with Ret a => k a | Panic => false end.

Definition is_none {A} (o : option A) : bool := match o with Some _ => false | None => true end.

(** [s.contains(needle)]. *)
Fixpoint str_contains (needle s : rstr) : bool :=
  bool_decide (is_Some (strip_prefix needle s)) || match s with [] => false | _ :: s => str_contains needle s end.

(** All tests of a list pass. *)
Definition passed (ts : list bool) : bool := forallb id ts.

(** ** Values *)

(** An address and a prefix as they are written; the tests' literals are valid. *)
Definition ip (s : string) : IpAddr := default (V4 0) (parse_ip (lit s)).

Fixpoint split_slash (s : rstr) : rstr * rstr :=
  match s with
  | [] => ([], [])
  | c :: s => if decide (c = 47) then ([], s) else let '(a, b) := split_slash s in (c :: a, b)
  end.

Definition net (s : string) : @IpNet CidrNet.lib :=
  let '(addr, len) := split_slash (lit s) in
  let addr := default (V4 0) (parse_ip addr) in
  let len := default 0 (fst <$> read_number 10 128 3 true len) in
  default (ipnet_from addr) (ipnet_new addr len).

Definition sock (s : string) (port : Z) : SocketAddr := {| sa_ip := ip s; sa_port := port |}.

(** The constant of the crate [datagram_socket], as the tests of [src/src/tun.rs] give it:
    1490 bytes and [HEADROOM]. *)
Definition max_datagram_size : nat := 1500.

(** ** Packets: [test_packets] of [src/src/helpers.rs] *)

Definition octets (n : nat) (a : Z) : list Z := (fun i => Z.shiftr a (8 * Z.of_nat i) mod 256) <$> reverse (seq 0 n).

(** [packet[i..].copy_from_slice(bs)]. *)
Definition copy_at (i : nat) (bs packet : list Z) : list Z := take i packet ++ bs ++ drop (i + length bs) packet.

Definition make_ipv4_packet (dst : IpAddr) : packet :=
  copy_at 16 (octets 4 (ip_bits dst)) (<[0%nat := 69]> (replicate 20 0)).

Definition make_ipv6_packet (dst : IpAddr) : packet :=
  copy_at 24 (octets 16 (ip_bits dst)) (<[0%nat := 96]> (replicate 40 0)).

Definition make_ipv4_with_ttl (dst : IpAddr) (ttl : Z) : packet := <[8%nat := ttl]> (make_ipv4_packet dst).

(** ** Channels

    A test's channels are those of [ListChannels]; a receiver gets what was accepted on its
    channel, [nth] message first. *)
Definition recv_nth {V} (tx : Sender) (w : ListChannels.state V) (i : nat) : option V :=
  messages tx (ListChannels.log w) !! i.

Definition recv_first {V} (tx : Sender) (w : ListChannels.state V) : option V := recv_nth tx w 0.

(** The world of a test with some receivers dropped or with full channels. *)
Definition with_closed {V} (txs : list Sender) : ListChannels.state V :=
  {| ListChannels.clock := 0; ListChannels.log := []; ListChannels.closed := txs; ListChannels.busy := [] |}.

Definition with_busy {V} (txs : list Sender) : ListChannels.state V :=
  {| ListChannels.clock := 0; ListChannels.log := []; ListChannels.closed := []; ListChannels.busy := txs |}.

(** ** Counters *)

Definition dropped_packets (c : Counters) : Z := packets (dropped (m_stats (snapshot c None None))).
Definition reason_packets (r : DropReason) (c : Counters) : Z :=
  packets (drop_reasons (m_stats (snapshot c None None)) r).
Definition success_packets (c : Counters) : Z := packets (succeeded (m_stats (snapshot c None None))).
