(* ===== verification/RouterTests.v ===== *)
(** * Tests of the router

    The tests of [src/src/router.rs]. *)

From S2P Require Import Prelude Net Packet Config Channel Metrics Routing Router Codec Udp AddrText Events RouterLoop Testing.
#[local] Open Scope Z_scope.

#[local] Existing Instances CidrNet.lib MapTrie.lib.

(** ** Helpers *)

Definition make_test_routing (peer_id : string) (prefix : @IpNet CidrNet.lib) (tx : Sender) : RoutingTable (T := MapTrie.lib) :=
  match routing_insert routing_new prefix {| re_peer_id := lit peer_id; re_tx := tx |} with
  | Ok t => t
  | Err _ => routing_new
  end.

Definition bare_peer (id : string) (allowed : list string) : @Peer CidrNet.lib :=
  {| p_id := lit id;
     p_transport := TransportBare {| pbare_endpoint := {| udp_host := lit "127.0.0.1"; udp_port := 5353 |}; pbare_bindif := None |};
     p_tun := {| allowed_ips := net <$> allowed |} |}.

(** A channel for every peer. *)
Definition dummy_peer_txs (peer_ids : list string) : gmap rstr Sender :=
  list_to_map (zip (lit <$> peer_ids) (seq 1 (length peer_ids))).

Definition empty_local_tun : @LocalTun CidrNet.lib := {| ifname := lit "test0"; addrs := []; mtu := 1291 |}.

(** ** Routing table *)

Definition chooses_longest_prefix : bool :=
  let peers := [bare_peer "peer-a" ["10.0.0.0/16"]; bare_peer "peer-b" ["10.0.0.0/24"]] in
  unwrap (routing_make (T := MapTrie.lib) peers (dummy_peer_txs ["peer-a"; "peer-b"]) empty_local_tun 0%nat) (fun table =>
  expect (routing_lookup table (ip "10.0.0.42")) (fun result =>
  assert_eq (rm_peer_id result) (lit "peer-b") && assert_eq (rm_prefix result) (net "10.0.0.0/24"))).

Definition errors_on_conflicting_prefix_ownership : bool :=
  let peers := [bare_peer "peer-a" ["10.0.0.0/24"]; bare_peer "peer-b" ["10.0.0.0/24"]] in
  unwrap_err (routing_make (T := MapTrie.lib) peers (dummy_peer_txs ["peer-a"; "peer-b"]) empty_local_tun 0%nat) (fun err =>
  match err with
  | ConflictingPrefix _ existing_peer_id new_peer_id =>
      assert_eq existing_peer_id (lit "peer-a") && assert_eq new_peer_id (lit "peer-b")
  end).

Definition skips_duplicate_prefixes_within_peer : bool :=
  let peers := [bare_peer "peer-a" ["10.0.0.0/24"; "10.0.0.0/24"]] in
  unwrap (routing_make (T := MapTrie.lib) peers (dummy_peer_txs ["peer-a"]) empty_local_tun 0%nat) (fun table =>
  assert_eq (routing_len table) (1%nat, 0%nat) &&
  expect (routing_lookup table (ip "10.0.0.1")) (fun result => assert_eq (rm_peer_id result) (lit "peer-a"))).

Definition make_inserts_local_tun_host_routes : bool :=
  let peers := [bare_peer "peer-a" ["10.0.0.0/24"]] in
  let local_tun := {| ifname := lit "test0"; addrs := [net "10.0.0.1/24"]; mtu := 1291 |} in
  unwrap (routing_make (T := MapTrie.lib) peers (dummy_peer_txs ["peer-a"]) local_tun 0%nat) (fun table =>
  expect (routing_lookup table (ip "10.0.0.1")) (fun local =>
    assert_eq (rm_peer_id local) LOCAL_PEER_ID && assert_eq (rm_prefix local) (net "10.0.0.1/32")) &&
  expect (routing_lookup table (ip "10.0.0.2")) (fun peer => assert_eq (rm_peer_id peer) (lit "peer-a"))).

(** ** Batches *)

Abbreviation world := (ListChannels.state (list packet)).

(** [handle_ingress_batch] on new counters and open channels. *)
Definition ingress (batch : list packet) (routing : RoutingTable (T := MapTrie.lib)) (input_tx : Sender)
    (k : Counters -> world -> bool) : bool :=
  runs (handle_ingress_batch (M := ListChannels.lib) batch routing input_tx (counters_new Router Rx) ListChannels.empty)
    (fun r => expect r (fun '(c, w) => k c w)).

Definition output (batch : list packet) (routing : RoutingTable (T := MapTrie.lib)) (k : Counters -> world -> bool) : bool :=
  runs (handle_output_batch (M := ListChannels.lib) batch routing (counters_new Router Rx) ListChannels.empty)
    (fun '(c, w) => k c w).

Definition tun_batch_routes_via_first_packet : bool :=
  let pkt_data := make_ipv4_packet (ip "10.0.0.1") in
  output [pkt_data] (make_test_routing "peer1" (net "10.0.0.0/8") 1%nat) (fun _ w =>
  expect (recv_first 1%nat w) (fun received =>
  assert_eq (length received) 1%nat && assert_eq (received !! 0%nat) (Some pkt_data))).

Definition tun_batch_no_route_drops : bool :=
  output [make_ipv4_packet (ip "10.0.0.1")] routing_new (fun counters _ => assert_eq (dropped_packets counters) 1).

Definition transport_batch_splits_by_dst_ip : bool :=
  unwrap (routing_insert (T := MapTrie.lib) routing_new (net "10.0.0.0/8") {| re_peer_id := lit "peer1"; re_tx := 1%nat |}) (fun routing =>
  unwrap (routing_insert routing (net "192.168.0.0/16") {| re_peer_id := lit "peer2"; re_tx := 2%nat |}) (fun routing =>
  let pkt1 := make_ipv4_with_ttl (ip "10.0.0.1") 64 in
  let pkt2 := make_ipv4_with_ttl (ip "10.0.0.1") 64 in
  let pkt3 := make_ipv4_with_ttl (ip "192.168.1.1") 64 in
  ingress [pkt1; pkt2; pkt3] routing 0%nat (fun _ w =>
  expect (recv_first 1%nat w) (fun peer1_batch => assert_eq (length peer1_batch) 2%nat) &&
  expect (recv_first 2%nat w) (fun peer2_batch => assert_eq (length peer2_batch) 1%nat)))).

Definition transport_batch_ttl_expired_forwarded_to_tun : bool :=
  ingress [make_ipv4_with_ttl (ip "10.0.0.1") 1] (make_test_routing "peer1" (net "10.0.0.0/8") 1%nat) 0%nat (fun counters w =>
  is_none (recv_first 1%nat w) &&
  expect (recv_first 0%nat w) (fun expired_batch => assert_eq (length expired_batch) 1%nat) &&
  assert_eq (reason_packets TtlExpired counters) 1).

Definition transport_batch_tun_dest_no_ttl_decrement : bool :=
  ingress [make_ipv4_with_ttl (ip "10.0.0.1") 5] (make_test_routing "local" (net "10.0.0.0/8") 0%nat) 0%nat (fun _ w =>
  expect (recv_first 0%nat w) (fun received =>
  assert_eq (length received) 1%nat && assert_eq (p ← received !! 0%nat; p !! 8%nat) (Some 5))).

Definition transport_batch_decrements_ttl_for_non_tun : bool :=
  ingress [make_ipv4_with_ttl (ip "10.0.0.1") 64] (make_test_routing "peer1" (net "10.0.0.0/8") 1%nat) 0%nat (fun _ w =>
  expect (recv_first 1%nat w) (fun received =>
  assert_eq (length received) 1%nat && assert_eq (p ← received !! 0%nat; p !! 8%nat) (Some 63))).

Definition transport_batch_ipv6_hop_limit_expired_forwarded_to_tun : bool :=
  let pkt_data := <[7%nat := 1]> (make_ipv6_packet (ip "2001:db8::1")) in
  ingress [pkt_data] (make_test_routing "peer1" (net "2001:db8::/32") 1%nat) 0%nat (fun counters w =>
  is_none (recv_first 1%nat w) &&
  expect (recv_first 0%nat w) (fun expired_batch => assert_eq (length expired_batch) 1%nat) &&
  assert_eq (reason_packets TtlExpired counters) 1).

Definition transport_batch_ipv6_decrements_hop_limit : bool :=
  let pkt_data := <[7%nat := 128]> (make_ipv6_packet (ip "2001:db8::1")) in
  ingress [pkt_data] (make_test_routing "peer1" (net "2001:db8::/32") 1%nat) 0%nat (fun _ w =>
  expect (recv_first 1%nat w) (fun received =>
  assert_eq (length received) 1%nat && assert_eq (p ← received !! 0%nat; p !! 7%nat) (Some 127))).

(** ** The actor *)

Definition start_router (routing : RoutingTable (T := MapTrie.lib)) : RouterActor (M := ListChannels.lib) :=
  router_start routing (ListChannels.empty : Channel.world (Mpsc := ListChannels.lib)).

Definition routing_update_replaces_table : bool :=
  let routing := make_test_routing "peer1" (net "10.0.0.0/8") 1%nat in
  let new_routing := make_test_routing "peer2" (net "10.0.0.0/8") 2%nat in
  runs (router_run 0%nat [InMessage (Some (UpdateRouting new_routing)); InOutput (Some [make_ipv4_packet (ip "10.0.0.1")])]
    (start_router routing)) (fun r => expect r (fun a =>
  expect (recv_first 2%nat (router_world a)) (fun received => assert_eq (length received) 1%nat))).

(** Whichever of the two channels is seen closed first, the actor returns. *)
Definition router_exits_when_senders_dropped : bool :=
  runs (router_run 0%nat [InOutput None] (start_router routing_new)) is_none &&
  runs (router_run 0%nat [InIngress None] (start_router routing_new)) is_none.

(** ** Packets *)

Definition extract_dst_ip_parses_ipv4 : bool :=
  runs (extract_dst_ip (make_ipv4_packet (ip "10.20.30.40"))) (fun r => assert_eq r (Some (ip "10.20.30.40"))).

Definition extract_dst_ip_parses_ipv6 : bool :=
  runs (extract_dst_ip (make_ipv6_packet (ip "fe80::1"))) (fun r => assert_eq r (Some (ip "fe80::1"))).

Definition extract_dst_ip_returns_none_for_invalid_packets : bool :=
  runs (extract_dst_ip []) is_none && runs (extract_dst_ip (replicate 10 69)) is_none &&
  runs (extract_dst_ip (replicate 30 96)) is_none && runs (extract_dst_ip (replicate 20 48)) is_none.

(** The fold of the carries: two rounds are enough for ten words. *)
Definition compute_ipv4_checksum (header : list Z) : Z :=
  let word i := u16_from_be_bytes (default 0 (header !! (2 * i)%nat)) (default 0 (header !! (2 * i + 1)%nat)) in
  let sum := foldl (fun sum i => sum + word i) 0 (seq 0 10) in
  let fold sum := if decide (Z.shiftr sum 16 <> 0) then Z.land sum 65535 + Z.shiftr sum 16 else sum in
  65535 - as_u16 (fold (fold sum)).

(** A header of [n] zeroes with the given bytes. *)
Definition header (n : nat) (bytes : list (Z * Z)) : packet := foldl (fun p '(i, b) => <[Z.to_nat i := b]> p) (replicate n 0) bytes.

Definition decrement_ttl_ipv4_updates_checksum : bool :=
  let pkt := header 20 [(0, 69); (8, 64)] in
  let pkt := copy_at 10 (u16_to_be_bytes (compute_ipv4_checksum pkt)) pkt in
  runs (decrement_ttl pkt) (fun '(old_ttl, pkt) =>
  assert_eq old_ttl (Some 64) && assert_eq (pkt !! 8%nat) (Some 63) &&
  let stored := u16_from_be_bytes (default 0 (pkt !! 10%nat)) (default 0 (pkt !! 11%nat)) in
  assert_eq stored (compute_ipv4_checksum (copy_at 10 [0; 0] pkt))).

Definition decrement_ttl_ipv4_ttl_one_becomes_zero : bool :=
  runs (decrement_ttl (header 20 [(0, 69); (8, 1)])) (fun '(old, pkt) =>
  assert_eq old (Some 1) && assert_eq (pkt !! 8%nat) (Some 0)).

Definition decrement_ttl_ipv4_checksum_carry_folds : bool :=
  runs (decrement_ttl (header 20 [(0, 69); (8, 10); (10, 255); (11, 0)])) (fun '(old, pkt) =>
  assert_eq old (Some 10) && assert_eq (u16_from_be_bytes (default 0 (pkt !! 10%nat)) (default 0 (pkt !! 11%nat))) 1).

Definition decrement_ttl_ipv6_decrements_hop_limit : bool :=
  runs (decrement_ttl (header 40 [(0, 96); (7, 128)])) (fun '(old, pkt) =>
  assert_eq old (Some 128) && assert_eq (pkt !! 7%nat) (Some 127)).

Definition decrement_ttl_returns_none_for_malformed : bool :=
  runs (decrement_ttl (replicate 10 69)) (fun '(old, _) => is_none old) &&
  runs (decrement_ttl (replicate 20 96)) (fun '(old, _) => is_none old) &&
  runs (decrement_ttl (replicate 20 48)) (fun '(old, _) => is_none old).

Definition decrement_ttl_zero_ttl_returns_some_zero : bool :=
  runs (decrement_ttl (header 20 [(0, 69); (8, 0)])) (fun '(old, pkt) =>
    assert_eq old (Some 0) && assert_eq (pkt !! 8%nat) (Some 0)) &&
  runs (decrement_ttl (header 40 [(0, 96); (7, 0)])) (fun '(old, pkt) =>
    assert_eq old (Some 0) && assert_eq (pkt !! 7%nat) (Some 0)).

Lemma router_tests :
  passed [chooses_longest_prefix; errors_on_conflicting_prefix_ownership; skips_duplicate_prefixes_within_peer;
    make_inserts_local_tun_host_routes; tun_batch_routes_via_first_packet; tun_batch_no_route_drops;
    transport_batch_splits_by_dst_ip; transport_batch_ttl_expired_forwarded_to_tun; transport_batch_tun_dest_no_ttl_decrement;
    transport_batch_decrements_ttl_for_non_tun; transport_batch_ipv6_hop_limit_expired_forwarded_to_tun;
    transport_batch_ipv6_decrements_hop_limit; routing_update_replaces_table; router_exits_when_senders_dropped;
    extract_dst_ip_parses_ipv4; extract_dst_ip_parses_ipv6; extract_dst_ip_returns_none_for_invalid_packets;
    decrement_ttl_ipv4_updates_checksum; decrement_ttl_ipv4_ttl_one_becomes_zero; decrement_ttl_ipv4_checksum_carry_folds;
    decrement_ttl_ipv6_decrements_hop_limit; decrement_ttl_returns_none_for_malformed;
    decrement_ttl_zero_ttl_returns_some_zero] = true.
Proof. vm_compute. reflexivity. Qed.
