(* ===== verification/HelpersTests.v ===== *)
(** * Tests of the helpers and the metrics

    The tests of [src/src/helpers.rs] and [src/src/metrics.rs].  The Prometheus text is
    prometheus-client's; the tests run on [openmetrics], which writes counters in the
    OpenMetrics text format (integral part only for waits, whose value no test reads). *)

From Stdlib Require Import Floats.SpecFloat.
From S2P Require Import Prelude Net Packet Config Channel Metrics Routing Codec Udp AddrText Events Orch Scrape Testing.
#[local] Open Scope Z_scope.

(** ** Retrying *)

Definition io_error (kind : ErrorKind) : IoError := {| err_kind := kind; raw_os_error := None |}.

(** The attempts used: those up to the first that is not transient. *)
Fixpoint attempts_used {A} (attempts : list (result A IoError)) : nat :=
  match attempts with
  | Err e :: attempts => if decide (err_kind e = Interrupted \/ err_kind e = WouldBlock) then S (attempts_used attempts) else 1
  | Ok _ :: _ => 1
  | [] => 0
  end.

Definition retries_on_interrupted_errors : bool :=
  let attempts := [Err (io_error Interrupted); Ok 5] in
  expect (retry_on_transient attempts false) (fun '(r, _) =>
  unwrap r (fun result => assert_eq result 5) && assert_eq (attempts_used attempts) 2%nat).

Definition retries_on_would_block_errors : bool :=
  let attempts := [Err (io_error WouldBlock); Err (io_error WouldBlock); Ok 42] in
  expect (retry_on_transient attempts false) (fun '(r, _) =>
  unwrap r (fun result => assert_eq result 42) && assert_eq (attempts_used attempts) 3%nat).

Definition make_ipv4_packet_has_correct_structure : bool :=
  let packet := make_ipv4_packet (ip "192.0.2.1") in
  assert_eq (length packet) 20%nat && assert_eq (packet !! 0%nat) (Some 69) && assert_eq (drop 16 packet) [192; 0; 2; 1].

Definition make_ipv6_packet_has_correct_structure : bool :=
  let packet := make_ipv6_packet (ip "2001:db8::1") in
  assert_eq (length packet) 40%nat && assert_eq ((fun b => Z.shiftr b 4) <$> packet !! 0%nat) (Some 6) &&
  assert_eq (drop 24 packet) [32; 1; 13; 184; 0; 0; 0; 0; 0; 0; 0; 0; 0; 0; 0; 1].

(** The callback runs exactly when an attempt would have blocked. *)
Definition would_block_callback_invoked_with_duration : bool :=
  expect (retry_on_transient [Err (io_error WouldBlock); Err (io_error WouldBlock); Ok 42] false) (fun '(r, called) =>
  unwrap r (fun result => assert_eq result 42) && called).

Definition would_block_callback_not_invoked_on_success : bool :=
  expect (retry_on_transient [Ok 99] false) (fun '(r, called) => unwrap r (fun result => assert_eq result 99) && negb called).

(** ** Backpressure *)

(** What the callback of these tests has seen: [Fast], [Full] and the wait. *)
Definition saw (e : SendEvent) (s : bool * bool * Z) : bool * bool * Z :=
  let '(saw_fast, saw_full, waited) := s in
  match e with Fast => (true, saw_full, waited) | FullEvent => (saw_fast, true, waited) | Waited d => (saw_fast, saw_full, d) end.

Definition send_with_backpressure_fast_path : bool :=
  let '(r, (saw_fast, saw_full, waited), w) :=
    send_with_backpressure (M := @ListChannels.lib Z) ListChannels.empty 1%nat 7 saw (false, false, 0) in
  is_ok r && assert_eq (recv_first 1%nat w) (Some 7) && saw_fast && negb saw_full && assert_eq waited 0.

Definition send_with_backpressure_waited_path : bool :=
  let '(r, (saw_fast, saw_full, waited), _) :=
    send_with_backpressure (M := @ListChannels.lib Z) (with_busy [1%nat]) 1%nat 2 saw (false, false, 0) in
  is_ok r && negb saw_fast && saw_full && bool_decide (0 < waited).

Definition send_with_backpressure_closed_path : bool :=
  let '(r, (saw_fast, saw_full, waited), _) :=
    send_with_backpressure (M := @ListChannels.lib Z) (with_closed [1%nat]) 1%nat 9 saw (false, false, 0) in
  unwrap_err r (fun '(MkSendError v) => assert_eq v 9) && negb saw_fast && negb saw_full && assert_eq waited 0.

Lemma helpers_tests :
  passed [retries_on_interrupted_errors; retries_on_would_block_errors; make_ipv4_packet_has_correct_structure;
    make_ipv6_packet_has_correct_structure; would_block_callback_invoked_with_duration; would_block_callback_not_invoked_on_success;
    send_with_backpressure_fast_path; send_with_backpressure_waited_path; send_with_backpressure_closed_path] = true.
Proof. vm_compute. reflexivity. Qed.

(** ** Counters *)

Definition pkt_eq (c : PktCounters) (b p n : Z) : bool :=
  assert_eq (batches c) b && assert_eq (packets c) p && assert_eq (bytes c) n.

Definition pkt_counters_record_batch : bool := pkt_eq (record pkt_default 3 150) 1 3 150.

Definition pkt_counters_record_single : bool := pkt_eq (record pkt_default 1 64) 1 1 64.

Definition pkt_counters_saturates : bool :=
  let c := {| batches := u64_max - 1; packets := u64_max - 1; bytes := u64_max - 1 |} in
  pkt_eq (record c 5 100) u64_max u64_max u64_max.

Definition pkt_counters_multiple_batches : bool := pkt_eq (record (record (record pkt_default 10 1000) 5 500) 1 100) 3 16 1600.

Definition congestion_stats_record_queue_full : bool :=
  let c := congestion_record_queue_full (congestion_record_queue_full congestion_default (from_millis 5)) (from_millis 10) in
  assert_eq (queue_full_count c) 2 && assert_eq (queue_full_duration c) (from_millis 15) && assert_eq (would_block_count c) 0.

Definition congestion_stats_record_would_block : bool :=
  let c := congestion_record_would_block congestion_default 100000 in
  assert_eq (would_block_count c) 1 && assert_eq (would_block_duration c) 100000 && assert_eq (queue_full_count c) 0.

Definition congestion_stats_saturates : bool :=
  let c := {| queue_full_count := u64_max - 1; queue_full_duration := duration_max;
              would_block_count := u64_max - 1; would_block_duration := duration_max |} in
  let c := congestion_record_queue_full c (from_secs 1) in
  assert_eq (queue_full_count c) u64_max && assert_eq (queue_full_duration c) duration_max &&
  let c := congestion_record_would_block c (from_secs 1) in
  assert_eq (would_block_count c) u64_max && assert_eq (would_block_duration c) duration_max.

Definition labels (s : Source) (d : Direction) (peer : option string) (remote : option SocketAddr) : Labels :=
  {| lab_source := s; lab_direction := d; lab_peer_id := lit <$> peer; lab_remote_addr := remote |}.

(** The zero-drops path: one line, and no drop reasons. *)
Definition log_transport_metrics_zero_stats : bool :=
  assert_eq (length (log_transport_metrics {| m_labels := labels Tun Rx None None; m_stats := stats_default |})) 1%nat.

Definition log_transport_metrics_with_drops : bool :=
  let st := {| succeeded := record pkt_default 10 5000; dropped := record pkt_default 2 300;
               drop_reasons := fun r => if decide (r = DisallowedSource) then record pkt_default 2 300 else pkt_default;
               congestion := congestion_default |} in
  assert_eq (length (log_transport_metrics {| m_labels := labels BareUdp Tx (Some "peer1"%string) None; m_stats := st |})) 2%nat.

Definition send_and_record_success : bool :=
  let '(ok, counters, w) := send_and_record (M := @ListChannels.lib Z) (counters_new Tun Tx) ListChannels.empty 1%nat 42 1 100 in
  let snap := m_stats (snapshot counters None None) in
  ok && assert_eq (recv_first 1%nat w) (Some 42) && assert_eq (packets (succeeded snap)) 1 &&
  assert_eq (bytes (succeeded snap)) 100 && assert_eq (packets (dropped snap)) 0.

Definition send_and_record_channel_closed : bool :=
  let '(ok, counters, _) := send_and_record (M := @ListChannels.lib Z) (counters_new Tun Tx) (with_closed [1%nat]) 1%nat 42 3 300 in
  let snap := m_stats (snapshot counters None None) in
  negb ok && assert_eq (packets (succeeded snap)) 0 && assert_eq (packets (dropped snap)) 3 && assert_eq (bytes (dropped snap)) 300 &&
  let c := drop_reasons snap ChannelClosed in assert_eq (packets c, bytes c) (3, 300).

Definition send_and_record_queue_full_records_congestion : bool :=
  let '(ok, counters, _) := send_and_record (M := @ListChannels.lib Z) (counters_new Tun Tx) (with_busy [1%nat]) 1%nat 2 1 64 in
  let snap := m_stats (snapshot counters None None) in
  ok && assert_eq (packets (succeeded snap)) 1 && bool_decide (0 < queue_full_count (congestion snap)) &&
  bool_decide (0 < queue_full_duration (congestion snap)).

(** ** The text *)

Definition quoted (s : rstr) : rstr := 34 :: s ++ [34].

Definition float_int (x : spec_float) : Z :=
  match x with S754_finite _ m e => Z.shiftl (Z.pos m) e | _ => 0 end.

(** The lines of the calls; [name] is the family of the samples. *)
Fixpoint openmetrics_lines (name : rstr) (calls : list EncCall) : rstr :=
  match calls with
  | [] => []
  | EncDescriptor name help :: calls =>
      lit "# HELP " ++ name ++ lit " " ++ help ++ [10] ++ lit "# TYPE " ++ name ++ lit " counter" ++ [10] ++ openmetrics_lines name calls
  | EncLabels ls :: calls =>
      name ++ lit "_total{" ++ foldr (fun '(k, v) s => k ++ lit "=" ++ quoted v ++ (if decide (s = []) then [] else lit "," ++ s)) [] ls ++
      lit "}" ++ openmetrics_lines name calls
  | EncValue v :: calls =>
      lit " " ++ dec (match v with CountU64 n => n | CountF64 x => float_int x end) ++ [10] ++ openmetrics_lines name calls
  end.

Definition openmetrics (calls : list EncCall) : rstr := openmetrics_lines [] calls ++ OPENMETRICS_EOF.

(** [text.contains(s)], [text.ends_with(s)] and [text.matches(s).count()]. *)
Definition starts_with (p s : rstr) : bool := negb (is_none (strip_prefix p s)).

Fixpoint matches_count (p s : rstr) : nat :=
  match s with
  | [] => if starts_with p [] then 1 else 0
  | _ :: s' => (if starts_with p s then 1 else 0) + matches_count p s'
  end.

Definition contains (s : rstr) (p : rstr) : bool := bool_decide (0 < matches_count p s)%nat.
Definition ends_with (s p : rstr) : bool := negb (is_none (strip_suffix p s)).

(** The text of a snapshot of one metric or none; QUIC has no metrics in the tests. *)
Definition encode (ms : list Metrics) (k : rstr -> bool) : bool :=
  runs (encode_metrics_snapshot (fun _ _ => Ok tt) openmetrics (Ok []) ms) k.

Definition counts (p n : Z) : PktCounters := {| batches := 0; packets := p; bytes := n |}.

Definition stats_of (ok drop : PktCounters) (reasons : DropReason -> PktCounters) : Stats :=
  {| succeeded := ok; dropped := drop; drop_reasons := reasons; congestion := congestion_default |}.

Definition encode_empty_snapshot : bool := encode [] (fun text => contains text (lit "# EOF")).

Definition encode_snapshot_includes_succeeded_and_dropped : bool :=
  encode [{| m_labels := labels Tun Rx None None; m_stats := stats_of (counts 100 50000) (counts 2 128) (fun _ => pkt_default) |}] (fun text =>
  contains text (lit "h3llo_transport_packets_total") && contains text (lit "100") && contains text (lit "h3llo_transport_bytes_total") &&
  contains text (lit "50000") && contains text (lit "h3llo_transport_batches_total")).

Definition encode_snapshot_includes_drop_reasons : bool :=
  let drop_reasons r := if decide (r = Oversize) then counts 3 4500 else pkt_default in
  encode [{| m_labels := labels BareUdp Tx (Some "peer-1"%string) None; m_stats := stats_of (counts 50 25000) (counts 3 4500) drop_reasons |}] (fun text =>
  contains text (lit "h3llo_transport_drops_total") && contains text (lit "reason=" ++ quoted (lit "oversize")) &&
  contains text (lit "h3llo_transport_drop_bytes_total")).

Definition encode_snapshot_is_openmetrics_format : bool :=
  encode [{| m_labels := labels Tun Rx None None; m_stats := stats_default |}] (fun text =>
  ends_with text (lit "# EOF" ++ [10]) && contains text (lit "_total{")).

Definition encode_snapshot_includes_remote_addr_label : bool :=
  encode [{| m_labels := labels BareUdp Tx (Some "peer-x"%string) (Some (sock "1.2.3.4" 5353));
             m_stats := stats_of (counts 10 1000) pkt_default (fun _ => pkt_default) |}] (fun text =>
  contains text (lit "remote_addr=" ++ quoted (lit "1.2.3.4:5353")) && contains text (lit "peer_id=" ++ quoted (lit "peer-x"))).

Definition encode_snapshot_ends_with_eof : bool := encode [] (fun text => ends_with text (lit "# EOF" ++ [10])).

Definition encode_snapshot_has_single_eof : bool := encode [] (fun text => assert_eq (matches_count (lit "# EOF") text) 1%nat).

Definition encode_snapshot_with_congestion_metrics : bool :=
  let congestion := congestion_record_would_block (congestion_record_queue_full congestion_default (from_millis 5)) 200000 in
  let st := {| succeeded := pkt_default; dropped := pkt_default; drop_reasons := fun _ => pkt_default; congestion := congestion |} in
  encode [{| m_labels := labels Tun Rx None None; m_stats := st |}] (fun text =>
  contains text (lit "h3llo_transport_congestion_total") && contains text (lit "event=" ++ quoted (lit "queue_full")) &&
  contains text (lit "event=" ++ quoted (lit "would_block")) &&
  contains text (lit "h3llo_transport_congestion_wait_milliseconds_total")).

Lemma metrics_tests :
  passed [pkt_counters_record_batch; pkt_counters_record_single; pkt_counters_saturates; pkt_counters_multiple_batches;
    congestion_stats_record_queue_full; congestion_stats_record_would_block; congestion_stats_saturates;
    log_transport_metrics_zero_stats; log_transport_metrics_with_drops; send_and_record_success; send_and_record_channel_closed;
    send_and_record_queue_full_records_congestion; encode_empty_snapshot; encode_snapshot_includes_succeeded_and_dropped;
    encode_snapshot_includes_drop_reasons; encode_snapshot_is_openmetrics_format; encode_snapshot_includes_remote_addr_label;
    encode_snapshot_ends_with_eof; encode_snapshot_has_single_eof; encode_snapshot_with_congestion_metrics] = true.
Proof. vm_compute. reflexivity. Qed.
