(* ===== verification/SessionTests.v ===== *)
(** * Tests of authentication, framing and sessions

    The tests of [src/src/auth.rs] and [src/src/h3session.rs].  The session tests run two
    quiche connections against each other; here the session gets the events quiche
    reports in them. *)

From S2P Require Import Prelude Net Packet Config Channel Metrics Routing AddrText Utf8 Codec Auth Session Testing.
#[local] Open Scope Z_scope.

#[export] Instance AuthError_eq_dec : EqDecision AuthError.
Proof. solve_decision. Defined.

#[export] Instance result_eq_dec {A E} `{EqDecision A, EqDecision E} : EqDecision (result A E).
Proof. solve_decision. Defined.

(** ** Authentication *)

Definition auth (header : option rstr) (tokens : list (string * string)) : result rstr AuthError :=
  validate_connect_auth (H := PlainMac.lib) tt header ((fun '(id, token) => (lit id, lit token)) <$> tokens).

Definition bearer (token : string) : option rstr := Some (bearer_auth_header (lit token)).

Definition bearer_auth_header_format : bool := assert_eq (bearer_auth_header (lit "my-secret-token")) (lit "Bearer my-secret-token").

Definition validate_connect_auth_success : bool :=
  assert_eq (auth (bearer "token-for-peer1") [("peer1", "token-for-peer1"); ("peer2", "token-for-peer2")]%string) (Ok (lit "peer1")).

Definition validate_connect_auth_wrong_token : bool :=
  assert_eq (auth (bearer "wrong-token") [("peer1", "correct-token")]%string) (Err InvalidToken).

Definition validate_connect_auth_missing_header : bool :=
  assert_eq (auth None [("peer1", "token1")]%string) (Err MissingHeader).

Definition validate_connect_auth_rejects_basic_auth : bool :=
  assert_eq (auth (Some (lit "Basic dXNlcjpwYXNz")) [("p", "s")]%string) (Err NotBearer).

Definition validate_connect_auth_accepts_second_peer : bool :=
  assert_eq (auth (bearer "token-b") [("peer-a", "token-a"); ("peer-b", "token-b")]%string) (Ok (lit "peer-b")).

Definition validate_connect_auth_empty_token : bool :=
  assert_eq (auth (Some (lit "Bearer ")) [("peer", "token")]%string) (Err EmptyToken).

Definition validate_connect_auth_different_length_tokens : bool :=
  assert_eq (auth (bearer "short") [("peer1", "a-much-longer-token-here")]%string) (Err InvalidToken).

Definition validate_connect_auth_same_length_wrong_token : bool :=
  assert_eq (auth (bearer "aaaa-bbbb-cccc") [("peer1", "xxxx-yyyy-zzzz")]%string) (Err InvalidToken).

Definition validate_connect_auth_rejects_prefix_of_valid_token : bool :=
  assert_eq (auth (bearer "token-for") [("peer1", "token-for-peer1")]%string) (Err InvalidToken).

Lemma auth_tests :
  passed [bearer_auth_header_format; validate_connect_auth_success; validate_connect_auth_wrong_token;
    validate_connect_auth_missing_header; validate_connect_auth_rejects_basic_auth; validate_connect_auth_accepts_second_peer;
    validate_connect_auth_empty_token; validate_connect_auth_different_length_tokens;
    validate_connect_auth_same_length_wrong_token; validate_connect_auth_rejects_prefix_of_valid_token] = true.
Proof. vm_compute. reflexivity. Qed.

(** ** Framing *)

#[local] Existing Instances Rfc9000.lib HeadBuf.lib.

(** [alloc_packet_buf] and [ConnectIpDatagramCodec::new]. *)
Definition alloc (data : list Z) (k : PooledBuf -> bool) : bool := runs (alloc_packet_buf (B := HeadBuf.lib) max_datagram_size data) k.
Definition codec_for (sid : Z) (k : ConnectIpDatagramCodec -> bool) : bool := runs (codec_new (L := Rfc9000.lib) sid) k.

Definition datagram_framing_encode_decode : bool :=
  let ip_payload := lit "test ip packet" in
  runs (encode_qsi (L := Rfc9000.lib) 0) (fun '(qsi_buf, qsi_len) =>
  alloc ip_payload (fun buf =>
  let '(ok1, buf) := add_prefix buf [CONTEXT_ID_IP] in
  let '(ok2, buf) := add_prefix buf (take qsi_len qsi_buf) in
  ok1 && ok2 &&
  let data := buf_bytes buf in
  expect (decode_qsi (L := Rfc9000.lib) data) (fun '(qsi, qsi_len) =>
  assert_eq qsi 0 && assert_eq (data !! qsi_len) (Some CONTEXT_ID_IP) && assert_eq (drop (qsi_len + 1) data) ip_payload))).

Definition constants_match_protocol : bool := assert_eq CONTEXT_ID_IP 0 && assert_eq CONNECT_IP_OVERHEAD 59.

Definition encode_qsi_roundtrip : bool :=
  runs (encode_qsi (L := Rfc9000.lib) 0) (fun r => assert_eq r ([0; 0; 0; 0; 0; 0; 0; 0], 1%nat)) &&
  runs (encode_qsi (L := Rfc9000.lib) 1) (fun r => assert_eq r ([1; 0; 0; 0; 0; 0; 0; 0], 1%nat)) &&
  runs (encode_qsi (L := Rfc9000.lib) 63) (fun r => assert_eq r.2 1%nat) &&
  runs (encode_qsi (L := Rfc9000.lib) 64) (fun '(buf, len) =>
    assert_eq len 2%nat && assert_eq (get_varint (VarintLib := Rfc9000.lib) (take len buf)) (Some 64)).

Definition decode_qsi_roundtrip : bool :=
  let decode := decode_qsi (L := Rfc9000.lib) in
  assert_eq (decode [0]) (Some (0, 1%nat)) && assert_eq (decode [1]) (Some (1, 1%nat)) && assert_eq (decode [63]) (Some (63, 1%nat)) &&
  runs (encode_qsi (L := Rfc9000.lib) 64) (fun '(buf, len) => assert_eq (decode (take len buf)) (Some (64, 2%nat))) &&
  assert_eq (decode []) None && assert_eq (decode [64]) None.

Definition codec_new_qsi_and_prefix_len : bool :=
  forallb (fun '(stream_id, expect_qsi, expect_prefix) =>
    codec_for stream_id (fun codec =>
    assert_eq (expected_qsi codec) expect_qsi &&
    runs (encode_qsi (L := Rfc9000.lib) expect_qsi) (fun '(expect_buf, expect_len) =>
      runs (qsi_bytes codec) (fun bytes => assert_eq bytes (take expect_len expect_buf))) &&
    assert_eq (qsi_len codec + 1)%nat expect_prefix))
    [(0, 0, 2%nat); (4, 1, 2%nat); (256, 64, 3%nat); (1024, 256, 3%nat)].

Definition codec_prepend_adds_qsi_then_context_id : bool :=
  codec_for 0 (fun codec => alloc (lit "payload") (fun buf =>
  runs (prepend codec buf) (fun '(ok, buf) =>
  ok && assert_eq (buf_bytes buf !! 0%nat) (Some 0) && assert_eq (buf_bytes buf !! 1%nat) (Some CONTEXT_ID_IP) &&
  assert_eq (drop 2 (buf_bytes buf)) (lit "payload")))).

(** [codec.strip] on a datagram for stream 0. *)
Definition strip_of (datagram : list Z) (k : bool -> list Z -> bool) : bool :=
  codec_for 0 (fun codec => alloc datagram (fun buf => runs (strip codec buf) (fun '(ok, buf) => k ok (buf_bytes buf)))).

Definition codec_strip_happy_path : bool :=
  strip_of ([0; CONTEXT_ID_IP] ++ lit "ip packet") (fun ok bytes => ok && assert_eq bytes (lit "ip packet")).

Definition codec_strip_rejects_wrong_qsi : bool := strip_of [1; CONTEXT_ID_IP; 255] (fun ok _ => negb ok).

Definition codec_strip_rejects_non_canonical_qsi : bool := strip_of [64; 0; CONTEXT_ID_IP; 255] (fun ok _ => negb ok).

Definition codec_strip_rejects_wrong_context_id : bool := strip_of [0; 1; 255] (fun ok _ => negb ok).

Definition codec_strip_rejects_empty_payload : bool := strip_of [0; CONTEXT_ID_IP] (fun ok _ => negb ok).

Definition codec_strip_rejects_too_short : bool := strip_of [0] (fun ok _ => negb ok).

Definition codec_strip_rejects_empty_buffer : bool := strip_of [] (fun ok _ => negb ok).

Definition codec_roundtrip_prepend_strip : bool :=
  forallb (fun stream_id =>
    let payload := lit "roundtrip test payload" in
    codec_for stream_id (fun codec => alloc payload (fun buf =>
    runs (prepend codec buf) (fun '(ok, buf) => ok &&
    alloc (buf_bytes buf) (fun recv_buf =>
    runs (strip codec recv_buf) (fun '(ok, recv_buf) => ok && assert_eq (buf_bytes recv_buf) payload))))))
    [0; 4; 252; 256; 1024].

(** ** Sessions *)

(** A session in which stream 0 was accepted, as after [establish_connect_ip]. *)
Definition established (k : H3Session -> bool) : bool :=
  runs (with_transport (L := Rfc9000.lib)) (fun s =>
  runs (poll_h3_events (L := Rfc9000.lib) (fun sid _ => (Ok (Accept sid (Some (lit "test-peer"))), []))
    [Headers 0 [(lit ":method", lit "CONNECT"); (lit ":protocol", lit "connect-ip"); (lit "capsule-protocol", lit "?1")]] (PollDone true) s [])
    (fun '(r, s, _) => is_ok r && connect_accepted s && k s)).

Definition poll_h3_events_rejects_extra_stream_post_establishment : bool :=
  established (fun s =>
  negb (assert_eq (Some 4) (connect_stream_id s)) &&
  runs (poll_h3_events (L := Rfc9000.lib) ignore_handler [Headers 4 [(lit ":method", lit "GET")]; Finished 4] (PollDone true) s [])
    (fun '(r, _, _) => match r with Ok Ready => true | _ => false end)).

Definition poll_h3_events_finished_on_unbound_stream_0_ignored : bool :=
  runs (with_transport (L := Rfc9000.lib)) (fun s =>
  negb (connect_accepted s) && is_none (connect_stream_id s) &&
  runs (poll_h3_events (L := Rfc9000.lib) (fun sid _ => (Ok Ignore, [SendResponse sid [status_header "400"] true]))
    [Headers 0 [(lit ":method", lit "GET"); (lit ":path", lit "/probe")]; Finished 0] (PollDone true) s [])
    (fun '(r, _, _) => match r with Ok Pending => true | _ => false end)).

Definition poll_h3_events_reset_on_bound_stream_before_accept_detected : bool :=
  runs (with_transport (L := Rfc9000.lib)) (fun s =>
  runs (bind_connect_stream (L := Rfc9000.lib) s 0) (fun s =>
  negb (connect_accepted s) && assert_eq (connect_stream_id s) (Some 0) &&
  runs (poll_h3_events (L := Rfc9000.lib) ignore_handler [ResetStream 0 256] (PollDone true) s [])
    (fun '(r, _, _) => match r with Err (ClosedStream _) => true | _ => false end))).

Definition connect_failure_into_actor_reason : bool :=
  let reason := into_actor_reason (Rejected (lit "403")) in
  assert_eq reason (lit "CONNECT-IP rejected after establish: 403") &&
  assert_eq (into_actor_reason (ClosedStream (lit "fin"))) (lit "fin") &&
  assert_eq (into_actor_reason (Poll (lit "poll err"))) (lit "poll err").

Lemma session_tests :
  passed [datagram_framing_encode_decode; constants_match_protocol; encode_qsi_roundtrip; decode_qsi_roundtrip;
    codec_new_qsi_and_prefix_len; codec_prepend_adds_qsi_then_context_id; codec_strip_happy_path; codec_strip_rejects_wrong_qsi;
    codec_strip_rejects_non_canonical_qsi; codec_strip_rejects_wrong_context_id; codec_strip_rejects_empty_payload;
    codec_strip_rejects_too_short; codec_strip_rejects_empty_buffer; codec_roundtrip_prepend_strip;
    poll_h3_events_rejects_extra_stream_post_establishment; poll_h3_events_finished_on_unbound_stream_0_ignored;
    poll_h3_events_reset_on_bound_stream_before_accept_detected; connect_failure_into_actor_reason] = true.
Proof. vm_compute. reflexivity. Qed.
