(* ===== verification/RouteTests.v ===== *)
(** * Tests of route synchronization

    The tests of [src/src/route.rs], on its [FakeHandle]; what they look for in the log
    are the values of [RouteWarning].  Left out is the test of [spawn_route] on a running
    bus. *)

From S2P Require Import Prelude Net Packet Config Channel Metrics Routing AddrText Route Testing.
#[local] Open Scope Z_scope.

(** ** The fake host *)

#[local] Existing Instances CidrNet.lib ListRoutes.lib.

Abbreviation host_route := (IpAddr * Z * option Z)%type.

Record FakeHandle : Type := {
  fk_routes : list host_route;
  fk_ops : list rstr;
  fail_add : bool;
  fail_delete : bool;
}.

Definition fake_new (routes : list host_route) : FakeHandle :=
  {| fk_routes := routes; fk_ops := []; fail_add := false; fail_delete := false |}.

Definition fake_with_failures (routes : list host_route) (fail_add fail_delete : bool) : FakeHandle :=
  {| fk_routes := routes; fk_ops := []; fail_add := fail_add; fail_delete := fail_delete |}.

Definition fmt_route (r : host_route) : rstr :=
  match r.1.1 with V4 a => display_v4 a | V6 a => display_v6 a end ++ lit "/" ++ dec r.1.2.

Definition log_op (op : string) (r : host_route) (routes : list host_route) (h : FakeHandle) : FakeHandle :=
  {| fk_routes := routes; fk_ops := fk_ops h ++ [(lit op ++ fmt_route r : rstr)]; fail_add := fail_add h; fail_delete := fail_delete h |}.

(** [FakeHandle::add] and [FakeHandle::delete], which removes the first such route. *)
Definition fake_add (h : FakeHandle) (r : host_route) : result unit rstr * FakeHandle :=
  if fail_add h then (Err (lit "add failed"), log_op "add " r (fk_routes h) h)
  else (Ok tt, log_op "add " r (fk_routes h ++ [r]) h).

Fixpoint remove_first (r : host_route) (rs : list host_route) : list host_route :=
  match rs with
  | [] => []
  | r' :: rs => if decide (r' = r) then rs else r' :: remove_first r rs
  end.

Definition fake_delete (h : FakeHandle) (r : host_route) : result unit rstr * FakeHandle :=
  if fail_delete h then (Err (lit "delete failed"), log_op "del " r (fk_routes h) h)
  else (Ok tt, log_op "del " r (remove_first r (fk_routes h)) h).

#[local] Instance fake_handle : RouteHandle ListRoutes.lib := {|
  handle := FakeHandle;
  rt_table := fk_routes;
  rt_list h := (Ok (fk_routes h), h);
  rt_add := fake_add;
  rt_delete := fake_delete;
|}.

Definition route (prefix : string) (ifindex : option Z) : host_route :=
  (ipnet_addr (net prefix), prefix_len (net prefix), ifindex).

#[local] Instance RouteWarning_eq_dec : EqDecision (@RouteWarning CidrNet.lib).
Proof. solve_decision. Defined.

(** [sync_test]: the host after a synchronization that succeeds, and its warnings. *)
Definition sync_test (idx : Z) (h : FakeHandle) (tun_addrs allowed : list string)
    (k : FakeHandle -> list (@RouteWarning CidrNet.lib) -> bool) : bool :=
  let resolve _ := Ok idx in
  let '(r, h') := sync_tun_routes (H := fake_handle) resolve (lit "tun0") (net <$> tun_addrs) (net <$> allowed) h in
  is_ok r && k h' (sync_warnings (H := fake_handle) resolve (lit "tun0") (net <$> tun_addrs) (net <$> allowed) h).

Definition logs (warnings : list (@RouteWarning CidrNet.lib)) (w : @RouteWarning CidrNet.lib) : bool := bool_decide (w ∈ warnings).

(** ** Synchronization *)

Definition adds_missing_routes_and_skips_existing : bool :=
  sync_test 7 (fake_new [route "10.0.0.0/24" (Some 7)]) [] ["10.0.0.0/24"; "10.0.1.0/24"] (fun h warnings =>
  assert_eq (fk_ops h) (lit <$> ["add 10.0.1.0/24"]) &&
  assert_eq warnings []).

Definition deletes_stale_tun_routes : bool :=
  sync_test 9 (fake_new [route "10.5.0.0/16" (Some 9)]) [] [] (fun h warnings =>
  assert_eq (fk_ops h) (lit <$> ["del 10.5.0.0/16"]) &&
  assert_eq (fk_routes h) [] && assert_eq warnings []).

Definition warns_on_conflict_and_installs_route : bool :=
  sync_test 3 (fake_new [route "192.168.0.0/24" (Some 2)]) [] ["192.168.0.0/24"] (fun h warnings =>
  assert_eq (fk_ops h) (lit <$> ["add 192.168.0.0/24"]) &&
  logs warnings (RouteConflict (net "192.168.0.0/24") (Some 2))).

Definition warns_on_missing_ifindex_and_installs_route : bool :=
  sync_test 10 (fake_new [route "10.0.0.0/24" None]) [] ["10.0.0.0/24"] (fun h warnings =>
  assert_eq (fk_ops h) (lit <$> ["add 10.0.0.0/24"]) &&
  logs warnings (RouteConflict (net "10.0.0.0/24") None)).

Definition splits_default_route_once : bool :=
  sync_test 5 (fake_new []) [] ["0.0.0.0/0"] (fun h warnings =>
  assert_eq (length (fk_ops h)) 2%nat && bool_decide (lit "add 0.0.0.0/1" ∈ fk_ops h) && bool_decide (lit "add 128.0.0.0/1" ∈ fk_ops h) &&
  logs warnings (DefaultSplit (net "0.0.0.0/0"))).

Definition skips_existing_default_halves : bool :=
  sync_test 5 (fake_new [route "0.0.0.0/1" (Some 5); route "128.0.0.0/1" (Some 5)]) [] ["0.0.0.0/0"] (fun h warnings =>
  assert_eq (fk_ops h) (lit <$> []) &&
  logs warnings (DefaultSplit (net "0.0.0.0/0"))).

Definition warns_when_default_halves_conflict : bool :=
  sync_test 8 (fake_new [route "0.0.0.0/1" (Some 2); route "128.0.0.0/1" (Some 7)]) [] ["0.0.0.0/0"] (fun h warnings =>
  assert_eq (length (fk_ops h)) 2%nat && bool_decide (lit "add 0.0.0.0/1" ∈ fk_ops h) && bool_decide (lit "add 128.0.0.0/1" ∈ fk_ops h) &&
  logs warnings (DefaultSplit (net "0.0.0.0/0")) && logs warnings (RouteConflict (net "0.0.0.0/1") (Some 2)) &&
  logs warnings (RouteConflict (net "128.0.0.0/1") (Some 7))).

Definition warns_when_conflict_cannot_be_split : bool :=
  sync_test 4 (fake_new [route "10.0.0.1/32" (Some 2)]) [] ["10.0.0.1/32"] (fun h warnings =>
  assert_eq (fk_ops h) (lit <$> ["add 10.0.0.1/32"]) &&
  logs warnings (RouteConflict (net "10.0.0.1/32") (Some 2))).

Definition warns_on_ipv6_conflicts : bool :=
  sync_test 12 (fake_new [route "2001:db8::/64" (Some 6)]) [] ["2001:db8::/64"] (fun h warnings =>
  assert_eq (fk_ops h) (lit <$> ["add 2001:db8::/64"]) &&
  logs warnings (RouteConflict (net "2001:db8::/64") (Some 6))).

Definition logs_add_and_delete_failures : bool :=
  sync_test 11 (fake_with_failures [route "10.9.0.0/16" (Some 11)] true true) [] ["10.8.0.0/16"] (fun h warnings =>
  assert_eq (fk_ops h) (lit <$> ["del 10.9.0.0/16"; "add 10.8.0.0/16"]) &&
  logs warnings (DeleteFailed (net "10.9.0.0/16") (lit "delete failed")) && logs warnings (AddFailed (net "10.8.0.0/16") (lit "add failed"))).

Definition kernel_connected_route_preserved : bool :=
  sync_test 10 (fake_new [route "192.168.1.0/24" (Some 10)]) ["192.168.1.2/24"] [] (fun h _ =>
  assert_eq (fk_ops h) (lit <$> [])).

Definition kernel_host_route_preserved : bool :=
  sync_test 10 (fake_new [route "192.168.1.2/32" (Some 10)]) ["192.168.1.2/24"] [] (fun h _ =>
  assert_eq (fk_ops h) (lit <$> [])).

Definition tun_addr_routes_not_added : bool :=
  sync_test 10 (fake_new []) ["10.0.0.1/24"] ["192.168.1.0/24"] (fun h _ =>
  assert_eq (fk_ops h) (lit <$> ["add 192.168.1.0/24"])).

Definition tun_prefix_covers_allowed_routes : bool :=
  sync_test 10 (fake_new [route "192.168.1.0/24" (Some 10); route "192.168.1.3/32" (Some 10)]) ["192.168.1.2/24"] ["192.168.1.3/32"] (fun h _ =>
  assert_eq (fk_ops h) (lit <$> ["del 192.168.1.3/32"])).

Definition mixed_tun_and_allowed_routes_preserved : bool :=
  sync_test 10 (fake_new [route "192.168.1.0/24" (Some 10); route "192.168.1.2/32" (Some 10); route "10.0.0.0/8" (Some 10)]) ["192.168.1.2/24"] ["10.0.0.0/8"] (fun h _ =>
  assert_eq (fk_ops h) (lit <$> [])).

Definition kernel_broadcast_routes_preserved : bool :=
  sync_test 10 (fake_new [route "192.168.1.0/32" (Some 10); route "192.168.1.255/32" (Some 10)]) ["192.168.1.2/24"] [] (fun h _ =>
  assert_eq (fk_ops h) (lit <$> [])).

Definition limited_broadcast_preserved : bool :=
  sync_test 10 (fake_new [route "255.255.255.255/32" (Some 10)]) [] [] (fun h _ =>
  assert_eq (fk_ops h) (lit <$> [])).

Definition no_broadcast_for_narrow_prefixes : bool :=
  sync_test 10 (fake_new [route "10.0.0.0/32" (Some 10)]) ["10.0.0.1/31"] [] (fun h _ =>
  assert_eq (fk_ops h) (lit <$> ["del 10.0.0.0/32"])).

Definition ipv6_link_local_connected_preserved : bool :=
  sync_test 10 (fake_new [route "fe80::/64" (Some 10)]) [] [] (fun h _ =>
  assert_eq (fk_ops h) (lit <$> [])).

Definition ipv6_link_local_host_preserved : bool :=
  sync_test 10 (fake_new [route "fe80::ef04:f217:fba2:1858/128" (Some 10)]) [] [] (fun h _ =>
  assert_eq (fk_ops h) (lit <$> [])).

Definition ipv6_multicast_preserved : bool :=
  sync_test 10 (fake_new [route "ff00::/8" (Some 10)]) [] [] (fun h _ =>
  assert_eq (fk_ops h) (lit <$> [])).

Definition ipv6_non_kernel_route_deleted : bool :=
  sync_test 10 (fake_new [route "2001:db8::/32" (Some 10)]) [] [] (fun h _ =>
  assert_eq (fk_ops h) (lit <$> ["del 2001:db8::/32"])).

Definition ipv6_kernel_routes_on_other_if_no_conflict : bool :=
  sync_test 10 (fake_new [route "fe80::/64" (Some 2); route "fe80::1/128" (Some 2); route "ff00::/8" (Some 2); route "ff02::1/128" (Some 3)]) [] [] (fun h warnings =>
  assert_eq (fk_ops h) (lit <$> []) &&
  assert_eq warnings []).

(** ** The actor

    [run_route] is the actor on a fresh host: the failures it logged and what it returned. *)

Definition failing_resolver (name : rstr) : result Z RouteSyncError := Err (InterfaceLookup name (lit "test failure")).

Definition sync_of (allowed : string) : option (@RouteMsg CidrNet.lib) := Some (MsgSyncRoutes [] [net allowed]).

Definition run_route (resolve : rstr -> result Z RouteSyncError) (inbox : list (option (@RouteMsg CidrNet.lib))) :
    list RouteSyncError * option (result unit rstr) :=
  (route_actor (H := fake_handle) resolve (lit "tun0") inbox (fake_new [])).1.

Definition returned_ok (r : option (result unit rstr)) : bool := match r with Some (Ok _) => true | _ => false end.

Definition spawn_route_processes_event_and_stops : bool :=
  let '(failures, ret) := run_route (fun _ => Ok 7) [sync_of "10.0.0.0/24"; Some MsgStop] in
  returned_ok ret && Nat.eqb (length failures) 0.

Definition spawn_route_logs_sync_failure : bool :=
  let '(failures, ret) := run_route failing_resolver [sync_of "10.0.0.0/24"; Some MsgStop] in
  returned_ok ret && Nat.ltb 0 (length failures).

Definition spawn_route_exits_gracefully_on_stop : bool :=
  let '(_, ret) := run_route (fun _ => Ok 7) [Some MsgStop] in returned_ok ret.

Definition spawn_route_processes_multiple_events_sequentially : bool :=
  let '(failures, ret) := run_route (fun _ => Ok 7)
    [sync_of "10.0.0.0/24"; sync_of "10.0.1.0/24"; sync_of "10.0.2.0/24"; Some MsgStop] in
  returned_ok ret && Nat.eqb (length failures) 0.

Lemma route_tests :
  passed [adds_missing_routes_and_skips_existing; deletes_stale_tun_routes; warns_on_conflict_and_installs_route;
    warns_on_missing_ifindex_and_installs_route; splits_default_route_once; skips_existing_default_halves;
    warns_when_default_halves_conflict; warns_when_conflict_cannot_be_split; warns_on_ipv6_conflicts;
    logs_add_and_delete_failures; kernel_connected_route_preserved; kernel_host_route_preserved;
    tun_addr_routes_not_added; tun_prefix_covers_allowed_routes; mixed_tun_and_allowed_routes_preserved;
    kernel_broadcast_routes_preserved; limited_broadcast_preserved; no_broadcast_for_narrow_prefixes;
    ipv6_link_local_connected_preserved; ipv6_link_local_host_preserved; ipv6_multicast_preserved;
    ipv6_non_kernel_route_deleted; ipv6_kernel_routes_on_other_if_no_conflict; spawn_route_processes_event_and_stops;
    spawn_route_logs_sync_failure; spawn_route_exits_gracefully_on_stop; spawn_route_processes_multiple_events_sequentially] = true.
Proof. vm_compute. reflexivity. Qed.
