(* ===== verification/BindTests.v ===== *)
(** * Tests of socket binding

    The tests of [src/src/bind.rs].  The calls of a socket all succeed; its family is that
    of the socket created, its peer the address it was connected to.  The tests that look
    at the ports the kernel hands out are left out. *)

From S2P Require Import Prelude Net Packet Config Channel Metrics Routing AddrText Route Udp Bind Testing.
#[local] Open Scope Z_scope.

#[local] Existing Instances CidrNet.lib.

(** ** Routes with a table and a metric *)

Record BindRoute : Type := {
  br_addr : IpAddr;
  br_prefix : Z;
  br_if : option Z;
  br_table : Z;
  br_metric : option Z;
}.

#[local] Instance bind_routes : RouteLib := {|
  Route := BindRoute;
  r_destination := br_addr;
  r_prefix := br_prefix;
  r_if_index := br_if;
  route_new ip p i := {| br_addr := ip; br_prefix := p; br_if := Some i; br_table := 0; br_metric := None |};
|}.

#[local] Instance bind_info : RouteInfo bind_routes := {| r_table := br_table; r_metric := br_metric |}.

(** The table of a route whose table is not set is the crate's; it matters only whether
    it is the main table, so a test with such routes runs with both. *)
Definition for_any_table (test : Z -> bool) : bool := test 0 && test RT_TABLE_MAIN.

(** ** [FakeRouteProbe] *)

Abbreviation probe_result := (result (list rstr) RouteProbeError).

Record FakeRouteProbe : Type := { probe_answer : probe_result }.

Definition probe_ok (interfaces : list string) : FakeRouteProbe := {| probe_answer := Ok (lit <$> interfaces) |}.
Definition probe_noop : FakeRouteProbe := probe_ok [].
Definition probe_error (err : RouteProbeError) : FakeRouteProbe := {| probe_answer := Err err |}.

Definition fake_probe_interfaces (p : FakeRouteProbe) (target : IpAddr) (tun_if : option rstr) : probe_result :=
  probe_answer p.

(** ** Interface selection *)

Definition filters_interfaces_by_preference : bool :=
  assert_eq (filter_preferred_interfaces (lit <$> ["eth0"; "eth1"; "wlan0"]) (Some (lit <$> [" wlan0"; "eth1"])))
    (lit <$> ["eth1"; "wlan0"]).

Definition returns_empty_when_preferences_provided_but_no_match : bool :=
  assert_eq (filter_preferred_interfaces (lit <$> ["eth0"; "eth1"]) (Some [])) [].

(** The interface a probe leads to, and what is logged. *)
Definition select_test (target : string) (preferred : option string) (p : FakeRouteProbe) : option rstr * list BindWarning :=
  let probed := fake_probe_interfaces p (ip target) None in
  (select_bind_interface probed (lit <$> preferred), select_warnings (ip target) probed (lit <$> preferred)).

Definition select_bind_interface_logs_warning_on_empty_results : bool :=
  match select_test "1.1.1.1" None probe_noop with (None, [NoInterface _]) => true | _ => false end.

Definition select_bind_interface_logs_warning_on_missing_preference : bool :=
  match select_test "8.8.4.4" (Some "wlan0") (probe_ok ["eth0"; "eth1"]) with
  | (iface, [PreferredNotFound preferred; MultipleInterfaces _ _]) =>
      assert_eq iface (Some (lit "eth0")) && assert_eq preferred (lit "wlan0")
  | _ => false
  end.

Definition select_bind_interface_logs_warning_on_ambiguity : bool :=
  match select_test "8.8.8.8" None (probe_ok ["eth0"; "eth1"]) with
  | (iface, [MultipleInterfaces chosen _]) => assert_eq iface (Some (lit "eth0")) && assert_eq chosen (lit "eth0")
  | _ => false
  end.

Definition select_bind_interface_logs_warning_on_probe_error : bool :=
  match select_test "9.9.9.9" None (probe_error (Probe (lit "boom"))) with
  | (None, [ProbeFailed (Probe error)]) => assert_eq error (lit "boom")
  | _ => false
  end.

Definition udp_error_display : bool :=
  assert_eq (display_udp_error (UdpSocketError (lit "connection refused"))) (lit "udp socket setup failed: connection refused").

(** ** The order of the routes *)

Definition matching_routes_prefers_longest_prefix_and_dedupes : bool :=
  for_any_table (fun unset_table =>
  let indexes := matching_route_indexes (RI := bind_info) [{| br_addr := ip "0.0.0.0"; br_prefix := 0; br_if := Some 1; br_table := unset_table; br_metric := None |};
    {| br_addr := ip "10.0.0.0"; br_prefix := 8; br_if := Some 2; br_table := unset_table; br_metric := None |};
    {| br_addr := ip "10.1.0.0"; br_prefix := 16; br_if := Some 3; br_table := unset_table; br_metric := None |};
    {| br_addr := ip "10.1.0.0"; br_prefix := 24; br_if := Some 3; br_table := unset_table; br_metric := None |}] (ip "10.1.2.3") None in
  assert_eq indexes [3; 2; 1]).

Definition matching_routes_filters_tun_index : bool :=
  for_any_table (fun unset_table =>
  let indexes := matching_route_indexes (RI := bind_info) [{| br_addr := ip "0.0.0.0"; br_prefix := 0; br_if := Some 1; br_table := unset_table; br_metric := None |};
    {| br_addr := ip "192.168.0.0"; br_prefix := 24; br_if := Some 2; br_table := unset_table; br_metric := None |}] (ip "192.168.0.10") (Some 2) in
  assert_eq indexes [1]).

Definition matching_routes_prefers_main_table : bool :=
  let indexes := matching_route_indexes (RI := bind_info) [{| br_addr := ip "0.0.0.0"; br_prefix := 0; br_if := Some 10; br_table := 176; br_metric := None |};
    {| br_addr := ip "0.0.0.0"; br_prefix := 0; br_if := Some 20; br_table := 100; br_metric := None |};
    {| br_addr := ip "0.0.0.0"; br_prefix := 0; br_if := Some 30; br_table := 254; br_metric := None |}] (ip "8.8.8.8") None in
  assert_eq indexes [30; 10; 20].

Definition matching_routes_prefers_lower_metric_same_table : bool :=
  let indexes := matching_route_indexes (RI := bind_info) [{| br_addr := ip "0.0.0.0"; br_prefix := 0; br_if := Some 1; br_table := 254; br_metric := Some 200 |};
    {| br_addr := ip "0.0.0.0"; br_prefix := 0; br_if := Some 2; br_table := 254; br_metric := Some 100 |}] (ip "8.8.8.8") None in
  assert_eq indexes [2; 1].

Definition matching_routes_metric_not_compared_cross_table : bool :=
  let indexes := matching_route_indexes (RI := bind_info) [{| br_addr := ip "0.0.0.0"; br_prefix := 0; br_if := Some 1; br_table := 100; br_metric := Some 1 |};
    {| br_addr := ip "0.0.0.0"; br_prefix := 0; br_if := Some 2; br_table := 254; br_metric := Some 9999 |}] (ip "1.1.1.1") None in
  assert_eq indexes [2; 1].

Definition matching_routes_metric_compared_within_non_main : bool :=
  let indexes := matching_route_indexes (RI := bind_info) [{| br_addr := ip "0.0.0.0"; br_prefix := 0; br_if := Some 1; br_table := 100; br_metric := Some 200 |};
    {| br_addr := ip "0.0.0.0"; br_prefix := 0; br_if := Some 2; br_table := 176; br_metric := Some 50 |}] (ip "8.8.8.8") None in
  assert_eq indexes [2; 1].

Definition matching_routes_prefix_beats_table_priority : bool :=
  let indexes := matching_route_indexes (RI := bind_info) [{| br_addr := ip "0.0.0.0"; br_prefix := 0; br_if := Some 1; br_table := 254; br_metric := None |};
    {| br_addr := ip "10.0.0.0"; br_prefix := 24; br_if := Some 2; br_table := 100; br_metric := None |}] (ip "10.0.0.5") None in
  assert_eq indexes [2; 1].

Definition matching_routes_none_metric_beats_some_metric : bool :=
  let indexes := matching_route_indexes (RI := bind_info) [{| br_addr := ip "0.0.0.0"; br_prefix := 0; br_if := Some 1; br_table := 254; br_metric := Some 100 |};
    {| br_addr := ip "0.0.0.0"; br_prefix := 0; br_if := Some 2; br_table := 254; br_metric := None |}] (ip "8.8.8.8") None in
  assert_eq indexes [2; 1].

Definition matching_routes_issue_scenario_three_default_routes : bool :=
  let indexes := matching_route_indexes (RI := bind_info) [{| br_addr := ip "0.0.0.0"; br_prefix := 0; br_if := Some 42; br_table := 252; br_metric := None |};
    {| br_addr := ip "0.0.0.0"; br_prefix := 0; br_if := Some 41; br_table := 176; br_metric := None |};
    {| br_addr := ip "0.0.0.0"; br_prefix := 0; br_if := Some 43; br_table := 254; br_metric := None |}] (ip "8.8.8.8") None in
  assert_eq (indexes !! 0%nat) (Some 43) && assert_eq (length indexes) 3%nat.

Definition matching_routes_truncated_table_id_not_main : bool :=
  let indexes := matching_route_indexes (RI := bind_info) [{| br_addr := ip "0.0.0.0"; br_prefix := 0; br_if := Some 1; br_table := 252; br_metric := None |};
    {| br_addr := ip "0.0.0.0"; br_prefix := 0; br_if := Some 2; br_table := 254; br_metric := None |}] (ip "8.8.8.8") None in
  assert_eq indexes [2; 1].

(** ** Sockets *)

Definition all_succeed (trace : list SockOp) (op : SockOp) : result unit IoError := Ok tt.
Definition no_text (e : IoError) : rstr := [].

(** [local_addr().is_ipv4()] and [peer_addr()] of a socket that made these calls. *)
Definition socket_v4 (trace : list SockOp) : option bool :=
  match trace with NewSocket v4 :: _ => Some v4 | _ => None end.

Definition peer_addr (trace : list SockOp) : option SocketAddr :=
  match last trace with Some (ConnectTo addr) => Some addr | _ => None end.

Definition raw_socket (v4 : bool) (addr : option SocketAddr) : result unit IoError * list SockOp :=
  make_udp_socket_raw (I := ListIfs.names) all_succeed v4 addr None 0.

Definition client_socket (target : SocketAddr) (p : FakeRouteProbe) : result unit UdpError * list SockOp :=
  make_client_udp_socket (I := ListIfs.names) all_succeed no_text target None None (fake_probe_interfaces p) 0.

Definition make_udp_socket_raw_with_none_bind_addr : bool := is_ok (raw_socket true None).1.

Definition make_udp_socket_raw_with_ipv4_domain : bool :=
  let '(r, trace) := raw_socket true (Some (sock "127.0.0.1" 0)) in is_ok r && assert_eq (socket_v4 trace) (Some true).

Definition make_udp_socket_raw_with_ipv6_domain : bool :=
  let '(r, trace) := raw_socket false (Some (sock "::" 0)) in implb (is_ok r) (assert_eq (socket_v4 trace) (Some false)).

Definition make_server_udp_socket_ipv6 : bool :=
  let '(r, trace) := make_server_udp_socket (I := ListIfs.names) all_succeed no_text (sock "::" 0) 0 in
  implb (is_ok r) (assert_eq (socket_v4 trace) (Some false)).

Definition make_client_udp_socket_skips_probe_for_localhost : bool :=
  let '(r, trace) := client_socket (sock "127.0.0.1" 12345) (probe_error (Probe (lit "should not be called"))) in
  is_ok r && expect (peer_addr trace) (fun peer => assert_eq (sa_port peer) 12345).

Definition make_client_udp_socket_creates_connected_socket : bool :=
  let '(r, trace) := client_socket (sock "127.0.0.1" 54321) probe_noop in
  is_ok r && assert_eq (peer_addr trace) (Some (sock "127.0.0.1" 54321)).

Definition make_client_udp_socket_ipv4_creates_ipv4_socket : bool :=
  let '(r, trace) := client_socket (sock "127.0.0.1" 53) probe_noop in is_ok r && assert_eq (socket_v4 trace) (Some true).

Definition make_client_udp_socket_ipv6_creates_ipv6_socket : bool :=
  let '(r, trace) := client_socket (sock "::1" 53) probe_noop in implb (is_ok r) (assert_eq (socket_v4 trace) (Some false)).

Lemma bind_tests :
  passed [filters_interfaces_by_preference; returns_empty_when_preferences_provided_but_no_match;
    select_bind_interface_logs_warning_on_empty_results; select_bind_interface_logs_warning_on_missing_preference;
    select_bind_interface_logs_warning_on_ambiguity; select_bind_interface_logs_warning_on_probe_error;
    udp_error_display; matching_routes_prefers_longest_prefix_and_dedupes;
    matching_routes_filters_tun_index; matching_routes_prefers_main_table;
    matching_routes_prefers_lower_metric_same_table; matching_routes_metric_not_compared_cross_table;
    matching_routes_metric_compared_within_non_main; matching_routes_prefix_beats_table_priority;
    matching_routes_none_metric_beats_some_metric; matching_routes_issue_scenario_three_default_routes;
    matching_routes_truncated_table_id_not_main; make_udp_socket_raw_with_none_bind_addr;
    make_udp_socket_raw_with_ipv4_domain; make_udp_socket_raw_with_ipv6_domain;
    make_server_udp_socket_ipv6; make_client_udp_socket_skips_probe_for_localhost;
    make_client_udp_socket_creates_connected_socket; make_client_udp_socket_ipv4_creates_ipv4_socket;
    make_client_udp_socket_ipv6_creates_ipv6_socket] = true.
Proof. vm_compute. reflexivity. Qed.
