(* ===== verification/DnsTests.v ===== *)
(** * Tests of the resolver

    The tests of [src/src/dns.rs].  A test with a server is a sequence of iterations of
    the actor's loop; the server's replies go through the receive loop of the query they
    answer.  Left out are the tests of what the model leaves to its environment: random
    transaction identifiers, the ports of the sockets, the pacing timer, and the end of the
    actor. *)

From S2P Require Import Prelude Net Packet Config Channel Metrics Routing AddrText Dns Testing.
#[local] Open Scope Z_scope.

(** ** Helpers *)

Abbreviation Snapshot := (gmap rstr (gset IpAddr)).

Definition hosts_of (hosts : list string) : gset rstr := list_to_set (lit <$> hosts).

Definition query (hostname : string) (record_type : RecordType) : DnsQuery :=
  {| q_hostname := lit hostname; q_type := record_type |}.

Definition test_dns_actor : DnsActor := dns_new DnsTuning_default.

Definition question_of (q : DnsQuery) : Question := {| qn_ascii := q_hostname q ++ lit "."; qn_type := q_type q |}.

Definition build_response (id : Z) (q : DnsQuery) (response_code : ResponseCode) (answers : list Answer) : Message :=
  {| m_id := id; m_code := response_code; m_truncation := false; m_queries := [question_of q]; m_answers := answers |}.

Definition build_truncated_response (id : Z) (q : DnsQuery) : Message :=
  {| m_id := id; m_code := NoError; m_truncation := true; m_queries := [question_of q]; m_answers := [] |}.

(** The iterations of the loop at time [now]: the snapshots the owner receives. *)
Fixpoint run_dns (now : Z) (inputs : list DnsInput) (a : DnsActor) : option (DnsActor * list Snapshot) :=
  match inputs with
  | [] => Some (a, [])
  | i :: inputs =>
      '(a, out) ← dns_step true now i a;
      '(a, outs) ← run_dns now inputs a;
      Some (a, option_list out ++ outs)
  end.

(** [txid] is the identifier of a query in flight. *)
Definition txid : Z := 4660.

(** A query is sent and the server replies with these messages: its task finishes if one
    of them is the answer. *)
Definition serve (q : DnsQuery) (replies : list Message) : list DnsInput :=
  InQueryTick q :: match exchange_recv txid q (RxMessage <$> replies) with Some r => [InJoined q r] | None => [] end.

Definition a_record (ttl : Z) (addr : string) : Answer := {| a_type := A; a_data := RA (ip_bits (ip addr)); a_ttl := ttl |}.

Definition ipv4_answers (q : DnsQuery) (ttl : Z) (addresses : list string) : list Answer :=
  if decide (q_type q = A) then a_record ttl <$> addresses else [].

(** [answer_initial_queries_with_ipv4], for the queries in this order. *)
Definition answer_initial_queries_with_ipv4 (order : list RecordType) (host : string) (addresses : list string) (ttl : Z) :
    list DnsInput :=
  order ≫= (fun t => let q := query host t in serve q [build_response txid q NoError (ipv4_answers q ttl addresses)]).

(** The two queries are sent in any order. *)
Definition any_order (test : list RecordType -> bool) : bool := test [A; AAAA] && test [AAAA; A].

Definition ips_of (host : string) (s : Snapshot) : gset IpAddr := default ∅ (s !! lit host).

(** [next_dns_snapshot_with_ips]. *)
Definition next_dns_snapshot_with_ips (host : string) (outs : list Snapshot) : option Snapshot :=
  head (filter (fun s => ips_of host s <> ∅) outs).

Definition contains (host addr : string) (s : Snapshot) : bool := bool_decide (ip addr ∈ ips_of host s).

Definition set_hosts (hosts : list string) : DnsInput := InSetHostnames (hosts_of hosts).

(** ** Snapshots *)

Definition emits_snapshot_for_new_ip : bool :=
  any_order (fun order =>
  expect (run_dns 0 (set_hosts ["example.com"] ::
    answer_initial_queries_with_ipv4 order "example.com" ["1.2.3.4"] 300) test_dns_actor) (fun '(_, outs) =>
  expect (next_dns_snapshot_with_ips "example.com" outs) (contains "example.com" "1.2.3.4"))).

Definition emits_snapshot_on_repeated_set_hostnames : bool :=
  any_order (fun order =>
  expect (run_dns 0 (set_hosts ["example.com"] ::
    answer_initial_queries_with_ipv4 order "example.com" ["1.2.3.4"] 300) test_dns_actor) (fun '(a, outs) =>
  expect (next_dns_snapshot_with_ips "example.com" outs) (fun _ =>
  expect (run_dns 1 [set_hosts ["example.com"]] a) (fun '(_, outs) =>
  expect (head outs) (contains "example.com" "1.2.3.4"))))).

Definition emits_snapshot_on_hostname_removal : bool :=
  any_order (fun order =>
  expect (run_dns 0 (set_hosts ["example.com"] ::
    answer_initial_queries_with_ipv4 order "example.com" ["1.2.3.4"] 3600) test_dns_actor) (fun '(a, outs) =>
  expect (next_dns_snapshot_with_ips "example.com" outs) (fun s =>
  contains "example.com" "1.2.3.4" s &&
  expect (run_dns 1 [set_hosts []] a) (fun '(_, outs) =>
  expect (head outs) (fun s => is_none (s !! lit "example.com")))))).

Definition ip_literal_emits_snapshot : bool :=
  expect (run_dns 0 [set_hosts ["192.168.1.100"]] test_dns_actor) (fun '(_, outs) =>
  expect (head outs) (contains "192.168.1.100" "192.168.1.100")).

Definition ipv6_literal_emits_snapshot : bool :=
  expect (run_dns 0 [set_hosts ["2001:db8::1"]] test_dns_actor) (fun '(_, outs) =>
  expect (head outs) (fun s => existsb (fun addr => negb (is_ipv4 addr)) (elements (ips_of "2001:db8::1" s)))).

Definition snapshot_contains_multiple_ips_for_same_hostname : bool :=
  any_order (fun order =>
  expect (run_dns 0 (set_hosts ["multi.example.com"] ::
    answer_initial_queries_with_ipv4 order "multi.example.com" ["10.0.0.1"; "10.0.0.2"] 120) test_dns_actor) (fun '(_, outs) =>
  expect (next_dns_snapshot_with_ips "multi.example.com" outs) (fun s =>
  contains "multi.example.com" "10.0.0.1" s && contains "multi.example.com" "10.0.0.2" s))).

(** ** Replies that are not the answer *)

Definition truncated_response_does_not_emit_snapshot : bool :=
  any_order (fun order =>
  expect (run_dns 0 [set_hosts ["truncated.example"]] test_dns_actor) (fun '(a, outs) =>
  expect (head outs) (fun s => bool_decide (ips_of "truncated.example" s = ∅)) &&
  expect (run_dns 1 (order ≫= (fun t => let q := query "truncated.example" t in serve q [build_truncated_response txid q])) a)
    (fun '(_, outs) => Nat.eqb (length outs) 0))).

Definition ignores_response_with_mismatched_txid : bool :=
  any_order (fun order =>
  let replies q := (fun '(reply_id, address) => build_response reply_id q NoError (ipv4_answers q 300 [address]))
    <$> [((txid + 1) mod 65536, "6.6.6.6"); (txid, "1.2.3.4")] in
  expect (run_dns 0 (set_hosts ["example.com"] ::
    (order ≫= (fun t => let q := query "example.com" t in serve q (replies q)))) test_dns_actor) (fun '(_, outs) =>
  expect (next_dns_snapshot_with_ips "example.com" outs) (fun s =>
  bool_decide (ips_of "example.com" s = {[ip "1.2.3.4"]})))).

(** ** Actor state *)

Definition normalize_dns_name_strips_trailing_dot : bool :=
  assert_eq (normalize_dns_name (lit "example.com.")) (lit "example.com") &&
  assert_eq (normalize_dns_name (lit "example.com")) (lit "example.com") &&
  assert_eq (normalize_dns_name (lit ".")) [].

Definition set_hostnames_cleans_state_but_keeps_in_flight_queries : bool :=
  let a := set_hostnames 0 (hosts_of ["example.com"]) test_dns_actor in
  let a := spawn_query (query "example.com" AAAA) (spawn_query (query "example.com" A) a) in
  let a := with_hostnames a (alter (fun e => {| ips := <[ip "1.2.3.4" := 0]> (ips e); next_refresh_at := next_refresh_at e |})
    (lit "example.com") (hostnames a)) (dirty a) in
  let a := with_queries a ({[query "example.com" A]} ∪ queued_queries a) (tasks a) (pending_queries a) in
  let a := set_hostnames 0 (hosts_of []) a in
  bool_decide (hostnames a = ∅) && bool_decide (queued_queries a = ∅) && assert_eq (size (pending_queries a)) 2%nat &&
  let a := trigger_refresh 0 (set_hostnames 0 (hosts_of ["example.com"]) a) in
  bool_decide (queued_queries a = ∅).

Definition trigger_refresh_deduplicates_queued_queries : bool :=
  let a := trigger_refresh 0 (set_hostnames 0 (hosts_of ["example.com"]) test_dns_actor) in
  let a := with_hostnames a (alter (fun e => {| ips := ips e; next_refresh_at := 1 |}) (lit "example.com") (hostnames a)) (dirty a) in
  bool_decide (queued_queries (trigger_refresh 1 a) = {[query "example.com" A; query "example.com" AAAA]}).

Definition trigger_refresh_skips_pending_queries : bool :=
  let a := spawn_query (query "example.com" A) (set_hostnames 0 (hosts_of ["example.com"]) test_dns_actor) in
  bool_decide (queued_queries (trigger_refresh 0 a) = {[query "example.com" AAAA]}).

Definition failed_query_is_requeued : bool :=
  let failed := query "example.com" A in
  let a := spawn_query failed (set_hostnames 0 (hosts_of ["example.com"]) test_dns_actor) in
  let a := handle_query_result 0 failed (Err (lit "refused")) a in
  bool_decide (pending_queries a = ∅) && bool_decide (queued_queries a = {[failed]}).

Definition result_for_unregistered_hostname_is_dropped : bool :=
  let removed := query "example.com" A in
  let a := spawn_query removed (set_hostnames 0 (hosts_of ["example.com"]) test_dns_actor) in
  let a := handle_query_result 0 removed (Err (lit "refused")) (set_hostnames 0 (hosts_of []) a) in
  bool_decide (pending_queries a = ∅) && bool_decide (queued_queries a = ∅).

Definition queued_queries_do_not_block_events : bool :=
  expect (run_dns 0 [set_hosts ["example.com"]; set_hosts []] test_dns_actor) (fun '(_, outs) =>
  assert_eq (length outs) 2%nat && expect (last outs) (fun s => is_none (s !! lit "example.com"))).

Definition repeated_set_hostnames_skips_recent_refresh : bool :=
  any_order (fun order =>
  expect (run_dns 0 (set_hosts ["example.com"] :: (InQueryTick ∘ query "example.com" <$> order)) test_dns_actor) (fun '(a, outs) =>
  assert_eq (length outs) 1%nat &&
  expect (run_dns 1 [set_hosts ["example.com"]] a) (fun '(a, outs) =>
  assert_eq (length outs) 1%nat && bool_decide (queued_queries a = ∅)))).

Lemma dns_tests :
  passed [emits_snapshot_for_new_ip; emits_snapshot_on_repeated_set_hostnames; emits_snapshot_on_hostname_removal;
    ip_literal_emits_snapshot; ipv6_literal_emits_snapshot; snapshot_contains_multiple_ips_for_same_hostname;
    truncated_response_does_not_emit_snapshot; ignores_response_with_mismatched_txid;
    normalize_dns_name_strips_trailing_dot; set_hostnames_cleans_state_but_keeps_in_flight_queries;
    trigger_refresh_deduplicates_queued_queries; trigger_refresh_skips_pending_queries; failed_query_is_requeued;
    result_for_unregistered_hostname_is_dropped; queued_queries_do_not_block_events;
    repeated_set_hostnames_skips_recent_refresh] = true.
Proof. vm_compute. reflexivity. Qed.
