(* ===== verification/UdpTests.v ===== *)
(** * Tests of the UDP actors

    The tests of [src/src/udp.rs].  A loopback socket delivers what is sent to it, and a
    receive gives one datagram. *)

From S2P Require Import Prelude Net Packet Config Channel Metrics Routing AddrText Udp Events UdpLoop Testing.
#[local] Open Scope Z_scope.

(** ** Sockets *)

(** A socket every send of which succeeds; offload is off in these tests. *)
#[local] Instance loopback : UdpSocket := {|
  usock := unit;
  max_gso_segments _ := 1%nat;
  attempts _ _ := ([Tried (Ok tt)], tt);
|}.

Definition no_text (e : IoError) : rstr := [].

Definition sender_addr : SocketAddr := sock "127.0.0.1" 40001.
Definition dest : SocketAddr := sock "127.0.0.1" 40002.

(** A datagram in the receive buffer of 1500 bytes. *)
Definition datagram (bs : list Z) : Received :=
  {| rx_result := Ok 1;
     rx_meta := {| meta_addr := sender_addr; meta_len := length bs; meta_stride := length bs |};
     rx_buf := bs ++ replicate (1500 - length bs) 0 |}.

Definition rx_wakeup (bs : list Z) (w : ListChannels.state (SocketAddr * list packet)) :
    outcome (BurstEnd * ListChannels.state (SocketAddr * list packet)) :=
  udp_rx_wakeup (M := ListChannels.lib) no_text 1%nat (Some (Ok tt)) [datagram bs] w.

(** The transmit actor with its senders, and the datagrams the receiver gets. *)
Definition tx_new (senders : bool) : UdpTx :=
  {| tx_queue := []; tx_open := true; tx_senders := senders; tx_sock := tt; tx_log := [] |}.

Definition wire (a : UdpTx) : list (SocketAddr * packet) :=
  tx_log a ≫= (fun t => (fun p => (destination t, p)) <$> segments t).

(** The actor sends one batch: what arrives at [dest]. *)
Definition sends (batch expected : list packet) : bool :=
  expect (tx_enqueue (dest, batch) (tx_new true)) (fun a =>
  runs (udp_tx_iter false no_text false a) (fun n =>
  match n with TxGo a => assert_eq (wire a) ((fun p => (dest, p)) <$> expected) | _ => false end)).

(** ** Receiving *)

Definition udp_rx_tags_source_address : bool :=
  runs (rx_wakeup [1; 2; 3] (with_closed [])) (fun '(_, w) =>
  expect (recv_first 1%nat w) (fun '(remote, batch) =>
  assert_eq remote sender_addr && assert_eq batch [[1; 2; 3]])).

Definition udp_rx_exits_when_output_closed : bool :=
  runs (rx_wakeup [1] (with_closed [1%nat])) (fun '(e, _) =>
  match e with RxReturn (Ok _) => true | _ => false end).

(** ** Transmitting *)

Definition udp_tx_sends_to_destination : bool := sends [[9; 8; 7]] [[9; 8; 7]].

Definition udp_tx_gso_batch : bool := sends [[1; 2]; [3; 4]; [5; 6]] [[1; 2]; [3; 4]; [5; 6]].

Definition udp_tx_mixed_size_batch : bool :=
  sends [[1; 2]; [3; 4]; [5; 6; 7]; [8; 9]] [[1; 2]; [3; 4]; [5; 6; 7]; [8; 9]].

Definition udp_tx_exits_when_input_closed : bool :=
  runs (udp_tx_iter false no_text false (tx_new false)) (fun n =>
  match n with TxReturn (Ok _) _ => true | _ => false end).

Definition udp_tx_drains_buffered_batch_when_stopped : bool :=
  expect (tx_enqueue (dest, [[9; 8; 7]]) (tx_new true)) (fun a =>
  runs (udp_tx_drain false no_text 3 true a) (fun r =>
  match r with Some (Ok _, a) => assert_eq (wire a) [(dest, [9; 8; 7])] | _ => false end)).

(** ** Errors *)

Definition io_error (kind : ErrorKind) : IoError := {| err_kind := kind; raw_os_error := None |}.

(** None of the named kinds is that of these error numbers. *)
Definition from_raw_os_error (code : Z) : IoError := {| err_kind := OtherKind; raw_os_error := Some code |}.

(** [PermissionDenied] and [BrokenPipe] are other kinds. *)
Definition destination_errors_are_non_fatal : bool :=
  forallb (fun kind => is_non_fatal_send_error (io_error kind) false)
    [ConnectionRefused; ConnectionReset; ConnectionAborted; HostUnreachable; NetworkUnreachable; NetworkDown;
     AddrNotAvailable; InvalidInput; TimedOut] &&
  negb (is_non_fatal_send_error (io_error OtherKind) false).

Definition raw_datagram_and_gso_errors_are_non_fatal : bool :=
  is_non_fatal_send_error (from_raw_os_error EMSGSIZE) false && is_non_fatal_send_error (from_raw_os_error ENOBUFS) false &&
  is_non_fatal_send_error (from_raw_os_error EIO) true && negb (is_non_fatal_send_error (from_raw_os_error EIO) false).

Lemma udp_tests :
  passed [udp_rx_tags_source_address; udp_rx_exits_when_output_closed; udp_tx_sends_to_destination; udp_tx_gso_batch;
    udp_tx_mixed_size_batch; udp_tx_exits_when_input_closed; udp_tx_drains_buffered_batch_when_stopped;
    destination_errors_are_non_fatal; raw_datagram_and_gso_errors_are_non_fatal] = true.
Proof. vm_compute. reflexivity. Qed.
