(* ===== verification/BareTests.v ===== *)
(** * Tests of the BareUDP transport

    The tests of [src/src/bare.rs], on runs of the filter and of the transmit adapter.  A
    packet that is not forwarded is one the receiver does not find. *)

From S2P Require Import Prelude Net Packet Config Channel Metrics Routing AddrText Udp Events Route Bind Orch Bare Testing.
#[local] Open Scope Z_scope.

#[local] Existing Instances CidrNet.lib MapTrie.lib.

(** ** Helpers *)

Definition ingress : Sender := 1%nat.
Definition udp_tx : Sender := 2%nat.

Definition sources_of (addrs : list string) : gset IpAddr := list_to_set (ip <$> addrs).

Definition rx_run (accepted : list string) (ins : list BareRxInput) : option (BareRx (M := ListChannels.lib)) :=
  bare_rx_run (L := CidrNet.lib) (T := MapTrie.lib) (M := ListChannels.lib) ingress ins
    (bare_rx_start (M := ListChannels.lib) (sources_of accepted) (with_closed [])).

Definition tx_run (ins : list BareTxInput) : option (BareTx (M := ListChannels.lib)) :=
  bare_tx_run (M := ListChannels.lib) udp_tx (sock "10.0.0.1" 5353) (lit "test-peer") ins
    (bare_tx_start (M := ListChannels.lib) (with_closed [])).

Definition from (addr : string) (bs : list Z) : BareRxInput (L := CidrNet.lib) (T := MapTrie.lib) :=
  RxUdp (Some (sock addr 5353, [bs])).

(** ** Receiving *)

Definition bare_rx_filters_non_accepted_sources : bool :=
  expect (rx_run ["10.0.0.1"] [from "192.168.1.1" [1; 2; 3]]) (fun a => is_none (recv_first ingress (bare_world a))).

Definition bare_rx_forwards_accepted_sources : bool :=
  expect (rx_run ["10.0.0.1"] [from "10.0.0.1" [7; 8; 9]]) (fun a =>
  assert_eq (recv_first ingress (bare_world a)) (Some [[7; 8; 9]])).

Definition bare_rx_updates_accepted_sources : bool :=
  expect (rx_run [] [from "10.0.0.1" [1]]) (fun a => is_none (recv_first ingress (bare_world a))) &&
  expect (rx_run [] [from "10.0.0.1" [1]; RxMessage (Some (UpdateAcceptedSources (sources_of ["10.0.0.1"]))); from "10.0.0.1" [2]])
    (fun a => assert_eq (recv_first ingress (bare_world a)) (Some [[2]])).

Definition bare_rx_emits_metrics : bool :=
  expect (rx_run ["10.0.0.1"] [from "10.0.0.1" [1; 2; 3; 4]; RxTick true]) (fun a =>
  expect (head (bare_emitted a)) (fun m =>
  assert_eq (lab_source (m_labels m)) BareUdp && assert_eq (lab_direction (m_labels m)) Rx &&
  assert_eq (packets (succeeded (m_stats m))) 1 && assert_eq (bytes (succeeded (m_stats m))) 4)).

Definition bare_rx_exits_when_stopped : bool := is_none (rx_run [] [RxMessage (Some Stop)]).

(** ** Transmitting *)

Definition bare_tx_tags_and_forwards : bool :=
  expect (tx_run [TxBatch (Some [[9; 8; 7]])]) (fun a =>
  assert_eq (recv_first udp_tx (tx_world a)) (Some (sock "10.0.0.1" 5353, [[9; 8; 7]]))).

Definition bare_tx_emits_metrics : bool :=
  expect (tx_run [TxBatch (Some [[5; 4; 3; 2]]); TxTick true]) (fun a =>
  expect (head (tx_emitted a)) (fun m =>
  assert_eq (m_labels m) {| lab_source := BareUdp; lab_direction := Tx; lab_peer_id := Some (lit "test-peer");
                            lab_remote_addr := Some (sock "10.0.0.1" 5353) |} &&
  assert_eq (packets (succeeded (m_stats m))) 1 && assert_eq (bytes (succeeded (m_stats m))) 4)).

Definition bare_tx_exits_when_egress_closed : bool := is_none (tx_run [TxBatch None]).

Lemma bare_tests :
  Testing.passed [bare_rx_filters_non_accepted_sources; bare_rx_forwards_accepted_sources; bare_rx_updates_accepted_sources;
    bare_rx_emits_metrics; bare_rx_exits_when_stopped; bare_tx_tags_and_forwards; bare_tx_emits_metrics;
    bare_tx_exits_when_egress_closed] = true.
Proof. vm_compute. reflexivity. Qed.
