(* ===== verification/TunTests.v ===== *)
(** * Tests of the TUN actors

    The tests of [src/src/tun.rs]: address setup, the actors on the in-memory device, and
    the buffer wrapper. *)

From S2P Require Import Prelude Net Packet Config Channel Metrics Routing AddrText Udp Events Codec Tun MemoryTun Testing.
#[local] Open Scope Z_scope.

#[local] Existing Instances CidrNet.lib HeadBuf.lib.

(** [PooledBuf::extend] of the concrete buffers. *)
#[local] Instance head_append : BufAppend HeadBuf.lib := {|
  buf_append b d := {| HeadBuf.free := HeadBuf.free b; HeadBuf.data := HeadBuf.data b ++ d |};
|}.

#[local] Instance head_append_laws : BufAppendLaws head_append.
Proof. by split. Qed.

Definition no_text (e : IoError) : rstr := [].

Definition alloc_buf (data : list Z) (k : PooledBuf -> bool) : bool := runs (alloc_packet_buf max_datagram_size data) k.

Definition splits_addresses_and_preserves_prefix_length : bool :=
  let '(v4, v6) := split_addrs_by_version [net "192.168.1.0/24"; net "2001:db8::/64"] in
  match v4, v6 with
  | [a], [b] =>
      assert_eq (ipnet_addr a) (ip "192.168.1.0") && assert_eq (prefix_len a) 24 &&
      assert_eq (ipnet_addr b) (ip "2001:db8::") && assert_eq (prefix_len b) 64
  | _, _ => false
  end.

(** ** Reading *)

Abbreviation BufChannels := (@ListChannels.lib (list (@PooledBuf HeadBuf.lib))).

(** An injected packet, through [recv_batch] on the actor's own buffers. *)
Definition rx_inject (mtu : nat) (p : packet) (a : TunRxActor (M := BufChannels)) (k : TunRxActor (M := BufChannels) -> bool) : bool :=
  runs (memory_recv_batch (Some p) (rx_bufs a) [0%nat]) (fun '(r, bufs, sizes) =>
  runs (tun_rx_step (M := BufChannels) max_datagram_size no_text mtu 1 1%nat (TunRecv r bufs sizes) a) (fun n =>
  match n with TunGo a => k a | TunReturn _ => false end)).

Definition rx_start (mtu : nat) : TunRxActor (M := BufChannels) :=
  tun_rx_start (M := BufChannels) max_datagram_size mtu 1 (with_closed []).

Definition received_batch (a : TunRxActor (M := BufChannels)) : option (list (list Z)) :=
  (fun b : list (@PooledBuf HeadBuf.lib) => (buf_bytes <$> b : list (list Z))) <$> recv_first 1%nat (rx_world a).

Definition tun_rx_forwards_batch_to_router : bool :=
  let ipv4_packet := make_ipv4_packet (ip "192.0.2.1") in
  rx_inject 64 ipv4_packet (rx_start 64) (fun a =>
  assert_eq (received_batch a) (Some [ipv4_packet]) &&
  runs (tun_rx_step (M := BufChannels) max_datagram_size no_text 64 1 1%nat (TunRxTick true) a) (fun n =>
  match n with
  | TunGo a =>
      expect (head (rx_emitted a)) (fun m =>
      assert_eq (lab_source (m_labels m)) Metrics.Tun && assert_eq (lab_direction (m_labels m)) Rx &&
      assert_eq (batches (succeeded (m_stats m))) 1 && assert_eq (packets (succeeded (m_stats m))) 1 &&
      assert_eq (bytes (succeeded (m_stats m))) 20)
  | TunReturn _ => false
  end)).

Definition tun_rx_batch_fallback_dispatches_correctly : bool :=
  let ipv4_packet := make_ipv4_packet (ip "192.0.2.1") in
  rx_inject 64 ipv4_packet (rx_start 64) (fun a => assert_eq (received_batch a) (Some [ipv4_packet])).

(** ** Writing *)

Abbreviation PacketChannels := (@ListChannels.lib (list Z)).
Abbreviation MemDev := (@memory_device PacketChannels HeadBuf.lib).

Definition tx_actor (errors : list ErrorKind) : TunTxActor (D := MemDev) :=
  @Build_TunTxActor _ MemDev (memory_tun_with_errors (M := PacketChannels) errors 1%nat (with_closed []))
    (counters_new Metrics.Tun Tx) [].

(** The actor on a memory device, sending these batches, then a metrics tick. *)
Definition tx_tun (mtu : nat) (errors : list ErrorKind) (batches : list (list packet))
    (k : TunTxActor (D := MemDev) -> Metrics -> bool) : bool :=
  let step i a := tun_tx_step (K := MemTun.consts) (D := MemDev)
    max_datagram_size no_text mtu false i a in
  let go i ka a := runs (step i a) (fun n => match n with Some (TunGo a) => ka a | _ => false end) in
  let sends := fix sends bs ka a :=
    match bs with
    | [] => ka a
    | b :: bs => runs (mapM (alloc_packet_buf max_datagram_size) b) (fun b => go (TunBatch (Some b)) (sends bs ka) a)
    end in
  sends batches (go (TunTxTick true) (fun a => expect (head (tun_emitted a)) (k a))) (tx_actor errors).

Definition output (a : TunTxActor (D := MemDev)) : option (list Z) :=
  recv_first 1%nat (mem_world (tun_dev a)).

Definition tx_labels : Labels :=
  {| lab_source := Metrics.Tun; lab_direction := Tx; lab_peer_id := None; lab_remote_addr := None |}.

Definition tun_tx_drops_oversize_and_reports_metrics : bool :=
  tx_tun 4 [] [[[0; 1; 2; 3; 4; 5]]; [[9; 9; 9]]] (fun a m =>
  assert_eq (output a) (Some [9; 9; 9]) && assert_eq (m_labels m) tx_labels &&
  assert_eq (batches (succeeded (m_stats m))) 1 && assert_eq (packets (succeeded (m_stats m))) 1 &&
  assert_eq (bytes (succeeded (m_stats m))) 3 &&
  assert_eq (batches (dropped (m_stats m))) 1 && assert_eq (packets (dropped (m_stats m))) 1 &&
  assert_eq (bytes (dropped (m_stats m))) 6 &&
  let c := drop_reasons (m_stats m) Oversize in assert_eq (packets c) 1 && assert_eq (bytes c) 6).

Definition tun_tx_retries_interrupted_send : bool :=
  tx_tun 16 [Interrupted] [[[1; 2; 3]]] (fun a m =>
  assert_eq (output a) (Some [1; 2; 3]) && assert_eq (m_labels m) tx_labels &&
  assert_eq (batches (succeeded (m_stats m))) 1 && assert_eq (packets (succeeded (m_stats m))) 1 &&
  assert_eq (packets (dropped (m_stats m))) 0).

Definition tun_tx_actor_exits_when_sender_dropped : bool :=
  runs (tun_tx_step (K := MemTun.consts) (D := MemDev) max_datagram_size no_text 64 false
    (TunBatch None) (tx_actor []))
    (fun n => match n with Some (TunReturn (Ok _)) => true | _ => false end).

(** ** The memory device *)

Definition memory_tun_rx_recv_batch_returns_packet : bool :=
  runs (memory_recv_batch (Some [10; 20; 30]) [tun_alloc_uninit max_datagram_size 64] [0%nat]) (fun '(count, bufs, sizes) =>
  unwrap count (fun count => assert_eq count 1%nat) && assert_eq (sizes !! 0%nat) (Some 3%nat) &&
  expect (bufs !! 0%nat) (fun buf => assert_eq (take 3 (buf_bytes buf)) [10; 20; 30])).

Definition memory_tun_tx_send_batch_delivers_packet : bool :=
  alloc_buf [4; 5; 6] (fun buf =>
  let d := memory_tun (M := PacketChannels) 1%nat (with_closed []) in
  let '(r, d) := send_each (D := MemDev) [buf] d in
  expect r is_ok && assert_eq (recv_first 1%nat (mem_world d)) (Some [4; 5; 6])).

Definition memory_tun_rx_recv_batch_channel_closed : bool :=
  runs (memory_recv_batch None [tun_alloc_uninit max_datagram_size 64] [0%nat]) (fun '(r, _, _) => negb (is_ok r)).

(** ** Buffers *)

(** [add_prefix] with the whole headroom. *)
Definition has_headroom (b : PooledBuf) : bool := (add_prefix b (replicate HEADROOM 0)).1.

Definition tun_buf_into_pooled_truncates : bool :=
  let tun_buf := tun_alloc_uninit max_datagram_size 1400 in
  let tun_buf := buf_write tun_buf (copy_at 0 [1; 2; 3; 4] (buf_bytes tun_buf)) in
  runs (into_pooled tun_buf 4) (fun pooled => assert_eq (buf_bytes pooled) [1; 2; 3; 4]).

Definition tun_buf_new_has_headroom : bool :=
  runs (into_pooled (tun_alloc_uninit max_datagram_size 1400) 0) has_headroom.

Definition alloc_uninit_packet_buf_small_uses_datagram_pool : bool :=
  let buf := alloc_uninit_packet_buf max_datagram_size 1400 in
  assert_eq (length (buf_bytes buf)) (max_datagram_size - HEADROOM)%nat && has_headroom (truncate buf 0).

Definition alloc_uninit_packet_buf_large_uses_generic_pool : bool :=
  let buf := alloc_uninit_packet_buf max_datagram_size max_datagram_size in
  Nat.eqb (length (buf_bytes buf)) (MAX_PACKET_BUFFER_SIZE - HEADROOM) && has_headroom (truncate buf 0).

Definition alloc_packet_buf_small_has_correct_data_and_headroom : bool :=
  alloc_buf [1; 2; 3; 4; 5] (fun buf => assert_eq (buf_bytes buf) [1; 2; 3; 4; 5] && has_headroom buf).

Definition alloc_uninit_packet_buf_boundary : bool :=
  let boundary_len := (max_datagram_size - HEADROOM)%nat in
  Nat.eqb (length (buf_bytes (alloc_uninit_packet_buf max_datagram_size boundary_len))) boundary_len &&
  Nat.eqb (length (buf_bytes (alloc_uninit_packet_buf max_datagram_size (boundary_len + 1)))) (MAX_PACKET_BUFFER_SIZE - HEADROOM).

Definition tun_buf_from_wraps_unchanged : bool := alloc_buf [10; 20] (fun tun_buf => assert_eq (buf_bytes tun_buf) [10; 20]).

Definition tun_buf_as_mut_modifies_payload : bool :=
  alloc_buf [10; 20; 30] (fun tun_buf =>
  let tun_buf := buf_write tun_buf (<[0%nat := 99]> (buf_bytes tun_buf)) in
  assert_eq (buf_bytes tun_buf !! 0%nat) (Some 99)).

Definition tun_buf_expand_upgrades_buffer_on_threshold_crossing : bool :=
  let small_data := replicate max_datagram_size 171 in
  let extra := replicate 100 205 in
  alloc_buf small_data (fun tun_buf =>
  assert_eq (length (buf_bytes tun_buf)) max_datagram_size &&
  runs (buf_extend_from_slice max_datagram_size tun_buf extra) (fun tun_buf => assert_eq (buf_bytes tun_buf) (small_data ++ extra))).

Definition tun_buf_expand_no_upgrade_when_already_large : bool :=
  alloc_buf (replicate (max_datagram_size + 1) 171) (fun tun_buf =>
  runs (buf_extend_from_slice max_datagram_size tun_buf (replicate 50 205)) (fun tun_buf =>
  assert_eq (length (buf_bytes tun_buf)) (max_datagram_size + 1 + 50)%nat)).

Definition tun_buf_expand_no_upgrade_when_below_threshold : bool :=
  let small_data := replicate 100 171 in
  let extra := replicate 50 205 in
  alloc_buf small_data (fun tun_buf =>
  runs (buf_extend_from_slice max_datagram_size tun_buf extra) (fun tun_buf => assert_eq (buf_bytes tun_buf) (small_data ++ extra))).

Definition tun_buf_resize_triggers_upgrade : bool :=
  let small_data := replicate 500 171 in
  alloc_buf small_data (fun tun_buf =>
  runs (buf_resize max_datagram_size tun_buf (max_datagram_size + 100) 255) (fun tun_buf =>
  let result := buf_bytes tun_buf in
  assert_eq (length result) (max_datagram_size + 100)%nat && assert_eq (take 500 result) small_data &&
  forallb (Z.eqb 255) (drop 500 result))).

(** [prepend_hdr] on a fresh buffer. *)
Definition prepends (data : list Z) : bool :=
  alloc_buf data (fun tun_buf =>
  runs (prepend_hdr (K := MemTun.consts) max_datagram_size tun_buf) (fun tun_buf =>
  assert_eq (buf_bytes tun_buf) (replicate (VIRTIO_NET_HDR_LEN (TunConsts := MemTun.consts)) 0 ++ data))).

Definition tun_buf_prepend_hdr_zero_copy_with_headroom : bool := prepends [1; 2; 3; 4].

Definition tun_buf_prepend_hdr_fallback_without_headroom : bool := prepends [5; 6; 7].

Lemma tun_tests :
  passed [splits_addresses_and_preserves_prefix_length; tun_rx_forwards_batch_to_router;
    tun_rx_batch_fallback_dispatches_correctly; tun_tx_drops_oversize_and_reports_metrics; tun_tx_retries_interrupted_send;
    tun_tx_actor_exits_when_sender_dropped; memory_tun_rx_recv_batch_returns_packet; memory_tun_tx_send_batch_delivers_packet;
    memory_tun_rx_recv_batch_channel_closed; tun_buf_into_pooled_truncates; tun_buf_new_has_headroom;
    alloc_uninit_packet_buf_small_uses_datagram_pool; alloc_uninit_packet_buf_large_uses_generic_pool;
    alloc_packet_buf_small_has_correct_data_and_headroom; alloc_uninit_packet_buf_boundary; tun_buf_from_wraps_unchanged;
    tun_buf_as_mut_modifies_payload; tun_buf_expand_upgrades_buffer_on_threshold_crossing;
    tun_buf_expand_no_upgrade_when_already_large; tun_buf_expand_no_upgrade_when_below_threshold;
    tun_buf_resize_triggers_upgrade; tun_buf_prepend_hdr_zero_copy_with_headroom;
    tun_buf_prepend_hdr_fallback_without_headroom] = true.
Proof. vm_compute. reflexivity. Qed.
