(* ===== verification/ConfigTests.v ===== *)
(** * Tests of the configuration

    The tests of [src/src/config.rs] that do not go through YAML, whose parser is a crate:
    validation with its errors and its warnings, and the URIs that [SimpleUrl] parses. *)

From S2P Require Import Prelude Net Packet Config Channel Metrics Routing AddrText Uri Testing.
#[local] Open Scope Z_scope.

#[local] Existing Instances CidrNet.lib SimpleUrl.lib.

(** ** Configurations *)

Abbreviation config := (@Config CidrNet.lib).

Definition h3_endpoint : H3Endpoint := {| h3_host := lit "peer.example.com"; h3_port := 443; h3_path := lit "/path" |}.

Definition h3_peer (id token : string) (bindif sni : option string) : @Peer CidrNet.lib :=
  {| p_id := lit id;
     p_transport := TransportH3 {| ph3_token := lit token; ph3_endpoint := Some h3_endpoint; ph3_bindif := lit <$> bindif;
                                   ph3_sni := lit <$> sni |};
     p_tun := {| allowed_ips := [net "192.168.180.2/32"] |} |}.

Definition sample_local (h3 : LocalH3) (mtu : Z) : @Local CidrNet.lib :=
  {| l_table := true; l_dns := {| dns_server := sock "1.1.1.1" 53; dns_bindif := None |}; l_h3 := Some h3; l_bare := None;
     l_api := None; l_tun := {| ifname := lit "h3llo0"; addrs := [net "192.168.180.1/32"]; mtu := mtu |} |}.

Definition local_h3 (path cert key : string) : LocalH3 :=
  {| lh3_listen := {| h3_host := lit "[::]"; h3_port := 443; h3_path := lit path |}; lh3_cert := lit cert; lh3_key := lit key |}.

Definition config_of (peers : list (@Peer CidrNet.lib)) : config :=
  {| c_local := sample_local (local_h3 "/path" "./cert.pem" "./key.pem") 1291; c_tuning := Tuning_default; c_peers := peers |}.

Definition sample_h3_config : config := config_of [h3_peer "example-node-2" "example-node-2-token" None None].

(** The sample with one field changed. *)
Definition with_id (id : string) : config := config_of [h3_peer id "example-node-2-token" None None].
Definition with_token (token : string) : config := config_of [h3_peer "example-node-2" token None None].
Definition with_bindif (bindif : string) : config := config_of [h3_peer "example-node-2" "example-node-2-token" (Some bindif) None].
Definition with_sni (sni : string) : config := config_of [h3_peer "example-node-2" "example-node-2-token" None (Some sni)].

Definition with_allowed_ips (nets : list string) : config :=
  let p := h3_peer "example-node-2" "example-node-2-token" None None in
  config_of [{| p_id := p_id p; p_transport := p_transport p; p_tun := {| allowed_ips := net <$> nets |} |}].

Definition push_peer (c : config) (p : @Peer CidrNet.lib) : config :=
  {| c_local := c_local c; c_tuning := c_tuning c; c_peers := c_peers c ++ [p] |}.

Definition with_credentials (cert key : string) : config :=
  {| c_local := sample_local (local_h3 "/" cert key) 1291; c_tuning := Tuning_default; c_peers := c_peers sample_h3_config |}.

Definition with_tuning (t : Tuning) : config :=
  {| c_local := c_local sample_h3_config; c_tuning := t; c_peers := c_peers sample_h3_config |}.

Definition with_mtu (mtu : Z) (c : config) : config :=
  {| c_local := sample_local (local_h3 "/path" "./cert.pem" "./key.pem") mtu; c_tuning := c_tuning c; c_peers := c_peers c |}.

Definition with_bare_peer (c : config) : config :=
  {| c_local := c_local c; c_tuning := c_tuning c;
     c_peers := (fun p => {| p_id := p_id p;
       p_transport := TransportBare {| pbare_endpoint := {| udp_host := lit "peer.example.com"; udp_port := 6635 |}; pbare_bindif := None |};
       p_tun := p_tun p |}) <$> c_peers c |}.

(** Tunings with some fields changed. *)
Definition with_h3_tuning (h3 : H3Tuning) (t : Tuning) : Tuning :=
  {| reconcile_interval := reconcile_interval t; reconnect_backoff_min := reconnect_backoff_min t;
     reconnect_backoff_max := reconnect_backoff_max t; metrics_log_interval := metrics_log_interval t;
     t_io := t_io t; t_dns := t_dns t; t_h3 := h3 |}.

Definition with_cc (algo : rstr) (t : Tuning) : Tuning :=
  let h := t_h3 t in
  with_h3_tuning {| h3_handshake_timeout := h3_handshake_timeout h; h3_max_idle_timeout := h3_max_idle_timeout h;
    h3_keepalive_interval := h3_keepalive_interval h; h3_cc_algorithm := algo; h3_enable_pacing := h3_enable_pacing h;
    h3_insecure_skip_verify := h3_insecure_skip_verify h; h3_trusted_ca := h3_trusted_ca h |} t.

Definition with_h3_times (handshake idle keepalive : Z) (t : Tuning) : Tuning :=
  let h := t_h3 t in
  with_h3_tuning {| h3_handshake_timeout := handshake; h3_max_idle_timeout := idle; h3_keepalive_interval := keepalive;
    h3_cc_algorithm := h3_cc_algorithm h; h3_enable_pacing := h3_enable_pacing h;
    h3_insecure_skip_verify := h3_insecure_skip_verify h; h3_trusted_ca := h3_trusted_ca h |} t.

Definition with_intervals (reconcile backoff_min backoff_max metrics_log : Z) (t : Tuning) : Tuning :=
  {| reconcile_interval := reconcile; reconnect_backoff_min := backoff_min; reconnect_backoff_max := backoff_max;
     metrics_log_interval := metrics_log; t_io := t_io t; t_dns := t_dns t; t_h3 := t_h3 t |}.

Definition with_backoff (min max : Z) (t : Tuning) : Tuning :=
  with_intervals (reconcile_interval t) min max (metrics_log_interval t) t.

Definition with_dns (query_timeout refresh query : Z) (t : Tuning) : Tuning :=
  {| reconcile_interval := reconcile_interval t; reconnect_backoff_min := reconnect_backoff_min t;
     reconnect_backoff_max := reconnect_backoff_max t; metrics_log_interval := metrics_log_interval t; t_io := t_io t;
     t_dns := {| dns_query_timeout := query_timeout; dns_refresh_interval := refresh; dns_query_interval := query;
                 dns_min_ttl := dns_min_ttl (t_dns t) |};
     t_h3 := t_h3 t |}.

Definition with_push (push : Z) (t : Tuning) : Tuning :=
  let io := t_io t in
  {| reconcile_interval := reconcile_interval t; reconnect_backoff_min := reconnect_backoff_min t;
     reconnect_backoff_max := reconnect_backoff_max t; metrics_log_interval := metrics_log_interval t;
     t_io := {| packet_queue_depth := packet_queue_depth io; socket_buffer_size := socket_buffer_size io;
                tun_tx_queue_len := tun_tx_queue_len io; tun_enable_offload := tun_enable_offload io;
                udp_enable_offload := udp_enable_offload io; metrics_push_interval := push |};
     t_dns := t_dns t; t_h3 := t_h3 t |}.

Definition with_buffer_size (size : Z) (io : IoTuning) : IoTuning :=
  {| packet_queue_depth := packet_queue_depth io; socket_buffer_size := size; tun_tx_queue_len := tun_tx_queue_len io;
     tun_enable_offload := tun_enable_offload io; udp_enable_offload := udp_enable_offload io;
     metrics_push_interval := metrics_push_interval io |}.

(** Each duration of the tuning set to zero, with its name. *)
Definition zero_durations (t : Tuning) : list (string * Tuning) :=
  let '(r, bmin, bmax, ml) := (reconcile_interval t, reconnect_backoff_min t, reconnect_backoff_max t, metrics_log_interval t) in
  let '(qt, rf, qi) := (dns_query_timeout (t_dns t), dns_refresh_interval (t_dns t), dns_query_interval (t_dns t)) in
  let '(hs, idle, ka) := (h3_handshake_timeout (t_h3 t), h3_max_idle_timeout (t_h3 t), h3_keepalive_interval (t_h3 t)) in
  [("reconcile_interval", with_intervals 0 bmin bmax ml t); ("reconnect_backoff_min", with_intervals r 0 bmax ml t);
   ("reconnect_backoff_max", with_intervals r bmin 0 ml t); ("metrics_push_interval", with_push 0 t);
   ("metrics_log_interval", with_intervals r bmin bmax 0 t); ("dns_query_timeout", with_dns 0 rf qi t);
   ("dns_refresh_interval", with_dns qt 0 qi t); ("dns_query_interval", with_dns qt rf 0 t);
   ("h3_handshake_timeout", with_h3_times 0 idle ka t); ("h3_max_idle_timeout", with_h3_times hs 0 ka t);
   ("h3_keepalive_interval", with_h3_times hs idle 0 t)]%string.

(** ** Assertions *)

Definition accepts (c : config) : bool := is_ok (validate c).

(** One of the errors is as expected. *)
Definition rejects (c : config) (f : ValidationError -> bool) : bool := unwrap_err (validate c) (existsb f).

Definition ends_with (suffix : string) (s : rstr) : bool := bool_decide (is_Some (strip_suffix (lit suffix) s)).

#[local] Instance ConfigWarning_eq_dec : EqDecision ConfigWarning.
Proof. solve_decision. Defined.

Definition logs_mtu (c : config) : bool :=
  existsb (fun w => match w with MtuExceedsSafeMaximum _ => true | _ => false end) (validate_warnings c).

Definition logs_backoff (c : config) : bool :=
  existsb (fun w => match w with BackoffWithinHandshake _ _ => true | _ => false end) (validate_warnings c).

(** ** Peers and credentials *)

Definition validates_good_config : bool :=
  accepts (sample_h3_config).

Definition rejects_empty_peer_id : bool :=
  rejects (with_id "") (fun e => match e with FieldEmpty _ field => assert_eq field (lit "id") | _ => false end).

Definition accepts_short_peer_id : bool :=
  accepts (with_id "a").

Definition rejects_peer_id_with_leading_whitespace : bool :=
  rejects (with_id " peer1") (fun e => match e with FieldHasWhitespace _ field => assert_eq field (lit "id") | _ => false end).

Definition rejects_peer_id_with_trailing_whitespace : bool :=
  rejects (with_id "peer1 ") (fun e => match e with FieldHasWhitespace _ field => assert_eq field (lit "id") | _ => false end).

Definition rejects_h3_with_empty_credentials : bool :=
  rejects (with_credentials "" "") (fun e => match e with FieldEmpty _ field => assert_eq field (lit "cert") | _ => false end).

Definition rejects_h3_with_partial_credentials : bool :=
  rejects (with_credentials "./cert.pem" "") (fun e => match e with FieldEmpty _ field => assert_eq field (lit "key") | _ => false end).

Definition rejects_short_peer_token : bool :=
  rejects (with_token "short") (fun e => match e with PeerTokenTooShort _ => true | _ => false end).

Definition accepts_12_char_peer_token : bool :=
  accepts (with_token "123456789012").

Definition rejects_token_with_leading_whitespace : bool :=
  rejects (with_token " 123456789012") (fun e => match e with FieldHasWhitespace _ field => assert_eq field (lit "h3.token") | _ => false end).

Definition rejects_token_with_trailing_whitespace : bool :=
  rejects (with_token "123456789012 ") (fun e => match e with FieldHasWhitespace _ field => assert_eq field (lit "h3.token") | _ => false end).

Definition rejects_duplicate_peer_ids : bool :=
  rejects (push_peer sample_h3_config (h3_peer "example-node-2" "different-token-123" None None)) (fun e => match e with DuplicateValue _ field _ => assert_eq field (lit "id") | _ => false end).

Definition rejects_duplicate_peer_tokens : bool :=
  rejects (push_peer sample_h3_config (h3_peer "different-peer-id" "example-node-2-token" None None)) (fun e => match e with DuplicateValue _ field _ => assert_eq field (lit "h3.token") | _ => false end).

Definition rejects_empty_allowed_ips : bool :=
  rejects (with_allowed_ips []) (fun e => match e with FieldEmpty _ field => assert_eq field (lit "tun.allowed_ips") | _ => false end).

Definition accepts_peer_h3_with_bindif : bool :=
  accepts (with_bindif "eth0").

Definition accepts_peer_h3_with_sni : bool :=
  accepts (with_sni "custom-sni.example.com").

Definition accepts_peer_h3_without_sni : bool :=
  match c_peers sample_h3_config with
  | [{| p_transport := TransportH3 h3 |}] => is_none (ph3_sni h3)
  | _ => false
  end && accepts sample_h3_config.

Definition rejects_empty_sni : bool :=
  rejects (with_sni "") (fun e => match e with FieldEmpty _ field => assert_eq field (lit "h3.sni") | _ => false end).

Definition rejects_whitespace_only_sni : bool :=
  rejects (with_sni "   ") (fun e => match e with FieldEmpty _ field => assert_eq field (lit "h3.sni") | _ => false end).

Definition rejects_sni_with_leading_whitespace : bool :=
  rejects (with_sni " leading") (fun e => match e with FieldHasWhitespace _ field => assert_eq field (lit "h3.sni") | _ => false end).

Definition rejects_sni_with_trailing_whitespace : bool :=
  rejects (with_sni "trailing ") (fun e => match e with FieldHasWhitespace _ field => assert_eq field (lit "h3.sni") | _ => false end).

Definition rejects_bindif_with_leading_whitespace : bool :=
  rejects (with_bindif " eth0") (fun e => match e with FieldHasWhitespace _ field => assert_eq field (lit "h3.bindif") | _ => false end).

Definition rejects_bindif_with_trailing_whitespace : bool :=
  rejects (with_bindif "eth0 ") (fun e => match e with FieldHasWhitespace _ field => assert_eq field (lit "h3.bindif") | _ => false end).

Definition rejects_duplicate_allowed_ip_for_peer : bool :=
  rejects (with_allowed_ips ["192.168.180.2/32"; "192.168.180.2/32"]) (fun e => match e with DuplicateValue _ field _ => assert_eq field (lit "tun.allowed_ips") | _ => false end).

Lemma peer_config_tests :
  passed [validates_good_config; rejects_empty_peer_id; accepts_short_peer_id;
    rejects_peer_id_with_leading_whitespace; rejects_peer_id_with_trailing_whitespace; rejects_h3_with_empty_credentials;
    rejects_h3_with_partial_credentials; rejects_short_peer_token; accepts_12_char_peer_token;
    rejects_token_with_leading_whitespace; rejects_token_with_trailing_whitespace; rejects_duplicate_peer_ids;
    rejects_duplicate_peer_tokens; rejects_empty_allowed_ips; accepts_peer_h3_with_bindif;
    accepts_peer_h3_with_sni; accepts_peer_h3_without_sni; rejects_empty_sni;
    rejects_whitespace_only_sni; rejects_sni_with_leading_whitespace; rejects_sni_with_trailing_whitespace;
    rejects_bindif_with_leading_whitespace; rejects_bindif_with_trailing_whitespace; rejects_duplicate_allowed_ip_for_peer] = true.
Proof. vm_compute. reflexivity. Qed.

(** ** Tuning *)

Definition rejects_invalid_cc_algorithm : bool :=
  rejects (with_tuning (with_cc (lit "invalid") Tuning_default)) (fun e => match e with InvalidCcAlgorithm _ => true | _ => false end).

Definition accepts_all_valid_cc_algorithms : bool :=
  forallb (fun algo => accepts (with_tuning (with_cc (lit algo) Tuning_default))) ["reno"; "cubic"; "bbr"; "bbr2"; "none"].

Definition rejects_keepalive_equal_to_idle_timeout : bool :=
  rejects (with_tuning (with_h3_times (from_secs 5) (from_secs 60) (from_secs 60) Tuning_default)) (fun e => match e with FieldConflict _ => true | _ => false end).

Definition rejects_keepalive_greater_than_idle_timeout : bool :=
  rejects (with_tuning (with_h3_times (from_secs 5) (from_secs 60) (from_secs 120) Tuning_default)) (fun e => match e with FieldConflict _ => true | _ => false end).

Definition accepts_keepalive_less_than_idle_timeout : bool :=
  accepts (sample_h3_config).

Definition socket_buffer_bytes_conversion : bool :=
  assert_eq (socket_buffer_bytes IoTuning_default) (16 * 1024 * 1024) &&
  assert_eq (socket_buffer_bytes (with_buffer_size 0 IoTuning_default)) 0 &&
  assert_eq (socket_buffer_bytes (with_buffer_size 1 IoTuning_default)) (1024 * 1024).

Definition rejects_zero_duration_fields : bool :=
  forallb (fun '(field_name, t) => rejects (with_tuning t) (fun e =>
      match e with FieldMustBePositive field => ends_with field_name field | _ => false end))
    (zero_durations Tuning_default).

Definition rejects_backoff_min_exceeds_max : bool :=
  rejects (with_tuning (with_backoff (from_secs 120) (from_secs 60) Tuning_default)) (fun e => match e with FieldConflict _ => true | _ => false end).

Lemma tuning_config_tests :
  passed [rejects_invalid_cc_algorithm; accepts_all_valid_cc_algorithms; rejects_keepalive_equal_to_idle_timeout;
    rejects_keepalive_greater_than_idle_timeout; accepts_keepalive_less_than_idle_timeout; socket_buffer_bytes_conversion;
    rejects_zero_duration_fields; rejects_backoff_min_exceeds_max] = true.
Proof. vm_compute. reflexivity. Qed.

(** ** Warnings *)

Definition warns_mtu_exceeds_h3_ipv4_safe_max : bool :=
  let config := with_mtu 1414 sample_h3_config in
  accepts config && bool_decide (MtuExceedsSafeMaximum 1414 ∈ validate_warnings config).

Definition no_mtu_warning_at_boundary : bool :=
  let config := with_mtu 1413 sample_h3_config in
  accepts config && negb (logs_mtu config).

Definition no_mtu_warning_without_h3_peers : bool :=
  let config := with_bare_peer (with_mtu 1500 sample_h3_config) in
  accepts config && negb (logs_mtu config).

Definition warns_backoff_min_equals_handshake_timeout : bool :=
  let config := with_tuning (with_backoff (from_secs 5) (from_secs 60) (with_h3_times (from_secs 5) (from_secs 60) (from_secs 20) Tuning_default)) in
  accepts config && logs_backoff config.

Definition warns_backoff_min_less_than_handshake_timeout : bool :=
  let config := with_tuning (with_backoff (from_secs 2) (from_secs 60) (with_h3_times (from_secs 5) (from_secs 60) (from_secs 20) Tuning_default)) in
  accepts config && logs_backoff config.

Definition no_backoff_warning_when_min_longer : bool :=
  let config := with_tuning (with_backoff (from_secs 10) (from_secs 60) Tuning_default) in
  accepts config && negb (logs_backoff config).

Definition no_backoff_warning_without_h3_peers : bool :=
  let config := with_bare_peer (with_tuning (with_backoff (from_secs 1) (from_secs 60) (with_h3_times (from_secs 5) (from_secs 60) (from_secs 20) Tuning_default))) in
  accepts config && negb (logs_backoff config).

Definition emits_both_warnings_simultaneously : bool :=
  let config := with_mtu 1500 (with_tuning (with_backoff (from_secs 2) (from_secs 60) (with_h3_times (from_secs 5) (from_secs 60) (from_secs 20) Tuning_default))) in
  accepts config && logs_mtu config && logs_backoff config.

Lemma config_warning_tests :
  passed [warns_mtu_exceeds_h3_ipv4_safe_max; no_mtu_warning_at_boundary; no_mtu_warning_without_h3_peers;
    warns_backoff_min_equals_handshake_timeout; warns_backoff_min_less_than_handshake_timeout; no_backoff_warning_when_min_longer;
    no_backoff_warning_without_h3_peers; emits_both_warnings_simultaneously] = true.
Proof. vm_compute. reflexivity. Qed.

(** The defaults themselves are reported: with an HTTP/3 peer, [reconnect_backoff_min] is
    not greater than [h3_handshake_timeout]. *)
Lemma defaults_warn : logs_backoff sample_h3_config = true.
Proof. by vm_compute. Qed.

(** ** URIs *)

Definition parse_udp_uri_accepts_hostname : bool :=
  unwrap (parse_udp_uri (lit "udp://example.com:6635")) (fun ep => assert_eq ep {| udp_host := lit "example.com"; udp_port := 6635 |}).

Definition parse_h3_uri_accepts_full_uri : bool :=
  unwrap (parse_h3_uri (lit "https://example.com:8443/path")) (fun ep => assert_eq ep {| h3_host := lit "example.com"; h3_port := 8443; h3_path := lit "/path" |}).

Definition parse_h3_uri_defaults_port_443 : bool :=
  unwrap (parse_h3_uri (lit "https://example.com/path")) (fun ep => assert_eq (h3_port ep) 443).

Definition parse_h3_uri_rejects_http : bool :=
  unwrap_err (parse_h3_uri (lit "http://example.com/path")) (str_contains (lit "https")).

Definition parse_h3_uri_rejects_invalid_uri : bool :=
  unwrap_err (parse_h3_uri (lit "not-a-valid-uri")) (fun _ => true).

Definition parse_h3_uri_accepts_root_path : bool :=
  unwrap (parse_h3_uri (lit "https://example.com/")) (fun ep => assert_eq (h3_path ep) (lit "/")).

Definition parse_api_uri_accepts_full_uri : bool :=
  unwrap (parse_api_uri (lit "http://127.0.0.1:9090/admin")) (fun ep => assert_eq ep {| api_host := lit "127.0.0.1"; api_port := 9090; api_path := lit "/admin" |}).

Definition parse_api_uri_defaults_port_9090 : bool :=
  unwrap (parse_api_uri (lit "http://localhost/")) (fun ep => assert_eq (api_host ep) (lit "localhost") && assert_eq (api_port ep) 9090).

Definition parse_api_uri_rejects_https : bool :=
  unwrap_err (parse_api_uri (lit "https://127.0.0.1:9090/")) (fun _ => true).

Lemma uri_tests :
  passed [parse_udp_uri_accepts_hostname; parse_h3_uri_accepts_full_uri; parse_h3_uri_defaults_port_443;
    parse_h3_uri_rejects_http; parse_h3_uri_rejects_invalid_uri; parse_h3_uri_accepts_root_path;
    parse_api_uri_accepts_full_uri; parse_api_uri_defaults_port_9090; parse_api_uri_rejects_https] = true.
Proof. vm_compute. reflexivity. Qed.
