(* ===== verification/OrchTests.v ===== *)
(** * Tests of the orchestrator

    The tests of [src/src/orch.rs], on the handlers of [Orch].  A channel whose receiver
    was dropped is one [closed] holds of, and the events a child actor received are the
    outputs for it.  Left out are the tests that measure how long a handler takes and the
    one of the metrics text. *)

From stdpp Require Import countable.
From S2P Require Import Prelude Net Packet Config Channel Metrics Routing AddrText Udp Events Route Orch Bind Dial Tun Start Testing.
#[local] Open Scope Z_scope.

#[local] Existing Instances CidrNet.lib MapTrie.lib.

(** ** Helpers *)

Abbreviation orch := (@Orchestrator CidrNet.lib).
Abbreviation entry := (@PeerEntry CidrNet.lib).
Abbreviation out := (@OrchOut CidrNet.lib MapTrie.lib).
Abbreviation event := (@Event CidrNet.lib MapTrie.lib).
Abbreviation peer := (@Peer CidrNet.lib).

Definition bare_peer_at_host (id hostname : string) (port : Z) (allowed : list string) : peer :=
  {| p_id := lit id;
     p_transport := TransportBare {| pbare_endpoint := {| udp_host := lit hostname; udp_port := port |}; pbare_bindif := None |};
     p_tun := {| allowed_ips := net <$> allowed |} |}.

Definition bare_peer (id : string) (allowed : list string) : peer := bare_peer_at_host id "127.0.0.1" 5353 allowed.

Definition h3_peer (id token : string) (allowed : list string) : peer :=
  {| p_id := lit id;
     p_transport := TransportH3 {| ph3_token := lit token; ph3_endpoint := None; ph3_bindif := None; ph3_sni := None |};
     p_tun := {| allowed_ips := net <$> allowed |} |}.

(** [TestableOrchestratorBuilder]. *)
Definition default_local (tun_addrs : list string) : @Local CidrNet.lib :=
  {| l_table := false; l_dns := {| dns_server := sock "1.1.1.1" 53; dns_bindif := None |}; l_h3 := None; l_bare := None;
     l_api := None; l_tun := {| ifname := lit "test0"; addrs := net <$> tun_addrs; mtu := 1393 |} |}.

Definition build_with (tun_addrs : list string) (peers : gmap rstr entry) : orch :=
  {| o_tun_if := lit "test0"; o_tun_mtu := default_mtu; o_tuning := Tuning_default; peers := peers; has_bare_rx := true;
     has_h3_listener := true; has_route := true; input_tx := 0%nat; o_local := default_local tun_addrs; non_peer_metrics := ∅ |}.

Definition build : gmap rstr entry -> orch := build_with ["192.168.180.1/32"].

Definition test_peers (ps : list peer) : gmap rstr entry := list_to_map ((fun p => (p_id p, entry_new p)) <$> ps).

Definition push_bound (endpoint : option Endpoint) (d : SocketAddr) (tx : Sender) (e : entry) : entry :=
  {| config := config e;
     bounds := bounds e ++ [{| ac_endpoint := endpoint; dest := d; ac_tx := tx; rx_metrics := None; tx_metrics := None |}];
     resolved_ips := resolved_ips e; dials := dials e |}.

Definition with_peer_tx (id : string) (d : SocketAddr) (tx : Sender) (ps : gmap rstr entry) : gmap rstr entry :=
  alter (fun e => push_bound (config_endpoint e) d tx e) (lit id) ps.

Definition set_resolved_ips (ips : list string) (e : entry) : entry :=
  {| config := config e; bounds := bounds e; resolved_ips := list_to_set (ip <$> ips); dials := dials e |}.

Definition with_resolved_ips (id : string) (ips : list string) (ps : gmap rstr entry) : gmap rstr entry :=
  alter (set_resolved_ips ips) (lit id) ps.

Definition insert_dial (addr : string) (s : DialState) (e : entry) : entry :=
  {| config := config e; bounds := bounds e; resolved_ips := resolved_ips e; dials := <[ip addr := s]> (dials e) |}.

(** Channels. *)
Definition tx1 : Sender := 1%nat.
Definition tx2 : Sender := 2%nat.
Definition open (tx : Sender) : bool := false.
Definition dropped_rx (dropped tx : Sender) : bool := bool_decide (tx = dropped).

Definition handle (ev : event) (o : orch) (k : orch -> list out -> bool) : bool :=
  runs (handle_event 0 open ev o) (fun '(r, o, outs) => is_ok r && k o outs).

Definition peer_entry (id : string) (o : orch) (k : entry -> bool) : bool := expect (peers o !! lit id) k.
Definition has_bounds (id : string) (o : orch) : bool := peer_entry id o (fun e => bool_decide (bounds e <> [])).

(** The first event a child actor received. *)
Definition first_of {A} (f : out -> option A) (outs : list out) : option A := head (omap f outs).
Definition router_event (outs : list out) : option event := first_of (fun o => match o with ToRouter e => Some e | _ => None end) outs.
Definition bare_rx_event (outs : list out) : option event := first_of (fun o => match o with ToBareRx e => Some e | _ => None end) outs.
Definition h3_listener_event (outs : list out) : option event :=
  first_of (fun o => match o with ToH3Listener e => Some e | _ => None end) outs.

Definition accepted_update (outs : list out) (k : gset IpAddr -> bool) : bool :=
  expect (bare_rx_event outs) (fun e => match e with UpdateAcceptedSources sources => k sources | _ => false end).

Definition token_update (outs : list out) (k : gmap rstr rstr -> bool) : bool :=
  expect (h3_listener_event outs) (fun e => match e with UpdatePeerTokens tokens => k tokens | _ => false end).

Definition reply (outs : list out) (k : @Reply CidrNet.lib -> bool) : bool :=
  expect (first_of (fun o => match o with SendReply _ r => Some r | _ => None end) outs) k.

Definition metrics_of (s : Source) (d : Direction) (peer_id : option string) (addr : option SocketAddr) (count : Z) : Metrics :=
  {| m_labels := {| lab_source := s; lab_direction := d; lab_peer_id := lit <$> peer_id; lab_remote_addr := addr |};
     m_stats := {| succeeded := {| batches := 0; packets := count; bytes := 0 |}; dropped := pkt_default;
                   drop_reasons := fun _ => pkt_default; congestion := congestion_default |} |}.

Definition make_metrics_event : event := MetricsEvent (metrics_of Metrics.Tun Rx None None 0).

Definition make_peer_metrics_event (id : string) (addr : SocketAddr) (d : Direction) (count : Z) : event :=
  MetricsEvent (metrics_of BareUdp d (Some id) (Some addr) count).

Definition make_dns_snapshot_event (state : list (string * list string)) : event :=
  Dns {| dns_state := list_to_map ((fun '(h, ips) => (lit h, list_to_set (ip <$> ips))) <$> state) |}.

(** ** Exits and helpers *)

Definition critical_actor_error_preserves_context : bool :=
  let exit := {| exit_name := lit "tun-rx"; exit_policy := Critical;
                 exit_result := Ok (Err [lit "receive packet batch from TUN interface"; lit "test error"]) |} in
  unwrap_err (handle_actor_exit (T := MapTrie.lib) 0 open exit (build ∅)).1.1 (fun error =>
  let message := join (lit ": ") error in
  str_contains (lit "critical actor `tun-rx` failed") message &&
  str_contains (lit "receive packet batch from TUN interface") message && str_contains (lit "test error") message).

Definition collect_allowed_ips_collects_valid_cidrs : bool :=
  let result := collect_allowed_ips [bare_peer "peer1" ["10.0.0.0/24"; "192.168.1.0/24"]; bare_peer "peer2" ["172.16.0.0/16"]] in
  assert_eq (length result) 3%nat &&
  forallb (fun n => bool_decide (net n ∈ result)) ["10.0.0.0/24"; "192.168.1.0/24"; "172.16.0.0/16"]%string.

Definition collect_allowed_ips_handles_empty_peers : bool := assert_eq (collect_allowed_ips ([] : list peer)) [].

Definition no_lookup (name : rstr) : result (list SocketAddr) rstr := Err (lit "no resolver").

Definition resolve_listen_addr_handles_ipv4_literal : bool :=
  unwrap (resolve_listen_addr no_lookup (lit "127.0.0.1") 5353) (fun a => assert_eq a (sock "127.0.0.1" 5353)).

Definition resolve_listen_addr_handles_ipv6_literal : bool :=
  unwrap (resolve_listen_addr no_lookup (lit "::1") 5353) (fun a => negb (is_ipv4 (sa_ip a)) && assert_eq (sa_port a) 5353).

Definition resolve_listen_addr_strips_ipv6_brackets : bool :=
  unwrap (resolve_listen_addr no_lookup (lit "[::1]") 443) (fun a => negb (is_ipv4 (sa_ip a)) && assert_eq (sa_port a) 443).

Definition collect_hostnames_deduplicates : bool :=
  let result := collect_hostnames [bare_peer_at_host "peer1" "shared.example.com" 5353 ["10.0.0.0/24"];
    bare_peer_at_host "peer2" "shared.example.com" 5354 ["172.16.0.0/16"]] in
  assert_eq (size result) 1%nat && bool_decide (lit "shared.example.com" ∈ result).

Definition collect_hostnames_skips_non_bare_peers : bool :=
  bool_decide (collect_hostnames [h3_peer "h3only" "test-token-12chars" []] = ∅).

Definition collect_hostnames_includes_ip_literals : bool :=
  bool_decide (lit "127.0.0.1" ∈ collect_hostnames [bare_peer "peer1" ["10.0.0.0/24"]]).

(** ** Metrics *)

Definition handle_event_processes_metrics_without_state_change : bool :=
  let o := build (with_peer_tx "peer1" (sock "127.0.0.1" 5353) tx1 (test_peers [bare_peer "peer1" ["10.0.0.0/24"]])) in
  handle make_metrics_event o (fun o outs =>
  assert_eq (size (peers o)) 1%nat && has_bounds "peer1" o && is_none (router_event outs) && is_none (bare_rx_event outs)).

Definition handle_metrics_event_stores_snapshot : bool :=
  bool_decide (size (non_peer_metrics (build ∅)) = 0%nat) &&
  handle make_metrics_event (build ∅) (fun o _ => assert_eq (size (non_peer_metrics o)) 1%nat).

Definition handle_metrics_event_replaces_on_same_labels : bool :=
  handle make_metrics_event (build ∅) (fun o _ =>
  assert_eq (size (non_peer_metrics o)) 1%nat &&
  handle (MetricsEvent (metrics_of Metrics.Tun Rx None None 42)) o (fun o _ =>
  match map_to_list (non_peer_metrics o) with
  | [(_, stored)] => assert_eq (packets (succeeded (m_stats stored))) 42
  | _ => false
  end)).

(** A peer at example.com with one bound. *)
Definition connected_peer : orch :=
  build (with_resolved_ips "peer1" ["1.2.3.4"] (with_peer_tx "peer1" (sock "1.2.3.4" 5353) tx1
    (test_peers [bare_peer_at_host "peer1" "example.com" 5353 ["10.0.0.0/24"]]))).

Definition handle_metrics_stores_in_bound_state : bool :=
  let bound o k := peer_entry "peer1" o (fun e => expect (bounds e !! 0%nat) k) in
  let count (m : option Metrics) := packets ∘ succeeded ∘ m_stats <$> m in
  handle (make_peer_metrics_event "peer1" (sock "1.2.3.4" 5353) Tx 100) connected_peer (fun o _ =>
  bound o (fun b => assert_eq (count (tx_metrics b)) (Some 100) && is_none (rx_metrics b)) &&
  handle (make_peer_metrics_event "peer1" (sock "1.2.3.4" 5353) Rx 50) o (fun o _ =>
  bound o (fun b => assert_eq (count (rx_metrics b)) (Some 50)) && assert_eq (size (non_peer_metrics o)) 0%nat)).

Definition some_packets (count : Z) (s : gmap Labels Metrics) : bool :=
  existsb (fun lm => bool_decide (packets (succeeded (m_stats lm.2)) = count)) (map_to_list s).

Definition metrics_pruned_with_bound_state : bool :=
  handle (make_peer_metrics_event "peer1" (sock "1.2.3.4" 5353) Tx 100) connected_peer (fun o _ =>
  some_packets 100 (collect_metrics_snapshot o) &&
  let o := with_peers o (alter (fun e => (prune (dropped_rx tx1) e).1) (lit "peer1") (peers o)) in
  negb (some_packets 100 (collect_metrics_snapshot o))).

Definition collect_metrics_snapshot_combines_sources : bool :=
  handle make_metrics_event connected_peer (fun o _ =>
  handle (make_peer_metrics_event "peer1" (sock "1.2.3.4" 5353) Tx 200) o (fun o _ =>
  assert_eq (size (collect_metrics_snapshot o)) 2%nat)).

Definition handle_metrics_warns_unknown_peer : bool :=
  handle (make_peer_metrics_event "nonexistent" (sock "1.2.3.4" 5353) Tx 42) (build ∅) (fun o _ =>
  assert_eq (size (non_peer_metrics o)) 0%nat && assert_eq (size (collect_metrics_snapshot o)) 0%nat).

Lemma orch_metrics_tests :
  passed [critical_actor_error_preserves_context; collect_allowed_ips_collects_valid_cidrs; collect_allowed_ips_handles_empty_peers;
    resolve_listen_addr_handles_ipv4_literal; resolve_listen_addr_handles_ipv6_literal; resolve_listen_addr_strips_ipv6_brackets;
    collect_hostnames_deduplicates; collect_hostnames_skips_non_bare_peers; collect_hostnames_includes_ip_literals;
    handle_event_processes_metrics_without_state_change; handle_metrics_event_stores_snapshot;
    handle_metrics_event_replaces_on_same_labels; handle_metrics_stores_in_bound_state; metrics_pruned_with_bound_state;
    collect_metrics_snapshot_combines_sources; handle_metrics_warns_unknown_peer] = true.
Proof. vm_compute. reflexivity. Qed.

(** ** DNS snapshots *)

(** A snapshot for a host that no peer has. *)
Definition unmatched (host other : string) (k : orch -> bool) : bool :=
  handle (make_dns_snapshot_event [(other, ["1.2.3.4"%string])]) (build (test_peers [bare_peer_at_host "peer1" host 5353 ["10.0.0.0/24"]]))
    (fun o outs => k o && accepted_update outs (fun sources => bool_decide (sources = ∅)) && negb (is_none (router_event outs))).

Definition handle_dns_snapshot_ignores_unknown_host : bool :=
  unmatched "known.example.com" "unknown.example.com" (fun o => negb (has_bounds "peer1" o)).

Definition handle_dns_snapshot_ignores_non_matching_hostnames : bool :=
  unmatched "different.example.com" "other.example.com" (fun _ => true).

Definition handle_dns_snapshot_iterates_all_matching_peers : bool :=
  handle (make_dns_snapshot_event [("shared.example.com", ["1.2.3.4"%string])]%string)
    (build (test_peers [bare_peer_at_host "peer1" "shared.example.com" 5353 ["10.0.0.0/24"];
      bare_peer_at_host "peer2" "shared.example.com" 5354 ["172.16.0.0/16"]])) (fun _ _ => true).

Definition handle_dns_snapshot_removes_bound_on_ip_disappearance : bool :=
  has_bounds "peer1" connected_peer &&
  handle (make_dns_snapshot_event [("example.com", [])]%string) connected_peer (fun o _ => negb (has_bounds "peer1" o)).

Definition handle_dns_snapshot_respects_hostname_on_removal : bool :=
  let ps := test_peers [bare_peer_at_host "peer-a" "alpha.example.com" 5353 ["10.0.0.0/24"];
    bare_peer_at_host "peer-b" "beta.example.com" 5353 ["172.16.0.0/16"]] in
  let ps := with_resolved_ips "peer-a" ["1.2.3.4"] (with_peer_tx "peer-a" (sock "1.2.3.4" 5353) tx1 ps) in
  let ps := with_resolved_ips "peer-b" ["1.2.3.4"] (with_peer_tx "peer-b" (sock "1.2.3.4" 5353) tx2 ps) in
  has_bounds "peer-a" (build ps) && has_bounds "peer-b" (build ps) &&
  handle (make_dns_snapshot_event [("alpha.example.com", []); ("beta.example.com", ["1.2.3.4"])]%string) (build ps) (fun o _ =>
  negb (has_bounds "peer-a" o) && has_bounds "peer-b" o).

Definition handle_dns_snapshot_ignores_inbound_bound : bool :=
  let ps := alter (push_bound None (sock "1.2.3.4" 5353) tx1) (lit "peer1")
    (test_peers [bare_peer_at_host "peer1" "example.com" 5353 ["10.0.0.0/24"]]) in
  has_bounds "peer1" (build ps) &&
  handle (make_dns_snapshot_event [("example.com", [])]%string) (build ps) (fun o _ => has_bounds "peer1" o).

Definition handle_dns_snapshot_always_updates_accepted_sources : bool :=
  handle (make_dns_snapshot_event [("example.com", ["1.2.3.4"; "5.6.7.8"])]%string) connected_peer (fun _ outs =>
  accepted_update outs (fun ips => bool_decide (ip "1.2.3.4" ∈ ips) && bool_decide (ip "5.6.7.8" ∈ ips)) &&
  negb (is_none (router_event outs))).

(** ** Updates of the other actors *)

Definition update_accepted_sources_independent_of_routing : bool :=
  let outs := update_accepted_sources (T := MapTrie.lib) (build (with_resolved_ips "peer1" ["1.2.3.4"]
    (test_peers [bare_peer_at_host "peer1" "example.com" 5353 ["10.0.0.0/24"]]))) in
  accepted_update outs (fun ips => bool_decide (ips = {[ip "1.2.3.4"]})) && is_none (router_event outs).

Definition update_routing_independent_of_accepted_sources : bool :=
  let outs := update_routing (T := MapTrie.lib) (build (with_peer_tx "peer1" (sock "1.2.3.4" 5353) tx1
    (test_peers [bare_peer_at_host "peer1" "example.com" 5353 ["10.0.0.0/24"]]))) in
  negb (is_none (router_event outs)) && is_none (bare_rx_event outs).

Definition update_routing_includes_local_tun_routes : bool :=
  let outs := update_routing (T := MapTrie.lib) (build_with ["10.0.0.1/24"] (with_peer_tx "peer1" (sock "1.2.3.4" 5353) tx1
    (test_peers [bare_peer_at_host "peer1" "example.com" 5353 ["10.0.0.0/24"]]))) in
  expect (router_event outs) (fun e => match e with
  | UpdateRouting routing =>
      expect (routing_lookup routing (ip "10.0.0.1")) (fun r =>
        assert_eq (rm_peer_id r) LOCAL_PEER_ID && assert_eq (rm_prefix r) (net "10.0.0.1/32")) &&
      expect (routing_lookup routing (ip "10.0.0.2")) (fun r => assert_eq (rm_peer_id r) (lit "peer1"))
  | _ => false
  end).

(** ** Connections *)

Definition example_endpoint : Endpoint := Udp {| udp_host := lit "example.com"; udp_port := 5353 |}.

Definition connected_event (id : string) (addr : SocketAddr) (tx : Sender) : ConnectedEvent :=
  {| conn_peer_id := lit id; conn_remote_addr := addr; conn_tx := tx; conn_endpoint := Some example_endpoint |}.

Definition handle_connected_rejects_unknown_peer : bool :=
  let '(o, _) := handle_connected (T := MapTrie.lib) open (connected_event "unknown-peer" (sock "1.2.3.4" 5353) tx1) (build ∅) in
  is_none (peers o !! lit "unknown-peer").

Definition handle_connected_appends_second_bound : bool :=
  let ps := with_resolved_ips "peer1" ["1.2.3.4"; "5.6.7.8"] (peers connected_peer) in
  let '(o, _) := handle_connected (T := MapTrie.lib) open (connected_event "peer1" (sock "5.6.7.8" 5353) tx2) (build ps) in
  peer_entry "peer1" o (fun e =>
  assert_eq (length (bounds e)) 2%nat && expect (bounds e !! 0%nat) (fun b => assert_eq (dest b) (sock "1.2.3.4" 5353))).

Definition handle_connected_sets_bound_and_updates_routing : bool :=
  let ps := with_resolved_ips "peer1" ["1.2.3.4"] (test_peers [bare_peer_at_host "peer1" "example.com" 5353 ["10.0.0.0/24"]]) in
  let '(o, outs) := handle_connected (T := MapTrie.lib) open (connected_event "peer1" (sock "1.2.3.4" 5353) tx1) (build ps) in
  peer_entry "peer1" o (fun e => expect (head (bounds e)) (fun b =>
  assert_eq (dest b) (sock "1.2.3.4" 5353) && assert_eq (ac_endpoint b) (Some example_endpoint))) &&
  negb (is_none (router_event outs)).

Lemma orch_update_tests :
  passed [handle_dns_snapshot_ignores_unknown_host; handle_dns_snapshot_ignores_non_matching_hostnames;
    handle_dns_snapshot_iterates_all_matching_peers; handle_dns_snapshot_removes_bound_on_ip_disappearance;
    handle_dns_snapshot_respects_hostname_on_removal; handle_dns_snapshot_ignores_inbound_bound;
    handle_dns_snapshot_always_updates_accepted_sources; update_accepted_sources_independent_of_routing;
    update_routing_independent_of_accepted_sources; update_routing_includes_local_tun_routes;
    handle_connected_rejects_unknown_peer; handle_connected_appends_second_bound;
    handle_connected_sets_bound_and_updates_routing] = true.
Proof. vm_compute. reflexivity. Qed.

(** ** Pruning and dialling *)

Definition example_entry (ips : list string) : entry :=
  set_resolved_ips ips (entry_new (bare_peer_at_host "peer1" "example.com" 5353 ["10.0.0.0/24"])).

Definition bind_to (addr : string) (tx : Sender) (e : entry) : entry := push_bound (config_endpoint e) (sock addr 5353) tx e.

Definition prune_removes_closed_tx : bool :=
  let e := bind_to "1.2.3.4" tx1 (example_entry ["1.2.3.4"]) in
  let '(e', changed) := prune (dropped_rx tx1) e in
  bool_decide (length (bounds e) <> 0%nat) && assert_eq (length (bounds e')) 0%nat && changed.

Definition prune_removes_stale_dns_ip : bool :=
  let '(e, changed) := prune open (bind_to "1.2.3.4" tx1 (example_entry ["5.6.7.8"])) in
  assert_eq (length (bounds e)) 0%nat && changed.

Definition prune_returns_true_when_first_tx_changes : bool :=
  let '(e, changed) := prune (dropped_rx tx1) (bind_to "5.6.7.8" tx2 (bind_to "1.2.3.4" tx1 (example_entry ["1.2.3.4"; "5.6.7.8"]))) in
  changed && assert_eq (dest <$> bounds e) [sock "5.6.7.8" 5353].

Definition prune_detects_change_with_same_dest : bool :=
  let '(e, changed) := prune (dropped_rx tx1) (bind_to "1.2.3.4" tx2 (bind_to "1.2.3.4" tx1 (example_entry ["1.2.3.4"]))) in
  changed && assert_eq (length (bounds e)) 1%nat.

Definition prune_preserves_inbound_bounds : bool :=
  let '(e, changed) := prune open (push_bound None (sock "9.8.7.6" 12345) tx1 (example_entry [])) in
  negb changed && assert_eq (length (bounds e)) 1%nat.

Definition prune_cleans_up_stale_dial_state : bool :=
  let e := insert_dial "5.6.7.8" (new_in_flight 0) (insert_dial "1.2.3.4" (new_in_flight 0) (example_entry ["5.6.7.8"])) in
  let '(e, _) := prune open e in
  is_none (dials e !! ip "1.2.3.4") && negb (is_none (dials e !! ip "5.6.7.8")).

(** The dial state of the local address after [try_connect] at time [now]. *)
Definition connect_at (now : Z) (e : entry) (k : entry -> DialState -> bool) : bool :=
  let '(e, _) := try_connect now e in expect (dials e !! ip "127.0.0.1") (k e).

Definition try_connect_skips_in_flight : bool :=
  connect_at 0 (example_entry ["127.0.0.1"]) (fun e s =>
  in_flight s && connect_at 0 e (fun _ s' => assert_eq (attempt s') (attempt s))).

Definition try_connect_skips_backoff_not_elapsed : bool :=
  connect_at 0 (insert_dial "127.0.0.1" {| attempt := 1; next_allowed_at := from_secs 60; in_flight := false |}
    (example_entry ["127.0.0.1"])) (fun _ s => negb (in_flight s) && assert_eq (attempt s) 1).

Definition try_connect_allows_after_backoff_elapsed : bool :=
  connect_at (from_secs 1) (insert_dial "127.0.0.1" {| attempt := 2; next_allowed_at := 0; in_flight := false |}
    (example_entry ["127.0.0.1"])) (fun _ s => in_flight s).

Definition dial_state_exponential_backoff : bool :=
  let fail := record_failure 0 (from_secs 3) (from_secs 60) in
  let s1 := fail (new_in_flight 0) in
  let s2 := fail s1 in
  let s3 := fail s2 in
  negb (in_flight s1) && assert_eq (attempt s1) 1 && assert_eq (attempt s2) 2 && assert_eq (attempt s3) 3.

Definition dial_state_backoff_caps_at_max : bool :=
  let fail := record_failure 0 (from_secs 3) (from_secs 60) in
  let states := (fun n => Nat.iter n fail (new_in_flight 0)) <$> seq 1 10 in
  forallb (fun s => next_allowed_at s <=? from_secs 60 + from_millis 10) states &&
  let delay := next_allowed_at (Nat.iter 11 fail (new_in_flight 0)) in
  (from_secs 60 - from_millis 10 <=? delay) && (delay <=? from_secs 60 + from_millis 10).

(** The orchestrator with a dial of [1.2.3.4] in flight. *)
Definition dialling (ips : list string) : orch :=
  build {[lit "peer1" := insert_dial "1.2.3.4" (new_in_flight 0) (example_entry ips)]}.

Definition handle_dial_failed_updates_backoff : bool :=
  let o := handle_dial_failed 0 {| failed_peer_id := lit "peer1"; failed_ip := ip "1.2.3.4" |} (dialling []) in
  peer_entry "peer1" o (fun e => expect (dials e !! ip "1.2.3.4") (fun s =>
  negb (in_flight s) && assert_eq (attempt s) 1 && (0 <? next_allowed_at s))).

Definition handle_dial_failed_ignores_unknown_peer : bool :=
  let o := handle_dial_failed 0 {| failed_peer_id := lit "nonexistent"; failed_ip := ip "1.2.3.4" |} (build ∅) in
  assert_eq (size (peers o)) 0%nat.

Definition update_bound_clears_dial_state : bool :=
  let '(o, _) := update_bound (T := MapTrie.lib) open (lit "peer1") (Some example_endpoint) (sock "1.2.3.4" 5353) tx1 (dialling ["1.2.3.4"]) in
  peer_entry "peer1" o (fun e => is_none (dials e !! ip "1.2.3.4")).

Definition update_bound_preserves_dial_state_for_inbound : bool :=
  let '(o, _) := update_bound (T := MapTrie.lib) open (lit "peer1") None (sock "1.2.3.4" 5353) tx1 (dialling ["1.2.3.4"]) in
  peer_entry "peer1" o (fun e => negb (is_none (dials e !! ip "1.2.3.4"))).

Lemma orch_dial_tests :
  passed [prune_removes_closed_tx; prune_removes_stale_dns_ip; prune_returns_true_when_first_tx_changes;
    prune_detects_change_with_same_dest; prune_preserves_inbound_bounds; prune_cleans_up_stale_dial_state;
    try_connect_skips_in_flight; try_connect_skips_backoff_not_elapsed; try_connect_allows_after_backoff_elapsed;
    dial_state_exponential_backoff; dial_state_backoff_caps_at_max; handle_dial_failed_updates_backoff;
    handle_dial_failed_ignores_unknown_peer; update_bound_clears_dial_state;
    update_bound_preserves_dial_state_for_inbound] = true.
Proof. vm_compute. reflexivity. Qed.

(** ** Configuration requests *)

Definition ids (c : @Config CidrNet.lib) : list rstr := p_id <$> c_peers c.

(** The reply to a change that must succeed. *)
Definition changed (outs : list out) (k : @Config CidrNet.lib -> bool) : bool :=
  reply outs (fun r => match r with ReplyPeers (Ok c) => k c | _ => false end).

Definition api_get_config_returns_snapshot : bool :=
  handle (GetConfig 7%nat) (build (test_peers [h3_peer "peer-1" "test-token-12ch" ["10.0.0.0/24"]])) (fun _ outs =>
  reply outs (fun r => match r with
  | ReplyConfig c => assert_eq (ids c) [lit "peer-1"] && assert_eq (ifname (l_tun (c_local c))) (lit "test0")
  | _ => false
  end)).

Definition api_post_config_adds_peer : bool :=
  handle (PostConfig [h3_peer "new-peer" "test-token-12ch" ["10.0.1.0/24"]] 7%nat) (build ∅) (fun o outs =>
  changed outs (fun c => assert_eq (ids c) [lit "new-peer"]) &&
  assert_eq (size (peers o)) 1%nat && negb (is_none (peers o !! lit "new-peer"))).

Definition api_post_config_rejects_invalid_peer : bool :=
  handle (PostConfig [bare_peer "" ["10.0.0.0/24"]] 7%nat) (build ∅) (fun o outs =>
  reply outs (fun r => match r with ReplyPeers (Err _) => true | _ => false end) && assert_eq (size (peers o)) 0%nat).

Definition api_delete_config_removes_peer : bool :=
  handle (DeleteConfig [lit "peer-1"] 7%nat) (build (test_peers [h3_peer "peer-1" "test-token-12ch" ["10.0.0.0/24"]])) (fun o outs =>
  changed outs (fun c => assert_eq (ids c) []) && assert_eq (size (peers o)) 0%nat).

Definition api_delete_config_ignores_unknown_ids : bool :=
  handle (DeleteConfig [lit "nonexistent"] 7%nat) (build (test_peers [h3_peer "keeper" "test-token-12ch" ["10.0.0.0/24"]])) (fun _ outs =>
  changed outs (fun c => assert_eq (ids c) [lit "keeper"])).

Definition post (ps : list peer) (o : orch) (k : list out -> bool) : bool :=
  let '(r, _, outs) := handle_post_config (T := MapTrie.lib) ps o in is_ok r && k outs.

Definition api_post_config_sends_h3_token_update : bool :=
  post [h3_peer "h3-peer" "secure-token-12ch" ["10.0.1.0/24"]] (build ∅) (fun outs =>
  token_update outs (fun tokens =>
  assert_eq (size tokens) 1%nat && assert_eq (tokens !! lit "h3-peer") (Some (lit "secure-token-12ch")))).

Definition api_delete_config_sends_h3_token_update : bool :=
  let '(_, outs) := handle_delete_config (T := MapTrie.lib) [lit "h3-peer"]
    (build (test_peers [h3_peer "h3-peer" "secure-token-12ch" ["10.0.0.0/24"]])) in
  token_update outs (fun tokens => assert_eq (size tokens) 0%nat).

Definition api_delete_config_no_h3_update_when_unchanged : bool :=
  let '(_, outs) := handle_delete_config (T := MapTrie.lib) [lit "nonexistent"]
    (build (test_peers [h3_peer "keeper" "test-token-12ch1" ["10.0.0.0/24"]])) in
  is_none (h3_listener_event outs).

Definition api_post_config_h3_tokens_exclude_bare_peers : bool :=
  post [h3_peer "h3-peer" "h3-token-12chars1" ["10.0.1.0/24"]] (build (test_peers [bare_peer "bare-peer" ["10.0.2.0/24"]])) (fun outs =>
  token_update outs (fun tokens =>
  assert_eq (size tokens) 1%nat && negb (is_none (tokens !! lit "h3-peer")) && is_none (tokens !! lit "bare-peer"))).

Lemma orch_api_tests :
  passed [api_get_config_returns_snapshot; api_post_config_adds_peer; api_post_config_rejects_invalid_peer;
    api_delete_config_removes_peer; api_delete_config_ignores_unknown_ids; api_post_config_sends_h3_token_update;
    api_delete_config_sends_h3_token_update; api_delete_config_no_h3_update_when_unchanged;
    api_post_config_h3_tokens_exclude_bare_peers] = true.
Proof. vm_compute. reflexivity. Qed.
