(* ===== verification/ActorTests.v ===== *)
(** * Tests of the actor bus

    The tests of [src/src/actor.rs] on runs of the bus, in one order that its steps can
    take.  The tests of tokio's runtimes are left out. *)

From stdpp Require Import countable.
From S2P Require Import Prelude Net Packet Config Channel Metrics Routing AddrText Udp Events Actor Testing.
#[local] Open Scope Z_scope.

#[local] Existing Instances CidrNet.lib MapTrie.lib.

(** ** The bus *)

Abbreviation op := (@BusOp CidrNet.lib MapTrie.lib).
Abbreviation bus := (@Bus CidrNet.lib MapTrie.lib).
Abbreviation event := (@Event CidrNet.lib MapTrie.lib).

(** The exits the supervisor, the root actor, was told of. *)
Definition exits (b : bus) : list ActorExit :=
  omap (fun '(a, ev) => match ev with ActorExited e => if decide (a = 0%nat) then Some e else None | _ => None end) (delivered b).

Definition run_bus (root : string) (ops : list op) (k : bus -> bool) : bool := expect (bus_run ops (bus_new (lit root))) k.

(** An actor ends, its links are stopped and its owner is told. *)
Definition finish (a : ActorRef) (r : JoinResult) (links : nat) : list op :=
  [OpExit a r; OpClose a] ++ replicate links (OpStop a) ++ [OpReport a].

Definition failed (r : JoinResult) : bool := match r with Ok (Err _) => true | _ => false end.
Definition succeeded_exit (r : JoinResult) : bool := match r with Ok (Ok _) => true | _ => false end.

#[local] Instance SupervisionPolicy_eq_dec : EqDecision SupervisionPolicy.
Proof. solve_decision. Defined.

Definition spawn_policy_is_independent_of_error_value : bool :=
  run_bus "test-supervisor" ([OpSpawn 0%nat (lit "listener-udp-tx") Critical; OpDrive] ++ finish 1%nat (Ok (Err [lit "listener send failed"])) 0 ++
    [OpSpawn 0%nat (lit "peer-udp-tx") Restartable; OpDrive] ++ finish 2%nat (Ok (Err [lit "peer send failed"])) 0) (fun b =>
  match exits b with
  | [e1; e2] =>
      assert_eq (exit_name e1) (lit "listener-udp-tx") && assert_eq (exit_policy e1) Critical && failed (exit_result e1) &&
      assert_eq (exit_name e2) (lit "peer-udp-tx") && assert_eq (exit_policy e2) Restartable && failed (exit_result e2)
  | _ => false
  end).

(** A send is refused when nothing is delivered. *)
Definition send_refused (target : ActorRef) (ev : event) (b : bus) : bool :=
  Nat.eqb (length (delivered (bus_send target ev b))) (length (delivered b)).

Definition send_reports_closed_actor_inbox : bool :=
  run_bus "test-supervisor" ([OpSpawn 0%nat (lit "short-lived") Detached; OpDrive] ++ finish 1%nat (Ok (Ok tt)) 0) (send_refused 1%nat Stop).

(** An actor that waits for a stop ends when it has received one. *)
Definition stops (a : ActorRef) (b : bus) : bool :=
  expect (actors b !! a) (fun st => negb (is_none (wait_for_stop (a_inbox st)))).

Definition actor_exit_stops_linked_actor : bool :=
  run_bus "test-supervisor" ([OpSpawn 0%nat (lit "first") Detached; OpSpawn 0%nat (lit "second") Detached; OpLink 1%nat 2%nat; OpLink 2%nat 1%nat;
    OpDrive; OpDrive] ++ finish 1%nat (Ok (Err [lit "actor failed"])) 1) (fun b =>
  stops 2%nat b && expect (bus_run (finish 2%nat (Ok (Ok tt)) 1) b) (fun b =>
  match exits b with
  | [e1; e2] =>
      assert_eq (exit_name e1) (lit "first") && assert_eq (exit_name e2) (lit "second") &&
      failed (exit_result e1) && succeeded_exit (exit_result e2)
  | _ => false
  end)).

Definition linking_exited_actor_stops_live_actor : bool :=
  run_bus "test-supervisor" ([OpSpawn 0%nat (lit "exited") Detached; OpDrive] ++ finish 1%nat (Ok (Ok tt)) 0 ++
    [OpSpawn 0%nat (lit "live") Detached; OpDrive; OpLink 1%nat 2%nat; OpLink 2%nat 1%nat]) (fun b =>
  stops 2%nat b && expect (bus_run (finish 2%nat (Ok (Ok tt)) 1) b) (fun b =>
  expect (last (exits b)) (fun e => assert_eq (exit_name e) (lit "live") && succeeded_exit (exit_result e)))).

Definition nested_actor_exit_is_reported_to_root_owner : bool :=
  run_bus "test-owner" ([OpSpawn 0%nat (lit "parent") Detached; OpDrive; OpSpawn 1%nat (lit "child") Critical; OpDrive] ++
    finish 2%nat (Ok (Err [lit "child failed"])) 0) (fun b =>
  match exits b with
  | [e] => assert_eq (exit_name e) (lit "child") && assert_eq (exit_policy e) Critical && failed (exit_result e)
  | _ => false
  end).

Definition run_until_stopped_ignores_other_events_and_prioritizes_stop : bool :=
  let hosts : event := SetHostnames ∅ in
  assert_eq (run_until_stopped [hosts] (Some 42)) (Some (Some 42)) &&
  assert_eq (run_until_stopped [(Stop : event)] (Some 42)) (Some None).

Lemma actor_tests :
  passed [spawn_policy_is_independent_of_error_value; send_reports_closed_actor_inbox; actor_exit_stops_linked_actor;
    linking_exited_actor_stops_live_actor; nested_actor_exit_is_reported_to_root_owner;
    run_until_stopped_ignores_other_events_and_prioritizes_stop] = true.
Proof. vm_compute. reflexivity. Qed.
