(* ===== verification/ApiTests.v ===== *)
(** * Tests of the management API

    The tests of [src/src/api.rs] that go through the handlers: a request, the event the
    orchestrator finds in its mailbox, its reply and the response.  What serde_yaml makes
    of a body or of a configuration is part of the test; the tests of its parsing and of
    the metrics text are left out. *)

From stdpp Require Import countable.
From S2P Require Import Prelude Net Packet Config Channel Metrics Routing AddrText Udp Events Orch Api Testing.
#[local] Open Scope Z_scope.

#[local] Existing Instances CidrNet.lib MapTrie.lib.

(** ** Helpers *)

Abbreviation event := (@Event CidrNet.lib MapTrie.lib).
Abbreviation reply := (@Reply CidrNet.lib).

(** serde_yaml in a test: a text for a configuration that tells its interface and its
    peers, which is what the tests that parse a response look at, and what the body of the
    request decodes to. *)
Definition config_text (c : @Config CidrNet.lib) : rstr :=
  ifname (l_tun (c_local c)) ++ concat ((fun p => lit " " ++ p_id p) <$> c_peers c).

#[local] Instance test_yaml (posted : result (list Peer) rstr) (deleted : result (list rstr) rstr) : ApiLib CidrNet.lib := {|
  yaml_config c := Ok (config_text c);
  yaml_post _ := posted;
  yaml_delete _ := deleted;
  metrics_text _ := [];
|}.

Definition not_decoded {A} : result A rstr := Err (lit "not a payload").

Definition test_config : @Config CidrNet.lib :=
  {| c_local := {| l_table := false; l_dns := {| dns_server := sock "127.0.0.1" 53; dns_bindif := None |}; l_h3 := None; l_bare := None;
                   l_api := None; l_tun := {| ifname := lit "test0"; addrs := [net "10.0.0.1/24"]; mtu := 1400 |} |};
     c_tuning := Tuning_default; c_peers := [] |}.

Definition request (method : Method) (path : string) : Request := {| req_method := method; req_path := lit path; req_body := Ok [] |}.

(** The response to a request at the API below [api_path]; [mock] is the orchestrator, which
    answers an event, or drops the reply channel. *)
Definition responds (posted : result (list Peer) rstr) (deleted : result (list rstr) rstr) (api_path : string) (req : Request)
    (mock : event -> option (option reply)) (k : Response -> bool) : bool :=
  match handle_request (A := test_yaml posted deleted) (lit api_path) req with
  | Respond r => k r
  | SendAndAwait make_event answer => expect (mock (make_event 7%nat)) (fun r => k (answer r))
  end.

(** The requests without a body to decode. *)
Definition plain : string -> Request -> (event -> option (option reply)) -> (Response -> bool) -> bool :=
  responds not_decoded not_decoded.

(** A mock for [GetConfig], and one that expects nothing. *)
Definition on_get_config (r : option reply) (ev : event) : option (option reply) :=
  match ev with GetConfig _ => Some r | _ => None end.
Definition no_event (ev : event) : option (option reply) := None.

Definition has_status (st : Z) (r : Response) : bool := assert_eq (status r) st.
Definition says (text : string) (r : Response) : bool := str_contains (lit text) (resp_body r).

(** ** Requests *)

Definition get_config_returns_yaml : bool :=
  plain "" (request GET "/config") (on_get_config (Some (ReplyConfig test_config))) (fun r =>
  has_status OK r && assert_eq (content_type r) (Some (lit "application/yaml")) && assert_eq (resp_body r) (config_text test_config)).

Definition peer_1 : @Peer CidrNet.lib :=
  {| p_id := lit "peer-1";
     p_transport := TransportBare {| pbare_endpoint := {| udp_host := lit "1.2.3.4"; udp_port := 6635 |}; pbare_bindif := None |};
     p_tun := {| allowed_ips := [net "10.0.1.0/24"] |} |}.

Definition post_config_upserts_peers : bool :=
  responds (Ok [peer_1]) not_decoded "" (request POST "/config")
    (fun ev => match ev with
     | PostConfig [p] _ =>
         if decide (p_id p = lit "peer-1") then
           Some (Some (ReplyPeers (Ok {| c_local := c_local test_config; c_tuning := c_tuning test_config; c_peers := [p] |})))
         else None
     | _ => None
     end)
    (fun r => has_status OK r && assert_eq (resp_body r) (lit "test0 peer-1")).

Definition post_config_invalid_yaml_returns_400 : bool :=
  plain "" (request POST "/config") no_event (fun r => has_status BAD_REQUEST r && says "invalid YAML" r).

(** The text of the refusal is that of a validation error without details. *)
Definition post_config_orchestrator_rejects_returns_400 : bool :=
  responds (Ok []) not_decoded "" (request POST "/config")
    (fun ev => match ev with PostConfig _ _ => Some (Some (ReplyPeers (Err []))) | _ => None end)
    (fun r => has_status BAD_REQUEST r && says "validation failed" r).

Definition delete_config_removes_peers : bool :=
  responds not_decoded (Ok [lit "peer-1"]) "" (request DELETE "/config")
    (fun ev => match ev with
     | DeleteConfig peer_ids _ => if decide (peer_ids = [lit "peer-1"]) then Some (Some (ReplyPeers (Ok test_config))) else None
     | _ => None
     end)
    (fun r => has_status OK r && assert_eq (content_type r) (Some (lit "application/yaml"))).

(** ** Paths *)

Definition unknown_path_returns_404 : bool := plain "" (request GET "/nonexistent") no_event (has_status NOT_FOUND).

Definition unsupported_method_returns_404 : bool := plain "" (request OtherMethod "/config") no_event (has_status NOT_FOUND).

Definition api_path_prefix_strips_correctly : bool :=
  plain "/api/v1" (request GET "/api/v1/config") (on_get_config (Some (ReplyConfig test_config))) (has_status OK).

(** ** Errors *)

Definition get_config_orchestrator_unavailable_returns_500 : bool :=
  runs (serve (A := test_yaml not_decoded not_decoded) 0 (fun _ => false) [] 7%nat (request GET "/config") None) (fun '(r, _, _) =>
  has_status INTERNAL_SERVER_ERROR r && says "orchestrator unavailable" r).

Definition get_config_orchestrator_drops_reply_returns_500 : bool :=
  plain "" (request GET "/config") (on_get_config None) (fun r =>
  has_status INTERNAL_SERVER_ERROR r && says "orchestrator dropped reply" r).

Lemma api_tests :
  passed [get_config_returns_yaml; post_config_upserts_peers; post_config_invalid_yaml_returns_400;
    post_config_orchestrator_rejects_returns_400; delete_config_removes_peers; unknown_path_returns_404;
    unsupported_method_returns_404; api_path_prefix_strips_correctly; get_config_orchestrator_unavailable_returns_500;
    get_config_orchestrator_drops_reply_returns_500] = true.
Proof. vm_compute. reflexivity. Qed.
