(* ===== verification/H3Tests.v ===== *)
(** * Tests of the HTTP/3 transport and of the interop fixture

    The tests of [src/src/h3engine.rs], [src/src/h3dialer.rs], [src/src/h3listener.rs] and
    [src/src/test_support/tokio_quiche_h3.rs] that need no network, on a quiche that knows
    the congestion control algorithms of its documentation and finds no file.  The tests
    that run a client against a server over the loopback interface, and those of
    [DgramBuffer] alone, are left out. *)

From S2P Require Import Prelude Net Packet Config Channel Metrics Routing AddrText Codec Utf8 Auth Session Engine Handshake Bind Dial Dispatcher Tun Start Fixture FixtureLoop Testing.
#[local] Open Scope Z_scope.

#[local] Existing Instances CidrNet.lib PlainMac.lib HeadBuf.lib ListChannels.lib.

(** ** Helpers *)

(** The quiche of a test: an algorithm name is checked and no file exists. *)
Definition test_quic (t : list QuicOp) (op : QuicOp) : result unit rstr :=
  match op with
  | SetCcAlgorithmName name =>
      if decide (name ∈ lit <$> ["reno"; "cubic"; "bbr"; "bbr2"; "none"]%string) then Ok tt else Err (lit "CongestionControl")
  | LoadVerifyLocations _ | LoadCertChain _ | LoadPrivKey _ => Err (lit "TlsFail")
  | _ => Ok tt
  end.

(** [H3Tuning] and [Tuning] with some fields of the default replaced. *)
Definition h3_tuning_with (cc : string) (handshake_timeout : Z) (insecure : bool) (ca : option rstr) : H3Tuning :=
  let d := H3Tuning_default in
  {| h3_handshake_timeout := handshake_timeout; h3_max_idle_timeout := h3_max_idle_timeout d;
     h3_keepalive_interval := h3_keepalive_interval d; h3_cc_algorithm := lit cc; h3_enable_pacing := h3_enable_pacing d;
     h3_insecure_skip_verify := insecure; h3_trusted_ca := ca |}.

Definition tuning_with (h3 : H3Tuning) : Tuning :=
  let d := Tuning_default in
  {| reconcile_interval := reconcile_interval d; reconnect_backoff_min := reconnect_backoff_min d;
     reconnect_backoff_max := reconnect_backoff_max d; metrics_log_interval := metrics_log_interval d;
     t_io := t_io d; t_dns := t_dns d; t_h3 := h3 |}.

Definition has (text : string) (s : rstr) : bool := str_contains (lit text) s.
Definition headers (hs : list (string * string)) : list Header := (fun '(n, v) => (lit n, lit v)) <$> hs.
Definition tokens (ts : list (string * string)) : gmap rstr rstr := list_to_map ((fun '(id, token) => (lit id, lit token)) <$> ts).
Definition bearer_header (token : string) : Header := (lit "authorization", as_bytes (bearer_auth_header (lit token))).

(** ** The engine *)

Definition apply_transport_config_valid : bool := is_ok (apply_transport_config test_quic H3Tuning_default 1350 []).1.

Definition apply_transport_config_rejects_bad_cc : bool :=
  negb (is_ok (apply_transport_config test_quic (h3_tuning_with "invalid_algo" (from_secs 5) false None) 1350 []).1).

Definition test_meta : EngineMeta :=
  {| local_addr := sock "127.0.0.1" 5000; remote_addr := sock "10.0.0.1" 443; meta_peer_id := lit "peer-x"; max_udp_payload := 1400 |}.

Definition engine_meta_recv_info : bool :=
  let remote := sock "10.0.0.2" 9999 in
  let info := recv_info test_meta remote in
  assert_eq (from info) remote && assert_eq (to info) (local_addr test_meta).

Definition run_state_new_has_no_pending : bool :=
  is_none (pending_ingress run_state_new) && is_none (pending_send run_state_new).

Lemma engine_tests :
  passed [apply_transport_config_valid; apply_transport_config_rejects_bad_cc; engine_meta_recv_info;
    run_state_new_has_no_pending] = true.
Proof. vm_compute. reflexivity. Qed.

(** ** The dialer *)

Definition dial_error_display : bool :=
  has "5s" (display_dial_error (DialTimeout (from_secs 5))) &&
  has "socket" (display_dial_error (DialSocket (lit "bind failed"))) &&
  has "handshake" (display_dial_error (DialHandshake (lit "TLS error"))) &&
  has "rejected" (display_dial_error (DialRejected (lit "403"))).

Definition connect_failure_into_dial_error : bool :=
  match dial_error_from (Rejected (lit "403")), dial_error_from (ClosedStream (lit "stream closed")),
        dial_error_from (Poll (lit "poll failed")) with
  | DialRejected s1, DialHandshake s2, DialHandshake s3 =>
      assert_eq s1 (lit "403") && assert_eq s2 (lit "stream closed") && assert_eq s3 (lit "poll failed")
  | _, _, _ => false
  end.

Definition missing_ca : option rstr := Some (lit "/nonexistent/ca.pem").

Definition client_config (insecure : bool) (ca : option rstr) : result unit DialError :=
  (make_client_quiche_config test_quic (Ok tt) (tuning_with (h3_tuning_with "none" (from_secs 5) insecure ca)) 1350 []).1.

Definition make_client_config_bad_ca_path_errors : bool :=
  unwrap_err (client_config false missing_ca) (fun e => match e with DialHandshake msg => has "trusted CA" msg | _ => false end).

Definition make_client_config_insecure_ignores_ca : bool := is_ok (client_config true missing_ca).

Definition make_client_config_default_enables_verify_peer : bool :=
  is_ok (make_client_quiche_config test_quic (Ok tt) Tuning_default 1350 []).1.

Lemma dialer_tests :
  passed [dial_error_display; connect_failure_into_dial_error; make_client_config_bad_ca_path_errors;
    make_client_config_insecure_ignores_ca; make_client_config_default_enables_verify_peer] = true.
Proof. vm_compute. reflexivity. Qed.

(** ** The listener *)

Definition server_error_display : bool :=
  has "socket" (Start.server_error_display (ServerSocket (lit "bind failed"))) &&
  has "config" (Start.server_error_display (ServerConfig (lit "cert not found"))) &&
  has "watcher" (Start.server_error_display (ServerWatcher (lit "watch failed"))) &&
  has "accept" (Start.server_error_display (ServerAccept (lit "auth failed"))).

Definition validate_server_connect_headers_accepts_valid : bool :=
  is_ok (validate_server_connect_headers (headers
    [(":method", "CONNECT"); (":protocol", "connect-ip"); ("capsule-protocol", "?1"); ("authorization", "Bearer test-token")]%string)).

Definition validate_server_connect_headers_rejects_bad_method : bool :=
  negb (is_ok (validate_server_connect_headers (headers
    [(":method", "GET"); (":protocol", "connect-ip"); ("capsule-protocol", "?1")]%string))).

Definition validate_server_connect_headers_rejects_bad_protocol : bool :=
  negb (is_ok (validate_server_connect_headers (headers
    [(":method", "CONNECT"); (":protocol", "websocket"); ("capsule-protocol", "?1")]%string))).

Definition validate_server_auth_accepts_valid_token : bool :=
  unwrap (validate_server_auth (H := PlainMac.lib) tt (headers [("authorization", "Bearer my-secret-token")]%string)
    (tokens [("peer-1", "my-secret-token")]%string)) (fun peer => assert_eq peer (lit "peer-1")).

Definition validate_server_auth_rejects_wrong_token : bool :=
  negb (is_ok (validate_server_auth (H := PlainMac.lib) tt (headers [("authorization", "Bearer wrong-token")]%string)
    (tokens [("peer-1", "correct-token")]%string))).

Definition reload_ignores_read_only_access_events : bool :=
  negb (should_reload {| need_rescan := false; is_access := true |}).

Definition reload_accepts_mutating_events : bool := should_reload {| need_rescan := false; is_access := false |}.

(** The system of the test: the directory of the credentials cannot be watched and quiche
    finds no file. *)
Definition no_files : StartEnv :=
  let e := sample_env in
  {| se_bus_new := se_bus_new e; se_tun_task := se_tun_task e; se_tun_build := se_tun_build e; se_tun_add := se_tun_add e;
     se_tun_name := se_tun_name e; se_tun_mtu := se_tun_mtu e; se_lookup := se_lookup e; se_io_to_string := se_io_to_string e;
     se_bare_sys := se_bare_sys e; se_bare_registered := se_bare_registered e; se_h3_sys := se_h3_sys e;
     se_h3_local_addr := se_h3_local_addr e; se_absolute := se_absolute e; se_to_str := se_to_str e; se_watcher := se_watcher e;
     se_watch := fun _ => Err (lit "No path was found."); se_config_new := se_config_new e; se_quic := test_quic;
     se_h3_registered := se_h3_registered e; se_route := se_route e; se_api_bind := se_api_bind e; se_input_tx := se_input_tx e |}.

Definition make_h3_dispatcher_rejects_missing_cert : bool :=
  negb (is_ok (make_h3_dispatcher (I := ListIfs.names) (sock "127.0.0.1" 0) (lit "/nonexistent/cert.pem") (lit "/nonexistent/key.pem") 1400
    (t_io Tuning_default) H3Tuning_default no_files)).

Lemma listener_tests :
  passed [server_error_display; validate_server_connect_headers_accepts_valid; validate_server_connect_headers_rejects_bad_method;
    validate_server_connect_headers_rejects_bad_protocol; validate_server_auth_accepts_valid_token;
    validate_server_auth_rejects_wrong_token; reload_ignores_read_only_access_events; reload_accepts_mutating_events;
    make_h3_dispatcher_rejects_missing_cert] = true.
Proof. vm_compute. reflexivity. Qed.

(** ** The fixture *)

Definition extract_auth (hs : list Header) (ts : list (string * string)) : result rstr AuthError :=
  extract_and_validate_auth (H := PlainMac.lib) tt hs (tokens ts).

Definition extract_and_validate_auth_accepts_valid : bool :=
  unwrap (extract_auth [(lit ":method", lit "CONNECT"); bearer_header "token-for-peer1"] [("peer1", "token-for-peer1")]%string)
    (fun peer => assert_eq peer (lit "peer1")).

Definition extract_and_validate_auth_rejects_missing : bool :=
  negb (is_ok (extract_auth [(lit ":method", lit "CONNECT")] [("peer1", "token-for-peer1")]%string)).

Definition extract_and_validate_auth_rejects_wrong_token : bool :=
  negb (is_ok (extract_auth [bearer_header "wrong-token"] [("peer1", "correct-token")]%string)).

Definition alloc_buf (data : list Z) (k : PooledBuf -> bool) : bool := runs (alloc_packet_buf (B := HeadBuf.lib) max_datagram_size data) k.

Definition dgram_buffer_headroom_encode_prepends_context_id : bool :=
  let payload := lit "test payload" in
  alloc_buf payload (fun buf =>
  assert_eq (buf_bytes buf) payload &&
  let '(added, buf) := add_prefix buf [CONTEXT_ID_IP] in
  added && assert_eq (buf_bytes buf !! 0%nat) (Some 0) && assert_eq (drop 1 (buf_bytes buf)) payload).

Definition dgram_buffer_roundtrip_encode_decode : bool :=
  let original := lit "ip packet data" in
  alloc_buf original (fun buf =>
  let '(added, buf) := add_prefix buf [CONTEXT_ID_IP] in
  added && assert_eq (buf_bytes buf !! 0%nat) (Some CONTEXT_ID_IP) && assert_eq (buf_bytes (pop_front buf 1)) original).

(** Settings the code leaves as the library has them. *)
Definition library_settings : QuicSettings :=
  {| qs_enable_dgram := true; qs_handshake_timeout := None; qs_max_idle_timeout := None; qs_max_send_udp_payload_size := 1350;
     qs_max_recv_udp_payload_size := 1350; qs_cc_algorithm := lit "cubic"; qs_enable_pacing := true; qs_verify_peer := false |}.

Definition make_quic_settings_applies_handshake_timeout : bool :=
  let settings := make_quic_settings library_settings (tuning_with (h3_tuning_with "none" (from_secs 7) false None)) default_mtu in
  assert_eq (qs_handshake_timeout settings) (Some (from_secs 7)).

Definition connect_ip (hs : list (string * string)) : result unit rstr := validate_connect_ip_headers (headers hs).
Definition fails_with (text : string) (r : result unit rstr) : bool := unwrap_err r (fun e => assert_eq e (lit text)).

Definition validate_connect_ip_headers_accepts_valid : bool :=
  is_ok (connect_ip [(":method", "CONNECT"); (":protocol", "connect-ip"); ("capsule-protocol", "?1")]%string).

Definition validate_connect_ip_headers_rejects_wrong_method : bool :=
  fails_with "invalid :method, expected CONNECT"
    (connect_ip [(":method", "GET"); (":protocol", "connect-ip"); ("capsule-protocol", "?1")]%string).

Definition validate_connect_ip_headers_rejects_missing_protocol : bool :=
  fails_with "invalid :protocol, expected connect-ip" (connect_ip [(":method", "CONNECT"); ("capsule-protocol", "?1")]%string).

Definition validate_connect_ip_headers_rejects_wrong_capsule : bool :=
  fails_with "invalid capsule-protocol, expected ?1"
    (connect_ip [(":method", "CONNECT"); (":protocol", "connect-ip"); ("capsule-protocol", "?0")]%string).

Definition validate_connect_ip_headers_case_insensitive_capsule : bool :=
  is_ok (connect_ip [(":method", "CONNECT"); (":protocol", "connect-ip"); ("Capsule-Protocol", "?1")]%string).

Definition dial_error_displays_correctly : bool :=
  let handshake := fixture_dial_error_display (FxHandshake (lit "timeout")) in
  let socket := fixture_dial_error_display (FxSocket (lit "address in use")) in
  let timeout := fixture_dial_error_display (FxTimeout (from_secs 30)) in
  has "handshake" handshake && has "timeout" handshake && has "401" (fixture_dial_error_display (FxRejected 401)) &&
  has "socket" socket && has "address in use" socket && has "timed out" timeout && has "30" timeout.

Definition listener_error_displays_correctly : bool :=
  let bind := listener_error_display (ListenBind (lit "address in use")) in
  let tls := listener_error_display (ListenTls (lit "cert expired")) in
  has "bind" bind && has "address in use" bind && has "tls" tls && has "cert expired" tls.

Definition find_header_value_exact_match : bool :=
  let hs := headers [(":method", "CONNECT"); ("capsule-protocol", "?1")]%string in
  assert_eq (find_header_value hs ":method") (Some (lit "CONNECT")) && assert_eq (find_header_value hs "capsule-protocol") (Some (lit "?1")).

Definition find_header_value_case_insensitive : bool :=
  assert_eq (find_header_value (headers [("Capsule-Protocol", "?1")]%string) "capsule-protocol") (Some (lit "?1")).

Definition find_header_value_missing : bool :=
  assert_eq (find_header_value (headers [(":status", "200")]%string) "capsule-protocol") None.

Definition default_mtu_fits_ipv6_ethernet : bool := bool_decide (default_mtu + CONNECT_IP_OVERHEAD + 48 <= 1500).

(** The metrics a sender reports at the tick after one batch of packets of 100 bytes. *)
Definition tx_metrics (peer : string) (port : Z) (count : nat) (w : ListChannels.state OutboundFrame) (k : Metrics -> bool) : bool :=
  let tx := {| fxt_peer_id := lit peer; fxt_remote_addr := sock "127.0.0.1" port; fxt_datagram_tx := 1%nat; fxt_flow_id := 0;
               fxt_quic_cmd_send := 9%nat |} in
  runs (mapM (alloc_packet_buf (B := HeadBuf.lib) max_datagram_size) (replicate count (replicate 100 0))) (fun batch =>
  unwrap (h3_tx_start (M := ListChannels.lib) (lit peer) (Some 1%nat) w) (fun '(inner_tx, st) =>
  match h3_tx_step tx inner_tx (TxBatch (Some batch)) st with
  | TxGo st => match h3_tx_step tx inner_tx (TxTick true) st with
               | TxGo st => expect (head (tl_reported st)) k
               | TxReturn _ _ => false
               end
  | TxReturn _ _ => false
  end)).

Definition h3_tx_batch_counting_try_send : bool :=
  tx_metrics "batch-test" 1234 5 ListChannels.empty (fun m =>
  let s := m_stats m in
  assert_eq (packets (succeeded s)) 5 && assert_eq (batches (succeeded s)) 1 && assert_eq (queue_full_count (congestion s)) 0).

(** The channel is full whenever a packet comes. *)
Definition h3_tx_backpressure_splits_batch : bool :=
  tx_metrics "bp-peer" 5678 3 (with_busy [1%nat]) (fun m =>
  let s := m_stats m in
  assert_eq (packets (succeeded s)) 3 && bool_decide (1 < batches (succeeded s)) &&
  bool_decide (0 < queue_full_count (congestion s)) && bool_decide (0 < queue_full_duration (congestion s))).

Lemma fixture_tests :
  passed [extract_and_validate_auth_accepts_valid; extract_and_validate_auth_rejects_missing;
    extract_and_validate_auth_rejects_wrong_token; dgram_buffer_headroom_encode_prepends_context_id;
    dgram_buffer_roundtrip_encode_decode; make_quic_settings_applies_handshake_timeout;
    validate_connect_ip_headers_accepts_valid; validate_connect_ip_headers_rejects_wrong_method;
    validate_connect_ip_headers_rejects_missing_protocol; validate_connect_ip_headers_rejects_wrong_capsule;
    validate_connect_ip_headers_case_insensitive_capsule; dial_error_displays_correctly; listener_error_displays_correctly;
    find_header_value_exact_match; find_header_value_case_insensitive; find_header_value_missing; default_mtu_fits_ipv6_ethernet;
    h3_tx_batch_counting_try_send; h3_tx_backpressure_splits_batch] = true.
Proof. vm_compute. reflexivity. Qed.
